(* ===== verification/_CoqProject ===== *)
-Q . S2P
Prelude.v
Cycle.v
Floats.v
GoStrings.v
NetAddr.v
Decimal.v
DnsLib.v
BTree.v
DnsName.v
Base32.v
Bytes.v
Toy.v
CanonOrder.v
Node.v
Store.v
StoreSpec.v
StoreTouch.v
StoreIndex.v
StoreRing.v
Snapshot.v
Config.v
Findings.v
Keys.v
Sha512.v
Verify.v
Nsec.v
NsecChain.v
Zonemd.v
Hygiene.v
Pool.v
Full.v
Verdict.v
Incremental.v
Xfr.v
TestPrimary.v
Event.v
Runtime.v
Manager.v
Monitor.v
Refresh.v
Catalog.v
Notify.v
Chain.v
State.v
Webhooks.v
Check.v
Loaded.v
Zonegen.v
Mutate.v
Examples.v
Simulated.v
Signed.v
HashOrder.v
Denial.v
Denial3.v
Sealed.v
Api.v
Metrics.v
Logging.v
Commands.v
App.v
Counters.v
Sockets.v
Lifecycle.v
Loops.v
