(* ===== verification/Prelude.v ===== *)
(** * dnssec-auditor: a verification development (root file)

    The program monitors DNSSEC-signed zones. It probes the SOA serials of a
    zone's primaries, transfers the zone (AXFR or IXFR), keeps it in an
    indexed in-memory store, verifies signatures, denial of existence and the
    ZONEMD digest, and reports findings and a state per zone, through events,
    an HTTP API, metrics and webhooks. A generator of signed zones, with
    defects on demand, and a test primary that serves them belong to it.

    ** Parts and files

    Foundations, not about one source file:
    - [Prelude]: list, option and map lemmas, tactics; [Cycle]: successors in
      a cyclic order; [Floats]: how far the rounding of binary64 numbers can
      be off; [GoStrings], [Decimal], [Bytes]: Go strings, [fmt] of
      integers, binary data and base64;
    - [DnsLib]: the interface to github.com/miekg/dns (records as data, its
      functions as the class [DnsLib], what proofs assume of it as
      [DnsNameLaws], [DnsWireLaws] and [DnsTtlLaws]); [BTree]: the interface to
      github.com/tidwall/btree with its laws; [Toy]: instances of all of
      them that satisfy the laws, on which the witnesses run.

    Data (internal/dnsname, internal/zone):
    - [DnsName] (name.go), [Base32] and [CanonOrder] (nsec3.go): names,
      NSEC3 hash labels, the canonical order;
    - [Node] (rrset.go, node.go), [Store] (store.go): RRsets, nodes, the
      store with its NSEC3 and expiry indexes; one definition per method;
      [StoreSpec]: the store as a set of records and the refinement of every
      update to set operations; [StoreTouch]: what a changeset reports as
      touched; [StoreIndex], [StoreRing]: the two indexes; [Snapshot]: the
      file format.

    Verification (internal/dnssec):
    - [Findings] (findings.go), [Keys] (keys.go), [Sha512] (the two hash
      functions of the Go library), [Verify] (verify.go, one node), [Nsec]
      and [NsecChain] (nsec.go), [Zonemd] (zonemd.go), [Hygiene]
      (hygiene.go);
    - [Pool], [Full] (verify.go, the pool of goroutines and the driver),
      [Verdict] (what "valid" means), [Incremental] (incremental.go).

    Transfers and monitoring:
    - [Xfr] (internal/xfr/client.go), [TestPrimary]
      (internal/testprimary/server.go);
    - [Config] (internal/config), [Event] (internal/event/bus.go);
    - [Runtime] (internal/monitor/runtime.go), [Manager] (manager.go, the
      operations and the refresh as a machine), [Monitor] (all goroutines as
      a transition system), [Refresh] (one refresh from start to end).

    Around the monitor:
    - [Catalog] (internal/catalog, and the watcher of internal/app),
      [NetAddr] (addresses of the Go library) and [Notify]
      (internal/notify), [Chain] (internal/chain), [Webhooks]
      (internal/webhooks), [State] (internal/state), [Check]
      (internal/check);
    - [Api] (internal/api, internal/metrics/memory.go), [Metrics]
      (internal/metrics/metrics.go, updateZoneMetrics), [Counters] (all
      other operations on metrics), [Logging] (internal/logging),
      [Commands] (cmd);
    - [App] (internal/app), [Sockets] (the sockets of the NOTIFY listener
      and the test primary, and the loops that serve them), [Lifecycle]
      ([App.Run] from start to end), [Loops] (the loops of the monitor and
      of the chain check over all zones, as steps of [Monitor]).

    The zone generator (internal/zonegen, cmd/testprimary/examples.go):
    - [Zonegen] (generate.go, sign.go), [Mutate] (mutate.go), [Examples]
      (examples.go); [Simulated]: keys and signatures one can compute with,
      and the generator run against the auditor on them;
    - [Loaded] (what a store built from records holds), [Signed] (what the
      generator signs verifies), [Denial] and [Denial3] (the NSEC and NSEC3
      records it makes; [HashOrder]: labels are in the order of hashes),
      [Sealed] (the zones it makes are valid).

    ** How they interact

    A tick of the manager or a NOTIFY spawns a refresh ([Monitor.step]). The
    refresh ([Manager.refresh_step]) takes the zone's flag and a token of the
    semaphore, probes the primaries ([Xfr.ProbeSOA]), chooses a serial,
    transfers ([Xfr.AXFR], [Xfr.IXFR]), builds a store
    ([Store.FromAXFR]) or changes the zone's own ([Store.ApplyChanges]),
    verifies it ([Full.Full] or, on what the changes touched,
    [Incremental.Incremental]), and records state, findings and the time of
    the next refresh in the zone's runtime ([Runtime]). Between refreshes
    [Manager.sweep] ages signatures by the expiry index. The catalog watcher
    ([Catalog.watch]) adds and removes zones, the chain check
    ([Chain.Check]) adds findings, the handlers of the API read, and ask for
    refreshes ([Api.refreshZone]); all of them are steps of the monitor. The
    process starts with [App.boot], an initial state of that system. Events
    go to webhooks, snapshots and the clients of the event stream in the
    order of subscription. State is passed
    explicitly: a method with a receiver under a lock is a function from the
    value before to the value after; goroutines are steps of a relation on
    the shared state, with a schedule as the sequence of those that step.

    ** What the theorems show

    - Store: well-formedness is kept by every operation; updates are set
      insertion and deletion of packed records ([StoreSpec]); a changeset
      touches what it reports and nothing else ([StoreTouch]); the indexes
      answer exactly ([StoreIndex], [StoreRing]); a snapshot is read back as
      the records the store shows, which are its records unless one of TTL 0
      is in an RRset with another TTL ([snapshot_roundtrip]).
    - Verification: each check passes exactly when a property stated without
      iteration holds ([verifyRRSet_exact], [isAuthoritative_spec],
      [nsec_chain_exact], [nsec3_chain_exact], [zonemd_exact]); the pool's
      result does not depend on the schedule and is always reached
      ([Full_schedule], [Full_completes]); "valid" means that all checks
      hold ([Full_verdict]); an incremental pass agrees with a full one on
      the touched names, keeps the findings of the others and adds to them
      nothing but broken links and the hygiene of keys
      ([incremental_findings]).
    - Transfers: an AXFR from the test primary gives the records its store
      shows ([transfer_replicates]); a client that applies the answer to an
      incremental request agrees with the server on every record on which
      they agreed before the update ([ixfr_replicates]).
    - Monitor, for every interleaving: refreshes exclude each other per zone
      and are bounded in all ([refresh_exclusive]), states are consistent
      ([zone_states]), and refreshes end ([refreshes_end]); a refresh leaves
      the verdict of what it transferred ([refresh_outcome]); the next one is
      due within the limits, jitter and its rounding included
      ([schedule_bounds]).
    - Around it: a tick of the catalog watcher removes the zones a catalog has
      dropped, adds the members that are not monitored, and changes nothing
      else ([watch_follows]); NOTIFY messages start a refresh exactly when
      allowed, and not too often ([notify_requests], [notify_spacing]); the
      chain check is exact ([chain_exact]); files are replaced whole
      ([files_atomic]); a stop and a start keep findings, dates and the records
      of the last snapshot ([stop_start]), and
      start in an initial state ([boot_reachable]); [App.Run] leaves no
      socket behind on any path ([Run_leaves_nothing]); the loops over zones
      stay within the reachable states ([loops_reachable]); counters agree
      with the events ([refresh_counts]); queues of events are
      first-in first-out and bounded ([webhook_queue], [stream_in_order]);
      the exit codes of the one-shot check ([check_exit]); flags reach it
      unchanged ([check_receives]).
    - Generator against auditor: what [signZone] signs verifies
      ([signZone_passes]), and every zone [Generate] makes, with NSEC,
      NSEC3 or opt-out, is valid ([Generate_valid]): the theorem goes
      through names, hashes, packing, store, signatures and chains.
    - Configuration: what loads has no dangling references.
    - Behaviour that looks unintended is proved too: the expiry timer that an
      unchanged zone does not restart ([unchanged_goes_stale]), difference
      sequences of several steps ([ixfr_two_steps_misread]), empty changesets
      and removed NSEC3 records ([incremental_empty],
      [incremental_removed_nsec3]), 32-bit expirations
      ([expiration_wraps]), a member that moves between catalogs
      ([moved_member_lost]), catalogs whose names begin alike
      ([listCatalogs_misattributes]), the findings of other zones in the
      metrics ([update_shows]), metrics that nothing sets ([two_unused]), a
      save interval of zero ([persist_panics]), a jitter that is not a number
      ([schedule_nan]), names with escapes ([canonical_cmp_escape]),
      [--version] ([minus_serves]).

    ** Widths, bounds and fuel

    Serials, times in RRSIGs, TTLs and lengths are [Z] with the wrap-around
    of their Go type written out; dates are [Z] nanoseconds. Loops that
    climb towards the root carry the length of the name as fuel, which
    [Parent] strictly decreases; a pool of [w] workers over [n] nodes takes
    [n + w] steps; a refresh takes at most 12 regions, one more bound proved
    in [Monitor]; the history has at most 64 entries. A run that stops early
    gives [None], and the theorems that a result is reached are separate.

    ** Assumptions

    Code outside the repository is a parameter: the DNS library
    ([DnsLib.DnsLib]), the ordered map ([BTree]), keys and signatures
    ([Zonegen.Crypto]), the order of iteration over Go maps ([MapRange]),
    the network ([Xfr.Net]), the operating system ([State.Os],
    [Sockets.SocketOs]), the metrics
    registry ([Metrics.Prom]). A theorem that needs a law of theirs takes
    the class with that law as an argument, and has a witness at an instance
    that satisfies it: [DnsNameLaws] (names and labels), [DnsWireLaws]
    (unpacking undoes packing up to a normal form), [DnsTtlLaws] (the TTL of a
    record changes neither its normal form nor its length), [CryptoLaws] (generated
    keys parse; what a key signs it verifies), [PromLaws]. Times, random
    numbers and schedules are arguments.

    ** Not modelled

    YAML and JSON text (their values are); durations and round-trip times;
    HTTP and its sockets, deadlines of connections, and the layout of
    printed reports; the help texts of metrics and what histograms sum; the
    values of the pseudo-random generator. [Generate_valid] is about
    zones without a ZONEMD; the digests the generator makes are modelled,
    and checked on examples. *)

From Stdlib Require Export ZArith Lia.
From stdpp Require Export base tactics gmap fin_maps strings list sorting pretty.

Declare Scope auditor_scope.
Delimit Scope auditor_scope with auditor.

(** ** Results: Go's [(value, error)] pairs

    An error is represented by the text its [Error()] method returns, which
    is all the program ever uses of it. *)

Inductive result (A : Type) : Type :=
| Ok (a : A)
| Err (msg : string).
Arguments Ok {A} a.
Arguments Err {A} msg.

#[export] Instance result_ret : MRet result := @Ok.
#[export] Instance result_bind : MBind result := λ A B f r,
  match r with Ok a => f a | Err e => Err e end.
#[export] Instance result_fmap : FMap result := λ A B f r,
  match r with Ok a => Ok (f a) | Err e => Err e end.

(** [fmt.Errorf("... %w", err)]: rewrite the error text, keep the value. *)
Definition wrap_err {A} (f : string → string) (r : result A) : result A :=
  match r with Ok a => Ok a | Err e => Err (f e) end.

Definition is_ok {A} (r : result A) : bool :=
  match r with Ok _ => true | Err _ => false end.

Definition ok_or {A} (d : A) (r : result A) : A :=
  match r with Ok a => a | Err _ => d end.

(** Run an effect on every element in order, stop at the first error. *)
Fixpoint mapM_result {A B} (f : A → result B) (l : list A) : result (list B) :=
  match l with
  | [] => Ok []
  | x :: l => y ← f x; ys ← mapM_result f l; Ok (y :: ys)
  end.

Fixpoint foldM_result {A S} (f : S → A → result S) (s : S) (l : list A) : result S :=
  match l with
  | [] => Ok s
  | x :: l => s' ← f s x; foldM_result f s' l
  end.

#[export] Instance result_eq_dec {A} `{EqDecision A} : EqDecision (result A).
Proof. solve_decision. Defined.

(** ** Machine integers

    A Go [uintN] is a [Z] in [0, 2^N); operations that can leave the range
    are wrapped explicitly. [int] and [int64] are 64-bit two's complement. *)

Definition wrapN (w z : Z) : Z := z mod 2 ^ w.
Definition u8 : Z → Z := wrapN 8.
Definition u16 : Z → Z := wrapN 16.
Definition u32 : Z → Z := wrapN 32.
Definition u64 : Z → Z := wrapN 64.

(** [int32(x)] of a [uint32]: reinterpretation of the bits. *)
Definition i32 (z : Z) : Z :=
  let u := u32 z in if bool_decide (u < 2 ^ 31)%Z then u else (u - 2 ^ 32)%Z.

Definition in_u8 (z : Z) : Prop := (0 ≤ z < 2 ^ 8)%Z.
Definition in_u16 (z : Z) : Prop := (0 ≤ z < 2 ^ 16)%Z.
Definition in_u32 (z : Z) : Prop := (0 ≤ z < 2 ^ 32)%Z.
#[export] Instance in_u8_dec z : Decision (in_u8 z).
Proof. unfold in_u8. apply _. Defined.
#[export] Instance in_u16_dec z : Decision (in_u16 z).
Proof. unfold in_u16. apply _. Defined.
#[export] Instance in_u32_dec z : Decision (in_u32 z).
Proof. unfold in_u32. apply _. Defined.

Lemma wrapN_small w z : (0 ≤ z < 2 ^ w)%Z → wrapN w z = z.
Proof. apply Z.mod_small. Qed.

Lemma wrapN_range w z : (0 ≤ w)%Z → (0 ≤ wrapN w z < 2 ^ w)%Z.
Proof. intros. apply Z.mod_pos_bound. by apply Z.pow_pos_nonneg. Qed.

Lemma u32_small z : in_u32 z → u32 z = z.
Proof. apply wrapN_small. Qed.
Lemma u32_range z : in_u32 (u32 z).
Proof. by apply wrapN_range. Qed.
Lemma u16_small z : in_u16 z → u16 z = z.
Proof. apply wrapN_small. Qed.

(** [a < b] and friends as boolean tests of the code, on integers. *)
Notation "a <? b" := (Z.ltb a b) : auditor_scope.
Notation "a ≤? b" := (Z.leb a b) (at level 70) : auditor_scope.
Notation "a =? b" := (Z.eqb a b) : auditor_scope.

(** ** Time

    [time.Time] is the number of nanoseconds since the zero time
    (January 1, year 1, UTC), so that [IsZero] is equality with [0].
    [time.Duration] is a number of nanoseconds. *)

Abbreviation Time := Z (only parsing).
Abbreviation Duration := Z (only parsing).

Definition zeroTime : Time := 0%Z.
Definition IsZero (t : Time) : bool := bool_decide (t = zeroTime).
Definition Second : Duration := 1000000000%Z.
Definition Minute : Duration := (60 * Second)%Z.
Definition Hour : Duration := (60 * Minute)%Z.
(** Seconds from the zero time to the Unix epoch. *)
Definition unixEpochSeconds : Z := 62135596800%Z.
Definition Unix (t : Time) : Z := (t / Second - unixEpochSeconds)%Z.
Definition timeUnix (sec : Z) : Time := ((sec + unixEpochSeconds) * Second)%Z.

Lemma Unix_timeUnix s : Unix (timeUnix s) = s.
Proof.
  unfold Unix, timeUnix. rewrite Z.div_mul by done. lia.
Qed.

(** [uint32(d.Seconds())] of a duration: whole seconds, as the code keeps
    them (all the durations it converts are non-negative). *)
Definition seconds_u32 (d : Duration) : Z := u32 (d / Second).

(** ** Map iteration

    [range] over a Go map visits every entry exactly once, in an order the
    language leaves open. The models that iterate over a map take the order
    from this interface, so that their theorems hold for every order. *)

Class MapRange : Type := {
  range : ∀ {K : Type} `{Countable K} {V : Type}, gmap K V → list (K * V);
  range_perm : ∀ {K : Type} `{Countable K} {V : Type} (m : gmap K V), range m ≡ₚ map_to_list m
}.

(** One such order, for running the models. *)
Definition map_range_default : MapRange :=
  {| range := λ K _ _ V m, map_to_list m; range_perm := λ K _ _ V m, reflexivity _ |}.

(** And another, for theorems that compare two orders. *)
Definition map_range_rev : MapRange.
Proof.
  refine {| range := λ K _ _ V m, rev (map_to_list m); range_perm := λ K _ _ V m, _ |}.
  symmetry. apply Permutation_rev.
Defined.

Section map_range.
Context `{!MapRange} `{Countable K} {V : Type}.
Implicit Types m : gmap K V.

Lemma elem_of_range m k v : (k, v) ∈ range m ↔ m !! k = Some v.
Proof. rewrite range_perm. apply elem_of_map_to_list. Qed.

Lemma NoDup_range m : NoDup (range m).
Proof. rewrite range_perm. apply NoDup_map_to_list. Qed.

Lemma NoDup_fst_range m : NoDup (range m).*1.
Proof. rewrite range_perm. apply NoDup_fst_map_to_list. Qed.

Lemma elem_of_range_snd m v : v ∈ (range m).*2 ↔ ∃ k, m !! k = Some v.
Proof.
  rewrite list_elem_of_fmap. split.
  - intros ([k w] & -> & Hkv%elem_of_range). by exists k.
  - intros [k Hk%elem_of_range]. by exists (k, v).
Qed.

Lemma elem_of_range_fst m k : k ∈ (range m).*1 ↔ is_Some (m !! k).
Proof.
  rewrite list_elem_of_fmap. split.
  - intros ([k' w] & -> & Hkv%elem_of_range). by exists w.
  - intros [v Hk%elem_of_range]. by exists (k, v).
Qed.

Lemma length_range m : length (range m) = size m.
Proof. rewrite range_perm. apply length_map_to_list. Qed.
End map_range.

(** A map used as a set, [map[K]struct{}]. *)
Definition range_set `{!MapRange} {K} `{Countable K} (X : gset K) : list K := (range (gset_to_gmap tt X)).*1.

Lemma elem_of_range_set `{!MapRange} {K} `{Countable K} (X : gset K) x : x ∈ range_set X ↔ x ∈ X.
Proof.
  unfold range_set. rewrite elem_of_range_fst. unfold is_Some. setoid_rewrite lookup_gset_to_gmap_Some.
  split; [by intros (? & ? & _)|intros ?; by exists tt].
Qed.

Lemma NoDup_range_set `{!MapRange} {K} `{Countable K} (X : gset K) : NoDup (range_set X).
Proof. apply NoDup_fst_range. Qed.

(** ** [slices.SortFunc]

    Sorts by a three-way comparison. The algorithm of the Go library is not
    stable; elements the comparison calls equal may come in any order, which
    the theorems below never rely on. *)

Definition cmp_le {A} (cmp : A → A → Z) : relation A := λ a b, (cmp a b ≤ 0)%Z.
#[export] Instance cmp_le_dec {A} (cmp : A → A → Z) : RelDecision (cmp_le cmp).
Proof. intros a b. unfold cmp_le. apply _. Defined.

Definition SortFunc {A} (cmp : A → A → Z) (l : list A) : list A :=
  merge_sort (cmp_le cmp) l.

Lemma SortFunc_perm {A} (cmp : A → A → Z) l : SortFunc cmp l ≡ₚ l.
Proof. apply merge_sort_Permutation. Qed.

Lemma elem_of_SortFunc {A} (cmp : A → A → Z) l x : x ∈ SortFunc cmp l ↔ x ∈ l.
Proof. by rewrite SortFunc_perm. Qed.

(** What Go asks of a comparison: a strict weak order. *)
Class CmpOrder {A} (cmp : A → A → Z) : Prop := {
  cmp_sym : ∀ a b, Z.sgn (cmp a b) = (- Z.sgn (cmp b a))%Z;
  cmp_trans : ∀ a b c, (cmp a b ≤ 0 → cmp b c ≤ 0 → cmp a c ≤ 0)%Z
}.

Section cmp_order.
Context {A} (cmp : A → A → Z) `{!CmpOrder cmp}.

#[export] Instance cmp_le_total : Total (cmp_le cmp).
Proof. intros a b. unfold cmp_le. pose proof (cmp_sym a b). lia. Qed.
#[export] Instance cmp_le_trans : Transitive (cmp_le cmp).
Proof. intros a b c. apply cmp_trans. Qed.

Lemma SortFunc_sorted l : StronglySorted (cmp_le cmp) (SortFunc cmp l).
Proof. by apply StronglySorted_merge_sort; apply _. Qed.

(** If the comparison separates the elements, the order of the input does
    not matter. *)
Lemma SortFunc_unique l1 l2 :
  (∀ a b, a ∈ l1 → b ∈ l1 → cmp a b = 0%Z → a = b) →
  l1 ≡ₚ l2 → SortFunc cmp l1 = SortFunc cmp l2.
Proof.
  intros Hsep Hp.
  apply (StronglySorted_unique_strong (cmp_le cmp)).
  - intros x y Hx%elem_of_SortFunc Hy%elem_of_SortFunc Hxy Hyx.
    apply Hsep; [done|by rewrite Hp|]. unfold cmp_le in *.
    pose proof (cmp_sym x y). lia.
  - apply SortFunc_sorted.
  - apply SortFunc_sorted.
  - by rewrite !SortFunc_perm.
Qed.
End cmp_order.

(** Sorting commutes with a map that keeps the order. *)
Section sort_map.
Context {A B} (f : A → B) (R : relation A) (R' : relation B) `{!RelDecision R, !RelDecision R'}.
Hypothesis f_order : ∀ x y, R x y ↔ R' (f x) (f y).

Lemma list_merge_fmap l1 l2 : list_merge R' (f <$> l1) (f <$> l2) = f <$> list_merge R l1 l2.
Proof.
  revert l2. induction l1 as [|x1 l1 IH1]; intros l2; [by destruct l2|].
  induction l2 as [|x2 l2 IH2]; [done|].
  rewrite !fmap_cons. cbn [list_merge].
  destruct (decide (R x1 x2)) as [H|H], (decide (R' (f x1) (f x2))) as [H'|H'].
  - rewrite fmap_cons, <-IH1. by rewrite fmap_cons.
  - by destruct H'; apply f_order.
  - by destruct H; apply f_order.
  - rewrite fmap_cons. f_equal. exact IH2.
Qed.

Lemma merge_list_to_stack_fmap st l :
  merge_list_to_stack R' (fmap (M := option) (fmap (M := list) f) <$> st) (f <$> l) =
  fmap (M := option) (fmap (M := list) f) <$> merge_list_to_stack R st l.
Proof.
  revert l. induction st as [|[l'|] st IH]; intros l; [done| |done].
  rewrite fmap_cons. cbn [merge_list_to_stack fmap option_fmap option_map].
  rewrite fmap_cons. f_equal. by rewrite list_merge_fmap, IH.
Qed.

Lemma merge_stack_fmap st :
  merge_stack R' (fmap (M := option) (fmap (M := list) f) <$> st) = f <$> merge_stack R st.
Proof.
  induction st as [|[l|] st IH]; [done| |]; rewrite fmap_cons; cbn [merge_stack fmap option_fmap option_map].
  - by rewrite <-list_merge_fmap, <-IH.
  - exact IH.
Qed.

Lemma merge_sort_fmap l : merge_sort R' (f <$> l) = f <$> merge_sort R l.
Proof.
  unfold merge_sort. change (@nil (option (list B))) with (fmap (M := option) (fmap (M := list) f) <$> @nil (option (list A))).
  generalize (@nil (option (list A))). induction l as [|x l IH]; intros st; [apply merge_stack_fmap|].
  rewrite fmap_cons. cbn [merge_sort_aux]. rewrite <-IH. f_equal.
  by rewrite <-merge_list_to_stack_fmap.
Qed.
End sort_map.

(** A comparison that is an order on the elements at hand. *)
Record CmpOn {A} (P : A → Prop) (cmp : A → A → Z) : Prop := {
  on_sym : ∀ a b, P a → P b → Z.sgn (cmp a b) = (- Z.sgn (cmp b a))%Z;
  on_trans : ∀ a b c, P a → P b → P c → (cmp a b ≤ 0 → cmp b c ≤ 0 → cmp a c ≤ 0)%Z
}.

Lemma Forall_sig {A} (P : A → Prop) l : Forall P l → ∃ l' : list (sig P), l = proj1_sig <$> l'.
Proof.
  induction 1 as [|x l Hx _ [l' ->]]; [by exists []|]. by exists (exist _ x Hx :: l').
Qed.

Section sort_on.
Context {A} (P : A → Prop) (cmp : A → A → Z) (Hon : CmpOn P cmp).

Lemma SortFunc_sorted_on l : Forall P l → StronglySorted (cmp_le cmp) (SortFunc cmp l).
Proof using Hon.
  intros [l' ->]%Forall_sig. unfold SortFunc.
  set (R := λ x y : sig P, cmp_le cmp (proj1_sig x) (proj1_sig y)).
  assert (RelDecision R) by (intros x y; unfold R; apply _).
  rewrite (merge_sort_fmap proj1_sig R (cmp_le cmp)) by done.
  assert (Total R).
  { intros [x Hx] [y Hy]. unfold R, cmp_le. simpl. pose proof (on_sym _ _ Hon x y Hx Hy). lia. }
  assert (Transitive R).
  { intros [x Hx] [y Hy] [z Hz]. unfold R, cmp_le. simpl. by apply (on_trans _ _ Hon). }
  pose proof (StronglySorted_merge_sort R l') as Hs.
  induction Hs as [|x l Hs IH Hf]; [constructor|]. rewrite fmap_cons. constructor; [done|].
  rewrite Forall_forall in Hf. apply Forall_forall. intros y (z & -> & Hz)%list_elem_of_fmap.
  by apply (Hf z).
Qed.

Lemma SortFunc_unique_on l1 l2 :
  Forall P l1 → (∀ a b, a ∈ l1 → b ∈ l1 → cmp a b = 0%Z → a = b) →
  l1 ≡ₚ l2 → SortFunc cmp l1 = SortFunc cmp l2.
Proof using Hon.
  intros HP Hsep Hp.
  apply (StronglySorted_unique_strong (cmp_le cmp)).
  - intros x y Hx%elem_of_SortFunc Hy%elem_of_SortFunc Hxy Hyx. rewrite <-Hp in Hy.
    rewrite Forall_forall in HP. apply Hsep; [done..|]. unfold cmp_le in *.
    pose proof (on_sym _ _ Hon x y (HP _ Hx) (HP _ Hy)). lia.
  - by apply SortFunc_sorted_on.
  - apply SortFunc_sorted_on. by rewrite <-Hp.
  - by rewrite !SortFunc_perm.
Qed.
End sort_on.

Lemma SortFunc_fmap_on {A} (cmp : A → A → Z) (f : A → A) l :
  (∀ a b, a ∈ l → b ∈ l → (cmp (f a) (f b) ≤ 0 ↔ cmp a b ≤ 0)%Z) →
  SortFunc cmp (f <$> l) = f <$> SortFunc cmp l.
Proof.
  intros Hf. destruct (Forall_sig (.∈ l) l) as [l' Hl]; [by apply Forall_forall|].
  unfold SortFunc.
  set (R := λ x y : sig (.∈ l), cmp_le cmp (proj1_sig x) (proj1_sig y)).
  assert (RelDecision R) by (intros x y; unfold R; apply _).
  rewrite Hl at 2. rewrite (merge_sort_fmap proj1_sig R (cmp_le cmp)) by done.
  rewrite Hl at 1. rewrite <-!list_fmap_compose.
  apply (merge_sort_fmap (f ∘ proj1_sig) R (cmp_le cmp)).
  intros [x Hx] [y Hy]. unfold R, cmp_le. simpl. symmetry. by apply Hf.
Qed.

(** ** Generic lemmas *)

(** Iterating a function: [iter_n f n x] is [f] applied [n] times. *)
Fixpoint iter_n {A} (f : A → A) (n : nat) (x : A) : A :=
  match n with 0 => x | S n => iter_n f n (f x) end.

Lemma iter_n_S {A} (f : A → A) n x : iter_n f (S n) x = f (iter_n f n x).
Proof. revert x. induction n; intros x; [done|]. simpl in *. by rewrite IHn. Qed.

Lemma foldl_inv {A S} (P : S → Prop) (f : S → A → S) l s :
  P s → (∀ s x, x ∈ l → P s → P (f s x)) → P (foldl f s l).
Proof.
  revert s. induction l as [|x l IH]; intros s Hs Hf; [done|]. simpl. apply IH.
  - apply Hf; [set_solver|done].
  - intros s' y Hy. apply Hf. set_solver.
Qed.

Lemma existsb_elem_of {A} (f : A → bool) l : existsb f l = true ↔ ∃ x, x ∈ l ∧ f x = true.
Proof.
  rewrite existsb_exists. by setoid_rewrite <-list_elem_of_In.
Qed.

Lemma forallb_elem_of {A} (f : A → bool) l : forallb f l = true ↔ ∀ x, x ∈ l → f x = true.
Proof.
  rewrite forallb_forall. by setoid_rewrite <-list_elem_of_In.
Qed.

Lemma existsb_perm {A} (f : A → bool) l1 l2 : l1 ≡ₚ l2 → existsb f l1 = existsb f l2.
Proof.
  intros Hp. apply Bool.eq_true_iff_eq. rewrite !existsb_elem_of.
  by setoid_rewrite Hp.
Qed.

Definition sum_list_Z (l : list Z) : Z := foldr Z.add 0%Z l.

Lemma sum_list_Z_perm l1 l2 : l1 ≡ₚ l2 → sum_list_Z l1 = sum_list_Z l2.
Proof. induction 1; simpl; lia. Qed.

(** [find] returning the first match, with its two specifications. *)
Lemma find_Some_elem {A} (f : A → bool) l x :
  List.find f l = Some x → x ∈ l ∧ f x = true.
Proof. intros H%List.find_some. by rewrite list_elem_of_In. Qed.

Lemma find_None_elem {A} (f : A → bool) l :
  List.find f l = None ↔ ∀ x, x ∈ l → f x = false.
Proof.
  split.
  - intros H x Hx. eapply List.find_none; [done|by apply list_elem_of_In].
  - induction l as [|y l IH]; intros H; [done|]. simpl.
    rewrite (H y) by set_solver. apply IH. set_solver.
Qed.

Lemma foldM_fmap_ext {A S} (f : S → A → result S) (g : A → A) l s :
  (∀ s x, x ∈ l → f s (g x) = f s x) → foldM_result f s (g <$> l) = foldM_result f s l.
Proof.
  revert s. induction l as [|x l IH]; intros s H; [done|]. rewrite fmap_cons. simpl.
  rewrite H by set_solver. destruct (f s x); [|done]. apply IH. intros s' y Hy. apply H. set_solver.
Qed.

Lemma foldM_app {A B} (f : A → result (list B)) l acc :
  foldM_result (λ out x, ys ← f x; Ok (out ++ ys)) acc l =
    (zs ← mapM_result f l; Ok (acc ++ mjoin zs)).
Proof.
  revert acc. induction l as [|x l IH]; intros acc; simpl; [by rewrite app_nil_r|].
  destruct (f x) as [y|]; simpl; [|done]. rewrite IH.
  destruct (mapM_result f l); simpl; [|done]. by rewrite <-app_assoc.
Qed.

Lemma mapM_result_fmap {A B C} (f : A → result B) (g : A → C) (h : B → C) l :
  (∀ x, x ∈ l → ∃ y, f x = Ok y ∧ h y = g x) →
  ∃ ys, mapM_result f l = Ok ys ∧ h <$> ys = g <$> l.
Proof.
  induction l as [|x l IH]; intros H; simpl; [by exists []|].
  destruct (H x) as (y & -> & Hy); [set_solver|]. destruct IH as (ys & -> & Hys); [set_solver|].
  exists (y :: ys). split; [done|]. by rewrite !fmap_cons, Hy, Hys.
Qed.

Lemma mapM_result_elem {A B} (f : A → result B) l ys :
  mapM_result f l = Ok ys → ∀ y, y ∈ ys ↔ ∃ x, x ∈ l ∧ f x = Ok y.
Proof.
  revert ys. induction l as [|x l IH]; intros ys; simpl.
  { intros [= <-] y. split; [by intros ?%elem_of_nil|by intros (x & ?%elem_of_nil & _)]. }
  destruct (f x) as [z|] eqn:Hz; simpl; [|done].
  destruct (mapM_result f l) as [zs|]; simpl; [|done]. intros [= <-] y.
  rewrite elem_of_cons, (IH zs) by done. split.
  - intros [->|(x' & ? & ?)]; [exists x|exists x']; (split; [set_solver|done]).
  - intros (x' & [->|?]%elem_of_cons & ?); [left; congruence|right; eauto].
Qed.

Lemma elem_of_rev {A} (l : list A) x : x ∈ rev l ↔ x ∈ l.
Proof. rewrite !list_elem_of_In. symmetry. apply in_rev. Qed.

Lemma elem_of_filter_b {A} (f : A → bool) (l : list A) x :
  x ∈ List.filter f l ↔ x ∈ l ∧ f x = true.
Proof. rewrite !list_elem_of_In. apply List.filter_In. Qed.

Lemma head_filter_None {A} (f : A → bool) (l : list A) :
  head (List.filter f l) = None ↔ ∀ x, x ∈ l → f x = false.
Proof.
  destruct (List.filter f l) as [|e r] eqn:E; simpl; split; try done.
  - intros _ x Hx. destruct (f x) eqn:Hf; [|done].
    assert (x ∈ List.filter f l) as H by (by apply elem_of_filter_b). rewrite E in H. set_solver.
  - intros H. assert (e ∈ List.filter f l) as [He Hf]%elem_of_filter_b by (rewrite E; set_solver).
    by rewrite H in Hf.
Qed.

Lemma filter_all_false {A} (f : A → bool) l :
  (∀ x, x ∈ l → f x = false) → List.filter f l = [].
Proof.
  induction l as [|x l IH]; intros H; [done|]. simpl. rewrite (H x) by set_solver.
  apply IH. set_solver.
Qed.

(** Membership as a test, [_, ok := m[x]] on a map used as a set. *)
Definition in_set (x : string) (X : gset string) : bool := bool_decide (x ∈ X).

Lemma in_set_spec x X : in_set x X = true ↔ x ∈ X.
Proof. apply bool_decide_eq_true. Qed.
Lemma in_set_false x X : in_set x X = false ↔ x ∉ X.
Proof. apply bool_decide_eq_false. Qed.

(** Case analysis on the boolean tests of the code. *)
Ltac case_bool :=
  repeat match goal with
  | H : context [bool_decide ?P] |- _ => destruct (bool_decide_reflect P); try done
  | |- context [bool_decide ?P] => destruct (bool_decide_reflect P); try done
  end.

Ltac destruct_ifs :=
  repeat match goal with
  | H : context [if ?b then _ else _] |- _ => destruct b eqn:?
  | |- context [if ?b then _ else _] => destruct b eqn:?
  end.

(** Invert the bind of a result that is [Ok]. *)
Ltac inv_ok H :=
  repeat match type of H with
  | (match ?r with Ok _ => _ | Err _ => _ end) = Ok _ =>
      let E := fresh "E" in destruct r eqn:E; [|discriminate H]
  | mbind _ ?r = Ok _ =>
      let E := fresh "E" in destruct r eqn:E; simpl in H; [|discriminate H]
  | mret _ = Ok _ => injection H as H
  end.

Create HintDb auditor discriminated.
#[export] Hint Resolve u32_range : auditor.
#[export] Hint Rewrite @elem_of_range @elem_of_SortFunc : auditor.
