(* ===== verification/Cycle.v ===== *)
(** * Cyclic successors

    The chains of denial of existence are cycles in a total order: every
    name (or hash) points at the next one, the last at the first. The code
    sorts the names and compares neighbours modulo the length; this file
    relates that to the order alone. *)

From S2P Require Import Prelude.

Section cycle.
Context {A : Type} (lt : A → A → Prop).

(** [k] is the first element of [P] after [h], going round. *)
Definition cyc_next (P : A → Prop) (h k : A) : Prop :=
  P k ∧
  ((lt h k ∧ ∀ k', P k' → lt h k' → ¬ lt k' k) ∨
   ((∀ k', P k' → ¬ lt h k') ∧ ∀ k', P k' → ¬ lt k' k)).

Context (irrefl : ∀ a, ¬ lt a a) (trans : ∀ a b c, lt a b → lt b c → lt a c).

Lemma cyc_next_unique (P : A → Prop) h k1 k2 :
  (∀ a b, P a → P b → lt a b ∨ a = b ∨ lt b a) →
  cyc_next P h k1 → cyc_next P h k2 → k1 = k2.
Proof.
  intros total [P1 H1] [P2 H2]. destruct (total k1 k2 P1 P2) as [Hlt|[?|Hlt]]; [exfalso| done|exfalso].
  - destruct H2 as [[L2 M2]|[N2 M2]]; [|by apply (M2 k1)].
    destruct H1 as [[L1 M1]|[N1 M1]]; [by apply (M2 k1)|]. by apply (N1 k2).
  - destruct H1 as [[L1 M1]|[N1 M1]]; [|by apply (M1 k2)].
    destruct H2 as [[L2 M2]|[N2 M2]]; [by apply (M1 k2)|]. by apply (N2 k1).
Qed.

Lemma sorted_lookup_lt l i j a b :
  StronglySorted lt l → l !! i = Some a → l !! j = Some b → i < j → lt a b.
Proof.
  intros Hs. revert i j. induction Hs as [|x l Hs IH Hf]; intros i j Ha Hb Hij; [done|].
  destruct i as [|i], j as [|j]; try lia.
  - injection Ha as ->. rewrite Forall_forall in Hf. apply Hf. by eapply list_elem_of_lookup_2.
  - apply (IH i j); [done..|lia].
Qed.

Lemma sorted_lookup_iff l i j a b :
  StronglySorted lt l → l !! i = Some a → l !! j = Some b → lt a b ↔ i < j.
Proof.
  intros Hs Ha Hb. split; [|by eapply sorted_lookup_lt].
  intros Hlt. destruct (Nat.lt_trichotomy i j) as [?|[->|Hji]]; [done| |].
  - rewrite Ha in Hb. injection Hb as ->. by apply irrefl in Hlt.
  - exfalso. apply (irrefl a). eapply trans; [exact Hlt|]. by eapply sorted_lookup_lt.
Qed.

(** The neighbour modulo the length is the cyclic successor. *)
Lemma sorted_cyc_next l i h k :
  StronglySorted lt l → l !! i = Some h → l !! ((i + 1) mod length l) = Some k →
  cyc_next (λ x, x ∈ l) h k.
Proof.
  intros Hs Hh Hk. pose proof (lookup_lt_Some _ _ _ Hh) as Hi.
  split; [by eapply list_elem_of_lookup_2|].
  destruct (decide (i + 1 < length l)) as [Hn|Hn].
  - rewrite Nat.mod_small in Hk by done. left. split.
    + eapply (sorted_lookup_lt l i (i + 1)); [done..|lia].
    + intros k' [j Hj]%list_elem_of_lookup Hlt Hlt'.
      apply (sorted_lookup_iff l i j) in Hlt; [|done..]. apply (sorted_lookup_iff l j (i + 1)) in Hlt'; [|done..]. lia.
  - replace (i + 1) with (length l) in Hk by lia. rewrite Nat.Div0.mod_same in Hk. right. split.
    + intros k' [j Hj]%list_elem_of_lookup Hlt. pose proof (lookup_lt_Some _ _ _ Hj).
      apply (sorted_lookup_iff l i j) in Hlt; [|done..]. lia.
    + intros k' [j Hj]%list_elem_of_lookup Hlt. apply (sorted_lookup_iff l j 0) in Hlt; [|done..]. lia.
Qed.

(** The successor of an element of a sorted list exists. *)
Lemma cyc_lookup (l : list A) i h : l !! i = Some h → is_Some (l !! ((i + 1) mod length l)).
Proof.
  intros Hh%lookup_lt_Some. apply lookup_lt_is_Some, Nat.mod_upper_bound. lia.
Qed.

Lemma cyc_next_ext (P Q : A → Prop) h k : (∀ x, P x ↔ Q x) → cyc_next P h k ↔ cyc_next Q h k.
Proof. intros HPQ. unfold cyc_next. setoid_rewrite HPQ. done. Qed.
End cycle.
