(* ===== verification/Floats.v ===== *)
(** * Rounding of binary64 numbers

    The interval of a refresh is computed in floating point. The operations
    are those of the Standard Library's [SpecFloat]; this file proves of
    them what the bounds of the interval need. A number that is not negative
    is measured in units small enough that every exact sum and product is a
    whole number of units; rounding such a quantity gives a number that is
    at most half a unit in the last place away, and never passes a number
    that is represented exactly. *)

From Stdlib Require Import SpecFloat.
From S2P Require Import Prelude.
#[local] Open Scope Z_scope.

(** The weight of the exponent [e], in units of 2^-2200. *)
Definition pw (e : Z) : Z := 2 ^ (e + 2200).

(** The value of a number that is not negative, in these units. *)
Definition f_units (f : spec_float) : Z :=
  match f with S754_finite _ m e => Zpos m * pw e | _ => 0 end.

(** A number that is not negative, of at most 53 bits, with an exponent in range. *)
Definition representable (f : spec_float) : Prop :=
  match f with
  | S754_zero _ => True
  | S754_finite s m e => s = false ∧ Zpos m < 2 ^ 53 ∧ -1074 ≤ e
  | _ => False
  end.

Lemma pw_pos e : 0 < pw e ∨ e < -2200.
Proof. destruct (decide (e < -2200)) as [|H]; [by right|left]. apply Z.pow_pos_nonneg; lia. Qed.

Lemma pw_add a n : -2200 ≤ a → 0 ≤ n → pw (a + n) = 2 ^ n * pw a.
Proof. intros Ha Hn. unfold pw. rewrite <-Z.pow_add_r by lia. f_equal. lia. Qed.

Lemma pw_le a b : -2200 ≤ a → a ≤ b → pw a ≤ pw b.
Proof. intros. unfold pw. apply Z.pow_le_mono_r; lia. Qed.

Lemma pw_lt_inv a b : -2200 ≤ b → pw a < pw b → a < b.
Proof. intros Hb H. unfold pw in H. apply Z.pow_lt_mono_r_iff in H; lia. Qed.

Lemma f_units_nonneg f : representable f → 0 ≤ f_units f.
Proof. destruct f as [| | |s m e]; try done. cbn. intros (_ & _ & He). destruct (pw_pos e); lia. Qed.

(** ** The number of digits *)

Lemma digits2_spec m : 2 ^ (Zpos (digits2_pos m) - 1) ≤ Zpos m < 2 ^ Zpos (digits2_pos m).
Proof.
  induction m as [m IH|m IH|]; cbn [digits2_pos]; [..|done].
  all: rewrite Pos2Z.inj_succ; replace (Z.succ (Zpos (digits2_pos m)) - 1) with (Zpos (digits2_pos m)) by lia.
  all: rewrite Z.pow_succ_r by lia; replace (Zpos (digits2_pos m)) with (Z.succ (Zpos (digits2_pos m) - 1)) at 1 by lia.
  all: rewrite Z.pow_succ_r by lia; lia.
Qed.

Lemma digits2_le m n : 0 ≤ n → Zpos m < 2 ^ n → Zpos (digits2_pos m) ≤ n.
Proof.
  intros Hn Hm. destruct (digits2_spec m) as [H _].
  assert (Zpos (digits2_pos m) - 1 < n); [|lia]. apply (Z.pow_lt_mono_r_iff 2); lia.
Qed.

Lemma digits2_ge m n : 0 ≤ n → 2 ^ n ≤ Zpos m → n < Zpos (digits2_pos m).
Proof. intros Hn Hm. destruct (digits2_spec m) as [_ H]. apply (Z.pow_lt_mono_r_iff 2); lia. Qed.

(** ** Shifting to the right *)

Lemma iter_pos_nat {A} (f : A → A) p x : SpecFloat.iter_pos f p x = Nat.iter (Pos.to_nat p) f x.
Proof.
  assert (∀ n m y, Nat.iter n f (Nat.iter m f y) = Nat.iter (n + m)%nat f y) as Happ.
  { intros n m y. induction n as [|n IH]; [done|]. cbn. by f_equal. }
  revert x. induction p as [p IH|p IH|]; intros x; cbn [SpecFloat.iter_pos]; [..|done].
  - rewrite !IH. change (f x) with (Nat.iter 1 f x). rewrite !Happ. f_equal. lia.
  - rewrite !IH, Happ. f_equal. lia.
Qed.

(** [M] shifted by [k]: the quotient, and how the rest compares with one half. *)
Record shifted (M k : Z) (mrs : shr_record) : Prop := {
  sf_quot : shr_m mrs = M / 2 ^ k;
  sf_half : shr_r mrs = true ↔ 2 ^ k ≤ 2 * (M mod 2 ^ k);
  sf_rest : shr_s mrs = true ↔ M mod 2 ^ k ≠ 0 ∧ 2 * (M mod 2 ^ k) ≠ 2 ^ k
}.

Lemma shifted_0 M : shifted M 0 {| shr_m := M; shr_r := false; shr_s := false |}.
Proof. split; cbn; rewrite ?Z.div_1_r, ?Z.mod_1_r; [done|split; [done|lia]|split; [done|lia]]. Qed.

Lemma shr_1_m m r s : 0 ≤ m →
  shr_1 {| shr_m := m; shr_r := r; shr_s := s |} = {| shr_m := m / 2; shr_r := Z.odd m; shr_s := r || s |}.
Proof.
  intros Hm. destruct m as [|[p|p|]|]; [done| | |done|lia]; cbn [shr_1 Z.odd].
  - f_equal. rewrite Pos2Z.inj_xI. apply (Z.div_unique_pos _ 2 _ 1); lia.
  - f_equal. rewrite Pos2Z.inj_xO. apply (Z.div_unique_pos _ 2 _ 0); lia.
Qed.

Lemma shifted_S M k mrs : 0 ≤ M → 0 ≤ k → shifted M k mrs → shifted M (k + 1) (shr_1 mrs).
Proof.
  intros HM Hk [Hq Hh Hr]. destruct mrs as [m r s]. cbn [shr_m shr_r shr_s] in *.
  assert (0 < 2 ^ k) as Hp by (apply Z.pow_pos_nonneg; lia).
  pose proof (Z.div_mod M (2 ^ k) ltac:(lia)) as HD. pose proof (Z.mod_pos_bound M (2 ^ k) Hp) as Hb. rewrite <-Hq in HD.
  assert (0 ≤ m) as Hm by (rewrite Hq; apply Z.div_pos; lia).
  assert (m = 2 * (m / 2) + Z.b2z (Z.odd m)) as Hodd by (rewrite <-Z.div2_div; apply Z.div2_odd).
  assert (2 ^ (k + 1) = 2 * 2 ^ k) as HS by (rewrite Z.pow_add_r by lia; lia).
  assert (M / 2 ^ (k + 1) = m / 2 ∧ M mod 2 ^ (k + 1) = Z.b2z (Z.odd m) * 2 ^ k + M mod 2 ^ k) as [HQ HR].
  { assert (0 ≤ Z.b2z (Z.odd m) * 2 ^ k + M mod 2 ^ k < 2 ^ (k + 1)) as Hrange by (destruct (Z.odd m); cbn [Z.b2z]; lia).
    assert (M = 2 ^ (k + 1) * (m / 2) + (Z.b2z (Z.odd m) * 2 ^ k + M mod 2 ^ k)) as HE by nia.
    split; [symmetry; by apply (Z.div_unique_pos _ _ _ _ Hrange HE)|symmetry; by apply (Z.mod_unique_pos _ _ _ _ Hrange HE)]. }
  rewrite shr_1_m by done. split; cbn [shr_m shr_r shr_s]; [done|..].
  - rewrite HR, HS. destruct (Z.odd m); cbn [Z.b2z]; (split; [|lia]); [lia|done].
  - rewrite HR, HS, orb_true_iff, Hh, Hr. destruct (Z.odd m); cbn [Z.b2z]; lia.
Qed.

Lemma shifted_iter M n : 0 ≤ M →
  shifted M (Z.of_nat n) (Nat.iter n shr_1 {| shr_m := M; shr_r := false; shr_s := false |}).
Proof.
  intros HM. induction n as [|n IH]; [apply shifted_0|]. cbn [Nat.iter nat_rect].
  replace (Z.of_nat (S n)) with (Z.of_nat n + 1) by lia. apply shifted_S; [done|lia|done].
Qed.

(** Rounding the quotient to the nearest: the error is at most one half. *)
Lemma round_shifted M k mrs : 0 ≤ M → 0 ≤ k → shifted M k mrs →
  let q := round_nearest_even (shr_m mrs) (loc_of_shr_record mrs) in
  2 * Z.abs (q * 2 ^ k - M) ≤ 2 ^ k ∧ (q = M / 2 ^ k ∨ q = M / 2 ^ k + 1 ∧ M mod 2 ^ k ≠ 0).
Proof.
  intros HM Hk [Hq Hh Hr]. destruct mrs as [m r s]. cbn [shr_m shr_r shr_s] in *. cbv zeta.
  assert (0 < 2 ^ k) as Hp by (apply Z.pow_pos_nonneg; lia).
  pose proof (Z.div_mod M (2 ^ k) ltac:(lia)) as HD. pose proof (Z.mod_pos_bound M (2 ^ k) Hp) as Hb. rewrite <-Hq in *.
  set (R := M mod 2 ^ k) in *. clearbody R.
  destruct r, s; cbn [loc_of_shr_record round_nearest_even].
  - pose proof (proj1 Hh eq_refl). pose proof (proj1 Hr eq_refl). split; [nia|right; lia].
  - pose proof (proj1 Hh eq_refl). assert (2 * R = 2 ^ k ∨ R = 0) by (destruct (decide (R = 0)); [by right|left]; destruct (decide (2 * R = 2 ^ k)); [done|]; exfalso; by assert (false = true) by (apply Hr; done)).
    destruct (Z.even m); (split; [nia|]); [by left|right; lia].
  - assert (¬ 2 ^ k ≤ 2 * R) by (by intros ?%Hh). split; [nia|by left].
  - assert (¬ 2 ^ k ≤ 2 * R) by (by intros ?%Hh).
    assert (R = 0) by (destruct (decide (R = 0)); [done|]; exfalso; assert (false = true) by (apply Hr; lia); done).
    split; [nia|by left].
Qed.

(** ** Rounding *)

(** [r] is [x] units, rounded to the nearest representable number. *)
Record rounds (x : Z) (r : spec_float) : Prop := {
  rd_repr : representable r;
  rd_le : ∀ g, representable g → x ≤ f_units g → f_units r ≤ f_units g;
  rd_ge : ∀ g, representable g → f_units g ≤ x → f_units g ≤ f_units r;
  rd_near : ∀ k, -1021 ≤ k → x < pw k → 2 * Z.abs (f_units r - x) ≤ pw (k - 53)
}.

Lemma rounds_exact r : representable r → rounds (f_units r) r.
Proof.
  intros Hr. split; [done..|]. intros k Hk _. rewrite Z.sub_diag. destruct (pw_pos (k - 53)); cbn; lia.
Qed.

Lemma quot_le x P G q :
  0 < P → x ≤ G * P → q = x / P ∨ q = x / P + 1 ∧ x mod P ≠ 0 → q ≤ G.
Proof.
  intros HP Hx Hq. pose proof (Z.div_mod x P ltac:(lia)) as Hd. pose proof (Z.mod_pos_bound x P HP) as Hb.
  set (Q := x / P) in *. set (R := x mod P) in *. clearbody Q R. destruct Hq as [->|[-> HR]]; nia.
Qed.

Lemma quot_ge x P G q : 0 < P → G * P ≤ x → q = x / P ∨ q = x / P + 1 ∧ x mod P ≠ 0 → G ≤ q.
Proof.
  intros HP Hx Hq. assert (G ≤ x / P) by (apply Z.div_le_lower_bound; lia). destruct Hq as [->|[-> _]]; lia.
Qed.

(** The multiples of [pw e'] around [x], where [e'] is the exponent of the result. *)
Lemma rounds_multiple x D e e' q r :
  0 < x → pw (D - 1) ≤ x < pw D → -2148 ≤ D - 1 → -2148 ≤ e → e' = Z.max e (Z.max (D - 53) (-1074)) →
  representable r → f_units r = q * pw e' → 2 * Z.abs (q * pw e' - x) ≤ pw e' →
  q = x / pw e' ∨ q = x / pw e' + 1 ∧ x mod pw e' ≠ 0 → (e' = e → q * pw e' = x) → rounds x r.
Proof.
  intros Hx [HD1 HD2] HD He He' Hr Hu Hnear Hq Hexact.
  assert (0 < pw e') as Hp by (apply Z.pow_pos_nonneg; lia).
  pose proof (Z.div_mod x (pw e') ltac:(lia)) as Hdm. pose proof (Z.mod_pos_bound x (pw e') Hp) as Hb.
  assert (∀ g, representable g → 0 < f_units g → ∃ m eg, f_units g = m * pw eg ∧ 0 < m < 2 ^ 53 ∧ -1074 ≤ eg ∧ f_units g < pw (eg + 53)) as Hform.
  { intros g Hg Hpos. destruct g as [| | |s m eg]; try done. destruct Hg as (_ & Hm & Heg). exists (Zpos m), eg. cbn [f_units].
    split_and!; [done|done|done|done|]. rewrite pw_add by lia. destruct (pw_pos eg); nia. }
  destruct (decide (e' = e)) as [Heq|Hne].
  { rewrite Hexact in Hu by done. split; [done| | |].
    - intros g _ H. by rewrite Hu.
    - intros g _ H. by rewrite Hu.
    - intros k Hk _. rewrite Hu, Z.sub_diag. destruct (pw_pos (k - 53)); cbn; lia. }
  split; [done| | |].
  - intros g Hg Hle. destruct (Hform g Hg ltac:(lia)) as (m & eg & Hgu & Hm & Heg & Hlt).
    assert (D - 1 < eg + 53) as HDe by (apply pw_lt_inv; lia).
    assert (pw eg = 2 ^ (eg - e') * pw e') as Hpe by (rewrite <-pw_add by lia; f_equal; lia).
    rewrite Hgu, Hpe, Z.mul_assoc in *. rewrite Hu. apply Z.mul_le_mono_nonneg_r; [lia|]. by apply (quot_le x (pw e')).
  - intros g Hg Hle. rewrite Hu. assert (∀ G, G * pw e' ≤ x → G * pw e' ≤ q * pw e') as Hge.
    { intros G HG. apply Z.mul_le_mono_nonneg_r; [lia|]. by apply (quot_ge x (pw e')). }
    destruct (decide (f_units g = 0)) as [H0|H0]; [rewrite H0; specialize (Hge 0); lia|].
    pose proof (f_units_nonneg g Hg). destruct (Hform g Hg ltac:(lia)) as (m & eg & Hgu & Hm & Heg & Hlt).
    destruct (decide (e' ≤ eg)) as [Hle'|Hgt].
    + assert (pw eg = 2 ^ (eg - e') * pw e') as Hpe by (rewrite <-pw_add by lia; f_equal; lia).
      rewrite Hgu, Hpe, Z.mul_assoc in *. by apply Hge.
    + assert (pw (D - 1) = 2 ^ 52 * pw e') as HpD by (rewrite <-pw_add by lia; f_equal; lia).
      assert (pw (eg + 53) ≤ pw (D - 1)) by (apply pw_le; lia). specialize (Hge (2 ^ 52)). lia.
  - intros k Hk Hlt. rewrite Hu. assert (D - 1 < k) by (apply pw_lt_inv; lia).
    assert (pw e' ≤ pw (k - 53)) by (apply pw_le; lia). lia.
Qed.

Lemma fexp_eq e : fexp 53 1024 e = Z.max (e - 53) (-1074).
Proof. done. Qed.

(** The first shift of [binary_round_aux]. *)
Lemma shr_first M e e' :
  e' = Z.max e (fexp 53 1024 (Zpos (digits2_pos M) + e)) →
  ∃ mrs, shr_fexp 53 1024 (Zpos M) e loc_Exact = (mrs, e') ∧ shifted (Zpos M) (e' - e) mrs.
Proof.
  intros He'. unfold shr_fexp, shr. cbn [Zdigits2 shr_record_of_loc].
  destruct (fexp 53 1024 (Zpos (digits2_pos M) + e) - e) as [|p|p] eqn:E.
  - eexists. split; [f_equal; lia|]. replace (e' - e) with 0 by lia. apply shifted_0.
  - eexists. split; [f_equal; lia|]. rewrite iter_pos_nat. replace (e' - e) with (Z.of_nat (Pos.to_nat p)) by lia.
    by apply shifted_iter.
  - eexists. split; [f_equal; lia|]. replace (e' - e) with 0 by lia. apply shifted_0.
Qed.

(** The second one has nothing to round. *)
Lemma shr_second q e' r :
  0 ≤ q ≤ 2 ^ 53 → -1074 ≤ e' ≤ 900 →
  (let '(mrs, e'') := shr_fexp 53 1024 q e' loc_Exact in
   match shr_m mrs with
   | Z0 => S754_zero false
   | Zpos m => if Z.leb e'' (1024 - 53) then S754_finite false m e'' else S754_infinity false
   | _ => S754_nan
   end) = r → representable r ∧ f_units r = q * pw e'.
Proof.
  intros Hq He'. unfold shr_fexp, shr. cbn [shr_record_of_loc]. rewrite fexp_eq.
  destruct q as [|Q|Q]; [| |lia]; cbn [Zdigits2].
  { replace (Z.max (0 + e' - 53) (-1074) - e') with (- (e' - Z.max (e' - 53) (-1074))) by (f_equal; lia).
    destruct (e' - Z.max (e' - 53) (-1074)) as [|p|p] eqn:E; cbn [Z.opp shr_m]; [by intros <-|by intros <-|lia]. }
  destruct (decide (Zpos Q < 2 ^ 53)) as [Hlt|Hge].
  - pose proof (digits2_le Q 53 ltac:(lia) Hlt) as Hd.
    destruct (Z.max (Zpos (digits2_pos Q) + e' - 53) (-1074) - e') as [|p|p] eqn:E; cbn [shr_m]; [|lia|];
      (rewrite (proj2 (Z.leb_le _ _)) by lia; intros <-; split; [split_and!; [done|done|lia]|done]).
  - assert (Q = 9007199254740992%positive) as -> by lia. change (Zpos (digits2_pos 9007199254740992)) with 54.
    replace (Z.max (54 + e' - 53) (-1074) - e') with 1 by lia. cbn [SpecFloat.iter_pos shr_1 shr_m orb].
    rewrite (proj2 (Z.leb_le _ _)) by lia. intros <-. split; [split_and!; [done|done|lia]|].
    cbn [f_units]. rewrite pw_add by lia. lia.
Qed.

(** Rounding a whole number of units. *)
Lemma rounds_aux M e :
  -2148 ≤ e → Zpos M * pw e ≤ pw 900 →
  rounds (Zpos M * pw e) (binary_round_aux 53 1024 false (Zpos M) e loc_Exact).
Proof.
  intros He Hmax. set (D := Zpos (digits2_pos M) + e). set (x := Zpos M * pw e) in *.
  destruct (pw_pos e) as [Hpe|?]; [|lia]. destruct (digits2_spec M) as [HM1 HM2].
  assert (pw (D - 1) ≤ x < pw D) as HD.
  { unfold D. replace (Zpos (digits2_pos M) + e - 1) with (e + (Zpos (digits2_pos M) - 1)) by lia.
    rewrite (Z.add_comm (Zpos (digits2_pos M)) e), !pw_add by lia. unfold x. nia. }
  assert (D - 1 < 901) as HD900.
  { apply pw_lt_inv; [lia|]. assert (pw 900 < pw 901) by (unfold pw; apply Z.pow_lt_mono_r; lia). lia. }
  destruct (shr_first M e (Z.max e (Z.max (D - 53) (-1074))) eq_refl) as (mrs & Hshr & Hsf).
  set (e' := Z.max e (Z.max (D - 53) (-1074))) in *.
  destruct (round_shifted (Zpos M) (e' - e) mrs ltac:(lia) ltac:(lia) Hsf) as [Hnear Hq].
  unfold binary_round_aux. rewrite Hshr. set (q := round_nearest_even _ _) in *.
  assert (pw e' = 2 ^ (e' - e) * pw e) as Hpe' by (rewrite <-pw_add by lia; f_equal; lia).
  assert (0 < 2 ^ (e' - e)) as Hp2 by (apply Z.pow_pos_nonneg; lia).
  assert (0 ≤ q ≤ 2 ^ 53) as Hq53.
  { pose proof (Z.div_pos (Zpos M) (2 ^ (e' - e)) ltac:(lia) Hp2).
    assert (Zpos M / 2 ^ (e' - e) < 2 ^ 53); [|lia]. apply Z.div_lt_upper_bound; [done|].
    rewrite <-Z.pow_add_r by lia. assert (2 ^ Zpos (digits2_pos M) ≤ 2 ^ (e' - e + 53)) by (apply Z.pow_le_mono_r; lia). lia. }
  set (r := let '(_, _) := shr_fexp 53 1024 q e' loc_Exact in _).
  destruct (shr_second q e' r Hq53 ltac:(lia) eq_refl) as [Hr Hu].
  apply (rounds_multiple x D e e' q r); [unfold x; nia|done|lia|lia|done|done|done|..].
  - rewrite Hpe'. unfold x. nia.
  - unfold x. rewrite Hpe', Z.div_mul_cancel_r, Z.mul_mod_distr_r by lia. destruct Hq as [?|[? ?]]; [by left|right]. nia.
  - intros Heq. rewrite Heq, Z.sub_diag in Hnear. unfold x. rewrite Heq. f_equal. rewrite Z.pow_0_r in Hnear. lia.
Qed.

Lemma shl_align_units m e e' : -2148 ≤ e' →
  let '(m', ez) := shl_align m e e' in Zpos m' * pw ez = Zpos m * pw e ∧ ez = Z.min e e' ∨ e < e' ∧ m' = m ∧ ez = e.
Proof.
  intros He'. unfold shl_align. destruct (e' - e) as [|d|d] eqn:E; [left; split; [done|lia]|right; lia|left].
  split; [|lia]. assert (Zpos (Pos.iter xO m d) = 2 ^ Zpos d * Zpos m) as ->.
  { clear. induction d as [|d IH] using Pos.peano_ind; [done|]. rewrite Pos.iter_succ, Pos2Z.inj_xO, IH, Pos2Z.inj_succ, Z.pow_succ_r by lia. lia. }
  replace e with (e' + Zpos d) by lia. rewrite pw_add by lia. lia.
Qed.

Lemma rounds_round m e :
  -2148 ≤ e → Zpos m * pw e ≤ pw 900 → rounds (Zpos m * pw e) (binary_round 53 1024 false m e).
Proof.
  intros He Hmax. unfold binary_round. pose proof (shl_align_units m e (fexp 53 1024 (Zpos (digits2_pos m) + e))) as H.
  rewrite fexp_eq in *. specialize (H ltac:(lia)). destruct (shl_align _ _ _) as [mz ez].
  destruct H as [[Heq Hez]|(_ & -> & ->)]; [|by apply rounds_aux]. rewrite <-Heq in *. apply rounds_aux; [lia|done].
Qed.

Lemma rounds_normalize M e s :
  0 ≤ M → -2148 ≤ e → M * pw e ≤ pw 900 → rounds (M * pw e) (binary_normalize 53 1024 M e s).
Proof. intros HM He Hmax. destruct M as [|m|m]; [apply (rounds_exact (S754_zero s)); done|by apply rounds_round|lia]. Qed.

(** ** The operations *)

Definition one : Z := pw 0.

Lemma SFmul_rounds f g :
  representable f → representable g → f_units f * f_units g ≤ pw 900 * one →
  ∃ x, x * one = f_units f * f_units g ∧ rounds x (SFmul 53 1024 f g).
Proof.
  intros Hf Hg Hmax. pose proof (rounds_exact (S754_zero false) I) as H0.
  destruct f as [sf| | |sf mf ef], g as [sg| | |sg mg eg]; try done; cbn [SFmul f_units] in *;
    try (exists 0; split; [lia|apply (rounds_exact (S754_zero _)); done]).
  destruct Hf as (-> & Hmf & Hef), Hg as (-> & Hmg & Heg). cbn [xorb].
  assert (pw (ef + eg) * one = pw ef * pw eg) as HP.
  { unfold one, pw. rewrite <-!Z.pow_add_r by lia. f_equal. lia. }
  assert (0 < one) as Hone by (apply Z.pow_pos_nonneg; lia).
  assert (Zpos (mf * mg) * pw (ef + eg) * one = Zpos mf * pw ef * (Zpos mg * pw eg)) as Hx.
  { rewrite <-Z.mul_assoc, HP, Pos2Z.inj_mul. ring. }
  exists (Zpos (mf * mg) * pw (ef + eg)). split; [done|]. apply rounds_aux; [lia|].
  apply (Z.mul_le_mono_pos_r _ _ one Hone). by rewrite Hx.
Qed.

Lemma align_units m e ez : -2148 ≤ ez → ez ≤ e → Zpos (fst (shl_align m e ez)) * pw ez = Zpos m * pw e.
Proof.
  intros Hez Hle. pose proof (shl_align_units m e ez Hez) as H. destruct (shl_align m e ez) as [m' e']. cbn [fst].
  destruct H as [[H ->]|?]; [|lia]. by rewrite Z.min_r in H by lia.
Qed.

Lemma SFadd_rounds f g :
  representable f → representable g → f_units f + f_units g ≤ pw 900 →
  rounds (f_units f + f_units g) (SFadd 53 1024 f g).
Proof.
  intros Hf Hg Hmax. destruct f as [sf| | |sf mf ef], g as [sg| | |sg mg eg]; try done; cbn [SFadd].
  - destruct sf, sg; apply (rounds_exact (S754_zero _)); done.
  - apply rounds_exact. done.
  - cbn [f_units]. rewrite Z.add_0_r. by apply (rounds_exact (S754_finite sf mf ef)).
  - destruct Hf as (-> & Hmf & Hef), Hg as (-> & Hmg & Heg). cbn [cond_Zopp f_units] in *.
    rewrite <-(align_units mf ef (Z.min ef eg)), <-(align_units mg eg (Z.min ef eg)), <-Z.mul_add_distr_r in * by lia.
    apply rounds_normalize; [lia|lia|done].
Qed.

Lemma SFsub_rounds f g :
  representable f → representable g → f_units g ≤ f_units f → f_units f ≤ pw 900 →
  rounds (f_units f - f_units g) (SFsub 53 1024 f g).
Proof.
  intros Hf Hg Hle Hmax. destruct f as [sf| | |sf mf ef], g as [sg| | |sg mg eg]; try done; cbn [SFsub].
  - destruct sf, sg; apply (rounds_exact (S754_zero _)); done.
  - exfalso. destruct Hg as (_ & _ & Heg). cbn [f_units] in Hle. destruct (pw_pos eg); [nia|lia].
  - cbn [f_units]. rewrite Z.sub_0_r. by apply (rounds_exact (S754_finite sf mf ef)).
  - destruct Hf as (-> & Hmf & Hef), Hg as (-> & Hmg & Heg). cbn [cond_Zopp f_units] in *.
    assert (0 ≤ Zpos mg * pw eg) by (destruct (pw_pos eg); nia).
    rewrite <-(align_units mf ef (Z.min ef eg)), <-(align_units mg eg (Z.min ef eg)), <-Z.mul_sub_distr_r in * by lia.
    assert (0 < pw (Z.min ef eg)) by (apply Z.pow_pos_nonneg; lia).
    apply rounds_normalize; [nia|lia|nia].
Qed.

(** ** The numbers from 0 to 1 *)

Definition f_one : spec_float := S754_finite false 4503599627370496 (-52).

Lemma one_pow n : 0 ≤ n ≤ 2200 → one = 2 ^ n * pw (- n).
Proof. intros Hn. unfold one. rewrite <-pw_add by lia. f_equal. lia. Qed.

Lemma one_52 : one = 2 ^ 52 * pw (-52).
Proof. by apply (one_pow 52). Qed.
Lemma one_53 : one = 2 ^ 53 * pw (-53).
Proof. by apply (one_pow 53). Qed.

Lemma one_pos : 0 < one.
Proof. apply Z.pow_pos_nonneg; lia. Qed.

Lemma f_one_units : f_units f_one = one.
Proof. rewrite one_52. done. Qed.

Lemma f_one_repr : representable f_one.
Proof. split_and!; [done|lia|lia]. Qed.

Lemma compare_cont_eq m n : Pos.compare_cont Eq m n = (m ?= n)%positive.
Proof. done. Qed.

(** What the comparisons with 0 and 1 say of a number. *)
Lemma unit_units f :
  valid_binary 53 1024 f = true → SFleb (S754_zero false) f = true → SFleb f f_one = true →
  representable f ∧ f_units f ≤ one ∧ (SFltb f f_one = true → f_units f < one).
Proof.
  pose proof one_pos as Hone. intros Hv H0 H1.
  destruct f as [s|[|]| |[|] m e]; try done; cbn [representable f_units].
  cbn [valid_binary] in Hv. unfold bounded, canonical_mantissa in Hv. apply andb_true_iff in Hv as [Hc%Z.eqb_eq _].
  rewrite fexp_eq in Hc. destruct (digits2_spec m) as [_ Hm].
  assert (Zpos m < 2 ^ 53).
  { assert (2 ^ Zpos (digits2_pos m) ≤ 2 ^ 53) by (apply Z.pow_le_mono_r; lia). lia. }
  split; [split_and!; [done|done|lia]|]. unfold SFleb, SFltb, SFcompare, f_one in *.
  destruct (Z.compare_spec e (-52)) as [->|Hlt|Hgt]; [| |done].
  - rewrite compare_cont_eq in *. rewrite one_52. assert (0 < pw (-52)) as HP by (apply Z.pow_pos_nonneg; lia).
    change (2 ^ 52) with 4503599627370496. clear Hone Hc Hm H. generalize dependent (pw (-52)). intros P HP.
    destruct (Pos.compare_spec m 4503599627370496) as [->|Hl|Hg]; [split; [apply Z.le_refl|discriminate]| |discriminate H1].
    assert (Zpos m * P < 4503599627370496 * P) by (apply Z.mul_lt_mono_pos_r; [exact HP|exact Hl]).
    clear H0 H1 Hl HP. split; [by apply Z.lt_le_incl|by intros _].
  - rewrite one_53. assert (pw e ≤ pw (-53)) as Hle by (apply pw_le; lia). assert (0 < pw e) as HP by (destruct (pw_pos e); lia).
    clear Hone Hc Hm H0 H1. generalize dependent (pw e). intros P Hle HP. generalize dependent (pw (-53)). intros Q HQ.
    assert (Zpos m * P < 2 ^ 53 * P) by (apply Z.mul_lt_mono_pos_r; done). assert (2 ^ 53 * P ≤ 2 ^ 53 * Q) by (apply Z.mul_le_mono_nonneg_l; lia).
    split; [|intros _]; lia.
Qed.

(** The least number above 1. *)
Lemma above_one f : representable f → one < f_units f → one + pw (-52) ≤ f_units f.
Proof.
  pose proof one_pos. destruct f as [| | |s m e]; try done. intros (_ & Hm & He). cbn [f_units]. intros Hlt.
  destruct (decide (e ≤ -53)) as [Hle|Hgt].
  - exfalso. rewrite one_53 in Hlt. assert (pw e ≤ pw (-53)) as Hpe by (apply pw_le; lia).
    assert (0 < pw (-53)) as HQ by (apply Z.pow_pos_nonneg; lia). revert Hm Hlt Hpe HQ. clear.
    generalize (pw e), (pw (-53)). intros P Q Hm Hlt Hpe HQ.
    assert (Zpos m * P ≤ Zpos m * Q) by (apply Z.mul_le_mono_nonneg_l; lia).
    assert (Zpos m * Q < 2 ^ 53 * Q) by (apply Z.mul_lt_mono_pos_r; done). lia.
  - assert (pw e = 2 ^ (e + 52) * pw (-52)) as He' by (rewrite <-pw_add by lia; f_equal; lia).
    assert (0 < pw (-52)) as HP by (apply Z.pow_pos_nonneg; lia).
    rewrite He', one_52 in *. revert Hlt HP. clear. generalize (2 ^ (e + 52)), (pw (-52)), (2 ^ 52). intros k P c Hlt HP.
    replace (Zpos m * (k * P)) with (Zpos m * k * P) in * by ring.
    apply Z.mul_lt_mono_pos_r in Hlt; [|done]. replace (c * P + P) with ((c + 1) * P) by ring.
    apply Z.mul_le_mono_nonneg_r; lia.
Qed.

Lemma pw_1 : pw 1 = 2 * one.
Proof. exact (pw_add 0 1 ltac:(lia) ltac:(lia)). Qed.

(** [1 - j + r * j] is not above 1, and it is computed to 2^-52. *)
Lemma mult_units j r :
  representable j → f_units j ≤ one → representable r → f_units r < one →
  let mult := SFadd 53 1024 (SFsub 53 1024 f_one j) (SFmul 53 1024 r j) in
  representable mult ∧ f_units mult ≤ one ∧
  Z.abs (f_units mult * one - ((one - f_units j) * one + f_units r * f_units j)) ≤ pw (-52) * one.
Proof.
  pose proof one_pos as Hone. pose proof f_one_units as H1. pose proof f_one_repr as R1.
  assert (pw (-53) = 2 * pw (-54)) as H54 by (change (-53) with (-54 + 1); rewrite pw_add by lia; lia).
  assert (pw (-52) = 2 * pw (-53)) as H53 by (change (-52) with (-53 + 1); rewrite pw_add by lia; lia).
  assert (0 < pw (-54)) as Hp54 by (apply Z.pow_pos_nonneg; lia).
  assert (pw (-53) ≤ one) as Hle53 by (apply pw_le; lia).
  assert (2 * one ≤ pw 900) as Hmax by (rewrite <-pw_1; apply pw_le; lia).
  intros Hj HJ Hr HR. cbv zeta. pose proof (f_units_nonneg j Hj) as HJ0. pose proof (f_units_nonneg r Hr) as HR0.
  pose proof (SFsub_rounds f_one j R1 Hj ltac:(lia) ltac:(lia)) as HA. rewrite H1 in HA. set (a := SFsub 53 1024 f_one j) in *.
  destruct (SFmul_rounds r j Hr Hj ltac:(nia)) as (xp & Hxp & HP). set (p := SFmul 53 1024 r j) in *.
  assert (f_units a ≤ one) as Ha1 by (rewrite <-H1; apply (rd_le _ _ HA); [done|lia]).
  assert (2 * Z.abs (f_units a - (one - f_units j)) ≤ pw (-53)) as Hanear.
  { destruct (decide (f_units j = 0)) as [Hz|Hz]; [|apply (rd_near _ _ HA 0); [lia|unfold one in *; lia]].
    assert (f_units f_one ≤ f_units a) by (apply (rd_ge _ _ HA); [done|lia]). lia. }
  assert (f_units p ≤ f_units j) as Hpj by (apply (rd_le _ _ HP); [done|nia]).
  pose proof (f_units_nonneg p (rd_repr _ _ HP)) as Hp0.
  pose proof (SFadd_rounds a p (rd_repr _ _ HA) (rd_repr _ _ HP) ltac:(lia)) as HS. set (mult := SFadd 53 1024 a p) in *.
  assert (xp < one) as Hxp1 by (apply (Z.mul_lt_mono_pos_r one); [done|]; rewrite Hxp; nia).
  pose proof (rd_near _ _ HP 0 ltac:(lia) Hxp1) as Hpnear. change (0 - 53) with (-53) in Hpnear.
  pose proof pw_1 as Hpw1. pose proof (rd_near _ _ HS 1 ltac:(lia) ltac:(lia)) as Hn. change (1 - 53) with (-52) in Hn.
  split; [apply HS|]. split.
  - destruct (decide (f_units a + f_units p ≤ one)) as [Hle|Hgt]; [rewrite <-H1; apply (rd_le _ _ HS); [done|lia]|].
    destruct (decide (f_units mult ≤ one)) as [|Hab]; [done|]. pose proof (above_one mult (rd_repr _ _ HS) ltac:(lia)). lia.
  - rewrite <-Hxp, <-Z.mul_add_distr_r, <-Z.mul_sub_distr_r, Z.abs_mul, (Z.abs_eq one) by lia.
    apply Z.mul_le_mono_nonneg_r; [lia|]. lia.
Qed.

(** A whole number times such a factor. *)
Lemma scaled_units base mult :
  0 ≤ base ≤ 2 ^ 52 → representable mult → f_units mult ≤ one →
  let t := SFmul 53 1024 (binary_normalize 53 1024 base 0 false) mult in
  representable t ∧ f_units t ≤ base * one ∧ 2 * Z.abs (f_units t - base * f_units mult) ≤ one.
Proof.
  pose proof one_pos as Hone. intros Hb Hm HM. cbv zeta. pose proof (f_units_nonneg mult Hm) as HM0.
  assert (pw 53 = 2 ^ 53 * one) as H53 by exact (pw_add 0 53 ltac:(lia) ltac:(lia)).
  assert (pw 53 ≤ pw 900) as Hmax by (apply pw_le; lia).
  assert (base * one < pw 53) as Hbase.
  { rewrite H53. apply Z.mul_lt_mono_pos_r; [done|]. apply (Z.le_lt_trans _ (2 ^ 52)); [lia|done]. }
  assert (0 ≤ base * one) as Hbase0 by (apply Z.mul_nonneg_nonneg; lia).
  pose proof (rounds_normalize base 0 false ltac:(lia) ltac:(lia) ltac:(change (pw 0) with one; lia)) as HB. fold one in HB.
  set (b := binary_normalize 53 1024 base 0 false) in *.
  assert (f_units b = base * one) as HBu.
  { destruct base as [|m|m]; [done| |lia].
    assert (representable (S754_finite false m 0)) as Hg by (split_and!; [done|lia|lia]).
    pose proof (rd_le _ _ HB _ Hg ltac:(done)). pose proof (rd_ge _ _ HB _ Hg ltac:(done)). cbn [f_units] in *. unfold one in *. lia. }
  destruct (SFmul_rounds b mult (rd_repr _ _ HB) Hm ltac:(nia)) as (x & Hx & HT). set (t := SFmul 53 1024 b mult) in *.
  assert (x = base * f_units mult) as -> by (rewrite HBu in Hx; nia).
  split; [apply HT|]. split; [rewrite <-HBu; apply (rd_le _ _ HT); [apply HB|nia]|].
  pose proof (rd_near _ _ HT 53 ltac:(lia) ltac:(nia)) as Hn. change (pw (53 - 53)) with one in Hn. lia.
Qed.

(** From the factor to the delay: a factor [m] near [y], a product [t] near
    [base * m], and its whole part. *)
Lemma jittered base m y t :
  0 ≤ base ≤ 2 ^ 52 → Z.abs (m * one - y) ≤ pw (-52) * one → 2 * Z.abs (t - base * m) ≤ one →
  Z.abs (t / one * (one * one) - base * y) ≤ 3 * (one * one).
Proof.
  pose proof one_pos as Hone. intros Hb Hm Ht.
  assert (base * pw (-52) ≤ one) as Hbp.
  { rewrite one_52. apply Z.mul_le_mono_nonneg_r; [apply Z.pow_nonneg; lia|lia]. }
  assert (Z.abs (base * (m * one - y)) ≤ one * one) as Hbm.
  { rewrite Z.abs_mul, (Z.abs_eq base) by lia. apply (Z.le_trans _ (base * (pw (-52) * one))); [apply Z.mul_le_mono_nonneg_l; lia|].
    rewrite Z.mul_assoc. apply Z.mul_le_mono_nonneg_r; lia. }
  assert (2 * Z.abs ((t - base * m) * one) ≤ one * one) as Htm.
  { rewrite Z.abs_mul, (Z.abs_eq one), Z.mul_assoc by lia. apply Z.mul_le_mono_nonneg_r; lia. }
  pose proof (Z.div_mod t one ltac:(lia)) as Hd. pose proof (Z.mod_pos_bound t one Hone) as Hr.
  assert (t * one = t / one * (one * one) + t mod one * one) as Htq by (rewrite Hd at 1; ring).
  assert (0 ≤ t mod one * one ≤ one * one) as Hrr by (split; [apply Z.mul_nonneg_nonneg|apply Z.mul_le_mono_nonneg_r]; lia).
  rewrite Z.mul_sub_distr_l in Hbm. rewrite Z.mul_sub_distr_r, Htq in Htm. rewrite Z.mul_assoc in Hbm.
  revert Hbm Htm Hrr. clear. lia.
Qed.
