(* ===== verification/GoStrings.v ===== *)
(** * Go strings

    Go's [string] and [[]byte] are both sequences of bytes; the model uses
    [string] (a list of 8-bit [ascii]) for the two. This file models the
    functions of the Go [strings], [slices] and [fmt] packages the program
    calls, on ASCII text (domain names in presentation format are ASCII, any
    other octet being escaped), with the lemmas the components share: the
    byte order is a total order, suffixes, fixed-width decimal keys. *)

From Stdlib Require Export Ascii.
From S2P Require Import Prelude.

Abbreviation bytes := string (only parsing).

(** ** Slicing, searching *)

Fixpoint str_drop (n : nat) (s : string) : string :=
  match n, s with
  | 0, _ => s
  | S n, String _ s => str_drop n s
  | S _, "" => ""
  end.

Fixpoint str_take (n : nat) (s : string) : string :=
  match n, s with
  | S n, String c s => String c (str_take n s)
  | _, _ => ""
  end.

Fixpoint HasPrefix (s p : string) : bool :=
  match p, s with
  | "", _ => true
  | String c p, String d s => bool_decide (c = d) && HasPrefix s p
  | String _ _, "" => false
  end.

Definition HasSuffix (s suf : string) : bool :=
  if bool_decide (String.length suf ≤ String.length s)
  then bool_decide (str_drop (String.length s - String.length suf) s = suf)
  else false.

Definition TrimSuffix (s suf : string) : string :=
  if HasSuffix s suf then str_take (String.length s - String.length suf) s else s.

(** [strings.IndexByte]; [None] is Go's [-1]. *)
Fixpoint IndexByte (s : string) (c : ascii) : option nat :=
  match s with
  | "" => None
  | String d s => if bool_decide (d = c) then Some 0 else S <$> IndexByte s c
  end.

(** [strings.Contains]. *)
Fixpoint Contains (s sub : string) : bool :=
  HasPrefix s sub || match s with "" => false | String _ s => Contains s sub end.

(** Remove the leading (trailing) bytes in a class. *)
Fixpoint trim_left (p : ascii → bool) (s : string) : string :=
  match s with
  | "" => ""
  | String c s' => if p c then trim_left p s' else s
  end.

Fixpoint trim_right (p : ascii → bool) (s : string) : string :=
  match s with
  | "" => ""
  | String c s' =>
      match trim_right p s' with
      | "" => if p c then "" else String c ""
      | r => String c r
      end
  end.

Definition isSpace (c : ascii) : bool := Ascii.is_space c.
Definition TrimSpace (s : string) : string := trim_right isSpace (trim_left isSpace s).
(** [strings.TrimRight(s, cutset)] for a one-byte cutset. *)
Definition TrimRight (s : string) (c : ascii) : string := trim_right (λ d, bool_decide (d = c)) s.

Fixpoint str_map (f : ascii → ascii) (s : string) : string :=
  match s with "" => "" | String c s => String (f c) (str_map f s) end.

Definition in_range (lo hi c : ascii) : bool :=
  (N_of_ascii lo <=? N_of_ascii c)%N && (N_of_ascii c <=? N_of_ascii hi)%N.

Definition lower_byte (c : ascii) : ascii :=
  if in_range "A" "Z" c then ascii_of_N (N_of_ascii c + 32) else c.
Definition upper_byte (c : ascii) : ascii :=
  if in_range "a" "z" c then ascii_of_N (N_of_ascii c - 32) else c.
Definition ToLower : string → string := str_map lower_byte.
Definition ToUpper : string → string := str_map upper_byte.
(** [strings.EqualFold] on ASCII. *)
Definition EqualFold (a b : string) : bool := bool_decide (ToLower a = ToLower b).

Fixpoint Repeat (s : string) (n : nat) : string :=
  match n with 0 => "" | S n => s +:+ Repeat s n end.

(** [strings.Join]. *)
Fixpoint Join (l : list string) (sep : string) : string :=
  match l with
  | [] => ""
  | [s] => s
  | s :: l => s +:+ sep +:+ Join l sep
  end.

(** ** Order: Go compares strings byte by byte *)

Definition StrCompare (a b : string) : Z :=
  match String.compare a b with Lt => -1 | Eq => 0 | Gt => 1 end.
Definition str_ltb (a b : string) : bool :=
  match String.compare a b with Lt => true | _ => false end.
Definition str_leb (a b : string) : bool := negb (str_ltb b a).
Definition str_lt (a b : string) : Prop := String.compare a b = Lt.
Definition str_le (a b : string) : Prop := str_lt a b ∨ a = b.

(** ** [fmt.Sprintf] *)

(** ["%d"]. *)
Definition fmt_d (z : Z) : string := pretty z.

(** ["%0wd"] of a non-negative integer. *)
Definition fmt_0d (w : nat) (z : Z) : string :=
  let s := pretty z in Repeat "0" (w - String.length s) +:+ s.

(** ["%v"] of a slice of integers: ["[1 2 3]"]. *)
Definition fmt_slice (l : list Z) : string :=
  "[" +:+ Join (fmt_d <$> l) " " +:+ "]".

(** ** Lemmas *)

Lemma str_app_nil_r (s : string) : s +:+ "" = s.
Proof. induction s as [|c s IH]; [done|]. change (String c (s +:+ "") = String c s). by rewrite IH. Qed.
Lemma str_app_assoc (a b c : string) : a +:+ (b +:+ c) = (a +:+ b) +:+ c.
Proof.
  induction a as [|x a IH]; [done|].
  change (String x (a +:+ (b +:+ c)) = String x ((a +:+ b) +:+ c)). by rewrite IH.
Qed.
Lemma str_app_cons c (a b : string) : String c a +:+ b = String c (a +:+ b).
Proof. done. Qed.
Lemma str_app_nil_l (a : string) : "" +:+ a = a.
Proof. done. Qed.
Lemma str_length_app (a b : string) :
  String.length (a +:+ b) = String.length a + String.length b.
Proof. induction a as [|x a IH]; [done|]. rewrite str_app_cons. simpl. by rewrite IH. Qed.

Lemma str_app_inj_length (a1 a2 b1 b2 : string) :
  String.length a1 = String.length a2 → a1 +:+ b1 = a2 +:+ b2 → a1 = a2 ∧ b1 = b2.
Proof.
  revert a2. induction a1 as [|c a1 IH]; intros [|d a2] Hl H; try done.
  rewrite !str_app_cons in H. injection Hl as Hl. injection H as -> H.
  by destruct (IH a2 Hl H) as [-> ->].
Qed.

Lemma str_app_inj_r (a1 a2 b : string) : a1 +:+ b = a2 +:+ b → a1 = a2.
Proof.
  intros H. apply (str_app_inj_length _ _ b b); [|done].
  apply (f_equal String.length) in H. rewrite !str_length_app in H. lia.
Qed.

Lemma str_drop_app (a b : string) : str_drop (String.length a) (a +:+ b) = b.
Proof. induction a; simpl; done. Qed.
Lemma str_take_app (a b : string) : str_take (String.length a) (a +:+ b) = a.
Proof. induction a as [|c a IH]; [by destruct b|]. rewrite str_app_cons. simpl. by rewrite IH. Qed.
Lemma str_take_drop n (s : string) : str_take n s +:+ str_drop n s = s.
Proof.
  revert n. induction s as [|c s IH]; intros [|n]; simpl; try done.
  rewrite str_app_cons. by rewrite IH.
Qed.
Lemma str_length_take n s : String.length (str_take n s) = n `min` String.length s.
Proof. revert n. induction s as [|c s IH]; intros [|n]; simpl; try lia. rewrite IH. lia. Qed.

Lemma HasSuffix_spec s suf : HasSuffix s suf = true ↔ ∃ p, s = p +:+ suf.
Proof.
  unfold HasSuffix. split.
  - case_bool_decide as Hl; [|done]. intros Hd%bool_decide_eq_true.
    exists (str_take (String.length s - String.length suf) s).
    rewrite <-Hd at 2. by rewrite str_take_drop.
  - intros [p ->]. rewrite str_length_app.
    rewrite bool_decide_true by lia. apply bool_decide_eq_true.
    replace (_ - _) with (String.length p) by lia. apply str_drop_app.
Qed.

Lemma HasSuffix_app p suf : HasSuffix (p +:+ suf) suf = true.
Proof. apply HasSuffix_spec. by exists p. Qed.

Lemma TrimSuffix_app p suf : TrimSuffix (p +:+ suf) suf = p.
Proof.
  unfold TrimSuffix. rewrite HasSuffix_app, str_length_app.
  replace (_ - _) with (String.length p) by lia. apply str_take_app.
Qed.

Lemma HasPrefix_spec s p : HasPrefix s p = true ↔ ∃ r, s = p +:+ r.
Proof.
  revert s. induction p as [|c p IH]; intros s; simpl.
  - split; [by exists s|by destruct s].
  - destruct s as [|d s]; [split; [done|intros [r H]; by rewrite str_app_cons in H]|].
    simpl. rewrite andb_true_iff, (IH s), bool_decide_eq_true. split.
    + intros [-> [r ->]]. by exists r.
    + intros [r H]. rewrite str_app_cons in H. injection H as -> ->.
      split; [done|by exists r].
Qed.

(** *** Case mapping *)

Lemma str_map_app f a b : str_map f (a +:+ b) = str_map f a +:+ str_map f b.
Proof. induction a as [|c a IH]; [done|]. rewrite !str_app_cons. simpl. by rewrite IH. Qed.
Lemma str_map_length f s : String.length (str_map f s) = String.length s.
Proof. induction s; simpl; congruence. Qed.
Lemma str_map_map f g s : (∀ c, f (g c) = g c) → str_map f (str_map g s) = str_map g s.
Proof. intros H. induction s; simpl; congruence. Qed.

Lemma lower_byte_idemp c : lower_byte (lower_byte c) = lower_byte c.
Proof. destruct c as [[] [] [] [] [] [] [] []]; vm_compute; reflexivity. Qed.
Lemma lower_byte_upper c : upper_byte (lower_byte c) = upper_byte c.
Proof. destruct c as [[] [] [] [] [] [] [] []]; vm_compute; reflexivity. Qed.
Lemma ToLower_idemp s : ToLower (ToLower s) = ToLower s.
Proof. apply str_map_map, lower_byte_idemp. Qed.
Lemma ToLower_app a b : ToLower (a +:+ b) = ToLower a +:+ ToLower b.
Proof. apply str_map_app. Qed.
Lemma ToLower_length s : String.length (ToLower s) = String.length s.
Proof. apply str_map_length. Qed.
Lemma ToUpper_ToLower s : ToUpper (ToLower s) = ToUpper s.
Proof. induction s as [|c s IH]; [done|]. unfold ToUpper, ToLower in *. simpl.
  rewrite IH, lower_byte_upper. done. Qed.

Lemma lower_byte_dot c : lower_byte c = "."%char ↔ c = "."%char.
Proof. destruct c as [[] [] [] [] [] [] [] []]; vm_compute; split; congruence. Qed.

Lemma lower_byte_space c : isSpace (lower_byte c) = isSpace c.
Proof. destruct c as [[] [] [] [] [] [] [] []]; reflexivity. Qed.

Lemma ToLower_nil s : ToLower s = "" ↔ s = "".
Proof. destruct s; split; unfold ToLower; simpl; congruence. Qed.

Lemma HasSuffix_dot_ToLower s : HasSuffix (ToLower s) "." = HasSuffix s ".".
Proof.
  apply Bool.eq_true_iff_eq. rewrite !HasSuffix_spec. split.
  - intros [p H]. exists (str_take (String.length s - 1) s).
    rewrite <-(str_take_drop (String.length s - 1) s) in H at 1.
    rewrite ToLower_app in H.
    assert (String.length s = String.length p + 1) as Hs.
    { apply (f_equal String.length) in H.
      rewrite <-ToLower_app, str_take_drop, ToLower_length, str_length_app in H. simpl in H. lia. }
    apply str_app_inj_length in H as [_ H].
    2:{ rewrite ToLower_length, str_length_take. lia. }
    destruct (str_drop (String.length s - 1) s) as [|c [|]] eqn:Hd; try done.
    unfold ToLower in H; simpl in H. injection H as H. apply lower_byte_dot in H as ->.
    rewrite <-Hd. by rewrite str_take_drop.
  - intros [p ->]. rewrite ToLower_app. by exists (ToLower p).
Qed.

(** *** Trimming *)

Lemma trim_left_length p s : String.length (trim_left p s) ≤ String.length s.
Proof. induction s as [|c s IH]; simpl; [lia|]. destruct (p c); simpl; lia. Qed.
Lemma trim_right_length p s : String.length (trim_right p s) ≤ String.length s.
Proof.
  induction s as [|c s IH]; simpl; [lia|].
  destruct (trim_right p s); simpl in *; [destruct (p c); simpl; lia|lia].
Qed.
Lemma TrimSpace_length s : String.length (TrimSpace s) ≤ String.length s.
Proof.
  unfold TrimSpace. pose proof (trim_right_length isSpace (trim_left isSpace s)).
  pose proof (trim_left_length isSpace s). lia.
Qed.

(** A string whose last byte is outside the class is not trimmed on the right. *)
Lemma trim_right_app_last p s c : p c = false → trim_right p (s +:+ String c "") = s +:+ String c "".
Proof.
  intros Hc. induction s as [|d s IH]; simpl; [by rewrite Hc|].
  rewrite str_app_cons. simpl. rewrite IH. destruct s; done.
Qed.

Lemma trim_left_idemp p s : trim_left p (trim_left p s) = trim_left p s.
Proof. induction s as [|c s IH]; [done|]. simpl. destruct (p c) eqn:E; [done|]. simpl. by rewrite E. Qed.

Lemma trim_left_head p c s : p c = false → trim_left p (String c s) = String c s.
Proof. intros H. simpl. by rewrite H. Qed.

Lemma trim_left_not_head p s c r : trim_left p s = String c r → p c = false.
Proof. induction s as [|d s IH]; simpl; [done|]. destruct (p d) eqn:E; [done|]. intros [= -> ->]. done. Qed.

Lemma trim_right_none p s : (∀ c, p c = false) → trim_right p s = s.
Proof. intros Hp. induction s as [|c s IH]; [done|]. simpl. rewrite IH, Hp. by destruct s. Qed.

(** *** The byte order *)

Lemma ascii_compare_refl c : Ascii.compare c c = Eq.
Proof. apply N.compare_refl. Qed.

Lemma str_compare_eq a b : String.compare a b = Eq ↔ a = b.
Proof.
  split; [apply String.compare_eq_iff|intros ->].
  induction b as [|c b IH]; [done|]. simpl. by rewrite ascii_compare_refl.
Qed.

Lemma str_compare_refl s : String.compare s s = Eq.
Proof. by apply str_compare_eq. Qed.

Lemma str_compare_antisym a b : String.compare b a = CompOpp (String.compare a b).
Proof. rewrite String.compare_antisym. done. Qed.

Lemma str_lt_irrefl a : ¬ str_lt a a.
Proof. unfold str_lt. by rewrite str_compare_refl. Qed.

#[export] Instance str_lt_trans : Transitive str_lt.
Proof.
  unfold str_lt. intros a b c. revert b c.
  induction a as [|x a IH]; intros [|y b] [|z c]; simpl; try done.
  unfold Ascii.compare.
  destruct (N.compare_spec (N_of_ascii x) (N_of_ascii y)) as [E1|E1|E1]; [|intros _|done];
  destruct (N.compare_spec (N_of_ascii y) (N_of_ascii z)) as [E2|E2|E2]; try done.
  - rewrite E1, E2, N.compare_refl. by apply IH.
  - intros _ _. by rewrite E1, (proj2 (N.compare_lt_iff _ _) E2).
  - intros _. by rewrite <-E2, (proj2 (N.compare_lt_iff _ _) E1).
  - intros _. rewrite (proj2 (N.compare_lt_iff _ _)); [done|]. by etrans.
Qed.

#[export] Instance str_lt_strict : StrictOrder str_lt.
Proof. split; [intros a; apply str_lt_irrefl|apply _]. Qed.

Lemma str_lt_total a b : str_lt a b ∨ a = b ∨ str_lt b a.
Proof.
  unfold str_lt. rewrite (str_compare_antisym a b).
  destruct (String.compare a b) eqn:E; simpl; auto.
  right; left. by apply str_compare_eq.
Qed.

#[export] Instance str_lt_dec : RelDecision str_lt.
Proof. intros a b. unfold str_lt. apply _. Defined.
#[export] Instance str_le_dec : RelDecision str_le.
Proof. intros a b. unfold str_le. apply _. Defined.

Lemma str_le_not_lt a b : str_le a b ↔ ¬ str_lt b a.
Proof.
  unfold str_le. destruct (str_lt_total a b) as [H|[->|H]].
  - split; [|by left]. intros _ H'. eapply str_lt_irrefl. by etrans.
  - split; [intros _; apply str_lt_irrefl|by right].
  - split; [|done]. intros [H'| ->]; [|by apply str_lt_irrefl in H].
    exfalso. eapply str_lt_irrefl. by etrans.
Qed.

#[export] Instance str_le_preorder : PreOrder str_le.
Proof.
  split; [by right|]. intros a b c [H1| ->] [H2| ->]; unfold str_le; auto.
  left. by etrans.
Qed.
#[export] Instance str_le_antisymm : AntiSymm (=) str_le.
Proof. intros a b [H1| ->] [H2| ?]; try done. exfalso. eapply str_lt_irrefl. by etrans. Qed.
#[export] Instance str_le_total : Total str_le.
Proof. intros a b. unfold str_le. destruct (str_lt_total a b) as [?|[->|?]]; auto. Qed.

Lemma str_le_lt_trans a b c : str_le a b → str_lt b c → str_lt a c.
Proof. intros [H| ->] H'; [by etrans|done]. Qed.
Lemma str_lt_le_trans a b c : str_lt a b → str_le b c → str_lt a c.
Proof. intros H [H'| ->]; [by etrans|done]. Qed.
Lemma str_lt_le a b : str_lt a b → str_le a b.
Proof. by left. Qed.

Lemma str_ltb_spec a b : str_ltb a b = true ↔ str_lt a b.
Proof. unfold str_ltb, str_lt. by destruct (String.compare a b). Qed.
Lemma str_leb_spec a b : str_leb a b = true ↔ str_le a b.
Proof. unfold str_leb. rewrite negb_true_iff, str_le_not_lt, <-str_ltb_spec. by destruct (str_ltb b a). Qed.

Lemma StrCompare_sgn a b :
  StrCompare a b = (if str_ltb a b then -1 else if bool_decide (a = b) then 0 else 1)%Z.
Proof.
  unfold StrCompare, str_ltb. destruct (String.compare a b) eqn:E; [| done |].
  - apply str_compare_eq in E as ->. by rewrite bool_decide_true.
  - rewrite bool_decide_false; [done|]. intros ->. by rewrite str_compare_refl in E.
Qed.

Lemma StrCompare_0 a b : StrCompare a b = 0%Z ↔ a = b.
Proof. unfold StrCompare. rewrite <-str_compare_eq. by destruct (String.compare a b). Qed.
Lemma StrCompare_le a b : (StrCompare a b ≤ 0)%Z ↔ str_le a b.
Proof.
  unfold StrCompare, str_le, str_lt. rewrite <-str_compare_eq.
  destruct (String.compare a b); split; try (intros; lia); auto; by intros [?|?].
Qed.

#[export] Instance StrCompare_order : CmpOrder StrCompare.
Proof.
  split.
  - intros a b. unfold StrCompare. rewrite (str_compare_antisym a b).
    by destruct (String.compare a b).
  - intros a b c. rewrite !StrCompare_le. by intros; etrans.
Qed.

(** Comparing after a common prefix, and strings that differ inside a
    prefix of the same length. *)
Lemma str_lt_app_l p a b : str_lt (p +:+ a) (p +:+ b) ↔ str_lt a b.
Proof.
  unfold str_lt. induction p as [|c p IH]; [done|].
  rewrite !str_app_cons. simpl. by rewrite ascii_compare_refl.
Qed.

Lemma str_lt_app_length a1 a2 b1 b2 :
  String.length a1 = String.length a2 → str_lt a1 a2 → str_lt (a1 +:+ b1) (a2 +:+ b2).
Proof.
  unfold str_lt. revert a2. induction a1 as [|c a1 IH]; intros [|d a2] Hl; try done.
  injection Hl as Hl. rewrite !str_app_cons. simpl. destruct (Ascii.compare c d); auto.
Qed.
