(* ===== verification/NetAddr.v ===== *)
(** * Internet addresses

    The functions of the Go [net] package the program calls on addresses:
    [ParseIP], [ParseCIDR], [IPNet.Contains] and [SplitHostPort], as the
    standard library (net, net/netip) has them. An address is its sixteen
    bytes, an IPv4 address in the form mapped into IPv6; [net.IP]'s four-byte
    form only appears as the result of [To4]. Zones ([fe80::1%eth0]) parse
    but are refused by the two callers here. *)

From S2P Require Import Prelude GoStrings.

Definition byte_of (c : ascii) : Z := Z.of_nat (nat_of_ascii c).

Definition dec_digit (c : ascii) : option Z :=
  if in_range "0" "9" c then Some (byte_of c - 48)%Z else None.
Definition hex_digit (c : ascii) : option Z :=
  if in_range "0" "9" c then Some (byte_of c - 48)%Z
  else if in_range "a" "f" c then Some (byte_of c - 87)%Z
  else if in_range "A" "F" c then Some (byte_of c - 55)%Z
  else None.

(** [parseIPv4Fields]: the bytes, or [None]. [val] and [digLen] are those of
    the field being read, [fields] the ones before. *)
Fixpoint ipv4_loop (s : string) (val : Z) (digLen : nat) (fields : list Z) : option (list Z) :=
  match s with
  | "" => if bool_decide (length fields < 3) then None else Some (fields ++ [val])
  | String c s =>
      match dec_digit c with
      | Some d =>
          if bool_decide (digLen = 1) && bool_decide (val = 0%Z) then None
          else
            let val := (val * 10 + d)%Z in
            if bool_decide (255 < val)%Z then None else ipv4_loop s val (S digLen) fields
      | None =>
          if bool_decide (c = "."%char)
          then
            if bool_decide (digLen = 0) || bool_decide (s = "") then None
            else if bool_decide (length fields = 3) then None
            else ipv4_loop s 0 0 (fields ++ [val])
          else None
      end
  end.
Definition parseIPv4Fields (s : string) : option (list Z) :=
  if bool_decide (s = "") then None else ipv4_loop s 0 0 [].

(** The hexadecimal digits a group starts with: value, number, rest. *)
Fixpoint hex_group (s : string) (off : nat) (acc : Z) : option (Z * nat * string) :=
  match s with
  | String c s' =>
      match hex_digit c with
      | Some d =>
          if bool_decide (3 < off) then None else hex_group s' (S off) (acc * 16 + d)%Z
      | None => Some (acc, off, s)
      end
  | "" => Some (acc, off, "")
  end.

(** The loop of [parseIPv6]: the bytes read, where the ellipsis is, the rest.
    Every round reads a group, so eight units of fuel are enough. *)
Fixpoint ipv6_loop (fuel : nat) (s : string) (ip : list Z) (ellipsis : option nat) : option (list Z * option nat * string) :=
  match fuel with
  | 0 => Some (ip, ellipsis, s)
  | S fuel =>
      match hex_group s 0 0 with
      | None => None
      | Some (_, 0, _) => None
      | Some (acc, _, r) =>
          match r with
          | String "." _ =>
              if bool_decide (ellipsis = None) && negb (bool_decide (length ip = 12)) then None
              else if bool_decide (16 < length ip + 4) then None
              else
                match parseIPv4Fields s with
                | None => None
                | Some v4 => Some (ip ++ v4, ellipsis, "")
                end
          | _ =>
              let ip := ip ++ [acc / 256; acc mod 256]%Z in
              match r with
              | "" => Some (ip, ellipsis, "")
              | String ":" "" => None
              | String ":" (String ":" r') =>
                  if bool_decide (is_Some ellipsis) then None
                  else if bool_decide (r' = "") then Some (ip, Some (length ip), "")
                  else ipv6_loop fuel r' ip (Some (length ip))
              | String ":" r' => ipv6_loop fuel r' ip ellipsis
              | String _ _ => None
              end
          end
      end
  end.

(** [parseIPv6], of an address without a zone. *)
Definition parseIPv6 (s : string) : option (list Z) :=
  let '(ellipsis, s) := if HasPrefix s "::" then (Some 0, str_drop 2 s) else (None, s) in
  if bool_decide (is_Some ellipsis) && bool_decide (s = "") then Some (replicate 16 0%Z)
  else
    match ipv6_loop 8 s [] ellipsis with
    | Some (ip, ellipsis, "") =>
        if bool_decide (length ip < 16) then
          match ellipsis with
          | None => None
          | Some e => Some (take e ip ++ replicate (16 - length ip) 0%Z ++ drop e ip)
          end
        else if bool_decide (is_Some ellipsis) then None else Some ip
    | _ => None
    end.

Definition v4InV6Prefix : list Z := replicate 10 0%Z ++ [255; 255]%Z.
Definition To4 (ip : list Z) : option (list Z) :=
  if bool_decide (take 12 ip = v4InV6Prefix) then Some (drop 12 ip) else None.

(** [netip.ParseAddr], addresses with a zone excepted: the bytes and
    whether the address is a dotted IPv4 one. *)
Definition ParseAddr (s : string) : option (list Z * bool) :=
  match IndexByte s "%" with
  | Some _ => None
  | None =>
      match IndexByte s ".", IndexByte s ":" with
      | Some i, None => (λ v4, (v4InV6Prefix ++ v4, true)) <$> parseIPv4Fields s
      | Some i, Some j =>
          if bool_decide (i < j) then (λ v4, (v4InV6Prefix ++ v4, true)) <$> parseIPv4Fields s
          else (., false) <$> parseIPv6 s
      | None, Some _ => (., false) <$> parseIPv6 s
      | None, None => None
      end
  end.

Definition ParseIP (s : string) : option (list Z) := fst <$> ParseAddr s.

(** An [IPNet]: the address, and the mask, of four or sixteen bytes. *)
Record IPNet := mkIPNet { in_IP : list Z; in_Mask : list Z }.

(** [CIDRMask(ones, 8 * len)] *)
Fixpoint CIDRMask (ones : Z) (len : nat) : list Z :=
  match len with
  | 0 => []
  | S len =>
      (if bool_decide (8 ≤ ones)%Z then 255 else 255 - Z.shiftr 255 ones)%Z
        :: CIDRMask (if bool_decide (8 ≤ ones)%Z then ones - 8 else 0)%Z len
  end.

(** [dtoi], on the whole string. *)
Fixpoint dtoi (s : string) (n : Z) : option Z :=
  match s with
  | "" => Some n
  | String c s =>
      match dec_digit c with
      | None => None
      | Some d => let n := (n * 10 + d)%Z in if bool_decide (16777215 ≤ n)%Z then None else dtoi s n
      end
  end.

Definition ParseCIDR (s : string) : option IPNet :=
  match IndexByte s "/" with
  | None => None
  | Some i =>
      let mask := str_drop (S i) s in
      match ParseAddr (str_take i s), dtoi mask 0 with
      | Some (ip, is4), Some n =>
          if bool_decide (mask = "") || bool_decide ((if is4 : bool then 32 else 128) < n)%Z then None
          else if is4
          then let m := CIDRMask n 4 in Some (mkIPNet (zip_with Z.land (drop 12 ip) m) m)
          else let m := CIDRMask n 16 in Some (mkIPNet (zip_with Z.land ip m) m)
      | _, _ => None
      end
  end.

(** [ParseCIDR(ip.String() + "/32")] and ["/128"]. *)
Definition host_net (ip : list Z) : IPNet :=
  match To4 ip with
  | Some v4 => mkIPNet v4 (CIDRMask 32 4)
  | None => mkIPNet ip (CIDRMask 128 16)
  end.

(** [IPNet.Contains], with [networkNumberAndMask]. *)
Definition IPNet_Contains (n : IPNet) (ip : list Z) : bool :=
  let '(nn, m) :=
    if bool_decide (length (in_IP n) = 4) then (in_IP n, in_Mask n)
    else match To4 (in_IP n) with Some v4 => (v4, drop 12 (in_Mask n)) | None => (in_IP n, in_Mask n) end in
  let ip := default ip (To4 ip) in
  if bool_decide (length ip = length nn)
  then forallb (λ e, bool_decide (Z.land e.1.1 e.1.2 = Z.land e.2 e.1.2)) (zip (zip nn m) ip)
  else false.

(** [net.SplitHostPort]: host and port. *)
Fixpoint last_index (s : string) (c : ascii) : option nat :=
  match s with
  | "" => None
  | String d s => match last_index s c with Some i => Some (S i) | None => if bool_decide (d = c) then Some 0 else None end
  end.

Definition SplitHostPort (s : string) : option (string * string) :=
  i ← last_index s ":";
  let port := str_drop (S i) s in
  let rest k := str_drop k s in
  if HasPrefix s "[" then
    end_ ← IndexByte s "]";
    if bool_decide (S end_ = String.length s) then None
    else if negb (bool_decide (S end_ = i)) then None
    else if bool_decide (is_Some (IndexByte (rest 1) "[")) then None
    else if bool_decide (is_Some (IndexByte (rest (S end_)) "]")) then None
    else Some (str_drop 1 (str_take end_ s), port)
  else
    let host := str_take i s in
    if bool_decide (is_Some (IndexByte host ":")) then None
    else if bool_decide (is_Some (IndexByte s "[")) then None
    else if bool_decide (is_Some (IndexByte s "]")) then None
    else Some (host, port).
