(* ===== verification/Decimal.v ===== *)
(** * Decimal keys

    [fmt.Sprintf("%010d", n)] and ["%d"]: on the integers the program
    formats, fixed-width decimals compare like the numbers, and no decimal
    contains a separator, so that keys built from them are injective. *)

From S2P Require Import Prelude GoStrings.

(** The decimal of exactly [w] digits. *)
Fixpoint dec (w : nat) (n : N) : string :=
  match w with
  | 0 => ""
  | S w => dec w (n / 10) +:+ String (pretty_N_char (n mod 10)) ""
  end.

(** The digits of a positive number, nothing for zero. *)
Definition digits (n : N) : string := pretty_N_go n "".

Lemma pretty_N_go_app n s : pretty_N_go n s = digits n +:+ s.
Proof.
  unfold digits. revert s. induction (N.lt_wf_0 n) as [n _ IH]; intros s.
  destruct (decide (0 < n)%N) as [Hn|Hn].
  - assert (n `div` 10 < n)%N as Hlt by (by apply N.div_lt).
    rewrite (pretty_N_go_step n s), (pretty_N_go_step n "") by done.
    rewrite (IH _ Hlt (String _ s)), (IH _ Hlt (String _ "")). by rewrite <-str_app_assoc.
  - replace n with 0%N by lia. by rewrite !pretty_N_go_0.
Qed.

Lemma digits_step n : (0 < n)%N → digits n = digits (n / 10) +:+ String (pretty_N_char (n mod 10)) "".
Proof.
  intros Hn. unfold digits at 1. rewrite pretty_N_go_step by done. by rewrite pretty_N_go_app.
Qed.

Lemma digits_0 : digits 0 = "".
Proof. apply pretty_N_go_0. Qed.

Lemma Repeat_S s n : Repeat s (S n) = s +:+ Repeat s n.
Proof. done. Qed.

Lemma dec_0 w : dec w 0 = Repeat "0" w.
Proof.
  induction w as [|w IH]; [done|]. cbn [dec]. change (0 / 10)%N with 0%N. rewrite IH.
  change (pretty_N_char (0 mod 10)) with "0"%char. clear IH.
  induction w as [|w IH]; [done|]. cbn [Repeat] in *. rewrite str_app_cons, str_app_nil_l in *.
  rewrite str_app_cons. by rewrite IH.
Qed.

Lemma dec_digits w n : (n < 10 ^ N.of_nat w)%N →
  String.length (digits n) ≤ w ∧ Repeat "0" (w - String.length (digits n)) +:+ digits n = dec w n.
Proof.
  revert n. induction w as [|w IH]; intros n Hn.
  - simpl in Hn. replace n with 0%N by lia. rewrite digits_0. done.
  - destruct (decide (0 < n)%N) as [Hp|Hp].
    + rewrite digits_step by done. rewrite str_length_app. cbn [String.length dec].
      destruct (IH (n / 10)%N) as [Hl He].
      { apply N.Div0.div_lt_upper_bound.
        by rewrite Nat2N.inj_succ, N.pow_succ_r' in Hn. }
      split; [lia|]. rewrite str_app_assoc. f_equal. rewrite <-He. do 2 f_equal. lia.
    + replace n with 0%N by lia. rewrite digits_0, dec_0. cbn [String.length].
      split; [lia|]. by rewrite str_app_nil_r, Nat.sub_0_r.
Qed.

Lemma pretty_Z_nonneg z : (0 ≤ z)%Z → fmt_d z = pretty (Z.to_N z).
Proof. intros Hz. unfold fmt_d. destruct z; done || lia. Qed.

Lemma pretty_N_digits n : pretty n = if bool_decide (n = 0%N) then "0" else digits n.
Proof. unfold pretty, pretty_N. case_decide; [by rewrite bool_decide_true|by rewrite bool_decide_false]. Qed.

Lemma fmt_0d_dec w z :
  0 < w → (0 ≤ z < 10 ^ Z.of_nat w)%Z → fmt_0d w z = dec w (Z.to_N z).
Proof.
  intros Hw Hz. unfold fmt_0d. change (pretty z) with (fmt_d z).
  rewrite pretty_Z_nonneg by lia. rewrite pretty_N_digits. case_bool_decide as H0.
  - rewrite H0. destruct w as [|w]; [lia|]. cbn [String.length].
    replace (S w - 1) with w by lia. rewrite <-dec_0. done.
  - apply dec_digits. apply N2Z.inj_lt. rewrite Z2N.id, N2Z.inj_pow, nat_N_Z by lia. done || lia.
Qed.

Lemma dec_length w n : String.length (dec w n) = w.
Proof. revert n. induction w as [|w IH]; intros n; [done|]. simpl. rewrite str_length_app, IH. simpl. lia. Qed.

Lemma pretty_N_char_lt a b : (a < b)%N → (b < 10)%N →
  str_lt (String (pretty_N_char a) "") (String (pretty_N_char b) "").
Proof.
  intros Hab Hb.
  assert (forallb (λ p : nat * nat, negb (p.1 <? p.2)%nat ||
    bool_decide (str_lt (String (pretty_N_char (N.of_nat p.1)) "") (String (pretty_N_char (N.of_nat p.2)) "")))
    (list_prod (seq 0 10) (seq 0 10)) = true) as H by (vm_compute; reflexivity).
  rewrite forallb_forall in H. specialize (H (N.to_nat a, N.to_nat b)). cbn beta iota delta [fst snd] in H.
  rewrite !N2Nat.id in H. apply orb_true_iff in H as [H|H].
  - apply negb_true_iff, Nat.ltb_ge in H. lia.
  - by apply bool_decide_eq_true in H.
  - apply in_prod; apply in_seq; lia.
Qed.

(** Fixed-width decimals are ordered like the numbers. *)
Lemma dec_lt w a b : (a < b)%N → (b < 10 ^ N.of_nat w)%N → str_lt (dec w a) (dec w b).
Proof.
  revert a b. induction w as [|w IH]; intros a b Hab Hb; [simpl in Hb; lia|]. cbn [dec].
  rewrite Nat2N.inj_succ, N.pow_succ_r' in Hb.
  assert (b / 10 < 10 ^ N.of_nat w)%N as Hb' by (by apply N.Div0.div_lt_upper_bound).
  assert (a / 10 ≤ b / 10)%N as Hle by (apply N.Div0.div_le_mono; lia).
  apply N.lt_eq_cases in Hle as [Hlt|Heq].
  - apply str_lt_app_length; [by rewrite !dec_length|]. by apply IH.
  - rewrite Heq, str_lt_app_l. apply pretty_N_char_lt; [|by apply N.mod_lt].
    rewrite (N.div_mod a 10), (N.div_mod b 10) in Hab by done. lia.
Qed.

Lemma fmt_0d_lt w a b : 0 < w → (0 ≤ a)%Z → (a < b)%Z → (b < 10 ^ Z.of_nat w)%Z →
  str_lt (fmt_0d w a) (fmt_0d w b).
Proof.
  intros. rewrite !fmt_0d_dec by lia. apply dec_lt; [lia|].
  apply N2Z.inj_lt. rewrite Z2N.id, N2Z.inj_pow, nat_N_Z by lia. done || lia.
Qed.

Lemma fmt_0d_length w z : 0 < w → (0 ≤ z < 10 ^ Z.of_nat w)%Z → String.length (fmt_0d w z) = w.
Proof. intros. rewrite fmt_0d_dec by done. apply dec_length. Qed.

Lemma fmt_0d_inj w a b : 0 < w → (0 ≤ a < 10 ^ Z.of_nat w)%Z → (0 ≤ b < 10 ^ Z.of_nat w)%Z →
  fmt_0d w a = fmt_0d w b → a = b.
Proof.
  intros Hw Ha Hb Heq. destruct (Z.lt_trichotomy a b) as [H|[H|H]]; [|done|].
  - apply (fmt_0d_lt w) in H; [|lia..]. rewrite Heq in H. by apply str_lt_irrefl in H.
  - apply (fmt_0d_lt w) in H; [|lia..]. rewrite Heq in H. by apply str_lt_irrefl in H.
Qed.

Lemma fmt_d_inj a b : fmt_d a = fmt_d b → a = b.
Proof. apply (inj pretty). Qed.

(** ** Separators *)

Fixpoint no_byte (c : ascii) (s : string) : Prop :=
  match s with "" => True | String d s => d ≠ c ∧ no_byte c s end.

Lemma no_byte_app c a b : no_byte c (a +:+ b) ↔ no_byte c a ∧ no_byte c b.
Proof.
  induction a as [|d a IH]; [by rewrite str_app_nil_l; simpl; tauto|].
  rewrite str_app_cons. simpl. rewrite IH. tauto.
Qed.

Definition is_digit (c : ascii) : bool := in_range "0" "9" c.

Lemma pretty_N_char_digit n : (n < 10)%N → is_digit (pretty_N_char n) = true.
Proof.
  intros Hn.
  assert (forallb (λ i, is_digit (pretty_N_char (N.of_nat i))) (seq 0 10) = true) as H by (vm_compute; reflexivity).
  rewrite forallb_forall in H. specialize (H (N.to_nat n)). rewrite N2Nat.id in H.
  apply H, in_seq. lia.
Qed.

Lemma digits_no_byte c n : is_digit c = false → no_byte c (digits n).
Proof.
  intros Hc. induction (N.lt_wf_0 n) as [n _ IH]. destruct (decide (0 < n)%N) as [Hn|Hn].
  - rewrite digits_step by done. apply no_byte_app. split; [apply IH; by apply N.div_lt|].
    simpl. split; [|done]. intros Heq. pose proof (pretty_N_char_digit (n mod 10)) as Hd.
    rewrite Heq, Hc in Hd. by discriminate Hd; apply N.mod_lt.
  - replace n with 0%N by lia. by rewrite digits_0.
Qed.

Lemma fmt_d_no_byte c z : (0 ≤ z)%Z → is_digit c = false → no_byte c (fmt_d z).
Proof.
  intros Hz Hc. rewrite pretty_Z_nonneg by done. rewrite pretty_N_digits.
  case_bool_decide; [|by apply digits_no_byte]. simpl. split; [|done]. by intros <-.
Qed.

(** What follows the last separator is determined. *)
Lemma last_sep_inj c a1 a2 b1 b2 :
  no_byte c b1 → no_byte c b2 →
  a1 +:+ String c b1 = a2 +:+ String c b2 → a1 = a2 ∧ b1 = b2.
Proof.
  intros H1 H2. revert a2. induction a1 as [|x a1 IH]; intros [|y a2].
  - rewrite !str_app_nil_l. by intros [= ->].
  - rewrite str_app_nil_l, str_app_cons. intros [= -> ->].
    apply no_byte_app in H1 as [_ [? _]]. done.
  - rewrite str_app_nil_l, str_app_cons. intros [= <- Heq]. rewrite <-Heq in H2.
    apply no_byte_app in H2 as [_ [? _]]. done.
  - rewrite !str_app_cons. intros [= -> Heq]. by destruct (IH _ Heq) as [-> ->].
Qed.

(** What precedes the first separator is determined. *)
Lemma first_sep_inj c a1 a2 b1 b2 :
  no_byte c a1 → no_byte c a2 →
  a1 +:+ String c b1 = a2 +:+ String c b2 → a1 = a2 ∧ b1 = b2.
Proof.
  revert a2. induction a1 as [|x a1 IH]; intros [|y a2] H1 H2.
  - rewrite !str_app_nil_l. by intros [= ->].
  - rewrite str_app_nil_l, str_app_cons. intros [= -> ->]. by destruct H2.
  - rewrite str_app_nil_l, str_app_cons. intros [= <- Heq]. by destruct H1.
  - rewrite !str_app_cons. intros [= -> Heq]. destruct H1, H2.
    by destruct (IH a2) as [-> ->].
Qed.
