(* ===== verification/DnsLib.v ===== *)
(** * The DNS library interface

    The program works on the values of the package github.com/miekg/dns,
    which is not part of the repository. The fields of its records the
    program reads are data types here; its functions are the operations of
    the class [DnsLib], an argument of every definition that calls them.
    What the proofs rely on are the classes [DnsNameLaws], [DnsWireLaws] and
    [DnsTtlLaws]: documented behaviour of
    that package, assumed only by the theorems that say so. The file [Toy]
    holds a concrete instance that satisfies all the laws. *)

From S2P Require Import Prelude GoStrings.

(** ** Constants of the package (IANA registries) *)

Definition TypeA : Z := 1.
Definition TypeNS : Z := 2.
Definition TypeSOA : Z := 6.
Definition TypePTR : Z := 12.
Definition TypeTXT : Z := 16.
Definition TypeAAAA : Z := 28.
Definition TypeDNAME : Z := 39.
Definition TypeDS : Z := 43.
Definition TypeRRSIG : Z := 46.
Definition TypeNSEC : Z := 47.
Definition TypeDNSKEY : Z := 48.
Definition TypeNSEC3 : Z := 50.
Definition TypeNSEC3PARAM : Z := 51.
Definition TypeZONEMD : Z := 63.
Definition TypeTKEY : Z := 249.
Definition TypeIXFR : Z := 251.
Definition TypeAXFR : Z := 252.

Definition ClassINET : Z := 1.
Definition ClassNONE : Z := 254.
Definition ClassANY : Z := 255.

Definition RSAMD5 : Z := 1.
Definition RSASHA1 : Z := 5.
Definition RSASHA1NSEC3SHA1 : Z := 7.
Definition RSASHA256 : Z := 8.
Definition RSASHA512 : Z := 10.
Definition ECDSAP256SHA256 : Z := 13.
Definition ECDSAP384SHA384 : Z := 14.
Definition ED25519 : Z := 15.

(** DNSKEY flags. *)
Definition SEP : Z := 1.
Definition ZONE : Z := 256.

(** Hash numbers: NSEC3's SHA-1, and the DS digests. *)
Definition SHA1 : Z := 1.
Definition SHA256 : Z := 2.
Definition SHA384 : Z := 4.

Definition MaxMsgSize : Z := 65535.

(** ** Records *)

Record RR_Header := mkHdr {
  h_Name : string;
  h_Rrtype : Z;
  h_Class : Z;
  h_Ttl : Z
}.

Record SOA_rdata := mkSOA {
  soa_Ns : string; soa_Mbox : string; soa_Serial : Z; soa_Refresh : Z;
  soa_Retry : Z; soa_Expire : Z; soa_Minttl : Z
}.

Record RRSIG_rdata := mkRRSIG {
  sig_TypeCovered : Z; sig_Algorithm : Z; sig_Labels : Z; sig_OrigTtl : Z;
  sig_Expiration : Z; sig_Inception : Z; sig_KeyTag : Z;
  sig_SignerName : string; sig_Signature : string
}.

Record DNSKEY_rdata := mkDNSKEY {
  key_Flags : Z; key_Protocol : Z; key_Algorithm : Z; key_PublicKey : string
}.

Record NSEC_rdata := mkNSEC { nsec_NextDomain : string; nsec_TypeBitMap : list Z }.

Record NSEC3_rdata := mkNSEC3 {
  nsec3_Hash : Z; nsec3_Flags : Z; nsec3_Iterations : Z; nsec3_SaltLength : Z;
  nsec3_Salt : string; nsec3_HashLength : Z; nsec3_NextDomain : string;
  nsec3_TypeBitMap : list Z
}.

Record NSEC3PARAM_rdata := mkNSEC3PARAM {
  n3p_Hash : Z; n3p_Flags : Z; n3p_Iterations : Z; n3p_SaltLength : Z; n3p_Salt : string
}.

Record ZONEMD_rdata := mkZONEMD {
  zmd_Serial : Z; zmd_Scheme : Z; zmd_Hash : Z; zmd_Digest : string
}.

Record DS_rdata := mkDS {
  ds_KeyTag : Z; ds_Algorithm : Z; ds_DigestType : Z; ds_Digest : string
}.

(** The dynamic type of a [dns.RR]: the cases are the types the program
    tests for; any other type is [RD_Other] with its content. *)
Inductive RData :=
| RD_SOA (d : SOA_rdata)
| RD_RRSIG (d : RRSIG_rdata)
| RD_DNSKEY (d : DNSKEY_rdata)
| RD_NSEC (d : NSEC_rdata)
| RD_NSEC3 (d : NSEC3_rdata)
| RD_NSEC3PARAM (d : NSEC3PARAM_rdata)
| RD_ZONEMD (d : ZONEMD_rdata)
| RD_DS (d : DS_rdata)
| RD_NS (ns : string)
| RD_A (a : string)
| RD_TXT (txt : list string)
| RD_PTR (ptr : string)
| RD_DNAME (target : string)
| RD_Other (data : string).

(** A [*dns.DNSKEY]: the header and the key. *)
Definition DNSKEY_RR : Type := RR_Header * DNSKEY_rdata.

(** [dns.RR]: a header, and a body of some dynamic type. *)
Record RR := mkRR { rr_Hdr : RR_Header; rr_Data : RData }.

#[export] Instance RR_Header_eq_dec : EqDecision RR_Header.
Proof. solve_decision. Defined.
#[export] Instance SOA_rdata_eq_dec : EqDecision SOA_rdata.
Proof. solve_decision. Defined.
#[export] Instance RRSIG_rdata_eq_dec : EqDecision RRSIG_rdata.
Proof. solve_decision. Defined.
#[export] Instance DNSKEY_rdata_eq_dec : EqDecision DNSKEY_rdata.
Proof. solve_decision. Defined.
#[export] Instance NSEC_rdata_eq_dec : EqDecision NSEC_rdata.
Proof. solve_decision. Defined.
#[export] Instance NSEC3_rdata_eq_dec : EqDecision NSEC3_rdata.
Proof. solve_decision. Defined.
#[export] Instance NSEC3PARAM_rdata_eq_dec : EqDecision NSEC3PARAM_rdata.
Proof. solve_decision. Defined.
#[export] Instance ZONEMD_rdata_eq_dec : EqDecision ZONEMD_rdata.
Proof. solve_decision. Defined.
#[export] Instance DS_rdata_eq_dec : EqDecision DS_rdata.
Proof. solve_decision. Defined.
#[export] Instance RData_eq_dec : EqDecision RData.
Proof. solve_decision. Defined.
#[export] Instance RR_eq_dec : EqDecision RR.
Proof. solve_decision. Defined.

(** Go type assertions to a pointer to one of the record types. *)
Definition as_SOA (rr : RR) : option SOA_rdata :=
  match rr_Data rr with RD_SOA d => Some d | _ => None end.
Definition as_RRSIG (rr : RR) : option RRSIG_rdata :=
  match rr_Data rr with RD_RRSIG d => Some d | _ => None end.
Definition as_DNSKEY (rr : RR) : option DNSKEY_rdata :=
  match rr_Data rr with RD_DNSKEY d => Some d | _ => None end.
Definition as_NSEC (rr : RR) : option NSEC_rdata :=
  match rr_Data rr with RD_NSEC d => Some d | _ => None end.
Definition as_NSEC3 (rr : RR) : option NSEC3_rdata :=
  match rr_Data rr with RD_NSEC3 d => Some d | _ => None end.
Definition as_NSEC3PARAM (rr : RR) : option NSEC3PARAM_rdata :=
  match rr_Data rr with RD_NSEC3PARAM d => Some d | _ => None end.
Definition as_ZONEMD (rr : RR) : option ZONEMD_rdata :=
  match rr_Data rr with RD_ZONEMD d => Some d | _ => None end.
Definition as_DS (rr : RR) : option DS_rdata :=
  match rr_Data rr with RD_DS d => Some d | _ => None end.
Definition as_TXT (rr : RR) : option (list string) :=
  match rr_Data rr with RD_TXT t => Some t | _ => None end.
Definition as_PTR (rr : RR) : option string :=
  match rr_Data rr with RD_PTR t => Some t | _ => None end.

Definition rr_Name (rr : RR) : string := h_Name (rr_Hdr rr).
Definition rr_Type (rr : RR) : Z := h_Rrtype (rr_Hdr rr).
Definition rr_Class (rr : RR) : Z := h_Class (rr_Hdr rr).
Definition rr_Ttl (rr : RR) : Z := h_Ttl (rr_Hdr rr).
Definition is_SOA (rr : RR) : bool := bool_decide (is_Some (as_SOA rr)).

(** [rr.Header().Ttl = t] *)
Definition set_ttl (t : Z) (rr : RR) : RR :=
  mkRR (mkHdr (rr_Name rr) (rr_Type rr) (rr_Class rr) t) (rr_Data rr).

(** ** The functions of the package *)

Class DnsLib : Type := {
  (** Names. *)
  IsFqdn : string → bool;
  Fqdn : string → string;
  SplitDomainName : string → list string;   (** [nil] for the root *)
  CountLabel : string → Z;
  (** Wire format. [dns_PackRR rr n] is the uncompressed encoding of [rr]
      written into a buffer of [n] bytes; [dns_Len] is its estimated size. *)
  dns_Len : RR → Z;
  dns_PackRR : RR → Z → result bytes;
  dns_UnpackRR : bytes → result RR;
  (** [rr.String()]. *)
  RR_String : RR → string;
  TypeToString : Z → option string;
  AlgorithmToString : Z → option string;
  (** DNSSEC. [Verify sig key rrset] is [sig.Verify(key, rrset) == nil] for
      the RRSIG record [sig] with its header. *)
  dns_HashName : string → Z → Z → string → string;
  Verify : RR → DNSKEY_RR → list RR → bool;
  KeyTag : DNSKEY_rdata → Z;
  ToDS : DNSKEY_RR → Z → option DS_rdata
}.

(** ** Documented behaviour *)

(** Names: [Fqdn] appends the final dot of a name that is not fully
    qualified and is the identity on one that is, ASCII case plays no role;
    a name under another is fully qualified if that one is;
    [SplitDomainName] gives the labels between the dots. *)
Class DnsNameLaws `{DnsLib} : Prop := {
  Fqdn_id : ∀ s, IsFqdn s = true → Fqdn s = s;
  Fqdn_dot : ∀ s, IsFqdn s = false → Fqdn s = s +:+ ".";
  IsFqdn_Fqdn : ∀ s, HasSuffix s "." = true → IsFqdn (Fqdn s) = true;
  IsFqdn_suffix : ∀ s, IsFqdn s = true → HasSuffix s "." = true;
  IsFqdn_lower : ∀ s, IsFqdn (ToLower s) = IsFqdn s;
  IsFqdn_root : IsFqdn "." = true;
  IsFqdn_app : ∀ p s, IsFqdn s = true → IsFqdn (p +:+ "." +:+ s) = true;
  Split_root : SplitDomainName "." = [];
  Split_join : ∀ s, IsFqdn s = true → s ≠ "." →
    SplitDomainName s ≠ [] ∧ Join (SplitDomainName s) "." +:+ "." = s;
  Split_tail : ∀ s l ls, IsFqdn s = true → SplitDomainName s = l :: ls →
    ls ≠ [] → IsFqdn (Join ls "." +:+ ".") = true
}.

(** Wire format. The decoder gives back the record that was encoded, with its
    texts in a normal form: names without needless escapes, hexadecimal
    digits in lower case, no dash for an empty salt; the normal form has the
    same encoding. A larger buffer changes nothing. *)
Class DnsWireLaws `{DnsLib} : Type := {
  wire_norm : RR → RR;
  Unpack_norm : ∀ rr n w, dns_PackRR rr n = Ok w → dns_UnpackRR w = Ok (wire_norm rr);
  Pack_norm : ∀ rr n w, dns_PackRR rr n = Ok w → dns_PackRR (wire_norm rr) (dns_Len (wire_norm rr) + 64) = Ok w;
  Pack_size : ∀ rr n w, dns_PackRR rr n = Ok w → (Z.of_nat (String.length w) ≤ n)%Z;
  Pack_bigger : ∀ rr n m w, dns_PackRR rr n = Ok w → (n ≤ m)%Z → dns_PackRR rr m = Ok w
}.

(** A record in normal form is decoded to itself. *)
Definition wire_exact `{DnsWireLaws} (rr : RR) : Prop := wire_norm rr = rr.

Lemma Unpack_Pack `{DnsWireLaws} rr n w : wire_exact rr → dns_PackRR rr n = Ok w → dns_UnpackRR w = Ok rr.
Proof. unfold wire_exact. intros He Hp. rewrite (Unpack_norm _ _ _ Hp). by rewrite He. Qed.

(** The TTL of a record is a 32-bit number of its header, a field of its own
    in the wire format: it plays no role for the normal form of the rest, for
    the size, and for whether the record can be packed. *)
Class DnsTtlLaws `{WL : DnsWireLaws} : Prop := {
  norm_ttl : ∀ rr t, in_u32 t → wire_norm (set_ttl t rr) = set_ttl t (wire_norm rr);
  Len_ttl : ∀ rr t, dns_Len (set_ttl t rr) = dns_Len rr;
  Pack_ttl : ∀ rr n w t, in_u32 t → dns_PackRR rr n = Ok w → is_ok (dns_PackRR (set_ttl t rr) n) = true
}.
