(* ===== verification/BTree.v ===== *)
(** * The ordered-map interface

    [Store] keeps its two indexes in [btree.Map] of github.com/tidwall/btree,
    a package outside the repository. [BTree] is its interface: the
    operations the program calls, the traversals given by the sequence of
    entries their iterator is offered. [BTreeLaws] states its documented
    behaviour: a finite map whose traversals follow the key order. *)

From S2P Require Import Prelude GoStrings.

Class BTree : Type := {
  bt : Type → Type;
  bt_New : ∀ {V}, bt V;
  bt_Set : ∀ {V}, string → V → bt V → bt V;
  bt_Get : ∀ {V}, string → bt V → option V;
  bt_Delete : ∀ {V}, string → bt V → bt V;
  bt_Len : ∀ {V}, bt V → nat;
  bt_Scan : ∀ {V}, bt V → list (string * V);              (** ascending *)
  bt_Reverse : ∀ {V}, bt V → list (string * V);           (** descending *)
  bt_Ascend : ∀ {V}, string → bt V → list (string * V);   (** from a pivot up *)
  bt_Descend : ∀ {V}, string → bt V → list (string * V)   (** from a pivot down *)
}.

Definition key_lt {V} (p q : string * V) : Prop := str_lt p.1 q.1.

Class BTreeLaws `{BTree} : Prop := {
  bt_get_new : ∀ V k, bt_Get k (@bt_New _ V) = None;
  bt_get_set : ∀ V k k' (v : V) m,
    bt_Get k' (bt_Set k v m) = if bool_decide (k = k') then Some v else bt_Get k' m;
  bt_get_delete : ∀ V k k' (m : bt V),
    bt_Get k' (bt_Delete k m) = if bool_decide (k = k') then None else bt_Get k' m;
  bt_scan_sorted : ∀ V (m : bt V), StronglySorted key_lt (bt_Scan m);
  bt_scan_get : ∀ V (m : bt V) k v, (k, v) ∈ bt_Scan m ↔ bt_Get k m = Some v;
  bt_len_scan : ∀ V (m : bt V), bt_Len m = length (bt_Scan m);
  bt_reverse_scan : ∀ V (m : bt V), bt_Reverse m = rev (bt_Scan m);
  bt_ascend_scan : ∀ V (m : bt V) p,
    bt_Ascend p m = List.filter (λ e, str_leb p e.1) (bt_Scan m);
  bt_descend_scan : ∀ V (m : bt V) p,
    bt_Descend p m = List.filter (λ e, str_leb e.1 p) (rev (bt_Scan m))
}.

(** Iterator callbacks: go on while the callback returns [true]. *)
Fixpoint iterate {A S} (f : S → A → S * bool) (s : S) (l : list A) : S :=
  match l with
  | [] => s
  | x :: l => let '(s', go) := f s x in if go then iterate f s' l else s'
  end.

(** ** Strictly sorted association lists *)

Section sorted_lists.
Context {V : Type}.
Implicit Types l : list (string * V).

#[export] Instance key_lt_trans : Transitive (@key_lt V).
Proof. intros [] [] []. unfold key_lt. simpl. by intros; etrans. Qed.

Lemma sorted_key_unique l k v w :
  StronglySorted key_lt l → (k, v) ∈ l → (k, w) ∈ l → v = w.
Proof.
  induction 1 as [|[k' u] l Hs IH Hf]; intros Hv Hw; [set_solver|].
  rewrite Forall_forall in Hf.
  rewrite !elem_of_cons in *. destruct Hv as [?|Hv], Hw as [?|Hw]; simplify_eq; auto.
  - apply Hf in Hw. by apply str_lt_irrefl in Hw.
  - apply Hf in Hv. by apply str_lt_irrefl in Hv.
Qed.

(** Two strictly sorted lists with the same elements are equal. *)
Lemma sorted_ext l1 l2 :
  StronglySorted key_lt l1 → StronglySorted key_lt l2 →
  (∀ e, e ∈ l1 ↔ e ∈ l2) → l1 = l2.
Proof.
  intros H1 H2 Hext. apply (StronglySorted_unique_strong key_lt); [|done..|].
  - intros [k v] [k' v'] _ _ Ha Hb. exfalso. unfold key_lt in *; simpl in *.
    eapply str_lt_irrefl. by etrans.
  - apply NoDup_Permutation; [..|done].
    + clear -H1. induction H1 as [|[k v] l Hs IH Hf]; constructor; [|done].
      intros Hin. rewrite Forall_forall in Hf. apply Hf in Hin. by apply str_lt_irrefl in Hin.
    + clear -H2. induction H2 as [|[k v] l Hs IH Hf]; constructor; [|done].
      intros Hin. rewrite Forall_forall in Hf. apply Hf in Hin. by apply str_lt_irrefl in Hin.
Qed.

Lemma sorted_filter (f : string * V → bool) l :
  StronglySorted key_lt l → StronglySorted key_lt (List.filter f l).
Proof.
  induction 1 as [|e l Hs IH Hf]; simpl; [constructor|].
  destruct (f e); [|done]. constructor; [done|].
  rewrite Forall_forall in *. intros x Hx. apply Hf.
  apply list_elem_of_In in Hx. apply list_elem_of_In. by apply List.filter_In in Hx as [? _].
Qed.

(** The first entry of a sorted list has the least key. *)
Lemma sorted_head_least l e r x :
  StronglySorted key_lt l → l = e :: r → x ∈ l → str_le e.1 x.1.
Proof.
  intros Hs -> Hx. inversion Hs as [|? ? _ Hf]; subst.
  apply elem_of_cons in Hx as [->|Hx]; [done|]. rewrite Forall_forall in Hf.
  left. by apply Hf.
Qed.

Lemma sorted_last_greatest l e r x :
  StronglySorted key_lt l → rev l = e :: r → x ∈ l → str_le x.1 e.1.
Proof.
  intros Hs Hr Hx. assert (l = rev r ++ [e]) as ->.
  { by rewrite <-(rev_involutive l), Hr. }
  apply elem_of_app in Hx as [Hx|Hx%list_elem_of_singleton]; [|by subst].
  left. apply (StronglySorted_app_1_elem_of key_lt (rev r) [e]); set_solver.
Qed.

(** The first of the entries that satisfy a test, in key order. *)
Lemma first_filter_least f l e :
  StronglySorted key_lt l → head (List.filter f l) = Some e →
  e ∈ l ∧ f e = true ∧ ∀ x, x ∈ l → f x = true → str_le e.1 x.1.
Proof.
  intros Hs Hh. destruct (List.filter f l) as [|e' r] eqn:E; [done|]. simplify_eq/=.
  assert (e ∈ List.filter f l) as He by (rewrite E; set_solver).
  apply elem_of_filter_b in He as [? ?]. split_and!; [done..|].
  intros x Hx Hf. eapply sorted_head_least; [by apply (sorted_filter f)|done|].
  by apply elem_of_filter_b.
Qed.

Lemma last_filter_greatest f l e :
  StronglySorted key_lt l → head (List.filter f (rev l)) = Some e →
  e ∈ l ∧ f e = true ∧ ∀ x, x ∈ l → f x = true → str_le x.1 e.1.
Proof.
  intros Hs Hh. destruct (List.filter f (rev l)) as [|e' r] eqn:E; [done|]. simplify_eq/=.
  assert (e ∈ List.filter f (rev l)) as He by (rewrite E; set_solver).
  apply elem_of_filter_b in He as [He Hfe]. rewrite elem_of_rev in He.
  split_and!; [done..|].
  intros x Hx Hf. apply (sorted_last_greatest (List.filter f l) _ r);
    [by apply sorted_filter| |by apply elem_of_filter_b].
  by rewrite <-E, List.filter_rev.
Qed.

End sorted_lists.

(** ** Derived facts of the interface *)

Section laws.
Context `{BTreeLaws} {V : Type}.
Implicit Types m : bt V.

Lemma bt_get_set_eq k v m : bt_Get k (bt_Set k v m) = Some v.
Proof. rewrite bt_get_set. by rewrite bool_decide_true. Qed.
Lemma bt_get_set_ne k k' v m : k ≠ k' → bt_Get k' (bt_Set k v m) = bt_Get k' m.
Proof. intros. rewrite bt_get_set. by rewrite bool_decide_false. Qed.
Lemma bt_get_delete_eq k m : bt_Get k (bt_Delete k m) = None.
Proof. rewrite bt_get_delete. by rewrite bool_decide_true. Qed.
Lemma bt_get_delete_ne k k' m : k ≠ k' → bt_Get k' (bt_Delete k m) = bt_Get k' m.
Proof. intros. rewrite bt_get_delete. by rewrite bool_decide_false. Qed.

Lemma bt_scan_new : bt_Scan (@bt_New _ V) = [].
Proof.
  destruct (bt_Scan bt_New) as [|[k v] l] eqn:E; [done|].
  assert ((k, v) ∈ bt_Scan (@bt_New _ V)) as Hk by (rewrite E; set_solver).
  apply bt_scan_get in Hk. by rewrite bt_get_new in Hk.
Qed.

Lemma bt_len_new : bt_Len (@bt_New _ V) = 0.
Proof. by rewrite bt_len_scan, bt_scan_new. Qed.

Lemma bt_scan_head_least m e r x :
  bt_Scan m = e :: r → x ∈ bt_Scan m → str_le e.1 x.1.
Proof. intros E. eapply sorted_head_least; [apply bt_scan_sorted|done]. Qed.

(** Two trees with the same entries are traversed alike. *)
Lemma bt_scan_ext m1 m2 :
  (∀ k, bt_Get k m1 = bt_Get k m2) → bt_Scan m1 = bt_Scan m2.
Proof.
  intros Hg. apply sorted_ext; [apply bt_scan_sorted..|].
  intros [k v]. by rewrite !bt_scan_get, Hg.
Qed.
End laws.

(** ** A sorted-map implementation, which discharges the laws *)

Definition entry_le {V} (p q : string * V) : Prop := str_le p.1 q.1.
#[export] Instance entry_le_dec {V} : RelDecision (@entry_le V).
Proof. intros p q. unfold entry_le. apply _. Defined.

Definition scan_map {V} (m : gmap string V) : list (string * V) :=
  merge_sort entry_le (map_to_list m).

#[export] Instance entry_le_total {V} : Total (@entry_le V).
Proof. intros p q. apply (total str_le). Qed.
#[export] Instance entry_le_trans {V} : Transitive (@entry_le V).
Proof. intros p q r. unfold entry_le. by intros; etrans. Qed.

Lemma scan_map_sorted {V} (m : gmap string V) : StronglySorted key_lt (scan_map m).
Proof.
  unfold scan_map.
  pose proof (StronglySorted_merge_sort entry_le (map_to_list m)) as Hs.
  assert (NoDup (merge_sort entry_le (map_to_list m)).*1) as Hnd.
  { rewrite merge_sort_Permutation. apply NoDup_fst_map_to_list. }
  induction Hs as [|[k v] l Hs IH Hf]; constructor.
  - apply IH. by inversion Hnd.
  - inversion Hnd as [|? ? Hk _]; subst. rewrite Forall_forall in *.
    intros [k' v'] Hx. destruct (Hf _ Hx) as [Hlt|Heq]; [done|]. simpl in Heq. subst k'.
    exfalso. apply Hk. apply list_elem_of_fmap. by exists (k, v').
Qed.

Lemma elem_of_scan_map {V} (m : gmap string V) k v : (k, v) ∈ scan_map m ↔ m !! k = Some v.
Proof. unfold scan_map. rewrite merge_sort_Permutation. apply elem_of_map_to_list. Qed.

Definition gmap_btree : BTree := {|
  bt := gmap string;
  bt_New := λ V, ∅;
  bt_Set := λ V k v m, <[k := v]> m;
  bt_Get := λ V k m, m !! k;
  bt_Delete := λ V k m, delete k m;
  bt_Len := λ V m, length (scan_map m);
  bt_Scan := λ V m, scan_map m;
  bt_Reverse := λ V m, rev (scan_map m);
  bt_Ascend := λ V p m, List.filter (λ e, str_leb p e.1) (scan_map m);
  bt_Descend := λ V p m, List.filter (λ e, str_leb e.1 p) (rev (scan_map m))
|}.

Lemma gmap_btree_laws : @BTreeLaws gmap_btree.
Proof.
  split; simpl; try done.
  - intros V k k' v m. case_bool_decide; subst; by simplify_map_eq.
  - intros V k k' m. case_bool_decide; subst; by simplify_map_eq.
  - intros V m. apply scan_map_sorted.
  - intros V m k v. apply elem_of_scan_map.
Qed.
