(* ===== verification/DnsName.v ===== *)
(** * Domain names (internal/dnsname/name.go)

    Canonical names, subdomains and parents, over the name functions of the
    DNS library. The lemmas: [Canonical] is idempotent, lower-case and fully
    qualified; [Parent] strictly shortens a name other than the root, which
    bounds every loop of the program that climbs towards the root. *)

From S2P Require Import Prelude GoStrings DnsLib.

Section dnsname.
Context `{DL : !DnsLib}.

Definition Canonical (name : string) : string :=
  let name := TrimSpace name in
  if bool_decide (name = "") then "."
  else
    let name := if negb (HasSuffix name ".") then name +:+ "." else name in
    ToLower (Fqdn name).

Definition Equal (a b : string) : bool := bool_decide (Canonical a = Canonical b).

Definition IsSubdomain (name origin : string) : bool :=
  let n := Canonical name in
  let o := Canonical origin in
  if bool_decide (n = o) then true
  else HasSuffix n ("." +:+ o) || (bool_decide (o = ".") && negb (bool_decide (n = ""))).

Definition Parent (name : string) : string :=
  let n := Canonical name in
  if bool_decide (n = ".") then "."
  else
    let labels := SplitDomainName n in
    if bool_decide (length labels ≤ 1) then "."
    else Canonical (Join (tail labels) ".").

Definition Labels (name : string) : Z := CountLabel (Canonical name).

(** A name in the form the program keeps names in. *)
Definition canonical (s : string) : Prop := Canonical s = s.
#[export] Instance canonical_dec s : Decision (canonical s).
Proof. unfold canonical. apply _. Defined.
End dnsname.

Section dnsname_facts.
Context `{DL : !DnsLib, NL : !DnsNameLaws}.

(** What [Canonical] does once the spaces are gone and the dot is there. *)
Lemma Canonical_cases name :
  TrimSpace name = "" ∧ Canonical name = "." ∨
  ∃ n, HasSuffix n "." = true ∧ Canonical name = ToLower (Fqdn n) ∧
    (n = TrimSpace name ∨ n = TrimSpace name +:+ ".").
Proof.
  unfold Canonical. case_bool_decide as He; [by left|right].
  destruct (HasSuffix (TrimSpace name) ".") eqn:Hs; simpl.
  - eexists. split_and!; [done..|by left].
  - eexists. split_and!; [apply HasSuffix_app|done|by right].
Qed.

Lemma IsFqdn_Canonical name : IsFqdn (Canonical name) = true.
Proof.
  destruct (Canonical_cases name) as [[_ ->]|(n & Hn & -> & _)].
  - apply IsFqdn_root.
  - rewrite IsFqdn_lower. by apply IsFqdn_Fqdn.
Qed.

Lemma Canonical_suffix name : HasSuffix (Canonical name) "." = true.
Proof. apply IsFqdn_suffix, IsFqdn_Canonical. Qed.

Lemma Canonical_lower name : ToLower (Canonical name) = Canonical name.
Proof.
  destruct (Canonical_cases name) as [[_ ->]|(n & Hn & -> & _)]; [done|].
  apply ToLower_idemp.
Qed.

Lemma Canonical_ne name : Canonical name ≠ "".
Proof. intros Hn. pose proof (Canonical_suffix name) as Hs. by rewrite Hn in Hs. Qed.

(** A fully qualified lower-case name that starts with no space is canonical. *)
Lemma canonical_intro s :
  IsFqdn s = true → ToLower s = s → trim_left isSpace s = s → canonical s.
Proof.
  intros Hf Hl Ht. unfold canonical, Canonical, TrimSpace.
  pose proof (IsFqdn_suffix _ Hf) as Hd. rewrite Ht.
  apply HasSuffix_spec in Hd as [p Hp].
  assert (trim_right isSpace s = s) as ->.
  { rewrite Hp. by apply trim_right_app_last. }
  rewrite bool_decide_false by (rewrite Hp; by destruct p).
  rewrite Hp, HasSuffix_app. simpl. rewrite <-Hp. by rewrite Fqdn_id.
Qed.

Lemma Fqdn_trim s : trim_left isSpace s = s → HasSuffix s "." = true →
  trim_left isSpace (ToLower (Fqdn s)) = ToLower (Fqdn s).
Proof.
  intros Ht Hd. destruct s as [|c s]; [by apply HasSuffix_spec in Hd as [[] ?]|].
  assert (isSpace c = false) as Hc by (by eapply trim_left_not_head).
  assert (∃ r, Fqdn (String c s) = String c r) as [r ->].
  { destruct (IsFqdn (String c s)) eqn:E; [rewrite Fqdn_id by done|rewrite Fqdn_dot by done]; eauto. }
  unfold ToLower. simpl str_map. apply trim_left_head. by rewrite lower_byte_space.
Qed.

Lemma trim_left_TrimSpace s : trim_left isSpace (TrimSpace s) = TrimSpace s.
Proof.
  unfold TrimSpace. pose proof (trim_left_idemp isSpace s) as Hi.
  destruct (trim_left isSpace s) as [|c r] eqn:E; [done|].
  apply trim_left_not_head in E. simpl.
  destruct (trim_right isSpace r); rewrite ?E; simpl; by rewrite ?E.
Qed.

Lemma Canonical_idemp name : Canonical (Canonical name) = Canonical name.
Proof.
  apply canonical_intro; [apply IsFqdn_Canonical|apply Canonical_lower|].
  destruct (Canonical_cases name) as [[_ ->]|(n & Hn & -> & Hc)]; [done|].
  apply Fqdn_trim; [|done].
  pose proof (trim_left_TrimSpace name) as Ht. destruct Hc as [->| ->]; [done|].
  destruct (TrimSpace name) as [|c r] eqn:E; [done|].
  rewrite str_app_cons. apply trim_left_head. by eapply trim_left_not_head.
Qed.

Lemma canonical_Canonical name : canonical (Canonical name).
Proof. apply Canonical_idemp. Qed.

Lemma canonical_root : canonical ".".
Proof. apply canonical_intro; [apply IsFqdn_root|done|done]. Qed.

Lemma canonical_Parent name : canonical (Parent name).
Proof.
  unfold Parent. repeat case_bool_decide; auto using canonical_root, canonical_Canonical.
Qed.

Lemma Canonical_length_le s :
  IsFqdn (s +:+ ".") = true → String.length (Canonical s) ≤ S (String.length s).
Proof.
  intros Hf. destruct (Canonical_cases s) as [[_ ->]|(n & Hn & -> & Hc)]; [simpl; lia|].
  rewrite ToLower_length.
  pose proof (TrimSpace_length s) as Hlen.
  destruct Hc as [->| ->].
  - destruct (IsFqdn (TrimSpace s)) eqn:E; [rewrite Fqdn_id by done; lia|].
    rewrite Fqdn_dot by done. rewrite str_length_app. simpl. lia.
  - destruct (decide (TrimSpace s = s)) as [->|Hne].
    + rewrite Fqdn_id by done. rewrite str_length_app. simpl. lia.
    + assert (String.length (TrimSpace s) < String.length s) as Hlt.
      { apply Nat.le_neq. split; [done|]. intros Heq. apply Hne. clear -Heq.
        unfold TrimSpace in *.
        assert (trim_left isSpace s = s) as Hl.
        { destruct s as [|c s]; [done|]. simpl in *. destruct (isSpace c); [|done].
          pose proof (trim_right_length isSpace (trim_left isSpace s)).
          pose proof (trim_left_length isSpace s). lia. }
        rewrite Hl in *. clear Hl. induction s as [|c s IH]; [done|]. simpl in *.
        destruct (trim_right isSpace s) as [|d r] eqn:E; simpl in *.
        - destruct (isSpace c); simpl in *; [lia|]. rewrite <-IH by lia. done.
        - rewrite IH by lia. done. }
      destruct (IsFqdn (TrimSpace s +:+ ".")) eqn:E;
        [rewrite Fqdn_id by done|rewrite Fqdn_dot by done];
        rewrite ?str_length_app; simpl; lia.
Qed.

(** Climbing to the parent strictly shortens a name. *)
Lemma Parent_shorter n :
  canonical n → n ≠ "." → String.length (Parent n) < String.length n.
Proof.
  intros Hc Hr. unfold Parent. rewrite Hc.
  rewrite bool_decide_false by done.
  assert (IsFqdn n = true) as Hf by (rewrite <-Hc; apply IsFqdn_Canonical).
  destruct (Split_join n Hf Hr) as [Hne Hj].
  assert (2 ≤ String.length n) as Hlen.
  { apply IsFqdn_suffix, HasSuffix_spec in Hf as [[|c p] ->]; [done|].
    rewrite str_length_app. simpl. lia. }
  case_bool_decide as Hl; [simpl; lia|].
  destruct (SplitDomainName n) as [|l ls] eqn:Hs; [done|]. simpl in Hl |- *.
  destruct ls as [|l' ls]; [simpl in Hl; lia|].
  assert (IsFqdn (Join (l' :: ls) "." +:+ ".") = true) as Ht by (by eapply Split_tail).
  pose proof (Canonical_length_le _ Ht) as Hle.
  assert (String.length n = String.length l + 2 + String.length (Join (l' :: ls) ".")) as Hn.
  { rewrite <-Hj. change (Join (l :: l' :: ls) ".") with (l +:+ "." +:+ Join (l' :: ls) ".").
    rewrite !str_length_app. simpl. lia. }
  lia.
Qed.

Lemma Parent_root : Parent "." = ".".
Proof. unfold Parent. rewrite canonical_root. by rewrite bool_decide_true. Qed.
End dnsname_facts.
