(* ===== verification/Base32.v ===== *)
(** * NSEC3 hash labels (internal/zone/nsec3.go)

    The base32hex codec of NSEC3 owner labels, with its 64-bit shift
    register as the code has it, the decoding of owner names, the canonical
    order [CanonicalCmp], and the type bitmap helpers are in [CanonOrder].
    Main result: decoding inverts encoding, for every binary hash. *)

From S2P Require Import Prelude GoStrings DnsLib DnsName.

Definition Z_of_byte (c : ascii) : Z := Z.of_N (N_of_ascii c).
(** Go's [byte(x)]. *)
Definition byte_of_Z (z : Z) : ascii := ascii_of_N (Z.to_N (u8 z)).

(** ["%q"] of a printable string without quotes or backslashes. *)
Definition fmt_q (s : string) : string := String "034" (s +:+ String "034" "").

(** ** The codec *)

Definition alphabet_upper : string := "0123456789ABCDEFGHIJKLMNOPQRSTUV".
Definition alphabet_lower : string := "0123456789abcdefghijklmnopqrstuv".

(** The index of a digit: the upper-case alphabet, then [a..v]. *)
Definition digit_index (c : ascii) : option nat :=
  match IndexByte alphabet_upper c with
  | Some i => Some i
  | None => if in_range "a" "v" c then IndexByte alphabet_upper (upper_byte c) else None
  end.

(** The loop of [decodeBase32Hex]; [whole] is the padded input, for the
    error message. *)
Fixpoint decode_loop (whole s : string) (buf bits : Z) : result bytes :=
  match s with
  | "" => Ok ""
  | String c s =>
      if bool_decide (c = "="%char) then Ok ""
      else
        match digit_index c with
        | None => Err ("invalid base32hex " +:+ fmt_q whole)
        | Some idx =>
            let buf := u64 (Z.lor (Z.shiftl buf 5) (Z.of_nat idx)) in
            let bits := (bits + 5)%Z in
            if bool_decide (8 ≤ bits)%Z then
              let bits := (bits - 8)%Z in
              out ← decode_loop whole s buf bits;
              Ok (String (byte_of_Z (Z.shiftr buf bits)) out)
            else decode_loop whole s buf bits
        end
  end.

Definition decodeBase32Hex (s : string) : result bytes :=
  let len := String.length s in
  if bool_decide (len = 0) then Err "empty"
  else
    let pad := ((8 - len mod 8) mod 8)%nat in
    let s := s +:+ Repeat "=" pad in
    decode_loop s s 0 0.

Definition HashFromBase32 (s : string) : result bytes :=
  let s := ToUpper (TrimRight s "=") in
  wrap_err (λ e, "nsec3 hash " +:+ fmt_q s +:+ ": " +:+ e) (decodeBase32Hex s).

Definition digit_lower (z : Z) : ascii :=
  default "?"%char (String.get (Z.to_nat (Z.land z 31)) alphabet_lower).

(** The inner loop of [Base32Hex]: emit digits while five bits are there.
    [bits] is at most 12, so three rounds are enough. *)
Fixpoint emit_loop (fuel : nat) (buf bits : Z) : string * Z :=
  match fuel with
  | 0 => ("", bits)
  | S fuel =>
      if bool_decide (5 ≤ bits)%Z then
        let bits := (bits - 5)%Z in
        let '(out, bits') := emit_loop fuel buf bits in
        (String (digit_lower (Z.shiftr buf bits)) out, bits')
      else ("", bits)
  end.

Fixpoint encode_loop (b : bytes) (buf bits : Z) : string :=
  match b with
  | "" =>
      if bool_decide (0 < bits)%Z
      then String (digit_lower (Z.shiftl buf (5 - bits))) ""
      else ""
  | String by_ b =>
      let buf := u64 (Z.lor (Z.shiftl buf 8) (Z_of_byte by_)) in
      let '(out, bits) := emit_loop 3 buf (bits + 8) in
      out +:+ encode_loop b buf bits
  end.

Definition Base32Hex (b : bytes) : string :=
  if bool_decide (String.length b = 0) then "" else encode_loop b 0 0.

Section names.
Context `{DL : !DnsLib}.

(** The leftmost label of a canonical name. *)
Definition first_label (s : string) : string :=
  match IndexByte s "." with Some i => str_take i s | None => s end.

Definition HashFromOwner (owner : string) : result bytes :=
  HashFromBase32 (first_label (Canonical owner)).

(** [HashName]: the NSEC3 hash of a name; [salt_hex] of the salt bytes. *)
Definition hex_digit (z : Z) : ascii :=
  default "?"%char (String.get (Z.to_nat z) "0123456789abcdef").
Fixpoint hex_EncodeToString (b : bytes) : string :=
  match b with
  | "" => ""
  | String c b =>
      String (hex_digit (Z_of_byte c / 16)) (String (hex_digit (Z_of_byte c mod 16)) (hex_EncodeToString b))
  end.

Definition HashName (name : string) (hash iterations : Z) (salt : bytes) : bytes :=
  let h := dns_HashName (Canonical name) hash iterations (hex_EncodeToString salt) in
  match HashFromBase32 h with Ok b => b | Err _ => h end.
End names.

(** ** Arithmetic of the shift registers *)

Lemma Z_of_byte_range c : (0 ≤ Z_of_byte c < 256)%Z.
Proof. unfold Z_of_byte. pose proof (N_ascii_bounded c). lia. Qed.

Lemma byte_of_Z_of_byte c z : (z mod 256 = Z_of_byte c)%Z → byte_of_Z z = c.
Proof.
  intros Hz. unfold byte_of_Z, u8, wrapN. change (2 ^ 8)%Z with 256%Z. rewrite Hz.
  unfold Z_of_byte. rewrite N2Z.id. apply ascii_N_embedding.
Qed.

Lemma lor_shiftl_add b k x :
  (0 ≤ k)%Z → (0 ≤ x < 2 ^ k)%Z → Z.lor (Z.shiftl b k) x = (b * 2 ^ k + x)%Z.
Proof.
  intros Hk Hx. rewrite <-(Z.shiftl_mul_pow2 b k) by done.
  rewrite Z.add_nocarry_lxor, Z.lxor_lor; try done.
  all: apply Z.bits_inj'; intros i Hi; rewrite Z.land_spec, Z.bits_0.
  all: destruct (Z.lt_ge_cases i k).
  all: try (rewrite Z.shiftl_spec_low by lia; done).
  all: rewrite <-(Z.mod_small x (2 ^ k)) by done;
    rewrite Z.mod_pow2_bits_high by lia; apply andb_false_r.
Qed.

(** Taking [w] bits at position [i] is not affected by the 64-bit wrap. *)
Lemma u64_bits x i w : (0 ≤ i)%Z → (0 ≤ w)%Z → (i + w ≤ 64)%Z →
  (u64 x / 2 ^ i mod 2 ^ w = x / 2 ^ i mod 2 ^ w)%Z.
Proof.
  intros Hi Hw Hiw. unfold u64, wrapN. apply Z.bits_inj'. intros n Hn.
  destruct (Z.lt_ge_cases n w).
  - rewrite !Z.mod_pow2_bits_low by done. rewrite <-!Z.shiftr_div_pow2 by done.
    rewrite !Z.shiftr_spec by done. rewrite Z.mod_pow2_bits_low by lia. done.
  - rewrite !Z.mod_pow2_bits_high by lia. done.
Qed.

Lemma u64_low x w : (0 ≤ w ≤ 64)%Z → (u64 x mod 2 ^ w = x mod 2 ^ w)%Z.
Proof.
  intros Hw. pose proof (u64_bits x 0 w) as Hb. change (2 ^ 0)%Z with 1%Z in Hb.
  rewrite !Z.div_1_r in Hb. apply Hb; lia.
Qed.

Lemma land_31 z : Z.land z 31 = (z mod 32)%Z.
Proof. change 31%Z with (Z.ones 5). by rewrite Z.land_ones. Qed.

Lemma digit_lower_mod z : digit_lower z = digit_lower (z mod 32).
Proof. unfold digit_lower. rewrite !land_31. by rewrite Z.mod_mod. Qed.

Lemma byte_of_Z_mod z : byte_of_Z z = byte_of_Z (z mod 256).
Proof. unfold byte_of_Z, u8, wrapN. change (2 ^ 8)%Z with 256%Z. by rewrite Z.mod_mod. Qed.

(** *** The two loops on reduced registers *)

Lemma digit_index_upper_lower v :
  (0 ≤ v < 32)%Z → digit_index (upper_byte (digit_lower v)) = Some (Z.to_nat v)
    ∧ upper_byte (digit_lower v) ≠ "="%char.
Proof.
  intros Hv.
  assert (forallb (λ n, bool_decide (digit_index (upper_byte (digit_lower (Z.of_nat n))) = Some n)
    && negb (bool_decide (upper_byte (digit_lower (Z.of_nat n)) = "="%char))) (seq 0 32) = true) as Hall
    by (vm_compute; reflexivity).
  rewrite forallb_elem_of in Hall. specialize (Hall (Z.to_nat v)).
  rewrite Z2Nat.id in Hall by lia.
  destruct (andb_prop _ _ (Hall ltac:(apply elem_of_seq; lia))) as [H1 H2].
  split; [by apply bool_decide_eq_true in H1|].
  by apply negb_true_iff, bool_decide_eq_false in H2.
Qed.

Lemma decode_step whole s v r bits :
  (0 ≤ v < 32)%Z → (0 ≤ bits)%Z →
  decode_loop whole (String (upper_byte (digit_lower v)) s) r bits =
    let x := u64 (r * 32 + v) in
    if bool_decide (3 ≤ bits)%Z
    then out ← decode_loop whole s x (bits - 3); Ok (String (byte_of_Z (x / 2 ^ (bits - 3))) out)
    else decode_loop whole s x (bits + 5).
Proof.
  intros Hv Hb. destruct (digit_index_upper_lower v Hv) as [Hd Hne].
  simpl. rewrite bool_decide_false by done. rewrite Hd.
  rewrite Z2Nat.id by lia. rewrite lor_shiftl_add by (simpl; lia).
  change (2 ^ 5)%Z with 32%Z.
  repeat case_bool_decide; try lia; [|done].
  replace (bits + 5 - 8)%Z with (bits - 3)%Z by lia.
  by rewrite Z.shiftr_div_pow2 by lia.
Qed.

(** The decoder only looks at the [bits] low bits of its register. *)
Lemma decode_loop_low whole s r1 r2 bits :
  (0 ≤ bits < 8)%Z → (r1 mod 2 ^ bits = r2 mod 2 ^ bits)%Z →
  decode_loop whole s r1 bits = decode_loop whole s r2 bits.
Proof.
  revert r1 r2 bits. induction s as [|c s IH]; intros r1 r2 bits Hb Hr; [done|].
  simpl. case_bool_decide; [done|]. destruct (digit_index c) as [i|]; [|done].
  assert (∀ r, Z.lor (Z.shiftl r 5) (Z.of_nat i) mod 2 ^ (bits + 5) =
    Z.lor (Z.shiftl (r mod 2 ^ bits) 5) (Z.of_nat i) mod 2 ^ (bits + 5))%Z as Hlow.
  { intros r. apply Z.bits_inj'. intros n Hn. destruct (Z.lt_ge_cases n (bits + 5)).
    - rewrite !Z.mod_pow2_bits_low by done. rewrite !Z.lor_spec. f_equal.
      destruct (Z.lt_ge_cases n 5); [by rewrite !Z.shiftl_spec_low|].
      rewrite !Z.shiftl_spec by lia. by rewrite Z.mod_pow2_bits_low by lia.
    - rewrite !Z.mod_pow2_bits_high by lia. done. }
  set (x1 := Z.lor (Z.shiftl r1 5) (Z.of_nat i)). set (x2 := Z.lor (Z.shiftl r2 5) (Z.of_nat i)).
  assert (x1 mod 2 ^ (bits + 5) = x2 mod 2 ^ (bits + 5))%Z as Hx.
  { unfold x1, x2. rewrite Hlow, (Hlow r2), Hr. done. }
  assert (∀ n, n < bits + 5 → Z.testbit x1 n = Z.testbit x2 n)%Z as Hbit.
  { intros n Hn. destruct (Z.lt_ge_cases n 0); [by rewrite !Z.testbit_neg_r|].
    rewrite <-(Z.mod_pow2_bits_low x1 (bits + 5)), <-(Z.mod_pow2_bits_low x2 (bits + 5)) by done.
    by rewrite Hx. }
  case_bool_decide as H8.
  - rewrite (IH (u64 x1) (u64 x2) (bits + 5 - 8))%Z; [|lia|].
    + destruct (decode_loop whole s (u64 x2) (bits + 5 - 8)%Z) as [o|e]; [|done]. simpl. do 2 f_equal.
      rewrite byte_of_Z_mod, (byte_of_Z_mod (Z.shiftr (u64 x2) _)). f_equal.
      rewrite !Z.shiftr_div_pow2 by lia. change 256%Z with (2 ^ 8)%Z.
      rewrite !u64_bits by lia.
      apply Z.bits_inj'. intros n Hn. destruct (Z.lt_ge_cases n 8).
      * rewrite !Z.mod_pow2_bits_low by done. rewrite <-!Z.shiftr_div_pow2 by lia.
        rewrite !Z.shiftr_spec by done. apply Hbit. lia.
      * by rewrite !Z.mod_pow2_bits_high by lia.
    + rewrite !u64_low by lia. apply Z.bits_inj'. intros n Hn.
      destruct (Z.lt_ge_cases n (bits + 5 - 8)).
      * rewrite !Z.mod_pow2_bits_low by done. apply Hbit. lia.
      * by rewrite !Z.mod_pow2_bits_high by lia.
  - apply IH; [lia|]. by rewrite !u64_low by lia.
Qed.

Lemma decode_step_low whole s v r bits :
  (0 ≤ v < 32)%Z → (0 ≤ bits < 8)%Z → (0 ≤ r < 2 ^ bits)%Z →
  decode_loop whole (String (upper_byte (digit_lower v)) s) r bits =
    if bool_decide (3 ≤ bits)%Z
    then out ← decode_loop whole s ((r * 32 + v) mod 2 ^ (bits - 3)) (bits - 3);
         Ok (String (byte_of_Z ((r * 32 + v) / 2 ^ (bits - 3))) out)
    else decode_loop whole s (r * 32 + v) (bits + 5).
Proof.
  intros Hv Hb Hr. rewrite decode_step by lia. cbv zeta.
  assert (2 ^ bits ≤ 2 ^ 7)%Z as Hp by (apply Z.pow_le_mono_r; lia).
  assert (u64 (r * 32 + v) = r * 32 + v)%Z as ->.
  { apply Z.mod_small. simpl in *. lia. }
  case_bool_decide; [|done].
  rewrite (decode_loop_low whole s (r * 32 + v) ((r * 32 + v) mod 2 ^ (bits - 3))); [done|lia|].
  by rewrite Z.mod_mod by lia.
Qed.

Lemma emit_spec buf n :
  (8 ≤ n ≤ 12)%Z →
  emit_loop 3 buf n =
    if bool_decide (10 ≤ n)%Z
    then (String (digit_lower (buf / 2 ^ (n - 5))) (String (digit_lower (buf / 2 ^ (n - 10))) ""), (n - 10)%Z)
    else (String (digit_lower (buf / 2 ^ (n - 5))) "", (n - 5)%Z).
Proof.
  intros Hn. simpl. rewrite bool_decide_true by lia.
  rewrite (bool_decide_ext (5 ≤ n - 5)%Z (10 ≤ n)%Z) by lia.
  destruct (bool_decide_reflect (10 ≤ n)%Z).
  - rewrite (bool_decide_false (5 ≤ n - 5 - 5)%Z) by lia.
    rewrite !Z.shiftr_div_pow2 by lia. by replace (n - 5 - 5)%Z with (n - 10)%Z by lia.
  - by rewrite Z.shiftr_div_pow2 by lia.
Qed.

Lemma digit_lower_bits x y i :
  (0 ≤ i)%Z → (x mod 2 ^ (i + 5) = y mod 2 ^ (i + 5))%Z →
  digit_lower (x / 2 ^ i) = digit_lower (y / 2 ^ i).
Proof.
  intros Hi Hxy. rewrite digit_lower_mod, (digit_lower_mod (y / _)). f_equal.
  change 32%Z with (2 ^ 5)%Z. rewrite <-!Z.shiftr_div_pow2 by done.
  apply Z.bits_inj'. intros n Hn. destruct (Z.lt_ge_cases n 5).
  - rewrite !Z.mod_pow2_bits_low by done. rewrite !Z.shiftr_spec by done.
    rewrite <-(Z.mod_pow2_bits_low x (i + 5)), <-(Z.mod_pow2_bits_low y (i + 5)) by lia.
    by rewrite Hxy.
  - by rewrite !Z.mod_pow2_bits_high by lia.
Qed.

Lemma mod_pow2_mono x y a b :
  (0 ≤ a ≤ b)%Z → (x mod 2 ^ b = y mod 2 ^ b → x mod 2 ^ a = y mod 2 ^ a)%Z.
Proof.
  intros Hab Hxy. apply Z.bits_inj'. intros n Hn. destruct (Z.lt_ge_cases n a).
  - rewrite !Z.mod_pow2_bits_low by done.
    rewrite <-(Z.mod_pow2_bits_low x b), <-(Z.mod_pow2_bits_low y b) by lia. by rewrite Hxy.
  - by rewrite !Z.mod_pow2_bits_high by lia.
Qed.

(** The encoder only looks at the [e] low bits of its register. *)
Lemma encode_loop_low b r1 r2 e :
  (0 ≤ e < 5)%Z → (r1 mod 2 ^ e = r2 mod 2 ^ e)%Z → encode_loop b r1 e = encode_loop b r2 e.
Proof.
  revert r1 r2 e. induction b as [|c b IH]; intros r1 r2 e He Hr; cbn [encode_loop].
  - case_bool_decide; [|done]. f_equal. rewrite !Z.shiftl_mul_pow2 by lia.
    rewrite digit_lower_mod, (digit_lower_mod (r2 * _)). f_equal.
    replace 32%Z with (2 ^ e * 2 ^ (5 - e))%Z
      by (rewrite <-Z.pow_add_r by lia; by replace (e + (5 - e))%Z with 5%Z by lia).
    rewrite !Zmult_mod_distr_r. by rewrite Hr.
  - pose proof (Z_of_byte_range c).
    rewrite !lor_shiftl_add by (simpl; lia). change (2 ^ 8)%Z with 256%Z.
    set (x1 := (r1 * 256 + Z_of_byte c)%Z). set (x2 := (r2 * 256 + Z_of_byte c)%Z).
    assert (x1 mod 2 ^ (e + 8) = x2 mod 2 ^ (e + 8))%Z as Hx.
    { unfold x1, x2. rewrite Z.pow_add_r by lia. change (2 ^ 8)%Z with 256%Z.
      rewrite <-Zplus_mod_idemp_l, <-(Zplus_mod_idemp_l (r2 * 256)).
      rewrite !Zmult_mod_distr_r. by rewrite Hr. }
    assert (∀ w, 0 ≤ w ≤ e + 8 → u64 x1 mod 2 ^ w = u64 x2 mod 2 ^ w)%Z as Hu.
    { intros w Hw. rewrite !u64_low by lia. by eapply mod_pow2_mono. }
    rewrite !emit_spec by lia. case_bool_decide.
    + rewrite (digit_lower_bits (u64 x1) (u64 x2) (e + 8 - 5)), (digit_lower_bits (u64 x1) (u64 x2) (e + 8 - 10))
        by (try apply Hu; lia). cbn beta iota. f_equal. apply IH; [lia|]. apply Hu. lia.
    + rewrite (digit_lower_bits (u64 x1) (u64 x2) (e + 8 - 5)) by (try apply Hu; lia).
      cbn beta iota. f_equal. apply IH; [lia|]. apply Hu. lia.
Qed.

Lemma encode_step c b r e :
  (0 ≤ e < 5)%Z → (0 ≤ r < 2 ^ e)%Z →
  let x := (r * 256 + Z_of_byte c)%Z in
  encode_loop (String c b) r e =
    if bool_decide (2 ≤ e)%Z
    then String (digit_lower (x / 2 ^ (e + 3) mod 32)) (String (digit_lower (x / 2 ^ (e - 2) mod 32))
           (encode_loop b (x mod 2 ^ (e - 2)) (e - 2)))
    else String (digit_lower (x / 2 ^ (e + 3) mod 32)) (encode_loop b (x mod 2 ^ (e + 3)) (e + 3)).
Proof.
  intros He Hr x. cbn [encode_loop]. pose proof (Z_of_byte_range c).
  rewrite lor_shiftl_add by (simpl; lia). change (2 ^ 8)%Z with 256%Z. fold x.
  assert (2 ^ e ≤ 2 ^ 4)%Z by (apply Z.pow_le_mono_r; lia).
  assert (u64 x = x) as -> by (apply Z.mod_small; simpl in *; unfold x; lia).
  rewrite emit_spec by lia.
  replace (e + 8 - 5)%Z with (e + 3)%Z by lia. replace (e + 8 - 10)%Z with (e - 2)%Z by lia.
  rewrite <-!digit_lower_mod.
  rewrite (bool_decide_ext (10 ≤ e + 8)%Z (2 ≤ e)%Z) by lia.
  case_bool_decide; rewrite !str_app_cons, str_app_nil_l.
  all: repeat match goal with |- String _ _ = String _ _ => f_equal end.
  all: apply encode_loop_low; [lia|]; by rewrite Z.mod_mod by lia.
Qed.

Lemma encode_end r e :
  (0 < e < 5)%Z → (0 ≤ r < 2 ^ e)%Z →
  encode_loop "" r e = String (digit_lower (r * 2 ^ (5 - e))) "".
Proof.
  intros. simpl. rewrite bool_decide_true by lia. by rewrite Z.shiftl_mul_pow2 by lia.
Qed.

(** ** Round trip *)

(** The decoder holds [8 - e] bits of the byte of which the encoder still
    holds the last [e]. *)
Definition pending (rE e rD : Z) : bytes :=
  if bool_decide (e = 0)%Z then "" else String (byte_of_Z (rD * 2 ^ e + rE)) "".

Definition dec_bits (e : Z) : Z := if bool_decide (e = 0)%Z then 0 else 8 - e.

Lemma ToUpper_cons c s : ToUpper (String c s) = String (upper_byte c) (ToUpper s).
Proof. done. Qed.

Lemma decode_loop_pad whole s n r bits :
  decode_loop whole (s +:+ Repeat "=" n) r bits = decode_loop whole s r bits.
Proof.
  revert r bits. induction s as [|c s IH]; intros r bits.
  - destruct n; [done|]. simpl. done.
  - rewrite str_app_cons. simpl. repeat case_match; rewrite ?IH; done.
Qed.

Ltac solve_pow := repeat match goal with
  | |- context [(2 ^ ?k)%Z] =>
      let k' := eval vm_compute in (2 ^ k)%Z in progress change (2 ^ k)%Z with k'
  | H : context [(2 ^ ?k)%Z] |- _ =>
      let k' := eval vm_compute in (2 ^ k)%Z in progress change (2 ^ k)%Z with k' in H
  end.

Ltac dec_side :=
  unfold dec_bits in *; simpl bool_decide in *; cbv beta iota in *;
  first [ apply Z.mod_pos_bound; lia | solve_pow; Z.div_mod_to_equations; lia ].

(** One digit through the decoder. *)
Ltac dec_digit := rewrite ToUpper_cons, decode_step_low by dec_side.

(** The bytes emitted so far are the ones encoded. *)
Ltac emitted :=
  repeat match goal with |- String _ _ = String _ _ => f_equal end;
  try match goal with
  | |- byte_of_Z _ = byte_of_Z _ => f_equal
  | |- byte_of_Z _ = _ => apply byte_of_Z_of_byte
  end;
  try done;
  unfold dec_bits in *; simpl bool_decide in *; cbv beta iota in *;
  solve_pow; Z.div_mod_to_equations; lia.

#[local] Opaque digit_lower.

Lemma decode_encode_loop whole b rE e rD :
  (0 ≤ e < 5)%Z → (0 ≤ rE < 2 ^ e)%Z → (0 ≤ rD < 2 ^ dec_bits e)%Z →
  decode_loop whole (ToUpper (encode_loop b rE e)) rD (dec_bits e) = Ok (pending rE e rD +:+ b).
Proof.
  revert rE e rD. induction b as [|c b IH]; intros rE e rD He HrE HrD.
  - destruct (decide (e = 0)%Z) as [->|He0].
    { simpl. done. }
    rewrite encode_end by lia. rewrite digit_lower_mod, ToUpper_cons.
    unfold dec_bits, pending in *. rewrite bool_decide_false in * by done.
    rewrite decode_step_low by (try apply Z.mod_pos_bound; lia).
    rewrite bool_decide_true by lia. simpl. f_equal. rewrite str_app_nil_r. f_equal.
    f_equal. assert (e = 1 ∨ e = 2 ∨ e = 3 ∨ e = 4)%Z as Hcases by lia.
    destruct Hcases as [->|[->|[->| ->]]]; solve_pow; Z.div_mod_to_equations; lia.
  - rewrite encode_step by lia. pose proof (Z_of_byte_range c) as Hc.
    set (x := (rE * 256 + Z_of_byte c)%Z).
    assert (e = 0 ∨ e = 1 ∨ e = 2 ∨ e = 3 ∨ e = 4)%Z as Hcases by lia.
    destruct Hcases as [->|[->|[->|[->| ->]]]].
    + rewrite bool_decide_false by lia. dec_digit. rewrite (bool_decide_false (3 ≤ dec_bits 0)%Z) by (vm_compute; congruence).
      change (dec_bits 0 + 5)%Z with (dec_bits 3). change (0 + 3)%Z with 3%Z.
      rewrite IH by dec_side. unfold pending; simpl. f_equal. rewrite !str_app_cons, !str_app_nil_l.
      emitted.
    + rewrite bool_decide_false by lia. dec_digit. rewrite bool_decide_true by (vm_compute; congruence).
      change (dec_bits 1 - 3)%Z with (dec_bits 4). change (1 + 3)%Z with 4%Z.
      rewrite IH by dec_side. unfold pending; simpl. f_equal. rewrite !str_app_cons, !str_app_nil_l.
      emitted.
    + rewrite bool_decide_true by lia. dec_digit. rewrite bool_decide_true by (vm_compute; congruence).
      change (dec_bits 2 - 3)%Z with 3%Z. dec_digit. rewrite bool_decide_true by lia.
      change (3 - 3)%Z with (dec_bits 0). change (2 - 2)%Z with 0%Z.
      rewrite IH by dec_side. unfold pending; simpl. f_equal. rewrite !str_app_cons, !str_app_nil_l.
      emitted.
    + rewrite bool_decide_true by lia. dec_digit. rewrite bool_decide_true by (vm_compute; congruence).
      change (dec_bits 3 - 3)%Z with 2%Z. dec_digit. rewrite bool_decide_false by lia.
      change (2 + 5)%Z with (dec_bits 1). change (3 - 2)%Z with 1%Z.
      rewrite IH by dec_side. unfold pending; simpl. f_equal. rewrite !str_app_cons, !str_app_nil_l.
      emitted.
    + rewrite bool_decide_true by lia. dec_digit. rewrite bool_decide_true by (vm_compute; congruence).
      change (dec_bits 4 - 3)%Z with 1%Z. dec_digit. rewrite bool_decide_false by lia.
      change (1 + 5)%Z with (dec_bits 2). change (4 - 2)%Z with 2%Z.
      rewrite IH by dec_side. unfold pending; simpl. f_equal. rewrite !str_app_cons, !str_app_nil_l.
      emitted.
Qed.

#[local] Transparent digit_lower.

(** Every digit the encoder writes is one of [0-9a-v]. *)
Definition is_b32 (c : ascii) : bool := in_range "0" "9" c || in_range "a" "v" c.

Fixpoint str_all (f : ascii → bool) (s : string) : bool :=
  match s with "" => true | String c s => f c && str_all f s end.

Lemma digit_lower_b32 z : is_b32 (digit_lower z) = true.
Proof.
  rewrite digit_lower_mod. assert (0 ≤ z mod 32 < 32)%Z as Hz by (apply Z.mod_pos_bound; lia).
  revert Hz. generalize (z mod 32)%Z. intros v Hv.
  assert (forallb (λ n, is_b32 (digit_lower (Z.of_nat n))) (seq 0 32) = true) as Hall by (vm_compute; reflexivity).
  rewrite forallb_elem_of in Hall. specialize (Hall (Z.to_nat v)).
  rewrite Z2Nat.id in Hall by lia. apply Hall, elem_of_seq. lia.
Qed.

Lemma str_all_app f a b : str_all f (a +:+ b) = str_all f a && str_all f b.
Proof. induction a as [|c a IH]; [done|]. rewrite str_app_cons. simpl. rewrite IH. apply andb_assoc. Qed.

Lemma emit_loop_b32 n buf bits : str_all is_b32 (emit_loop n buf bits).1 = true.
Proof.
  revert buf bits. induction n as [|n IH]; intros buf bits; [done|]. cbn [emit_loop].
  case_bool_decide; [|done]. specialize (IH buf (bits - 5)%Z).
  destruct (emit_loop n buf (bits - 5)). cbn [fst] in *. cbn [str_all].
  by rewrite digit_lower_b32, IH.
Qed.

Lemma encode_loop_b32 b buf bits : str_all is_b32 (encode_loop b buf bits) = true.
Proof.
  revert buf bits. induction b as [|c b IH]; intros buf bits; cbn [encode_loop].
  - case_bool_decide; [|done]. cbn [str_all]. by rewrite digit_lower_b32.
  - pose proof (emit_loop_b32 3 (u64 (Z.lor (Z.shiftl buf 8) (Z_of_byte c))) (bits + 8)) as He.
    destruct (emit_loop _ _ _). cbn [fst] in *. by rewrite str_all_app, He, IH.
Qed.

Lemma Base32Hex_b32 b : str_all is_b32 (Base32Hex b) = true.
Proof. unfold Base32Hex. case_bool_decide; [done|apply encode_loop_b32]. Qed.

Lemma TrimRight_all f c s : str_all f s = true → f c = false → TrimRight s c = s.
Proof.
  intros Hs Hc. unfold TrimRight. induction s as [|d s IH]; [done|]. simpl in *.
  apply andb_true_iff in Hs as [Hd Hs]. rewrite IH by done.
  destruct s; [|done]. rewrite bool_decide_false; [done|]. intros ->. by rewrite Hc in Hd.
Qed.

(** Length of an encoding: a digit for every five bits, the last one padded. *)
Lemma encode_loop_length b r e : (0 ≤ e < 5)%Z → (0 ≤ r < 2 ^ e)%Z →
  Z.of_nat (String.length (encode_loop b r e)) = ((e + 8 * Z.of_nat (String.length b) + 4) / 5)%Z.
Proof.
  revert r e. induction b as [|c b IH]; intros r e He Hr.
  - cbn [encode_loop]. case_bool_decide; cbn [String.length]; [|].
    + Z.div_mod_to_equations; lia.
    + replace e with 0%Z by lia. done.
  - rewrite encode_step by done. cbn [String.length].
    case_bool_decide; cbn [String.length]; rewrite !Nat2Z.inj_succ, IH
      by (try apply Z.mod_pos_bound; try apply Z.pow_pos_nonneg; lia).
    all: Z.div_mod_to_equations; lia.
Qed.

Lemma Base32Hex_length b :
  Z.of_nat (String.length (Base32Hex b)) = ((8 * Z.of_nat (String.length b) + 4) / 5)%Z.
Proof.
  unfold Base32Hex. case_bool_decide as H0; [by rewrite H0|].
  rewrite encode_loop_length by (simpl; lia). by rewrite Z.add_0_l.
Qed.

Lemma decode_Base32Hex b : b ≠ "" → decodeBase32Hex (ToUpper (Base32Hex b)) = Ok b.
Proof.
  intros Hb. assert (String.length b ≠ 0) as Hl by (by destruct b).
  pose proof (Base32Hex_length b) as Hlen.
  unfold decodeBase32Hex. rewrite (bool_decide_false (String.length (ToUpper _) = 0)).
  2:{ unfold ToUpper. rewrite str_map_length. intros H0. rewrite H0 in Hlen.
      Z.div_mod_to_equations; lia. }
  rewrite decode_loop_pad. unfold Base32Hex. rewrite bool_decide_false by done.
  change 0%Z with (dec_bits 0) at 4.
  rewrite decode_encode_loop by (unfold dec_bits; simpl; lia). done.
Qed.

(** the NSEC3 label codec loses nothing. Encoding any non-empty binary
    hash as a base32hex label and decoding that label gives the hash back,
    through the two 64-bit shift registers of the code. *)
Theorem hash_label_roundtrip (b : bytes) :
  b ≠ "" → HashFromBase32 (Base32Hex b) = Ok b.
Proof.
  intros Hb. unfold HashFromBase32.
  rewrite (TrimRight_all is_b32) by (done || apply Base32Hex_b32).
  by rewrite decode_Base32Hex.
Qed.

Theorem hash_label_roundtrip_witness :
  HashFromBase32 (Base32Hex "hash bytes") = Ok "hash bytes".
Proof. apply (hash_label_roundtrip "hash bytes"). discriminate. Defined.

Section owner.
Context `{DL : !DnsLib}.

Lemma first_label_app l o :
  str_all is_b32 l = true → first_label (l +:+ "." +:+ o) = l.
Proof.
  intros Hl. unfold first_label.
  assert (IndexByte (l +:+ "." +:+ o) "." = Some (String.length l)) as ->.
  { induction l as [|c l IH]; [done|]. rewrite str_app_cons. simpl in *.
    apply andb_true_iff in Hl as [Hc Hl]. rewrite bool_decide_false by (intros ->; done).
    by rewrite IH. }
  apply str_take_app.
Qed.

Lemma HashFromOwner_label h o :
  h ≠ "" → canonical (Base32Hex h +:+ "." +:+ o) →
  HashFromOwner (Base32Hex h +:+ "." +:+ o) = Ok h.
Proof.
  intros Hh Hc. unfold HashFromOwner. rewrite Hc, first_label_app by apply Base32Hex_b32.
  unfold HashFromBase32. rewrite (TrimRight_all is_b32) by (done || apply Base32Hex_b32).
  by rewrite decode_Base32Hex.
Qed.
End owner.
