(* ===== verification/Bytes.v ===== *)
(** * Binary data

    Big-endian integers, [io.ReadFull] on a byte string, and the base64
    decoder of the Go library, as the snapshot format and the key parser use
    them. *)

From S2P Require Import Prelude GoStrings Base32.

(** ** Big-endian integers *)

(** [n] bytes, most significant first, of the low [8*n] bits of [z]. *)
Fixpoint be (n : nat) (z : Z) : bytes :=
  match n with
  | 0 => ""
  | S n => String (byte_of_Z (z / 256 ^ Z.of_nat n)) (be n z)
  end.

Fixpoint be_acc (s : bytes) (acc : Z) : Z :=
  match s with
  | "" => acc
  | String c s => be_acc s (acc * 256 + Z_of_byte c)
  end.
Definition be_dec (s : bytes) : Z := be_acc s 0.

(** [int64] of 64 bits. *)
Definition i64 (z : Z) : Z :=
  let u := u64 z in if bool_decide (u < 2 ^ 63)%Z then u else (u - 2 ^ 64)%Z.

(** [io.ReadFull] of [n] bytes: what is read and the rest of the input. *)
Definition ReadFull (n : nat) (s : bytes) : result (bytes * bytes) :=
  if bool_decide (n = 0) then Ok ("", s)
  else if bool_decide (String.length s = 0) then Err "EOF"
  else if bool_decide (String.length s < n) then Err "unexpected EOF"
  else Ok (str_take n s, str_drop n s).

(** ** Base64 *)

Definition b64_index (c : ascii) : option Z :=
  if in_range "A" "Z" c then Some (Z_of_byte c - 65)%Z
  else if in_range "a" "z" c then Some (Z_of_byte c - 71)%Z
  else if in_range "0" "9" c then Some (Z_of_byte c + 4)%Z
  else if bool_decide (c = "+"%char) then Some 62%Z
  else if bool_decide (c = "/"%char) then Some 63%Z
  else None.

Definition CorruptInputError (i : nat) : string :=
  "illegal base64 data at input byte " +:+ fmt_d (Z.of_nat i).

Definition is_newline (c : ascii) : bool :=
  bool_decide (c = "010"%char) || bool_decide (c = "013"%char).

(** The bytes of a quantum of two to four sextets. *)
Definition quantum (q : list Z) : bytes :=
  match q with
  | [a; b] => String (byte_of_Z (a * 4 + b / 16)) ""
  | [a; b; c] => String (byte_of_Z (a * 4 + b / 16)) (String (byte_of_Z (b * 16 + c / 4)) "")
  | [a; b; c; d] =>
      String (byte_of_Z (a * 4 + b / 16)) (String (byte_of_Z (b * 16 + c / 4)) (String (byte_of_Z (c * 64 + d)) ""))
  | _ => ""
  end.

(** Skip newlines; the rest and its position. *)
Fixpoint skip_newlines (s : string) (si : nat) : string * nat :=
  match s with
  | String c s' => if is_newline c then skip_newlines s' (S si) else (s, si)
  | "" => (s, si)
  end.

(** After the padding of the last quantum nothing but newlines may follow. *)
Definition b64_end (out : bytes) (s : string) (si : nat) : result bytes :=
  let '(s, si) := skip_newlines s si in
  if bool_decide (s = "") then Ok out else Err (CorruptInputError si).

(** [Encoding.DecodeString]: [q] holds the sextets of the current quantum,
    [si] the position in the input of [total] bytes; [padded] tells the
    padded encoding from the raw one. *)
Fixpoint b64_loop (padded : bool) (total : nat) (s : string) (si : nat) (q : list Z) : result bytes :=
  match s with
  | "" =>
      match length q with
      | 0 => Ok ""
      | j => if padded || bool_decide (j = 1) then Err (CorruptInputError (si - j)) else Ok (quantum q)
      end
  | String c s =>
      let si := S si in
      match b64_index c with
      | Some v =>
          if bool_decide (length q = 3)
          then out ← b64_loop padded total s si []; Ok (quantum (q ++ [v]) +:+ out)
          else b64_loop padded total s si (q ++ [v])
      | None =>
          if is_newline c then b64_loop padded total s si q
          else if negb (padded && bool_decide (c = "="%char)) then Err (CorruptInputError (si - 1))
          else
            match length q with
            | 0 | 1 => Err (CorruptInputError (si - 1))
            | 2 =>
                let '(s, si) := skip_newlines s si in
                match s with
                | "" => Err (CorruptInputError total)
                | String c s =>
                    if bool_decide (c = "="%char) then b64_end (quantum q) s (S si)
                    else Err (CorruptInputError (si - 1))
                end
            | _ => b64_end (quantum q) s si
            end
      end
  end.

Definition b64_Std (s : string) : result bytes := b64_loop true (String.length s) s 0 [].
Definition b64_RawStd (s : string) : result bytes := b64_loop false (String.length s) s 0 [].

Example b64_Std_hello : b64_Std "aGVsbG8=" = Ok "hello".
Proof. reflexivity. Qed.
Example b64_RawStd_hello : b64_RawStd "aGVsbG8" = Ok "hello".
Proof. reflexivity. Qed.

(** ** Big-endian round trip *)

Lemma be_length n z : String.length (be n z) = n.
Proof. induction n; simpl; congruence. Qed.

Lemma Z_of_byte_of_Z z : Z_of_byte (byte_of_Z z) = (z mod 256)%Z.
Proof.
  unfold Z_of_byte, byte_of_Z, u8, wrapN. change (2 ^ 8)%Z with 256%Z.
  assert (0 ≤ z mod 256 < 256)%Z by (by apply Z.mod_pos_bound).
  rewrite N_ascii_embedding by lia. lia.
Qed.

Lemma be_acc_spec n z acc : be_acc (be n z) acc = (acc * 256 ^ Z.of_nat n + z mod 256 ^ Z.of_nat n)%Z.
Proof.
  revert acc. induction n as [|n IH]; intros acc; cbn [be be_acc].
  - simpl. rewrite Z.mod_1_r. lia.
  - rewrite IH, Z_of_byte_of_Z, Nat2Z.inj_succ, Z.pow_succ_r by lia.
    set (p := (256 ^ Z.of_nat n)%Z). assert (0 < p)%Z by (apply Z.pow_pos_nonneg; lia).
    rewrite (Z.mul_comm 256 p), Z.rem_mul_r by lia. lia.
Qed.

Lemma be_dec_be n z : be_dec (be n z) = (z mod 256 ^ Z.of_nat n)%Z.
Proof. unfold be_dec. rewrite be_acc_spec. lia. Qed.

Lemma ReadFull_app n a b : String.length a = n → ReadFull n (a +:+ b) = Ok (a, b).
Proof.
  intros <-. unfold ReadFull. rewrite str_length_app.
  case_bool_decide as H0; [by destruct a|].
  rewrite !bool_decide_false by lia. by rewrite str_take_app, str_drop_app.
Qed.

Lemma i64_small z : (- 2 ^ 63 ≤ z < 2 ^ 63)%Z → i64 (z mod 256 ^ 8) = z.
Proof.
  intros Hz. unfold i64, u64, wrapN. change (256 ^ 8)%Z with (2 ^ 64)%Z.
  rewrite Z.mod_mod by done. case_bool_decide as H.
  - destruct (Z.le_gt_cases 0 z).
    + rewrite Z.mod_small in * by lia. done.
    + rewrite <-(Z.mod_add z 1), Z.mod_small in H by lia. lia.
  - destruct (Z.le_gt_cases 0 z).
    + rewrite Z.mod_small in H by lia. lia.
    + rewrite <-(Z.mod_add z 1), Z.mod_small by lia. lia.
Qed.

