(* ===== verification/Toy.v ===== *)
(** * A concrete library instance

    The interfaces [DnsLib], [BTree] and [MapRange] stand for code outside
    the repository. This file has one instance of each, small but complete,
    and proves that it satisfies the laws the theorems assume: names split
    at their dots, a self-delimiting wire format with an inverse, a
    signature scheme in which a signature is the signing key. The witnesses
    of the other files run the models on it. *)

From S2P Require Import Prelude GoStrings DnsLib BTree Base32.

(** ** Names *)

(** Split at the dots. *)
Fixpoint split_dots (s : string) : list string :=
  match s with
  | "" => [""]
  | String c s =>
      if bool_decide (c = "."%char) then "" :: split_dots s
      else match split_dots s with
           | l :: ls => String c l :: ls
           | [] => [String c ""]
           end
  end.

Definition toy_IsFqdn (s : string) : bool := HasSuffix s ".".
Definition toy_Fqdn (s : string) : string := if toy_IsFqdn s then s else s +:+ ".".
Definition toy_Split (s : string) : list string :=
  if bool_decide (s = ".") || bool_decide (s = "") then [] else split_dots (TrimSuffix s ".").

Lemma split_dots_ne s : split_dots s ≠ [].
Proof. induction s as [|c s IH]; simpl; [done|]. destruct (bool_decide _); [done|]. by destruct (split_dots s). Qed.

Lemma Join_cons c l ls : Join (String c l :: ls) "." = String c (Join (l :: ls) ".").
Proof. by destruct ls. Qed.

Lemma split_dots_join s : Join (split_dots s) "." = s.
Proof.
  induction s as [|c s IH]; [done|]. cbn [split_dots].
  case_bool_decide as Hc.
  - subst. pose proof (split_dots_ne s). destruct (split_dots s) as [|l ls]; [done|].
    change (Join ("" :: l :: ls) ".") with ("" +:+ "." +:+ Join (l :: ls) "."). by rewrite IH.
  - pose proof (split_dots_ne s). destruct (split_dots s) as [|l ls]; [done|]. by rewrite Join_cons, IH.
Qed.

(** ** Wire format *)

(** A field: each byte is marked, the end is marked. *)
Fixpoint esc (s : string) : string :=
  match s with "" => "0" | String c s => String "1" (String c (esc s)) end.

Fixpoint unesc (w : string) : list string :=
  match w with
  | String m w =>
      if bool_decide (m = "0"%char) then "" :: unesc w
      else
        match w with
        | String c w => match unesc w with s :: l => String c s :: l | [] => [] end
        | "" => []
        end
  | "" => []
  end.

Lemma unesc_esc s w : unesc (esc s +:+ w) = s :: unesc w.
Proof.
  induction s as [|c s IH]; [done|]. cbn [esc]. rewrite !str_app_cons. cbn [unesc].
  rewrite bool_decide_false by done. by rewrite IH.
Qed.

Fixpoint esc_all (l : list string) : string :=
  match l with [] => "" | s :: l => esc s +:+ esc_all l end.

Lemma unesc_all l : unesc (esc_all l) = l.
Proof. induction l as [|s l IH]; [done|]. cbn [esc_all]. by rewrite unesc_esc, IH. Qed.

(** Numbers as the bits of a positive. *)
Fixpoint pos_bits (p : positive) : string :=
  match p with xH => "" | xO p => String "0" (pos_bits p) | xI p => String "1" (pos_bits p) end.
Fixpoint bits_pos (s : string) : positive :=
  match s with
  | "" => xH
  | String c s => if bool_decide (c = "0"%char) then xO (bits_pos s) else xI (bits_pos s)
  end.
Lemma bits_pos_bits p : bits_pos (pos_bits p) = p.
Proof. induction p as [p IH|p IH|]; simpl; by rewrite ?IH. Qed.

Definition zs (z : Z) : string := pos_bits (encode z).
Definition zd (s : string) : Z := default 0%Z (decode (bits_pos s)).
Lemma zd_zs z : zd (zs z) = z.
Proof. unfold zd, zs. by rewrite bits_pos_bits, decode_encode. Qed.
Lemma zd_zs_list (l : list Z) : zd <$> (zs <$> l) = l.
Proof. induction l as [|z l IH]; [done|]. rewrite !fmap_cons, zd_zs. by f_equal. Qed.

Definition data_fields (d : RData) : list string :=
  match d with
  | RD_SOA (mkSOA a b c d e f g) => ["soa"; a; b; zs c; zs d; zs e; zs f; zs g]
  | RD_RRSIG (mkRRSIG a b c d e f g h i) => ["sig"; zs a; zs b; zs c; zs d; zs e; zs f; zs g; h; i]
  | RD_DNSKEY (mkDNSKEY a b c d) => ["key"; zs a; zs b; zs c; d]
  | RD_NSEC (mkNSEC a l) => "nsec" :: a :: (zs <$> l)
  | RD_NSEC3 (mkNSEC3 a b c d e f g l) => "nsec3" :: zs a :: zs b :: zs c :: zs d :: e :: zs f :: g :: (zs <$> l)
  | RD_NSEC3PARAM (mkNSEC3PARAM a b c d e) => ["param"; zs a; zs b; zs c; zs d; e]
  | RD_ZONEMD (mkZONEMD a b c d) => ["zmd"; zs a; zs b; zs c; d]
  | RD_DS (mkDS a b c d) => ["ds"; zs a; zs b; zs c; d]
  | RD_NS a => ["ns"; a]
  | RD_A a => ["a"; a]
  | RD_TXT l => "txt" :: l
  | RD_PTR a => ["ptr"; a]
  | RD_DNAME a => ["dname"; a]
  | RD_Other a => ["other"; a]
  end.

Definition fields_data (l : list string) : option RData :=
  match l with
  | ["soa"; a; b; c; d; e; f; g] => Some (RD_SOA (mkSOA a b (zd c) (zd d) (zd e) (zd f) (zd g)))
  | ["sig"; a; b; c; d; e; f; g; h; i] =>
      Some (RD_RRSIG (mkRRSIG (zd a) (zd b) (zd c) (zd d) (zd e) (zd f) (zd g) h i))
  | ["key"; a; b; c; d] => Some (RD_DNSKEY (mkDNSKEY (zd a) (zd b) (zd c) d))
  | "nsec" :: a :: l => Some (RD_NSEC (mkNSEC a (zd <$> l)))
  | "nsec3" :: a :: b :: c :: d :: e :: f :: g :: l =>
      Some (RD_NSEC3 (mkNSEC3 (zd a) (zd b) (zd c) (zd d) e (zd f) g (zd <$> l)))
  | ["param"; a; b; c; d; e] => Some (RD_NSEC3PARAM (mkNSEC3PARAM (zd a) (zd b) (zd c) (zd d) e))
  | ["zmd"; a; b; c; d] => Some (RD_ZONEMD (mkZONEMD (zd a) (zd b) (zd c) d))
  | ["ds"; a; b; c; d] => Some (RD_DS (mkDS (zd a) (zd b) (zd c) d))
  | ["ns"; a] => Some (RD_NS a)
  | ["a"; a] => Some (RD_A a)
  | "txt" :: l => Some (RD_TXT l)
  | ["ptr"; a] => Some (RD_PTR a)
  | ["dname"; a] => Some (RD_DNAME a)
  | ["other"; a] => Some (RD_Other a)
  | _ => None
  end.

Lemma fields_data_fields d : fields_data (data_fields d) = Some d.
Proof.
  destruct d as [[]|[]|[]|[]|[]|[]|[]|[]| | | | | |]; simpl;
    rewrite ?zd_zs; try done; do 2 f_equal; f_equal; apply zd_zs_list.
Qed.

Definition rr_fields (rr : RR) : list string :=
  let h := rr_Hdr rr in
  h_Name h :: zs (h_Rrtype h) :: zs (h_Class h) :: zs (h_Ttl h) :: data_fields (rr_Data rr).

Definition fields_rr (l : list string) : option RR :=
  match l with
  | n :: t :: c :: ttl :: d => mkRR (mkHdr n (zd t) (zd c) (zd ttl)) <$> fields_data d
  | _ => None
  end.

Lemma fields_rr_fields rr : fields_rr (rr_fields rr) = Some rr.
Proof. destruct rr as [[] d]. simpl. rewrite !zd_zs, fields_data_fields. done. Qed.

Definition toy_wire (rr : RR) : string := esc_all (rr_fields rr).
(** The length with room for any TTL. *)
Definition toy_Len (rr : RR) : Z := Z.of_nat (String.length (toy_wire (set_ttl 0 rr)) + 64).
Definition toy_Pack (rr : RR) (n : Z) : result bytes :=
  if bool_decide (255 < String.length (h_Name (rr_Hdr rr))) then Err "dns: domain name exceeded 255 wire-format octets"
  else if negb (bool_decide (in_u32 (rr_Ttl rr))) then Err "dns: bad ttl"
  else if (toy_Len rr <=? n)%Z then Ok (toy_wire rr) else Err "dns: overflow packing rr".
Definition toy_Unpack (w : bytes) : result RR :=
  match fields_rr (unesc w) with Some rr => Ok rr | None => Err "dns: overflow unpacking rr" end.

(** ** The instances *)

Definition toy_types : list (Z * string) :=
  [(TypeA, "A"); (TypeNS, "NS"); (TypeSOA, "SOA"); (TypeTXT, "TXT"); (TypeDS, "DS"); (TypeRRSIG, "RRSIG");
   (TypeNSEC, "NSEC"); (TypeDNSKEY, "DNSKEY"); (TypeNSEC3, "NSEC3"); (TypeNSEC3PARAM, "NSEC3PARAM");
   (TypeZONEMD, "ZONEMD")].

Definition toy_algs : list (Z * string) := [(RSASHA1, "RSASHA1"); (ED25519, "ED25519")].

Definition assoc {V} (l : list (Z * V)) (k : Z) : option V :=
  snd <$> List.find (λ p, bool_decide (p.1 = k)) l.

(** A signature by a key is the text of the key, and names its owner. *)
Definition toy_Verify (rr : RR) (k : DNSKEY_RR) (rrs : list RR) : bool :=
  match as_RRSIG rr with
  | Some sig => bool_decide (sig_Signature sig = key_PublicKey k.2)
      && bool_decide (sig_SignerName sig = h_Name k.1)
  | None => false
  end.

#[export] Instance toy_dns : DnsLib := {|
  IsFqdn := toy_IsFqdn;
  Fqdn := toy_Fqdn;
  SplitDomainName := toy_Split;
  CountLabel := λ s, Z.of_nat (length (toy_Split s));
  dns_Len := toy_Len;
  dns_PackRR := toy_Pack;
  dns_UnpackRR := toy_Unpack;
  RR_String := toy_wire;
  TypeToString := assoc toy_types;
  AlgorithmToString := assoc toy_algs;
  dns_HashName := λ name hash iter salt, ToUpper (Base32Hex name);
  Verify := toy_Verify;
  KeyTag := λ k, Z.of_nat (String.length (key_PublicKey k));
  ToDS := λ k h, Some (mkDS (Z.of_nat (String.length (key_PublicKey k.2))) (key_Algorithm k.2) h (key_PublicKey k.2))
|}.

#[export] Instance toy_btree : BTree := gmap_btree.
#[export] Instance toy_btree_laws : BTreeLaws := gmap_btree_laws.
#[export] Instance toy_range : MapRange := map_range_default.

#[export] Instance toy_name_laws : DnsNameLaws.
Proof.
  split; simpl; unfold toy_Fqdn, toy_IsFqdn.
  - by intros s ->.
  - by intros s ->.
  - intros s Hs. by rewrite Hs.
  - done.
  - apply HasSuffix_dot_ToLower.
  - done.
  - intros p s [q ->]%HasSuffix_spec. rewrite !str_app_assoc. apply HasSuffix_app.
  - done.
  - intros s Hs Hne. unfold toy_Split. apply HasSuffix_spec in Hs as [p ->].
    rewrite (bool_decide_false _ Hne), bool_decide_false by (by destruct p). simpl.
    rewrite TrimSuffix_app. split; [apply split_dots_ne|]. by rewrite split_dots_join.
  - intros s l ls _ _ _. apply HasSuffix_app.
Qed.

Lemma toy_Unpack_Pack rr n w : toy_Pack rr n = Ok w → toy_Unpack w = Ok rr.
Proof.
  unfold toy_Pack, toy_Unpack. destruct (bool_decide (255 < _)); [done|]. destruct (negb _); [done|].
  destruct (_ <=? _)%Z; [|done]. intros [= <-]. unfold toy_wire.
  by rewrite unesc_all, fields_rr_fields.
Qed.

(** A number of 32 bits takes at most 33 digits. *)
Lemma pos_bits_length p : String.length (pos_bits p) < Pos.size_nat p.
Proof. induction p as [p IH|p IH|]; simpl; lia. Qed.

Lemma size_nat_le p n : (Zpos p < 2 ^ Z.of_nat n)%Z → Pos.size_nat p ≤ n.
Proof.
  revert n. induction p as [p IH|p IH|]; intros n Hp; (destruct n as [|n]; [simpl in Hp; lia|]); cbn [Pos.size_nat]; [..|lia].
  all: rewrite Nat2Z.inj_succ, Z.pow_succ_r in Hp by lia; specialize (IH n ltac:(lia)); lia.
Qed.

Lemma zs_length t : in_u32 t → String.length (zs t) ≤ 32.
Proof.
  intros [Ht Hlt]. unfold zs. destruct t as [|p|p]; [apply Nat.leb_le; reflexivity| |by exfalso; apply Ht].
  change (encode (Zpos p)) with (xO p). cbn [pos_bits String.length]. pose proof (pos_bits_length p).
  pose proof (size_nat_le p 32 Hlt). lia.
Qed.

Lemma esc_length s : String.length (esc s) = 2 * String.length s + 1.
Proof. induction s as [|c s IH]; cbn [esc String.length]; lia. Qed.

(** Another TTL changes the length by less than the room there is. *)
Lemma toy_Len_wire rr : in_u32 (rr_Ttl rr) → (Z.of_nat (String.length (toy_wire rr)) ≤ toy_Len rr)%Z.
Proof.
  intros Ht. unfold toy_Len. apply Nat2Z.inj_le. destruct rr as [[n t c ttl] d]. unfold rr_Ttl in Ht. cbn in Ht.
  unfold toy_wire, set_ttl, rr_fields, rr_Name, rr_Type, rr_Class. cbn [rr_Hdr rr_Data h_Name h_Rrtype h_Class h_Ttl esc_all].
  rewrite !str_length_app, !esc_length. pose proof (zs_length ttl Ht). lia.
Qed.

Lemma toy_Pack_wire rr n w : toy_Pack rr n = Ok w → w = toy_wire rr ∧ (Z.of_nat (String.length w) ≤ n)%Z.
Proof.
  unfold toy_Pack. destruct (bool_decide (255 < _)); [done|]. case_bool_decide as Ht; [|done]. cbn [negb].
  destruct (Z.leb_spec (toy_Len rr) n); [|done]. intros [= <-]. split; [done|]. pose proof (toy_Len_wire rr Ht). lia.
Qed.

Lemma toy_Pack_bigger rr n m w : toy_Pack rr n = Ok w → (n ≤ m)%Z → toy_Pack rr m = Ok w.
Proof.
  unfold toy_Pack. destruct (bool_decide (255 < _)); [done|]. destruct (negb _); [done|].
  destruct (Z.leb_spec (toy_Len rr) n); [|done].
  intros [= <-] Hle. by rewrite (proj2 (Z.leb_le _ _)) by lia.
Qed.

Lemma toy_Pack_len rr n w : toy_Pack rr n = Ok w → toy_Pack rr (toy_Len rr + 64) = Ok w.
Proof.
  unfold toy_Pack. destruct (bool_decide (255 < _)); [done|]. destruct (negb _); [done|].
  destruct (_ <=? n)%Z; [|done]. intros [= <-]. by rewrite (proj2 (Z.leb_le _ _)) by lia.
Qed.

#[export] Instance toy_wire_laws : DnsWireLaws := {|
  wire_norm := λ rr, rr; Unpack_norm := toy_Unpack_Pack; Pack_norm := toy_Pack_len;
  Pack_size := λ rr n w H, proj2 (toy_Pack_wire rr n w H); Pack_bigger := toy_Pack_bigger
|}.

Lemma toy_Len_ttl rr t : toy_Len (set_ttl t rr) = toy_Len rr.
Proof. done. Qed.

Lemma toy_Pack_ttl rr n w t : in_u32 t → toy_Pack rr n = Ok w → is_ok (toy_Pack (set_ttl t rr) n) = true.
Proof.
  intros Ht. unfold toy_Pack. rewrite toy_Len_ttl. cbn [set_ttl rr_Hdr h_Name rr_Ttl h_Ttl].
  rewrite (bool_decide_true (in_u32 t)) by done. unfold rr_Name.
  destruct (bool_decide (255 < _)); [done|]. destruct (negb _); [done|]. by destruct (_ <=? _)%Z.
Qed.

#[export] Instance toy_ttl_laws : DnsTtlLaws.
Proof. split; [done|apply toy_Len_ttl|apply toy_Pack_ttl]. Qed.

(** ** Records to run the models on *)

Definition hdr (name : string) (t : Z) : RR_Header := mkHdr name t ClassINET 300.
Definition toy_SOA (zone : string) (serial : Z) : RR :=
  mkRR (hdr zone TypeSOA) (RD_SOA (mkSOA ("ns." +:+ zone) ("mail." +:+ zone) serial 900 300 86400 60)).
Definition toy_NS (name target : string) : RR := mkRR (hdr name TypeNS) (RD_NS target).
Definition toy_A (name addr : string) : RR := mkRR (hdr name TypeA) (RD_A addr).
Definition toy_RRSIG (name : string) (covered exp tag : Z) (signer sig : string) : RR :=
  mkRR (hdr name TypeRRSIG) (RD_RRSIG (mkRRSIG covered ED25519 (CountLabel name) 300 exp 0 tag signer sig)).
Definition toy_DNSKEY (zone : string) (flags : Z) (key : string) : RR :=
  mkRR (hdr zone TypeDNSKEY) (RD_DNSKEY (mkDNSKEY flags 3 ED25519 key)).
Definition toy_NSEC (name next : string) (types : list Z) : RR :=
  mkRR (hdr name TypeNSEC) (RD_NSEC (mkNSEC next types)).
Definition toy_NSEC3 (hash zone next : string) (flags : Z) (types : list Z) : RR :=
  mkRR (hdr (Base32Hex hash +:+ "." +:+ zone) TypeNSEC3)
    (RD_NSEC3 (mkNSEC3 1 flags 0 0 "" 20 (ToUpper (Base32Hex next)) types)).

Definition toy_zone : list RR :=
  [toy_SOA "z." 7; toy_NS "z." "ns.z."; toy_A "ns.z." "192.0.2.1";
   toy_RRSIG "ns.z." TypeA 5000 4 "z." "ksk1"; toy_RRSIG "z." TypeSOA 4000 4 "z." "ksk1"].

(** A record that cannot be packed: its name is too long. *)
Definition toy_bad : RR := toy_A (Repeat "a" 300 +:+ ".z.") "192.0.2.9".
