(* ===== verification/CanonOrder.v ===== *)
(** * Canonical name order (internal/zone/nsec3.go, [CanonicalCmp])

    The comparison every sort of owner names uses: lexicographic on the
    labels read from the root, each compared as the lower-case text it is
    written as. It is a total order on canonical names, so that sorting names
    has one result. The DNSSEC canonical order of RFC 4034, section 6.1,
    compares the octets of the labels: for names written without an escape it
    is the same order, for others it need not be. *)

From S2P Require Import Prelude GoStrings Decimal DnsLib DnsName Base32 Toy.

(** The loop over the labels from the right; the lists are reversed.
    [None]: no pair differs. *)
Fixpoint cmp_labels (al bl : list string) : option Z :=
  match al, bl with
  | a :: al, b :: bl =>
      let aa := ToLower a in
      let bb := ToLower b in
      if bool_decide (aa = bb) then cmp_labels al bl
      else if str_ltb aa bb then Some (-1)%Z else Some 1%Z
  | _, _ => None
  end.

Definition CanonicalCmp `{!DnsLib} (a b : string) : Z :=
  let al := SplitDomainName (Canonical a) in
  let bl := SplitDomainName (Canonical b) in
  match cmp_labels (rev al) (rev bl) with
  | Some c => c
  | None => (Z.of_nat (length al) - Z.of_nat (length bl))%Z
  end.

(** ** The lexicographic order on labels read from the root *)

Inductive labels_lt : list string → list string → Prop :=
| labels_lt_nil b bl : labels_lt [] (b :: bl)
| labels_lt_head a b al bl : str_lt a b → labels_lt (a :: al) (b :: bl)
| labels_lt_tail a al bl : labels_lt al bl → labels_lt (a :: al) (a :: bl).

Lemma labels_lt_irrefl l : ¬ labels_lt l l.
Proof.
  induction l as [|a l IH]; intros H; inversion H; subst; [|done].
  by eapply str_lt_irrefl.
Qed.

Lemma labels_lt_trans a b c : labels_lt a b → labels_lt b c → labels_lt a c.
Proof.
  intros H. revert c. induction H as [b bl|a b al bl Hab|a al bl H IH]; intros c Hc;
    inversion Hc; subst; try by constructor.
  - apply labels_lt_head. by etrans.
  - apply labels_lt_tail. by apply IH.
Qed.

Lemma labels_lt_total a b : labels_lt a b ∨ a = b ∨ labels_lt b a.
Proof.
  revert b. induction a as [|x a IH]; intros [|y b]; [by right; left| | |].
  - left. constructor.
  - right; right. constructor.
  - destruct (str_lt_total x y) as [H|[->|H]].
    + left. by constructor.
    + destruct (IH b) as [H|[->|H]]; [left|right; left|right; right]; try done; by apply labels_lt_tail.
    + right; right. by constructor.
Qed.

(** [cmp_labels] with the lengths as a tie break decides the order. *)
Lemma cmp_labels_spec al bl :
  match cmp_labels al bl with
  | Some c => (c = -1)%Z ∧ labels_lt (ToLower <$> al) (ToLower <$> bl)
      ∨ (c = 1)%Z ∧ labels_lt (ToLower <$> bl) (ToLower <$> al)
  | None =>
      (length al < length bl → labels_lt (ToLower <$> al) (ToLower <$> bl)) ∧
      (length bl < length al → labels_lt (ToLower <$> bl) (ToLower <$> al)) ∧
      (length al = length bl → ToLower <$> al = ToLower <$> bl)
  end.
Proof.
  revert bl. induction al as [|a al IH]; intros [|b bl]; simpl.
  - split_and!; [lia|lia|done].
  - split_and!; [constructor|lia|done].
  - split_and!; [lia|constructor|done].
  - case_bool_decide as He.
    + rewrite He. specialize (IH bl). destruct (cmp_labels al bl).
      * destruct IH as [[? ?]|[? ?]]; [left|right]; (split; [done|by apply labels_lt_tail]).
      * destruct IH as (H1 & H2 & H3). split_and!; intros.
        -- apply labels_lt_tail, H1. lia.
        -- apply labels_lt_tail, H2. lia.
        -- f_equal. apply H3. lia.
    + destruct (str_ltb _ _) eqn:Hlt.
      * left. split; [done|]. constructor. by apply str_ltb_spec.
      * right. split; [done|]. constructor.
        destruct (str_lt_total (ToLower a) (ToLower b)) as [H|[H|H]]; [|done..].
        apply str_ltb_spec in H. congruence.
Qed.

Section canon_order.
Context `{DL : !DnsLib}.

(** The labels of a name as they are written, lower-case, read from the root. *)
Definition root_labels (n : string) : list string :=
  ToLower <$> rev (SplitDomainName (Canonical n)).

Lemma CanonicalCmp_sgn a b :
  (CanonicalCmp a b < 0 ↔ labels_lt (root_labels a) (root_labels b))%Z ∧
  (CanonicalCmp a b = 0 ↔ root_labels a = root_labels b)%Z ∧
  (CanonicalCmp a b > 0 ↔ labels_lt (root_labels b) (root_labels a))%Z.
Proof.
  set (x := root_labels a). set (y := root_labels b).
  assert ((CanonicalCmp a b < 0 ∧ labels_lt x y) ∨ (CanonicalCmp a b = 0 ∧ x = y)
    ∨ (CanonicalCmp a b > 0 ∧ labels_lt y x))%Z as Hcmp.
  { unfold CanonicalCmp, x, y, root_labels.
    pose proof (cmp_labels_spec (rev (SplitDomainName (Canonical a))) (rev (SplitDomainName (Canonical b)))) as H.
    rewrite !length_rev in H.
    destruct (cmp_labels _ _) as [c|].
    - destruct H as [[-> H]|[-> H]]; [left|right; right]; (split; [lia|done]).
    - destruct H as (H1 & H2 & H3).
      destruct (Nat.lt_trichotomy (length (SplitDomainName (Canonical a))) (length (SplitDomainName (Canonical b)))) as [Hl|[Hl|Hl]].
      + left. split; [lia|by apply H1].
      + right; left. split; [lia|by apply H3].
      + right; right. split; [lia|by apply H2]. }
  clearbody x y. pose proof (labels_lt_irrefl x) as Hx. pose proof (labels_lt_irrefl y) as Hy.
  assert (labels_lt x y → labels_lt y x → False) as Hxy.
  { intros. apply Hx. by eapply labels_lt_trans. }
  destruct Hcmp as [[Hc Hl]|[[Hc Hl]|[Hc Hl]]].
  - split_and!; (split; intros; try lia; try done; exfalso; subst; auto).
  - subst. split_and!; (split; intros; try lia; try done).
  - split_and!; (split; intros; try lia; try done; exfalso; subst; auto).
Qed.

#[export] Instance CanonicalCmp_order : CmpOrder CanonicalCmp.
Proof.
  split.
  - intros a b.
    pose proof (CanonicalCmp_sgn a b) as (H1 & H2 & H3).
    pose proof (CanonicalCmp_sgn b a) as (H4 & H5 & H6).
    destruct (labels_lt_total (root_labels a) (root_labels b)) as [H|[H|H]].
    + apply H1 in H as Ha. apply H6 in H as Hb. lia.
    + apply H2 in H as Ha. symmetry in H. apply H5 in H. lia.
    + apply H3 in H as Ha. apply H4 in H. lia.
  - intros a b c Hab Hbc.
    pose proof (CanonicalCmp_sgn a b) as (H1 & H2 & _).
    pose proof (CanonicalCmp_sgn b c) as (H3 & H4 & _).
    pose proof (CanonicalCmp_sgn a c) as (H5 & H6 & _).
    assert (labels_lt (root_labels a) (root_labels b) ∨ root_labels a = root_labels b) as Ha.
    { destruct (decide (CanonicalCmp a b = 0)%Z) as [E|E]; [right; by apply H2|left; apply H1; lia]. }
    assert (labels_lt (root_labels b) (root_labels c) ∨ root_labels b = root_labels c) as Hb.
    { destruct (decide (CanonicalCmp b c = 0)%Z) as [E|E]; [right; by apply H4|left; apply H3; lia]. }
    destruct Ha as [Ha|Ha], Hb as [Hb|Hb].
    + enough (CanonicalCmp a c < 0)%Z by lia. apply H5. by eapply labels_lt_trans.
    + enough (CanonicalCmp a c < 0)%Z by lia. apply H5. by rewrite <-Hb.
    + enough (CanonicalCmp a c < 0)%Z by lia. apply H5. by rewrite Ha.
    + enough (CanonicalCmp a c = 0)%Z by lia. apply H6. congruence.
Qed.

Context `{NL : !DnsNameLaws}.

Lemma ToLower_app_inv a b : ToLower (a +:+ b) = a +:+ b → ToLower a = a ∧ ToLower b = b.
Proof.
  rewrite ToLower_app. intros H. apply str_app_inj_length in H; [done|apply ToLower_length].
Qed.

Lemma ToLower_labels ls : ToLower (Join ls ".") = Join ls "." → ToLower <$> ls = ls.
Proof.
  induction ls as [|l [|l' ls] IH]; intros H; [done|by f_equal/=|].
  change (Join (l :: l' :: ls) ".") with (l +:+ "." +:+ Join (l' :: ls) ".") in H.
  apply ToLower_app_inv in H as [Hl H]. apply ToLower_app_inv in H as [_ H].
  rewrite fmap_cons, IH, Hl by done. done.
Qed.

Lemma fmap_rev_list {A B} (f : A → B) l : f <$> rev l = rev (f <$> l).
Proof. induction l as [|x l IH]; [done|]. simpl. by rewrite fmap_app, IH. Qed.

Lemma labels_Canonical_lower n :
  ToLower <$> SplitDomainName (Canonical n) = SplitDomainName (Canonical n).
Proof.
  destruct (decide (Canonical n = ".")) as [->|Hn]; [by rewrite Split_root|].
  destruct (Split_join (Canonical n)) as [_ Hj]; [apply IsFqdn_Canonical|done|].
  pose proof (Canonical_lower n) as Hl. rewrite <-Hj in Hl.
  apply ToLower_app_inv in Hl as [Hl _]. by apply ToLower_labels.
Qed.

(** The labels determine the name. *)
Lemma root_labels_inj a b : root_labels a = root_labels b → Canonical a = Canonical b.
Proof.
  unfold root_labels. rewrite !fmap_rev_list, !labels_Canonical_lower. intros H.
  apply (f_equal (@rev string)) in H. rewrite !rev_involutive in H.
  destruct (decide (Canonical a = ".")) as [Ha|Ha], (decide (Canonical b = ".")) as [Hb|Hb].
  - congruence.
  - rewrite Ha, Split_root in H. destruct (Split_join (Canonical b)); [apply IsFqdn_Canonical|done|].
    by rewrite <-H in *.
  - rewrite Hb, Split_root in H. destruct (Split_join (Canonical a)); [apply IsFqdn_Canonical|done|].
    by rewrite H in *.
  - destruct (Split_join (Canonical a)) as [_ Ja]; [apply IsFqdn_Canonical|done|].
    destruct (Split_join (Canonical b)) as [_ Jb]; [apply IsFqdn_Canonical|done|].
    by rewrite <-Ja, <-Jb, H.
Qed.

Lemma CanonicalCmp_0 a b : canonical a → canonical b → CanonicalCmp a b = 0%Z → a = b.
Proof.
  intros Ha Hb H. apply CanonicalCmp_sgn, root_labels_inj in H. by rewrite Ha, Hb in H.
Qed.

(** Sorting canonical names has one result, whatever the input order. *)
Lemma sort_names_unique l1 l2 :
  (∀ n, n ∈ l1 → canonical n) → l1 ≡ₚ l2 →
  SortFunc CanonicalCmp l1 = SortFunc CanonicalCmp l2.
Proof.
  intros Hc. apply SortFunc_unique; [apply _|]. intros a b Ha Hb. apply CanonicalCmp_0; auto.
Qed.

(** The empty list of labels is the root's. *)
Lemma root_labels_nil n : root_labels n = [] → Canonical n = ".".
Proof.
  intros H. rewrite <-canonical_root. apply root_labels_inj. rewrite H.
  unfold root_labels. by rewrite canonical_root, Split_root.
Qed.

(** ** The order of RFC 4034 *)

Definition backslash : ascii := "\".

(** The octets of a label (RFC 1035, section 5.1): [\DDD] stands for the octet
    of that decimal value, and [\X] for the character [X]. *)
Fixpoint label_octets (s : string) : string :=
  match s with
  | "" => ""
  | String c s =>
      if bool_decide (c = backslash) then
        match s with
        | "" => ""
        | String a s1 =>
            match s1 with
            | String b (String d s2) =>
                if is_digit a && is_digit b && is_digit d
                then String (byte_of_Z ((Z_of_byte a - 48) * 100 + (Z_of_byte b - 48) * 10 + (Z_of_byte d - 48))) (label_octets s2)
                else String a (label_octets s1)
            | _ => String a (label_octets s1)
            end
        end
      else String c (label_octets s)
  end.

(** Section 6.1: the labels as octets, in US-ASCII lower case, from the root. *)
Definition rfc_labels (n : string) : list string :=
  ToLower <$> (label_octets <$> rev (SplitDomainName (Canonical n))).

Lemma label_octets_plain s : no_byte backslash s → label_octets s = s.
Proof. induction s as [|c s IH]; [done|]. intros [Hc Hs]. cbn [label_octets]. by rewrite bool_decide_false, IH. Qed.

Lemma no_byte_Join c ls : no_byte c (Join ls ".") → Forall (no_byte c) ls.
Proof.
  induction ls as [|l [|l' ls] IH]; intros H; [constructor|by constructor|].
  change (Join (l :: l' :: ls) ".") with (l +:+ "." +:+ Join (l' :: ls) ".") in H.
  apply no_byte_app in H as [Hl H]. apply no_byte_app in H as [_ H]. constructor; auto.
Qed.

(** Without an escape the labels are written as what they are. *)
Lemma rfc_labels_plain n : no_byte backslash (Canonical n) → rfc_labels n = root_labels n.
Proof.
  intros Hn. unfold rfc_labels, root_labels. f_equal.
  assert (Forall (no_byte backslash) (rev (SplitDomainName (Canonical n)))) as Hl.
  { apply Forall_rev. destruct (decide (Canonical n = ".")) as [->|Hr]; [rewrite Split_root; constructor|].
    destruct (Split_join (Canonical n)) as [_ Hj]; [apply IsFqdn_Canonical|done|].
    rewrite <-Hj in Hn. apply no_byte_app in Hn as [Hn _]. by apply no_byte_Join. }
  induction Hl as [|l ls Hl _ IH]; [done|]. by rewrite fmap_cons, label_octets_plain, IH.
Qed.

(** C25: on names written without an escape, [CanonicalCmp] is the canonical
    DNS name order of RFC 4034, section 6.1: it is negative (zero, positive)
    exactly when the sequence of labels of the first name, as lower-case
    octets read from the root, is lexicographically smaller than (equal to,
    greater than) that of the second; and two names compare equal only when
    they are the same canonical name. *)
Theorem canonical_cmp_rfc4034 a b :
  no_byte backslash (Canonical a) → no_byte backslash (Canonical b) →
  (CanonicalCmp a b < 0 ↔ labels_lt (rfc_labels a) (rfc_labels b))%Z ∧
  (CanonicalCmp a b = 0 ↔ rfc_labels a = rfc_labels b)%Z ∧
  (CanonicalCmp a b = 0 ↔ Canonical a = Canonical b)%Z ∧
  (CanonicalCmp a b > 0 ↔ labels_lt (rfc_labels b) (rfc_labels a))%Z.
Proof.
  intros Ha Hb. rewrite (rfc_labels_plain a Ha), (rfc_labels_plain b Hb).
  destruct (CanonicalCmp_sgn a b) as (H1 & H2 & H3). split_and!; [done|done| |done].
  rewrite H2. split; [apply root_labels_inj|]. unfold root_labels. by intros ->.
Qed.
End canon_order.

(** An escape is compared as it is written: the blank (octet 32) sorts after
    the hyphen (octet 45), as a backslash does. *)
Lemma canonical_cmp_escape :
  (CanonicalCmp "my\032x.example." "my-x.example." > 0)%Z ∧
  labels_lt (rfc_labels "my\032x.example.") (rfc_labels "my-x.example.").
Proof.
  split; [vm_compute; reflexivity|].
  assert (rfc_labels "my\032x.example." = ["example"; "my x"]) as -> by (vm_compute; reflexivity).
  assert (rfc_labels "my-x.example." = ["example"; "my-x"]) as -> by (vm_compute; reflexivity).
  apply labels_lt_tail, labels_lt_head. by apply str_ltb_spec.
Qed.

(** ** Witness *)

Lemma canonical_cmp_rfc4034_witness :
  rfc_labels "Z.example." = ["example"; "z"] ∧ rfc_labels "a.B.example." = ["example"; "b"; "a"] ∧
  (CanonicalCmp "Z.example." "a.B.example." > 0 ↔ labels_lt (rfc_labels "a.B.example.") (rfc_labels "Z.example."))%Z.
Proof.
  split; [vm_compute; reflexivity|]. split; [vm_compute; reflexivity|].
  refine (proj2 (proj2 (proj2 (canonical_cmp_rfc4034 "Z.example." "a.B.example." _ _)))).
  - vm_compute. repeat split; discriminate.
  - vm_compute. repeat split; discriminate.
Defined.
