(* ===== verification/Node.v ===== *)
(** * RRsets and nodes (internal/zone/rrset.go, node.go)

    An RRset keeps the packed records of one type, a node the RRsets of one
    owner name. Adding and removing a packed record are, on the set of
    records a node holds, insertion and deletion; the lemmas say so, and
    that they keep a node well formed: one RRset per type, none of them
    empty, no record twice. *)

From S2P Require Import Prelude GoStrings DnsLib DnsName.

(** ** RRsets *)

(** [RRSet]: the entries of [rs_Rdata] are packed records. *)
Record RRSet := mkRRSet { rs_Type : Z; rs_TTL : Z; rs_Rdata : list bytes }.

#[export] Instance RRSet_eq_dec : EqDecision RRSet.
Proof. solve_decision. Defined.

(** A deep copy; values have no identity here, so it is a rebuilt value. *)
Definition RRSet_Clone (s : RRSet) : RRSet :=
  {| rs_Type := rs_Type s; rs_TTL := rs_TTL s; rs_Rdata := (λ r, r) <$> rs_Rdata s |}.

(** [CompactRRSIG]: an RRSIG with its signature as bytes. *)
Record CompactRRSIG := mkCompact {
  cs_TypeCovered : Z; cs_Algorithm : Z; cs_Labels : Z; cs_OrigTTL : Z;
  cs_Expiration : Z; cs_Inception : Z; cs_KeyTag : Z;
  cs_SignerName : string; cs_Signature : bytes
}.

(** [mustBase64] keeps the text. *)
Definition mustBase64 (s : string) : bytes := s.

(** [RRSIGFromCompact]. *)
Definition RRSIGFromCompact (name : string) (ttl : Z) (c : CompactRRSIG) : RR :=
  mkRR (mkHdr name TypeRRSIG ClassINET ttl)
    (RD_RRSIG (mkRRSIG (cs_TypeCovered c) (cs_Algorithm c) (cs_Labels c) (cs_OrigTTL c)
       (cs_Expiration c) (cs_Inception c) (cs_KeyTag c) (cs_SignerName c) (cs_Signature c))).

Section packed.
Context `{DL : !DnsLib}.

Definition ParseRRSIG (rr : RRSIG_rdata) : CompactRRSIG := {|
  cs_TypeCovered := sig_TypeCovered rr;
  cs_Algorithm := sig_Algorithm rr;
  cs_Labels := sig_Labels rr;
  cs_OrigTTL := sig_OrigTtl rr;
  cs_Expiration := sig_Expiration rr;
  cs_Inception := sig_Inception rr;
  cs_KeyTag := sig_KeyTag rr;
  cs_SignerName := Fqdn (sig_SignerName rr);
  cs_Signature := mustBase64 (sig_Signature rr)
|}.

(** The header fix-ups of [unpackOne]: an empty owner, a zero TTL. *)
Definition fix_header (name : string) (ttl : Z) (h : RR_Header) : RR_Header := {|
  h_Name := if bool_decide (h_Name h = "") then name else h_Name h;
  h_Rrtype := h_Rrtype h;
  h_Class := h_Class h;
  h_Ttl := if bool_decide (h_Ttl h = 0%Z) && negb (bool_decide (ttl = 0%Z)) then ttl else h_Ttl h
|}.

Definition unpackOne (name : string) (rrtype ttl : Z) (wire : bytes) : result RR :=
  match dns_UnpackRR wire with
  | Err err => Err ("unpack " +:+ name +:+ "/" +:+ fmt_d rrtype +:+ ": " +:+ err)
  | Ok rr => Ok (mkRR (fix_header name ttl (rr_Hdr rr)) (rr_Data rr))
  end.

Definition Unpack (s : RRSet) (name : string) : result (list RR) :=
  mapM_result (unpackOne name (rs_Type s) (rs_TTL s)) (rs_Rdata s).

(** [PackRR]: a buffer of the estimated length and 64 bytes more. *)
Definition PackRR (rr : RR) : result bytes :=
  wrap_err (λ err, "pack " +:+ rr_Name rr +:+ ": " +:+ err)
    (dns_PackRR rr (dns_Len rr + 64)).
End packed.

(** ** Nodes *)

Record Node := mkNode {
  n_Name : string;
  n_Sets : list RRSet;
  n_NSEC3Hash : bytes;
  n_HasNSEC3Hash : bool;
  n_IsDelegation : bool;
  n_HasDS : bool
}.

Definition set_Sets (n : Node) (ss : list RRSet) : Node :=
  mkNode (n_Name n) ss (n_NSEC3Hash n) (n_HasNSEC3Hash n) (n_IsDelegation n) (n_HasDS n).

(** [Node.Set]: the first RRset of the type. *)
Definition Node_Set (n : Node) (rrtype : Z) : option RRSet :=
  List.find (λ s, bool_decide (rs_Type s = rrtype)) (n_Sets n).

Definition Has (n : Node) (rrtype : Z) : bool := bool_decide (is_Some (Node_Set n rrtype)).

Definition Types (n : Node) : list Z := rs_Type <$> n_Sets n.

Definition RecordCount (n : Node) : Z :=
  foldl (λ c s, c + Z.of_nat (length (rs_Rdata s)))%Z 0%Z (n_Sets n).

(** The loop of [addPacked] over the RRsets. *)
Fixpoint addPacked_sets (ss : list RRSet) (rrtype ttl : Z) (rdata : bytes) : list RRSet :=
  match ss with
  | [] => [mkRRSet rrtype ttl [rdata]]
  | s :: ss =>
      if bool_decide (rs_Type s = rrtype) then
        let ttl' := if bool_decide (rs_TTL s = 0%Z) then ttl else rs_TTL s in
        if existsb (λ existing, bool_decide (existing = rdata)) (rs_Rdata s)
        then mkRRSet (rs_Type s) ttl' (rs_Rdata s) :: ss
        else mkRRSet (rs_Type s) ttl' (rs_Rdata s ++ [rdata]) :: ss
      else s :: addPacked_sets ss rrtype ttl rdata
  end.

Definition addPacked (n : Node) (rrtype ttl : Z) (rdata : bytes) : Node :=
  set_Sets n (addPacked_sets (n_Sets n) rrtype ttl rdata).

(** The filter of [removePacked]: drop the first equal entry. *)
Fixpoint drop_first (rdata : bytes) (l : list bytes) : list bytes * bool :=
  match l with
  | [] => ([], false)
  | existing :: l =>
      if bool_decide (existing = rdata) then (l, true)
      else let '(kept, removed) := drop_first rdata l in (existing :: kept, removed)
  end.

Fixpoint removePacked_sets (ss : list RRSet) (rrtype : Z) (rdata : bytes) : list RRSet * bool :=
  match ss with
  | [] => ([], false)
  | s :: ss =>
      if bool_decide (rs_Type s = rrtype) then
        let '(kept, removed) := drop_first rdata (rs_Rdata s) in
        if negb removed then (s :: ss, false)
        else if bool_decide (length kept = 0) then (ss, true)
        else (mkRRSet (rs_Type s) (rs_TTL s) kept :: ss, true)
      else
        let '(ss', removed) := removePacked_sets ss rrtype rdata in (s :: ss', removed)
  end.

Definition removePacked (n : Node) (rrtype : Z) (rdata : bytes) : Node * bool :=
  let '(ss, removed) := removePacked_sets (n_Sets n) rrtype rdata in (set_Sets n ss, removed).

Definition recomputeFlags (n : Node) (origin : string) : Node :=
  mkNode (n_Name n) (n_Sets n) (n_NSEC3Hash n) (n_HasNSEC3Hash n)
    (negb (bool_decide (n_Name n = origin)) && Has n TypeNS) (Has n TypeDS).

Definition Node_Clone (n : Node) : Node :=
  mkNode (n_Name n) (RRSet_Clone <$> n_Sets n) (n_NSEC3Hash n) (n_HasNSEC3Hash n)
    (n_IsDelegation n) (n_HasDS n).

Section unpacked.
Context `{DL : !DnsLib}.

Definition UnpackType (n : Node) (rrtype : Z) : result (list RR) :=
  match Node_Set n rrtype with
  | None => Ok []
  | Some s => Unpack s (n_Name n)
  end.

Definition Node_AllRRs (n : Node) : result (list RR) :=
  foldM_result (λ out s, rrs ← Unpack s (n_Name n); Ok (out ++ rrs)) [] (n_Sets n).

Definition RRSIGsCovering (n : Node) (rrtype : Z) : list CompactRRSIG :=
  match Node_Set n TypeRRSIG with
  | None => []
  | Some s =>
      match Unpack s (n_Name n) with
      | Err _ => []
      | Ok rrs =>
          omap (λ rr,
            sig ← as_RRSIG rr;
            if bool_decide (sig_TypeCovered sig = rrtype) then Some (ParseRRSIG sig) else None) rrs
      end
  end.
End unpacked.

(** [BitmapHas], [ExpectedBitmap] (nsec3.go). *)
Definition BitmapHas (types : list Z) (typ : Z) : bool :=
  existsb (λ t, bool_decide (t = typ)) types.

Definition ExpectedBitmap (n : Node) (nsec3 : bool) : list Z :=
  foldl (λ out set,
    if nsec3 && bool_decide (rs_Type set = TypeNSEC3) then out
    else if BitmapHas out (rs_Type set) then out else out ++ [rs_Type set]) [] (n_Sets n).

(** ** The records of a node *)

(** What a node holds: its packed records with their types. *)
Definition sets_recs (ss : list RRSet) : list (Z * bytes) :=
  s ← ss; (rs_Type s,.) <$> rs_Rdata s.
#[global] Arguments sets_recs : simpl never.
Definition node_recs (n : Node) : list (Z * bytes) := sets_recs (n_Sets n).

Definition sets_wf (ss : list RRSet) : Prop :=
  NoDup (rs_Type <$> ss) ∧ Forall (λ s, rs_Rdata s ≠ [] ∧ NoDup (rs_Rdata s)) ss.

Lemma elem_of_sets_recs ss t r :
  (t, r) ∈ sets_recs ss ↔ ∃ s, s ∈ ss ∧ rs_Type s = t ∧ r ∈ rs_Rdata s.
Proof.
  unfold sets_recs. rewrite list_elem_of_bind. split.
  - intros (s & (r' & [= -> ->] & Hr)%list_elem_of_fmap & Hs). eauto.
  - intros (s & Hs & <- & Hr). exists s. split; [|done]. apply list_elem_of_fmap. eauto.
Qed.

Lemma sets_recs_cons s ss : sets_recs (s :: ss) = ((rs_Type s,.) <$> rs_Rdata s) ++ sets_recs ss.
Proof. done. Qed.

Lemma elem_of_cons_recs s ss t r :
  (t, r) ∈ sets_recs (s :: ss) ↔ (rs_Type s = t ∧ r ∈ rs_Rdata s) ∨ (t, r) ∈ sets_recs ss.
Proof.
  rewrite sets_recs_cons, elem_of_app. f_equiv. rewrite list_elem_of_fmap. naive_solver.
Qed.

Lemma sets_wf_cons s ss :
  sets_wf (s :: ss) ↔
    (rs_Type s ∉ rs_Type <$> ss) ∧ rs_Rdata s ≠ [] ∧ NoDup (rs_Rdata s) ∧ sets_wf ss.
Proof. unfold sets_wf. rewrite fmap_cons, NoDup_cons, Forall_cons. naive_solver. Qed.

Lemma sets_wf_nil : sets_wf [].
Proof. split; constructor. Qed.

Lemma RecordCount_length n : RecordCount n = Z.of_nat (length (node_recs n)).
Proof.
  unfold RecordCount, node_recs. set (ss := n_Sets n). clearbody ss.
  assert (∀ c, foldl (λ c s, c + Z.of_nat (length (rs_Rdata s)))%Z c ss
    = (c + Z.of_nat (length (sets_recs ss)))%Z) as H.
  { induction ss as [|s ss IH]; intros c; [simpl; lia|].
    rewrite sets_recs_cons, length_app, length_fmap. simpl. rewrite IH. lia. }
  rewrite H. lia.
Qed.

Lemma sets_wf_NoDup ss : sets_wf ss → NoDup (sets_recs ss).
Proof.
  induction ss as [|s ss IH]; intros Hwf; [constructor|].
  apply sets_wf_cons in Hwf as (Hn & _ & Hnd & Hwf).
  rewrite sets_recs_cons. apply NoDup_app. split_and!; [|intros [t r]|by apply IH].
  - apply NoDup_fmap_2; [by intros ? ? [=]|done].
  - intros (r' & [= -> ->] & _)%list_elem_of_fmap (s' & Hs' & Ht & _)%elem_of_sets_recs.
    apply Hn. rewrite <-Ht. by apply list_elem_of_fmap_2.
Qed.

(** A type is present exactly when a record of that type is. *)
Lemma Has_spec n t : sets_wf (n_Sets n) → Has n t = true ↔ ∃ r, (t, r) ∈ node_recs n.
Proof.
  intros [_ Hne]. unfold Has, Node_Set, node_recs. rewrite bool_decide_eq_true. split.
  - intros [s [Hs Ht%bool_decide_eq_true]%find_Some_elem].
    rewrite Forall_forall in Hne. destruct (Hne s Hs) as [Hr _].
    destruct (rs_Rdata s) as [|r l] eqn:E; [done|]. exists r. apply elem_of_sets_recs.
    exists s. rewrite E. set_solver.
  - intros (r & (s & Hs & Ht & _)%elem_of_sets_recs). apply not_eq_None_Some. intros Hf.
    pose proof (proj1 (find_None_elem _ _) Hf s Hs) as Hx. by apply bool_decide_eq_false in Hx.
Qed.

Lemma Node_Set_elem n t s : Node_Set n t = Some s → s ∈ n_Sets n ∧ rs_Type s = t.
Proof. intros [? ?%bool_decide_eq_true]%find_Some_elem. done. Qed.

Lemma Node_Set_recs n t s r :
  sets_wf (n_Sets n) → Node_Set n t = Some s → r ∈ rs_Rdata s ↔ (t, r) ∈ node_recs n.
Proof.
  intros [Hnd _] [Hs <-]%Node_Set_elem. unfold node_recs. rewrite elem_of_sets_recs. split; [eauto|].
  intros (s' & Hs' & Ht & Hr). clear -Hnd Hs Hs' Ht Hr.
  replace s with s'; [done|]. apply list_elem_of_lookup in Hs as [i Hi], Hs' as [j Hj].
  assert (i = j) as ->; [|congruence].
  apply (NoDup_lookup (rs_Type <$> n_Sets n) _ _ (rs_Type s) Hnd).
  - by rewrite list_lookup_fmap, Hi.
  - by rewrite list_lookup_fmap, Hj, <-Ht.
Qed.

(** *** Adding a packed record *)

Lemma addPacked_types ss t ttl rd u :
  u ∈ rs_Type <$> addPacked_sets ss t ttl rd ↔ u = t ∨ u ∈ rs_Type <$> ss.
Proof.
  induction ss as [|s ss IH]; simpl; [set_solver|].
  case_bool_decide as Ht.
  - destruct (existsb _ _); simpl; set_solver.
  - rewrite fmap_cons, !elem_of_cons, IH. tauto.
Qed.

Lemma elem_of_addPacked ss t ttl rd t' r' :
  (t', r') ∈ sets_recs (addPacked_sets ss t ttl rd) ↔ (t', r') = (t, rd) ∨ (t', r') ∈ sets_recs ss.
Proof.
  induction ss as [|s ss IH]; simpl.
  - rewrite elem_of_cons_recs. simpl. set_solver.
  - case_bool_decide as Ht.
    + destruct (existsb _ _) eqn:E; rewrite !elem_of_cons_recs; simpl.
      * apply existsb_elem_of in E as (x & Hx & ->%bool_decide_eq_true). naive_solver.
      * set_solver.
    + rewrite !elem_of_cons_recs, IH. naive_solver.
Qed.

Lemma addPacked_wf ss t ttl rd : sets_wf ss → sets_wf (addPacked_sets ss t ttl rd).
Proof.
  induction ss as [|s ss IH]; intros Hwf; simpl.
  - apply sets_wf_cons. simpl. split_and!; [set_solver|done|apply NoDup_singleton|apply sets_wf_nil].
  - apply sets_wf_cons in Hwf as (Hn & Hne & Hnd & Hwf). case_bool_decide as Ht.
    + destruct (existsb _ _) eqn:E; apply sets_wf_cons; simpl; [done|].
      split_and!; [done|by destruct (rs_Rdata s)| |done].
      apply NoDup_app. split_and!; [done| |apply NoDup_singleton].
      intros x Hx ->%list_elem_of_singleton. apply not_true_iff_false in E. apply E.
      apply existsb_elem_of. exists rd. by rewrite bool_decide_true.
    + apply sets_wf_cons. split_and!; [|done..|by apply IH].
      rewrite addPacked_types. naive_solver.
Qed.

(** *** Removing a packed record *)

Lemma drop_first_spec rd l :
  NoDup l →
  (drop_first rd l).2 = bool_decide (rd ∈ l) ∧
  (∀ x, x ∈ (drop_first rd l).1 ↔ x ∈ l ∧ x ≠ rd) ∧ NoDup (drop_first rd l).1.
Proof.
  induction 1 as [|x l Hx Hnd IH]; cbn [drop_first].
  - cbn [fst snd]. rewrite (bool_decide_false (rd ∈ [])) by (by intros ?%elem_of_nil).
    split_and!; [done|set_solver|constructor].
  - destruct (bool_decide_reflect (x = rd)) as [He|He]; cbn [fst snd].
    + subst. rewrite (bool_decide_true (rd ∈ _)) by set_solver. split_and!; [done| |done].
      intros y. rewrite elem_of_cons. split; [intros Hy; split; [by right|by intros ->]|]. naive_solver.
    + destruct (drop_first rd l) as [kept removed]. simpl in *. destruct IH as (-> & Hk & Hndk).
      split_and!.
      * apply bool_decide_ext. set_solver.
      * intros y. rewrite !elem_of_cons, Hk. naive_solver.
      * constructor; [|done]. rewrite Hk. naive_solver.
Qed.

Lemma removePacked_types ss t rd u :
  u ∈ rs_Type <$> (removePacked_sets ss t rd).1 → u ∈ rs_Type <$> ss.
Proof.
  induction ss as [|s ss IH]; simpl; [done|].
  case_bool_decide as Ht.
  - destruct (drop_first _ _) as [kept [|]]; simpl; [|done]. case_bool_decide; simpl; set_solver.
  - destruct (removePacked_sets ss t rd) as [ss' b]. simpl in *. set_solver.
Qed.

Lemma removePacked_spec ss t rd :
  sets_wf ss →
  sets_wf (removePacked_sets ss t rd).1 ∧
  (removePacked_sets ss t rd).2 = bool_decide ((t, rd) ∈ sets_recs ss) ∧
  (∀ t' r', (t', r') ∈ sets_recs (removePacked_sets ss t rd).1 ↔
     (t', r') ∈ sets_recs ss ∧ (t', r') ≠ (t, rd)).
Proof.
  induction ss as [|s ss IH]; intros Hwf; cbn [removePacked_sets].
  - rewrite bool_decide_false by (by intros ?%elem_of_nil).
    split_and!; [done|done|]. intros. unfold sets_recs. simpl. set_solver.
  - apply sets_wf_cons in Hwf as (Hn & Hne & Hnd & Hwf).
    destruct (bool_decide_reflect (rs_Type s = t)) as [Ht|Ht].
    + assert (∀ r, (t, r) ∉ sets_recs ss) as Hno.
      { intros r (s' & Hs' & Ht' & _)%elem_of_sets_recs. apply Hn. rewrite Ht, <-Ht'.
        by apply list_elem_of_fmap_2. }
      destruct (drop_first_spec rd (rs_Rdata s) Hnd) as (Hrem & Hk & Hndk).
      destruct (drop_first rd (rs_Rdata s)) as [kept removed]. simpl in Hrem, Hk, Hndk. subst removed.
      rewrite (bool_decide_ext ((t, rd) ∈ sets_recs (s :: ss)) (rd ∈ rs_Rdata s))
        by (rewrite elem_of_cons_recs; naive_solver).
      destruct (bool_decide_reflect (rd ∈ rs_Rdata s)) as [Hrd|Hrd]; cbn [negb].
      * destruct (bool_decide_reflect (length kept = 0)) as [Hl|Hl]; cbn [fst snd]; (split_and!; [|done|]).
        -- done.
        -- intros t' r'. rewrite elem_of_cons_recs. destruct kept; [|done].
           split; [intros Hin; split; [by right|intros [= -> ->]; by eapply Hno]|].
           intros [[[<- Hr]|Hin] Hneq]; [|done]. exfalso.
           assert (r' ∈ @nil bytes) by (apply Hk; split; [done|congruence]). set_solver.
        -- apply sets_wf_cons. simpl. split_and!; [done|by intros ->|done..].
        -- intros t' r'. rewrite !elem_of_cons_recs. simpl. rewrite Hk. split.
           ++ intros [[<- [? ?]]|Hin]; [split; [by left|congruence]|].
              split; [by right|intros [= -> ->]; by eapply Hno].
           ++ intros [[[<- ?]|?] ?]; [left; split_and!; [done..|congruence]|by right].
      * cbn [fst snd]. split_and!; [by apply sets_wf_cons|done|]. intros t' r'. rewrite elem_of_cons_recs.
        split; [intros Hin; split; [done|]|tauto]. intros [= -> ->].
        destruct Hin as [[_ ?]|Hin]; [done|by eapply Hno].
    + pose proof (removePacked_types ss t rd) as Htypes.
      destruct (IH Hwf) as (H1 & H2 & H3).
      destruct (removePacked_sets ss t rd) as [ss' b]. simpl in *.
      split_and!.
      * apply sets_wf_cons. split_and!; [|done..]. naive_solver.
      * rewrite H2. apply bool_decide_ext. rewrite elem_of_cons_recs. naive_solver.
      * intros t' r'. rewrite !elem_of_cons_recs, H3. split; [|tauto].
        intros [[<- ?]|[? ?]]; [split; [by left|]|tauto]. intros [= ? ?]. done.
Qed.

Lemma node_recs_set_Sets n ss : node_recs (set_Sets n ss) = sets_recs ss.
Proof. done. Qed.

Lemma recomputeFlags_recs n o : node_recs (recomputeFlags n o) = node_recs n.
Proof. done. Qed.
