(* ===== verification/Store.v ===== *)
(** * The zone store (internal/zone/store.go)

    [Store] keeps a zone as nodes by owner name, with two ordered indexes:
    the NSEC3 records by binary hash and the RRSIGs by expiration. This file
    has its state and its operations. The lock serialises the operations of
    a store, so an operation is a function from the state before to the
    state after; an operation that can fail returns the error beside the
    state it leaves. *)

From S2P Require Import Prelude GoStrings DnsLib BTree DnsName Base32 CanonOrder Node.

(** ** Data *)

Record NSEC3Rec := mkNSEC3Rec {
  r3_Hash : bytes;          (** binary hash *)
  r3_Owner : string;
  r3_Next : bytes;          (** binary next hash *)
  r3_Iterations : Z;
  r3_Salt : bytes;
  r3_Flags : Z;
  r3_TypeBitMap : list Z
}.

Record ExpiryRec := mkExpiryRec {
  ex_Expiration : Z;
  ex_Owner : string;
  ex_TypeCovered : Z;
  ex_KeyTag : Z
}.

#[export] Instance ExpiryRec_eq_dec : EqDecision ExpiryRec.
Proof. solve_decision. Defined.
#[export] Instance NSEC3Rec_eq_dec : EqDecision NSEC3Rec.
Proof. solve_decision. Defined.

(** The names and NSEC3 hashes a changeset touches. *)
Record Touched := mkTouched {
  t_Names : gset string;
  t_NSEC3 : gset string;
  t_DNSKEY : bool;
  t_NSEC3PARAM : bool;
  t_SOA : bool;
  t_Added : Z;
  t_Removed : Z
}.

Definition emptyTouched : Touched := mkTouched ∅ ∅ false false false 0 0.

Record Store `{!BTree} := mkStore {
  st_origin : string;
  st_serial : Z;
  st_nodes : gmap string Node;
  st_nsec3 : bt NSEC3Rec;
  st_expiry : bt ExpiryRec;
  st_rrs : Z
}.

(** ** Small helpers *)

Definition hex_value (c : ascii) : option Z :=
  if in_range "0" "9" c then Some (Z_of_byte c - 48)%Z
  else if in_range "a" "f" c then Some (Z_of_byte c - 87)%Z
  else if in_range "A" "F" c then Some (Z_of_byte c - 55)%Z
  else None.

(** [fmt.Sscanf(ab, "%02x", &v)] of two bytes: leading blanks are skipped,
    the digits that follow are read, and [v] stays 0 when there is none. *)
Definition scan_hex2 (a b : ascii) : Z :=
  match hex_value a, hex_value b with
  | Some x, Some y => x * 16 + y
  | Some x, None => x
  | None, Some y => if bool_decide (a = " "%char) then y else 0
  | None, None => 0
  end.

(** The loop of [saltBytes] over the pairs of digits. *)
Fixpoint salt_pairs (s : string) : bytes :=
  match s with
  | String a (String b s) => String (byte_of_Z (scan_hex2 a b)) (salt_pairs s)
  | _ => ""
  end.

Definition saltBytes (s : string) : bytes :=
  if bool_decide (s = "") || bool_decide (s = "-") then "" else salt_pairs s.

Definition expiryKey (exp : Z) (name : string) (covered tag : Z) : string :=
  fmt_0d 10 exp +:+ ":" +:+ name +:+ ":" +:+ fmt_d covered +:+ ":" +:+ fmt_d tag.

Definition SigningUnsigned : string := "unsigned".
Definition SigningNSEC : string := "nsec".
Definition SigningNSEC3 : string := "nsec3".
Definition SigningMixed : string := "mixed".

Section store.
Context `{DL : !DnsLib, BT : !BTree}.

Definition nsec3Rec (owner : string) (n : NSEC3_rdata) : NSEC3Rec := {|
  r3_Hash := ok_or "" (HashFromOwner owner);
  r3_Owner := Canonical owner;
  r3_Next :=
    match HashFromBase32 (nsec3_NextDomain n) with
    | Ok next => next
    | Err _ => nsec3_NextDomain n
    end;
  r3_Iterations := nsec3_Iterations n;
  r3_Salt := saltBytes (nsec3_Salt n);
  r3_Flags := nsec3_Flags n;
  r3_TypeBitMap := nsec3_TypeBitMap n
|}.

Definition NewStore (origin : string) : Store :=
  mkStore _ (Canonical origin) 0 ∅ bt_New bt_New 0.

Definition with_serial (s : Store) (n : Z) : Store :=
  mkStore _ (st_origin s) n (st_nodes s) (st_nsec3 s) (st_expiry s) (st_rrs s).
Definition with_nodes (s : Store) (m : gmap string Node) (rrs : Z) : Store :=
  mkStore _ (st_origin s) (st_serial s) m (st_nsec3 s) (st_expiry s) rrs.
Definition with_nsec3 (s : Store) (m : bt NSEC3Rec) : Store :=
  mkStore _ (st_origin s) (st_serial s) (st_nodes s) m (st_expiry s) (st_rrs s).
Definition with_expiry (s : Store) (m : bt ExpiryRec) : Store :=
  mkStore _ (st_origin s) (st_serial s) (st_nodes s) (st_nsec3 s) m (st_rrs s).

(** ** Indexing *)

Definition indexRRLocked (s : Store) (name : string) (rr : RR) : Store :=
  match rr_Data rr with
  | RD_NSEC3 v =>
      let rec := nsec3Rec name v in
      with_nsec3 s (bt_Set (r3_Hash rec) rec (st_nsec3 s))
  | RD_RRSIG v =>
      with_expiry s
        (bt_Set (expiryKey (sig_Expiration v) name (sig_TypeCovered v) (sig_KeyTag v))
           (mkExpiryRec (sig_Expiration v) name (sig_TypeCovered v) (sig_KeyTag v))
           (st_expiry s))
  | _ => s
  end.

Definition deindexRRLocked (s : Store) (name : string) (rr : RR) : Store :=
  match rr_Data rr with
  | RD_NSEC3 v =>
      match HashFromOwner name with
      | Ok hash => with_nsec3 s (bt_Delete hash (st_nsec3 s))
      | Err _ => s
      end
  | RD_RRSIG v =>
      with_expiry s
        (bt_Delete (expiryKey (sig_Expiration v) name (sig_TypeCovered v) (sig_KeyTag v))
           (st_expiry s))
  | _ => s
  end.

(** ** Lookups *)

Definition Apex (s : Store) : option Node := st_nodes s !! st_origin s.

Definition Lookup (s : Store) (name : string) : option Node := st_nodes s !! Canonical name.

(** The first apex record of a type, with its dynamic type. *)
Definition apex_first (s : Store) (rrtype : Z) : option RR :=
  n ← Apex s;
  match UnpackType n rrtype with
  | Ok (rr :: _) => Some rr
  | _ => None
  end.

Definition soaLocked (s : Store) : option SOA_rdata :=
  rr ← apex_first s TypeSOA; as_SOA rr.

(** [SOA]: a copy of the apex SOA record. *)
Definition SOA (s : Store) : option RR :=
  rr ← apex_first s TypeSOA; if is_SOA rr then Some rr else None.

Definition DNSKEYs (s : Store) : result (list DNSKEY_RR) :=
  match Apex s with
  | None => Ok []
  | Some n =>
      match UnpackType n TypeDNSKEY with
      | Err err => Err err
      | Ok rrs =>
          Ok (omap (λ rr, match as_DNSKEY rr with Some k => Some (rr_Hdr rr, k) | None => None end) rrs)
      end
  end.

Definition NSEC3PARAM (s : Store) : option NSEC3PARAM_rdata :=
  rr ← apex_first s TypeNSEC3PARAM; as_NSEC3PARAM rr.

Definition Store_RecordCount (s : Store) : Z := st_rrs s.
Definition NodeCount (s : Store) : nat := size (st_nodes s).
Definition NSEC3Count (s : Store) : nat := bt_Len (st_nsec3 s).
Definition RRSIGCount (s : Store) : nat := bt_Len (st_expiry s).

(** ** Adding and removing records *)

(** [addRRLocked]: the state after, and the error if packing failed. *)
Definition addRRLocked (s : Store) (rr : RR) : Store * option string :=
  let h := rr_Hdr rr in
  if negb (bool_decide (h_Class h = ClassINET)) && negb (bool_decide (h_Class h = 0%Z))
  then (s, None)
  else
    let name := Canonical (h_Name h) in
    match PackRR rr with
    | Err err => (s, Some err)
    | Ok rdata =>
        let node := default (mkNode name [] "" false false false) (st_nodes s !! name) in
        let before := RecordCount node in
        let node := addPacked node (h_Rrtype h) (h_Ttl h) rdata in
        let rrs := (st_rrs s + (RecordCount node - before))%Z in
        let node := recomputeFlags node (st_origin s) in
        let s := with_nodes s (<[name := node]> (st_nodes s)) rrs in
        let s :=
          if bool_decide (h_Rrtype h = TypeSOA)
          then match as_SOA rr with Some soa => with_serial s (soa_Serial soa) | None => s end
          else s in
        (indexRRLocked s name rr, None)
    end.

Definition removeRRLocked (s : Store) (rr : RR) : Store * option string :=
  let h := rr_Hdr rr in
  let name := Canonical (h_Name h) in
  match st_nodes s !! name with
  | None => (s, None)
  | Some node =>
      match PackRR rr with
      | Err err => (s, Some err)
      | Ok rdata =>
          let '(node, removed) := removePacked node (h_Rrtype h) rdata in
          let rrs := if removed then (st_rrs s - 1)%Z else st_rrs s in
          let s :=
            if bool_decide (RecordCount node = 0%Z)
            then with_nodes s (delete name (st_nodes s)) rrs
            else with_nodes s (<[name := recomputeFlags node (st_origin s)]> (st_nodes s)) rrs in
          let s := deindexRRLocked s name rr in
          let s :=
            if bool_decide (h_Rrtype h = TypeSOA)
            then match soaLocked s with Some soa => with_serial s (soa_Serial soa) | None => s end
            else s in
          (s, None)
      end
  end.

Definition AddRR (s : Store) (rr : RR) : Store * option string := addRRLocked s rr.
Definition RemoveRR (s : Store) (rr : RR) : Store * option string := removeRRLocked s rr.

(** [Touched.note]. *)
Definition note (t : Touched) (rr : RR) : Touched :=
  let ty := rr_Type rr in
  if bool_decide (ty = TypeDNSKEY) then
    mkTouched (t_Names t) (t_NSEC3 t) true (t_NSEC3PARAM t) (t_SOA t) (t_Added t) (t_Removed t)
  else if bool_decide (ty = TypeNSEC3PARAM) then
    mkTouched (t_Names t) (t_NSEC3 t) (t_DNSKEY t) true (t_SOA t) (t_Added t) (t_Removed t)
  else if bool_decide (ty = TypeSOA) then
    mkTouched (t_Names t) (t_NSEC3 t) (t_DNSKEY t) (t_NSEC3PARAM t) true (t_Added t) (t_Removed t)
  else if bool_decide (ty = TypeNSEC3) then
    match HashFromOwner (rr_Name rr) with
    | Ok h => mkTouched (t_Names t) ({[ h ]} ∪ t_NSEC3 t) (t_DNSKEY t) (t_NSEC3PARAM t) (t_SOA t) (t_Added t) (t_Removed t)
    | Err _ => t
    end
  else t.

Definition touch_name (t : Touched) (name : string) : Touched :=
  mkTouched ({[ name ]} ∪ t_Names t) (t_NSEC3 t) (t_DNSKEY t) (t_NSEC3PARAM t) (t_SOA t) (t_Added t) (t_Removed t).
Definition count_added (t : Touched) : Touched :=
  mkTouched (t_Names t) (t_NSEC3 t) (t_DNSKEY t) (t_NSEC3PARAM t) (t_SOA t) (t_Added t + 1) (t_Removed t).
Definition count_removed (t : Touched) : Touched :=
  mkTouched (t_Names t) (t_NSEC3 t) (t_DNSKEY t) (t_NSEC3PARAM t) (t_SOA t) (t_Added t) (t_Removed t + 1).

(** One loop of [ApplyChanges]: stop at the first error. *)
Fixpoint apply_each (op : Store → RR → Store * option string) (count : Touched → Touched)
    (rrs : list RR) (s : Store) (t : Touched) : Store * Touched * option string :=
  match rrs with
  | [] => (s, t, None)
  | rr :: rrs =>
      let t := note (touch_name t (Canonical (rr_Name rr))) rr in
      match op s rr with
      | (s, Some err) => (s, t, Some err)
      | (s, None) => apply_each op count rrs s (count t)
      end
  end.

(** [ApplyChanges]: the removes, then the adds. *)
Definition ApplyChanges (s : Store) (adds removes : list RR) : Store * Touched * option string :=
  match apply_each removeRRLocked count_removed removes s emptyTouched with
  | (s, t, Some err) => (s, t, Some err)
  | (s, t, None) => apply_each addRRLocked count_added adds s t
  end.

Fixpoint add_all (s : Store) (rrs : list RR) : result Store :=
  match rrs with
  | [] => Ok s
  | rr :: rrs =>
      match addRRLocked s rr with
      | (_, Some err) => Err err
      | (s, None) => add_all s rrs
      end
  end.

Definition FromAXFR (origin : string) (rrs : list RR) : result Store := add_all (NewStore origin) rrs.

(** ** The NSEC3 ring *)

Definition NSEC3ByHash (s : Store) (hash : bytes) : option NSEC3Rec := bt_Get hash (st_nsec3 s).

(** [ForEachNSEC3]: the records in hash order. *)
Definition ForEachNSEC3 (s : Store) : list NSEC3Rec := (bt_Scan (st_nsec3 s)).*2.

(** An iteration that keeps the first record it is offered. *)
Definition take_first (l : list (string * NSEC3Rec)) : option NSEC3Rec :=
  iterate (λ _ e, (Some e.2, false)) None l.

Definition CoveringNSEC3 (s : Store) (hash : bytes) : option NSEC3Rec :=
  match bt_Get hash (st_nsec3 s) with
  | Some rec => Some rec
  | None =>
      match take_first (bt_Descend hash (st_nsec3 s)) with
      | Some pred => Some pred
      | None => take_first (bt_Reverse (st_nsec3 s))
      end
  end.

Definition NextNSEC3 (s : Store) (hash : bytes) : option NSEC3Rec :=
  let '(next, _) :=
    iterate (λ '(next, found) '(k, rec),
        if negb found then
          if bool_decide (k = hash) then ((next, true), true)
          else ((Some rec, found), false)
        else ((Some rec, found), false))
      (None, false) (bt_Ascend hash (st_nsec3 s)) in
  match next with
  | Some rec => Some rec
  | None => take_first (bt_Scan (st_nsec3 s))
  end.

Definition PredNSEC3 (s : Store) (hash : bytes) : option NSEC3Rec :=
  let pred :=
    iterate (λ pred '(k, rec), if bool_decide (k = hash) then (pred, true) else (Some rec, false))
      None (bt_Descend hash (st_nsec3 s)) in
  match pred with
  | Some rec => Some rec
  | None => take_first (bt_Reverse (st_nsec3 s))
  end.

(** ** The expiry index *)

Definition EarliestExpiry (s : Store) : Z :=
  iterate (λ _ e, (ex_Expiration e.2, false)) 0%Z (bt_Scan (st_expiry s)).

(** [ExpiringBefore(cutoff, fn)] with a callback that threads a state and
    always asks for more: the records it is given, in order. *)
Definition ExpiringBefore (s : Store) (cutoff : Z) : list ExpiryRec :=
  let end_ := fmt_0d 10 cutoff +:+ "~" in
  iterate (λ out '(k, rec),
      if str_ltb end_ k then (out, false)
      else if (cutoff <? ex_Expiration rec)%Z then (out, false)
      else (out ++ [rec], true))
    [] (bt_Ascend "" (st_expiry s)).

(** ** Iteration over the nodes *)

Context `{MR : !MapRange}.

(** [ForEachNode] with a callback that always asks for more: the nodes in
    the order they are visited. *)
Definition ForEachNode (s : Store) : list Node := (range (st_nodes s)).*2.

Definition EstimateBytes (s : Store) : Z :=
  foldl (λ n '(name, node),
      foldl (λ n set,
          foldl (λ n rd, n + Z.of_nat (String.length rd) + 16)%Z (n + 16)%Z (rs_Rdata set))
        (n + Z.of_nat (String.length name) + 64)%Z (n_Sets node))
    0%Z (range (st_nodes s)).

Definition SortedNames (s : Store) : list string :=
  SortFunc CanonicalCmp (range (st_nodes s)).*1.

(** The loop of [SigningMode], with its early exit. *)
Fixpoint signing_scan (ns : list Node) (hasNSEC hasNSEC3PARAM : bool) : bool * bool :=
  match ns with
  | [] => (hasNSEC, hasNSEC3PARAM)
  | n :: ns =>
      let hasNSEC := if Has n TypeNSEC then true else hasNSEC in
      let hasNSEC3PARAM := if Has n TypeNSEC3PARAM then true else hasNSEC3PARAM in
      if hasNSEC && hasNSEC3PARAM then (hasNSEC, hasNSEC3PARAM)
      else signing_scan ns hasNSEC hasNSEC3PARAM
  end.

Definition SigningMode (s : Store) : string :=
  let '(hasNSEC, hasNSEC3PARAM) := signing_scan (ForEachNode s) false false in
  let hasNSEC3 := bool_decide (0 < bt_Len (st_nsec3 s)) || hasNSEC3PARAM in
  if hasNSEC && hasNSEC3 then SigningMixed
  else if hasNSEC3 then SigningNSEC3
  else if hasNSEC then SigningNSEC
  else SigningUnsigned.

Definition AllRRs (s : Store) : result (list RR) :=
  foldM_result (λ out n, rrs ← Node_AllRRs n; Ok (out ++ rrs)) [] (ForEachNode s).

(** *** Zone file dumps *)

(** [comments] by canonical owner, the lines of owners that only differ in
    spelling joined in iteration order. *)
Definition normalize_comments (comments : gmap string (list string)) : gmap string (list string) :=
  foldl (λ m '(owner, lines),
      let canon := Canonical owner in
      <[canon := default [] (m !! canon) ++ lines]> m) ∅ (range comments).

Definition rr_cmp (a b : RR) : Z :=
  if negb (bool_decide (rr_Type a = rr_Type b)) then (rr_Type a - rr_Type b)%Z
  else StrCompare (RR_String a) (RR_String b).

(** [WriteZoneFileAnnotated] into a buffer (a writer that does not fail):
    the lines written. *)
Definition WriteZoneFileAnnotated (s : Store) (comments : gmap string (list string)) : result (list string) :=
  let normalized := normalize_comments comments in
  let nameSet : gset string := dom (st_nodes s) ∪ dom normalized in
  let names := SortFunc CanonicalCmp (elements nameSet) in
  foldM_result (λ out name,
      let out := out ++ default [] (normalized !! name) in
      match st_nodes s !! name with
      | None => Ok out
      | Some n =>
          rrs ← Node_AllRRs n;
          Ok (out ++ (RR_String <$> SortFunc rr_cmp rrs))
      end) [] names.

Definition WriteZoneFile (s : Store) : result (list string) := WriteZoneFileAnnotated s ∅.
End store.

(** [EqualRdata]. *)
Definition EqualRdata (a b : bytes) : bool := bool_decide (a = b).
