(* ===== verification/StoreSpec.v ===== *)
(** * The store as a set of records

    The abstract specification of the store: a zone is a set of (owner,
    type, packed record). Every operation keeps the store well formed and
    implements set insertion and deletion; a changeset is [removes] taken
    out and [adds] put in; a failed changeset has applied a prefix; names a
    changeset does not report as touched keep their nodes. *)

From S2P Require Import Prelude GoStrings DnsLib BTree DnsName Base32 CanonOrder Node Store Toy.

Abbreviation rec_key := (string * (Z * bytes))%type (only parsing).

(** ** Lists without duplicates and their lengths *)

Lemma NoDup_length_insert {A} `{EqDecision A} (l l' : list A) a :
  NoDup l → NoDup l' → (∀ x, x ∈ l' ↔ x = a ∨ x ∈ l) →
  length l' = length l + if bool_decide (a ∈ l) then 0 else 1.
Proof.
  intros Hl Hl' Hx. case_bool_decide as Ha.
  - rewrite Nat.add_0_r. apply Permutation_length, NoDup_Permutation; [done..|].
    intros x. rewrite Hx. naive_solver.
  - replace (length l + 1) with (length (a :: l)) by (simpl; lia).
    apply Permutation_length, NoDup_Permutation; [done|by constructor|].
    intros x. rewrite Hx, elem_of_cons. done.
Qed.

Lemma NoDup_length_delete {A} `{EqDecision A} (l l' : list A) a :
  NoDup l → NoDup l' → (∀ x, x ∈ l' ↔ x ∈ l ∧ x ≠ a) →
  length l = length l' + if bool_decide (a ∈ l) then 1 else 0.
Proof.
  intros Hl Hl' Hx. case_bool_decide as Ha.
  - replace (length l' + 1) with (length (a :: l')) by (simpl; lia).
    apply Permutation_length, NoDup_Permutation; [done| |].
    + constructor; [|done]. rewrite Hx. naive_solver.
    + intros x. rewrite elem_of_cons, Hx. destruct (decide (x = a)); naive_solver.
  - rewrite Nat.add_0_r. apply Permutation_length, NoDup_Permutation; [done..|].
    intros x. rewrite Hx. split; [|tauto]. intros ?. split; [done|by intros ->].
Qed.

Section spec.
Context `{DL : !DnsLib, BT : !BTree}.
Implicit Types s : Store.

(** ** Abstraction and invariant *)

Definition zone_list (m : gmap string Node) : list rec_key :=
  '(k, n) ← map_to_list m; (k,.) <$> node_recs n.

(** The records of a store. *)
Definition zone_set (s : Store) : gset rec_key := list_to_set (zone_list (st_nodes s)).

Record node_wf (origin k : string) (n : Node) : Prop := {
  nw_name : n_Name n = k;
  nw_canonical : canonical k;
  nw_sets : sets_wf (n_Sets n);
  nw_nonempty : node_recs n ≠ [];
  nw_delegation : n_IsDelegation n = negb (bool_decide (k = origin)) && Has n TypeNS;
  nw_ds : n_HasDS n = Has n TypeDS
}.

Record store_wf (s : Store) : Prop := {
  sw_origin : canonical (st_origin s);
  sw_nodes : ∀ k n, st_nodes s !! k = Some n → node_wf (st_origin s) k n;
  sw_rrs : st_rrs s = Z.of_nat (size (zone_set s))
}.

(** The entry a record stands for, if it can be packed. *)
Definition rr_key (rr : RR) : option rec_key :=
  match PackRR rr with
  | Ok w => Some (Canonical (rr_Name rr), (rr_Type rr, w))
  | Err _ => None
  end.

Definition keys_of (rrs : list RR) : gset rec_key := list_to_set (omap rr_key rrs).

(** The records [addRRLocked] takes: class IN, or no class. *)
Definition class_ok (rr : RR) : bool :=
  bool_decide (rr_Class rr = ClassINET) || bool_decide (rr_Class rr = 0%Z).

Lemma elem_of_zone_list m k t w :
  (k, (t, w)) ∈ zone_list m ↔ ∃ n, m !! k = Some n ∧ (t, w) ∈ node_recs n.
Proof.
  unfold zone_list. rewrite list_elem_of_bind. split.
  - intros ([k' n] & ((t', w') & [= -> -> ->] & Hin)%list_elem_of_fmap & Hm%elem_of_map_to_list). eauto.
  - intros (n & Hm & Hin). exists (k, n). split; [|by apply elem_of_map_to_list].
    apply list_elem_of_fmap. eauto.
Qed.

Lemma elem_of_zone_set s k t w :
  (k, (t, w)) ∈ zone_set s ↔ ∃ n, st_nodes s !! k = Some n ∧ (t, w) ∈ node_recs n.
Proof. unfold zone_set. rewrite elem_of_list_to_set. apply elem_of_zone_list. Qed.

Lemma node_wf_NoDup o k n : node_wf o k n → NoDup (node_recs n).
Proof. intros H. apply sets_wf_NoDup, H. Qed.

Lemma NoDup_zone_list m :
  (∀ k n, m !! k = Some n → NoDup (node_recs n)) → NoDup (zone_list m).
Proof.
  intros Hm. unfold zone_list. pose proof (NoDup_fst_map_to_list m) as Hnd.
  assert (∀ k n, (k, n) ∈ map_to_list m → NoDup (node_recs n)) as Hr
    by (intros k n Hk%elem_of_map_to_list; eauto).
  induction (map_to_list m) as [|[k n] l IH]; [constructor|].
  rewrite fmap_cons, NoDup_cons in Hnd. destruct Hnd as [Hk Hnd].
  cbn [mbind list_bind]. apply NoDup_app. split_and!.
  - apply NoDup_fmap_2; [by intros ? ? [=]|]. apply (Hr k n). set_solver.
  - intros x (p & -> & _)%list_elem_of_fmap ([k' n'] & (p' & [= -> _] & _)%list_elem_of_fmap & Hin)%list_elem_of_bind.
    apply Hk. apply list_elem_of_fmap. by exists (k', n').
  - apply IH; [done|]. intros k' n' Hin. apply (Hr k' n'). set_solver.
Qed.

(** ** Elementary updates *)

Lemma size_set_insert (X Y : gset rec_key) x :
  (∀ y, y ∈ Y ↔ y = x ∨ y ∈ X) → size Y = size X + if bool_decide (x ∈ X) then 0 else 1.
Proof.
  intros HY. pose proof (NoDup_length_insert (elements X) (elements Y) x) as H.
  unfold size, set_size. simpl. rewrite H; [|apply NoDup_elements..|].
  - f_equal. by rewrite (bool_decide_ext (x ∈ elements X) (x ∈ X)) by (apply elem_of_elements).
  - intros y. rewrite !elem_of_elements. apply HY.
Qed.

Lemma size_set_delete (X Y : gset rec_key) x :
  (∀ y, y ∈ Y ↔ y ∈ X ∧ y ≠ x) → size X = size Y + if bool_decide (x ∈ X) then 1 else 0.
Proof.
  intros HY. pose proof (NoDup_length_delete (elements X) (elements Y) x) as H.
  unfold size, set_size. simpl. rewrite H; [|apply NoDup_elements..|].
  - f_equal. by rewrite (bool_decide_ext (x ∈ elements X) (x ∈ X)) by (apply elem_of_elements).
  - intros y. rewrite !elem_of_elements. apply HY.
Qed.

Lemma index_frame s name rr :
  st_nodes (indexRRLocked s name rr) = st_nodes s ∧
  st_origin (indexRRLocked s name rr) = st_origin s ∧
  st_rrs (indexRRLocked s name rr) = st_rrs s ∧
  st_serial (indexRRLocked s name rr) = st_serial s.
Proof. unfold indexRRLocked. by destruct (rr_Data rr). Qed.

Lemma deindex_frame s name rr :
  st_nodes (deindexRRLocked s name rr) = st_nodes s ∧
  st_origin (deindexRRLocked s name rr) = st_origin s ∧
  st_rrs (deindexRRLocked s name rr) = st_rrs s ∧
  st_serial (deindexRRLocked s name rr) = st_serial s.
Proof.
  unfold deindexRRLocked. destruct (rr_Data rr); try done. by destruct (HashFromOwner name).
Qed.

(** Only the nodes, the origin and the count matter for the invariant. *)
Lemma store_wf_frame s s' :
  st_nodes s' = st_nodes s → st_origin s' = st_origin s → st_rrs s' = st_rrs s →
  store_wf s → store_wf s'.
Proof.
  intros Hn Ho Hr [H1 H2 H3]. split.
  - by rewrite Ho.
  - rewrite Hn, Ho. done.
  - rewrite Hr, H3. unfold zone_set. by rewrite Hn.
Qed.

Lemma zone_set_frame s s' : st_nodes s' = st_nodes s → zone_set s' = zone_set s.
Proof. unfold zone_set. by intros ->. Qed.

(** What [addRRLocked] does to the nodes when the record is packed. *)
Lemma add_nodes s rr rdata :
  PackRR rr = Ok rdata → class_ok rr = true →
  ∃ s', addRRLocked s rr = (s', None) ∧ st_origin s' = st_origin s ∧
    let name := Canonical (rr_Name rr) in
    let node := default (mkNode name [] "" false false false) (st_nodes s !! name) in
    let node' := addPacked node (rr_Type rr) (rr_Ttl rr) rdata in
    st_nodes s' = <[name := recomputeFlags node' (st_origin s)]> (st_nodes s) ∧
    st_rrs s' = (st_rrs s + (RecordCount node' - RecordCount node))%Z.
Proof.
  intros Hp Hc. unfold addRRLocked, class_ok, rr_Class in *. rewrite Hp.
  rewrite <-negb_orb, Hc. cbn [negb].
  eexists. split; [reflexivity|].
  match goal with |- context [indexRRLocked ?s0 ?n ?r] =>
    destruct (index_frame s0 n r) as (-> & -> & -> & _) end.
  cbv zeta. destruct (bool_decide (h_Rrtype (rr_Hdr rr) = TypeSOA)); [destruct (as_SOA rr)|];
    by split_and!.
Qed.

Context `{NL : !DnsNameLaws}.

Lemma lookup_sets_wf s k :
  store_wf s → sets_wf (n_Sets (default (mkNode k [] "" false false false) (st_nodes s !! k))) ∧
    n_Name (default (mkNode k [] "" false false false) (st_nodes s !! k)) = k.
Proof.
  intros Hwf. destruct (st_nodes s !! k) as [n|] eqn:E; simpl; [|by split; [apply sets_wf_nil|]].
  apply Hwf in E as []. done.
Qed.

Lemma add_node_wf s rr rdata :
  store_wf s →
  let name := Canonical (rr_Name rr) in
  let node := default (mkNode name [] "" false false false) (st_nodes s !! name) in
  let node' := addPacked node (rr_Type rr) (rr_Ttl rr) rdata in
  node_wf (st_origin s) name (recomputeFlags node' (st_origin s)) ∧
  (∀ t w, (t, w) ∈ node_recs node' ↔ (t, w) = (rr_Type rr, rdata) ∨ (t, w) ∈ node_recs node) ∧
  NoDup (node_recs node) ∧ NoDup (node_recs node').
Proof.
  intros Hwf name node node'.
  destruct (lookup_sets_wf s name Hwf) as [Hs Hn].
  assert (n_Name node' = name) as Hn' by exact Hn.
  assert (sets_wf (n_Sets node')) as Hs' by (by apply addPacked_wf).
  assert (∀ t w, (t, w) ∈ node_recs node' ↔ (t, w) = (rr_Type rr, rdata) ∨ (t, w) ∈ node_recs node) as Hrecs.
  { intros t w. apply elem_of_addPacked. }
  split_and!; [split|done|by apply sets_wf_NoDup..].
  - done.
  - apply canonical_Canonical.
  - done.
  - rewrite recomputeFlags_recs. intros H0.
    assert ((rr_Type rr, rdata) ∈ node_recs node') as Hin by (apply Hrecs; by left).
    rewrite H0 in Hin. by apply elem_of_nil in Hin.
  - unfold recomputeFlags. cbn [n_IsDelegation]. by rewrite Hn'.
  - done.
Qed.

(** Replacing the node at [k] by one with records [P]. *)
Lemma elem_of_insert_node (m : gmap string Node) k n k' t w :
  (k', (t, w)) ∈ zone_list (<[k := n]> m) ↔
    (k' = k ∧ (t, w) ∈ node_recs n) ∨ (k' ≠ k ∧ (k', (t, w)) ∈ zone_list m).
Proof.
  rewrite !elem_of_zone_list. destruct (decide (k' = k)) as [->|Hne].
  - rewrite lookup_insert_eq. naive_solver.
  - rewrite lookup_insert_ne by done. naive_solver.
Qed.

(** [addRRLocked] on each of its paths. *)
Lemma addRRLocked_spec s rr :
  store_wf s →
  if class_ok rr then
    match PackRR rr with
    | Err err => addRRLocked s rr = (s, Some err)
    | Ok w => ∃ s', addRRLocked s rr = (s', None) ∧ store_wf s' ∧ st_origin s' = st_origin s ∧
        zone_set s' = {[ (Canonical (rr_Name rr), (rr_Type rr, w)) ]} ∪ zone_set s
    end
  else addRRLocked s rr = (s, None).
Proof.
  intros Hwf. destruct (class_ok rr) eqn:Hc.
  2:{ unfold addRRLocked, class_ok, rr_Class in *. by rewrite <-negb_orb, Hc. }
  destruct (PackRR rr) as [w|err] eqn:Hp.
  2:{ unfold addRRLocked, class_ok, rr_Class in *. by rewrite <-negb_orb, Hc, Hp. }
  destruct (add_nodes s rr w Hp Hc) as (s' & Hadd & Ho & Hn & Hrrs).
  destruct (add_node_wf s rr w Hwf) as (Hnw & Hrecs & Hnd & Hnd').
  set (name := Canonical (rr_Name rr)) in *.
  set (node := default (mkNode name [] "" false false false) (st_nodes s !! name)) in *.
  set (node' := addPacked node (rr_Type rr) (rr_Ttl rr) w) in *.
  assert (∀ k t r, (k, (t, r)) ∈ zone_set s' ↔
    (k, (t, r)) = (name, (rr_Type rr, w)) ∨ (k, (t, r)) ∈ zone_set s) as Hz.
  { intros k t r. unfold zone_set. rewrite Hn, !elem_of_list_to_set, elem_of_insert_node.
    rewrite recomputeFlags_recs, Hrecs. destruct (decide (k = name)) as [->|Hne]; [|naive_solver].
    assert ((name, (t, r)) ∈ zone_list (st_nodes s) ↔ (t, r) ∈ node_recs node) as ->.
    { rewrite elem_of_zone_list. unfold node. destruct (st_nodes s !! name); simpl; [naive_solver|].
      split; [by intros (? & ? & _)|]. by intros ?%elem_of_nil. }
    naive_solver. }
  exists s'. split_and!; [done| |done|].
  - split; [by rewrite Ho; apply Hwf| |].
    + rewrite Ho, Hn. intros k n. destruct (decide (k = name)) as [->|Hne].
      * rewrite lookup_insert_eq. by intros [= <-].
      * rewrite lookup_insert_ne by done. apply Hwf.
    + rewrite Hrrs, (sw_rrs _ Hwf), !RecordCount_length.
      rewrite (size_set_insert (zone_set s) (zone_set s') (name, (rr_Type rr, w)))
        by (intros (k & t & r); apply Hz).
      rewrite (NoDup_length_insert (node_recs node) (node_recs node') (rr_Type rr, w))
        by (done || (intros [t r]; apply Hrecs)).
      rewrite (bool_decide_ext ((rr_Type rr, w) ∈ node_recs node) ((name, (rr_Type rr, w)) ∈ zone_set s)).
      { case_bool_decide; lia. }
      rewrite elem_of_zone_set. unfold node. destruct (st_nodes s !! name); simpl; [naive_solver|].
      split; [by intros ?%elem_of_nil|]. by intros (? & ? & _).
  - apply set_eq. intros (k & t & r). rewrite Hz. set_solver.
Qed.

(** What [removeRRLocked] does to the nodes. *)
Lemma remove_nodes s rr node w :
  st_nodes s !! Canonical (rr_Name rr) = Some node → PackRR rr = Ok w →
  ∃ s', removeRRLocked s rr = (s', None) ∧ st_origin s' = st_origin s ∧
    let name := Canonical (rr_Name rr) in
    let node' := (removePacked node (rr_Type rr) w).1 in
    let removed := (removePacked node (rr_Type rr) w).2 in
    st_nodes s' = (if bool_decide (RecordCount node' = 0%Z) then delete name (st_nodes s)
                   else <[name := recomputeFlags node' (st_origin s)]> (st_nodes s)) ∧
    st_rrs s' = (if removed then st_rrs s - 1 else st_rrs s)%Z.
Proof.
  intros Hn Hp. unfold removeRRLocked, rr_Name, rr_Type in *. rewrite Hn, Hp.
  destruct (removePacked node _ w) as [node' removed]. cbn [fst snd].
  eexists. split; [reflexivity|]. cbv zeta.
  match goal with |- context [deindexRRLocked ?s0 ?n ?r] =>
    destruct (deindex_frame s0 n r) as (Hd1 & Hd2 & Hd3 & _); set (s1 := deindexRRLocked s0 n r) in * end.
  destruct (bool_decide (h_Rrtype (rr_Hdr rr) = TypeSOA)); [destruct (soaLocked s1)|];
    cbn [with_serial st_nodes st_origin st_rrs]; rewrite Hd1, Hd2, Hd3;
    destruct (bool_decide (RecordCount node' = 0%Z)); by split_and!.
Qed.

Lemma removePacked_recs node t w :
  sets_wf (n_Sets node) →
  sets_wf (n_Sets (removePacked node t w).1) ∧ n_Name (removePacked node t w).1 = n_Name node ∧
  (removePacked node t w).2 = bool_decide ((t, w) ∈ node_recs node) ∧
  (∀ t' r', (t', r') ∈ node_recs (removePacked node t w).1 ↔
     (t', r') ∈ node_recs node ∧ (t', r') ≠ (t, w)).
Proof.
  intros Hwf. destruct (removePacked_spec (n_Sets node) t w Hwf) as (H1 & H2 & H3).
  unfold removePacked. destruct (removePacked_sets (n_Sets node) t w) as [ss b].
  cbn [fst snd] in *. split_and!; done.
Qed.

Lemma RecordCount_0 n : RecordCount n = 0%Z ↔ node_recs n = [].
Proof. rewrite RecordCount_length, <-length_zero_iff_nil. lia. Qed.

(** [removeRRLocked] on each of its paths. *)
Lemma removeRRLocked_spec s rr :
  store_wf s →
  match st_nodes s !! Canonical (rr_Name rr) with
  | None => removeRRLocked s rr = (s, None)
  | Some _ =>
      match PackRR rr with
      | Err err => removeRRLocked s rr = (s, Some err)
      | Ok w => ∃ s', removeRRLocked s rr = (s', None) ∧ store_wf s' ∧ st_origin s' = st_origin s ∧
          zone_set s' = zone_set s ∖ {[ (Canonical (rr_Name rr), (rr_Type rr, w)) ]}
      end
  end.
Proof.
  intros Hwf. destruct (st_nodes s !! Canonical (rr_Name rr)) as [node|] eqn:Hn.
  2:{ unfold removeRRLocked, rr_Name in *. by rewrite Hn. }
  destruct (PackRR rr) as [w|err] eqn:Hp.
  2:{ unfold removeRRLocked, rr_Name in *. by rewrite Hn, Hp. }
  destruct (remove_nodes s rr node w Hn Hp) as (s' & Hrem & Ho & Hn' & Hrrs).
  pose proof (sw_nodes _ Hwf _ _ Hn) as Hnw.
  destruct (removePacked_recs node (rr_Type rr) w) as (Hs' & Hname & Hb & Hrecs); [apply Hnw|].
  set (name := Canonical (rr_Name rr)) in *.
  set (node' := (removePacked node (rr_Type rr) w).1) in *.
  rewrite Hb in Hrrs. clear Hb. cbv zeta in Hn', Hrrs.
  assert (∀ k t r, (k, (t, r)) ∈ zone_set s' ↔
    (k, (t, r)) ∈ zone_set s ∧ (k, (t, r)) ≠ (name, (rr_Type rr, w))) as Hz.
  { intros k t r. unfold zone_set. rewrite Hn', !elem_of_list_to_set.
    assert ((k, (t, r)) ∈ zone_list (if bool_decide (RecordCount node' = 0%Z) then delete name (st_nodes s)
                   else <[name := recomputeFlags node' (st_origin s)]> (st_nodes s)) ↔
       (k = name ∧ (t, r) ∈ node_recs node') ∨ (k ≠ name ∧ (k, (t, r)) ∈ zone_list (st_nodes s))) as ->.
    { destruct (bool_decide_reflect (RecordCount node' = 0%Z)) as [H0|H0].
      - apply RecordCount_0 in H0. rewrite H0, !elem_of_zone_list.
        destruct (decide (k = name)) as [->|Hne].
        + rewrite lookup_delete_eq. split; [by intros (? & ? & _)|]. by intros [[_ ?%elem_of_nil]|[? _]].
        + rewrite lookup_delete_ne by done. naive_solver.
      - by rewrite elem_of_insert_node, recomputeFlags_recs. }
    rewrite Hrecs. destruct (decide (k = name)) as [->|Hne]; [|naive_solver].
    assert ((name, (t, r)) ∈ zone_list (st_nodes s) ↔ (t, r) ∈ node_recs node) as ->
      by (rewrite elem_of_zone_list; naive_solver).
    naive_solver. }
  exists s'. split_and!; [done| |done|].
  - split; [by rewrite Ho; apply Hwf| |].
    + rewrite Ho, Hn'. intros k n.
      destruct (bool_decide_reflect (RecordCount node' = 0%Z)) as [H0|H0].
      * intros [_ Hk]%lookup_delete_Some. by apply Hwf.
      * destruct (decide (k = name)) as [->|Hne].
        2:{ rewrite lookup_insert_ne by done. apply Hwf. }
        rewrite lookup_insert_eq. intros [= <-].
        assert (n_Name node' = name) as Hnm by (rewrite Hname; apply Hnw).
        split; try done; [apply canonical_Canonical|by rewrite RecordCount_0 in H0|].
        unfold recomputeFlags. cbn [n_IsDelegation]. by rewrite Hnm.
    + rewrite Hrrs, (sw_rrs _ Hwf).
      rewrite (size_set_delete (zone_set s) (zone_set s') (name, (rr_Type rr, w)))
        by (intros (k & t & r); apply Hz).
      rewrite (bool_decide_ext ((rr_Type rr, w) ∈ node_recs node) ((name, (rr_Type rr, w)) ∈ zone_set s))
        by (rewrite elem_of_zone_set; naive_solver).
      destruct (bool_decide ((name, (rr_Type rr, w)) ∈ zone_set s)); lia.
  - apply set_eq. intros (k & t & r). rewrite Hz. set_solver.
Qed.

(** ** Uniform statements *)

Lemma NewStore_wf origin : store_wf (NewStore origin).
Proof.
  split; [apply canonical_Canonical|done|]. unfold zone_set, zone_list. simpl.
  by rewrite map_to_list_empty.
Qed.

Lemma zone_set_NewStore origin : zone_set (NewStore origin) = ∅.
Proof. unfold zone_set, zone_list. simpl. by rewrite map_to_list_empty. Qed.

(** The set an operation leaves, in terms of [rr_key]. *)
Lemma addRRLocked_set s rr s' e :
  store_wf s → addRRLocked s rr = (s', e) →
  store_wf s' ∧ st_origin s' = st_origin s ∧
  (e ≠ None → class_ok rr = true ∧ PackRR rr = Err (default "" e) ∧ s' = s) ∧
  (e = None → zone_set s' = (if class_ok rr then keys_of [rr] else ∅) ∪ zone_set s) ∧
  (is_ok (PackRR rr) = true → e = None).
Proof.
  intros Hwf Ha. pose proof (addRRLocked_spec s rr Hwf) as Hs.
  unfold keys_of. cbn [omap list_omap]. unfold rr_key.
  destruct (class_ok rr); [destruct (PackRR rr) as [w|err]|].
  - destruct Hs as (s2 & H1 & H2 & H3 & H4). rewrite H1 in Ha. injection Ha as <- <-.
    split_and!; try done. intros _. rewrite H4. set_solver.
  - rewrite Hs in Ha. injection Ha as <- <-. split_and!; done.
  - rewrite Hs in Ha. injection Ha as <- <-. split_and!; try done. set_solver.
Qed.

Lemma removeRRLocked_set s rr s' e :
  store_wf s → removeRRLocked s rr = (s', e) →
  store_wf s' ∧ st_origin s' = st_origin s ∧
  (e ≠ None → PackRR rr = Err (default "" e) ∧ s' = s) ∧
  (e = None → zone_set s' = zone_set s ∖ keys_of [rr]) ∧
  (is_ok (PackRR rr) = true → e = None).
Proof.
  intros Hwf Ha. pose proof (removeRRLocked_spec s rr Hwf) as Hs.
  unfold keys_of. cbn [omap list_omap]. unfold rr_key.
  destruct (st_nodes s !! Canonical (rr_Name rr)) as [n|] eqn:Hn; [destruct (PackRR rr) as [w|err]|].
  - destruct Hs as (s2 & H1 & H2 & H3 & H4). rewrite H1 in Ha. injection Ha as <- <-.
    split_and!; try done. intros _. rewrite H4. set_solver.
  - rewrite Hs in Ha. injection Ha as <- <-. split_and!; done.
  - rewrite Hs in Ha. injection Ha as <- <-. split_and!; try done. intros _.
    destruct (PackRR rr) as [w|err]; [|set_solver].
    assert ((Canonical (rr_Name rr), (rr_Type rr, w)) ∉ zone_set s); [|set_solver].
    rewrite elem_of_zone_set. intros (n & Hn' & _). congruence.
Qed.

Lemma keys_of_cons rr rrs : keys_of (rr :: rrs) = keys_of [rr] ∪ keys_of rrs.
Proof. unfold keys_of. simpl. destruct (rr_key rr); set_solver. Qed.

(** ** Changesets *)

(** One operation of a changeset, as the theorems see it: its effect on the
    set of records is [step]. *)
Definition op_spec (op : Store → RR → Store * option string) (step : gset rec_key → RR → gset rec_key) : Prop :=
  ∀ s rr s' e, store_wf s → op s rr = (s', e) →
    store_wf s' ∧ st_origin s' = st_origin s ∧
    (e ≠ None → PackRR rr = Err (default "" e) ∧ s' = s) ∧
    (e = None → zone_set s' = step (zone_set s) rr) ∧
    (is_ok (PackRR rr) = true → e = None).

Definition add_step (Z : gset rec_key) (rr : RR) : gset rec_key :=
  (if class_ok rr then keys_of [rr] else ∅) ∪ Z.
Definition remove_step (Z : gset rec_key) (rr : RR) : gset rec_key := Z ∖ keys_of [rr].

Lemma add_op_spec : op_spec addRRLocked add_step.
Proof.
  intros s rr s' e Hwf Ha. destruct (addRRLocked_set s rr s' e Hwf Ha) as (? & ? & He & ? & ?).
  split_and!; try done. intros Hne. by destruct (He Hne) as (_ & ? & ?).
Qed.

Lemma remove_op_spec : op_spec removeRRLocked remove_step.
Proof. intros s rr s' e. apply removeRRLocked_set. Qed.

Lemma foldl_add_step rrs Z :
  foldl add_step Z rrs = keys_of (List.filter class_ok rrs) ∪ Z.
Proof.
  revert Z. induction rrs as [|rr rrs IH]; intros Z; [set_solver|]. cbn [foldl List.filter].
  rewrite IH. unfold add_step. destruct (class_ok rr); [|set_solver].
  rewrite (keys_of_cons rr (List.filter class_ok rrs)). set_solver.
Qed.

Lemma foldl_remove_step rrs Z : foldl remove_step Z rrs = Z ∖ keys_of rrs.
Proof.
  revert Z. induction rrs as [|rr rrs IH]; intros Z; [set_solver|]. cbn [foldl].
  rewrite IH, (keys_of_cons rr rrs). unfold remove_step. set_solver.
Qed.

(** The records a loop has processed when it ends. *)
Lemma apply_each_spec op step count rrs s t s' t' e :
  op_spec op step → store_wf s → apply_each op count rrs s t = (s', t', e) →
  store_wf s' ∧ st_origin s' = st_origin s ∧
  (∃ pre rest, rrs = pre ++ rest ∧ zone_set s' = foldl step (zone_set s) pre ∧
     match e with
     | None => rest = []
     | Some err => ∃ rr rest', rest = rr :: rest' ∧ PackRR rr = Err err
     end) ∧
  (Forall (λ rr, is_ok (PackRR rr) = true) rrs → e = None).
Proof.
  intros Hop. revert s t. induction rrs as [|rr rrs IH]; intros s t Hwf Ha; simpl in Ha.
  { injection Ha as <- <- <-. split_and!; try done. by exists [], []. }
  destruct (op s rr) as [s1 e1] eqn:E. destruct (Hop _ _ _ _ Hwf E) as (Hwf1 & Ho1 & He & Hz & Hok).
  destruct e1 as [err|].
  - injection Ha as <- <- <-. destruct He as [He ->]; [done|]. split_and!; try done.
    + exists [], (rr :: rrs). split_and!; try done. eauto.
    + intros Hall. inversion Hall; subst. by discriminate Hok.
  - destruct (IH _ _ Hwf1 Ha) as (H1 & H2 & (pre & rest & -> & Hzs & Hm) & H4).
    split_and!; [done|congruence| |].
    + exists (rr :: pre), rest. split_and!; [done| |done]. simpl. by rewrite <-Hz.
    + intros Hall. inversion Hall; subst. auto.
Qed.

Lemma apply_changes_set s adds removes s' t :
  store_wf s → ApplyChanges s adds removes = (s', t, None) →
  store_wf s' ∧ st_origin s' = st_origin s ∧
  zone_set s' = (zone_set s ∖ keys_of removes) ∪ keys_of (List.filter class_ok adds).
Proof.
  unfold ApplyChanges. intros Hwf Ha.
  destruct (apply_each removeRRLocked _ _ _ _) as [[s1 t1] e1] eqn:Er.
  destruct (apply_each_spec _ _ _ _ _ _ _ _ _ remove_op_spec Hwf Er)
    as (Hwf1 & Ho1 & (pre1 & rest1 & -> & Hz1 & Hm1) & _).
  destruct e1; [done|].
  destruct (apply_each_spec _ _ _ _ _ _ _ _ _ add_op_spec Hwf1 Ha)
    as (Hwf2 & Ho2 & (pre2 & rest2 & -> & Hz2 & Hm2) & _).
  subst. split_and!; [done|congruence|].
  rewrite Hz2, Hz1, foldl_add_step, foldl_remove_step, !app_nil_r. set_solver.
Qed.

Lemma ApplyChanges_refines_wf s adds removes :
  store_wf s →
  Forall (λ rr, is_ok (PackRR rr) = true) (adds ++ removes) →
  ∃ s' t, ApplyChanges s adds removes = (s', t, None) ∧
    store_wf s' ∧ st_origin s' = st_origin s ∧
    zone_set s' = (zone_set s ∖ keys_of removes) ∪ keys_of (List.filter class_ok adds).
Proof.
  intros Hwf [Ha Hr]%Forall_app.
  destruct (ApplyChanges s adds removes) as [[s' t] e] eqn:E.
  assert (e = None) as ->.
  { unfold ApplyChanges in E.
    destruct (apply_each removeRRLocked _ _ _ _) as [[s1 t1] e1] eqn:Er.
    destruct (apply_each_spec _ _ _ _ _ _ _ _ _ remove_op_spec Hwf Er) as (Hwf1 & _ & _ & Hok1).
    rewrite (Hok1 Hr) in E.
    by destruct (apply_each_spec _ _ _ _ _ _ _ _ _ add_op_spec Hwf1 E) as (_ & _ & _ & Hok2); auto. }
  exists s', t. split; [done|]. by eapply apply_changes_set.
Qed.

(** C9: a changeset that succeeds takes the removed records out of the zone
    and puts the added ones in, whatever they are and in whatever order the
    message lists them: as a set of (owner, type, packed record), the store
    after [ApplyChanges] is (before minus removes) plus the adds of class IN.
    Owners compare in canonical form; the invariant is kept, so that the
    record count is the size of the set and the node flags are current; a
    changeset of records that can be packed always succeeds. *)
Theorem ApplyChanges_refines s adds removes :
  store_wf s →
  Forall (λ rr, is_ok (PackRR rr) = true) (adds ++ removes) →
  ∃ s' t, ApplyChanges s adds removes = (s', t, None) ∧
    store_wf s' ∧ st_origin s' = st_origin s ∧
    zone_set s' = (zone_set s ∖ keys_of removes) ∪ keys_of (List.filter class_ok adds).
Proof. apply ApplyChanges_refines_wf. Qed.

(** a changeset fails only on a record that cannot be packed, and what
    it leaves is well formed: exactly the changes before that record are
    applied (so a failed changeset is not rolled back). *)
Theorem ApplyChanges_error s adds removes s' t err :
  store_wf s → ApplyChanges s adds removes = (s', t, Some err) →
  store_wf s' ∧
  ((∃ pre rr rest, removes = pre ++ rr :: rest ∧ PackRR rr = Err err ∧
      zone_set s' = zone_set s ∖ keys_of pre) ∨
   (∃ pre rr rest, adds = pre ++ rr :: rest ∧ PackRR rr = Err err ∧
      zone_set s' = (zone_set s ∖ keys_of removes) ∪ keys_of (List.filter class_ok pre))).
Proof.
  unfold ApplyChanges. intros Hwf Ha.
  destruct (apply_each removeRRLocked _ _ _ _) as [[s1 t1] e1] eqn:Er.
  destruct (apply_each_spec _ _ _ _ _ _ _ _ _ remove_op_spec Hwf Er)
    as (Hwf1 & Ho1 & (pre1 & rest1 & -> & Hz1 & Hm1) & _).
  rewrite foldl_remove_step in Hz1. destruct e1 as [err1|].
  - injection Ha as <- <- <-. destruct Hm1 as (rr & rest & -> & Hp). split; [done|]. left. eauto 10.
  - subst rest1. rewrite app_nil_r in *.
    destruct (apply_each_spec _ _ _ _ _ _ _ _ _ add_op_spec Hwf1 Ha)
      as (Hwf2 & Ho2 & (pre2 & rest2 & -> & Hz2 & Hm2) & _).
    rewrite foldl_add_step in Hz2. split; [done|].
    destruct Hm2 as (rr & rest & -> & Hp). right. exists pre2, rr, rest.
    split_and!; [done..|]. rewrite Hz2, Hz1. set_solver.
Qed.

(** ** Transfers *)

Lemma add_all_spec rrs s :
  store_wf s →
  match add_all s rrs with
  | Ok s' => store_wf s' ∧ st_origin s' = st_origin s ∧
      zone_set s' = keys_of (List.filter class_ok rrs) ∪ zone_set s
  | Err err => ∃ rr, rr ∈ rrs ∧ PackRR rr = Err err
  end.
Proof.
  revert s. induction rrs as [|rr rrs IH]; intros s Hwf; simpl; [split_and!; [done..|set_solver]|].
  destruct (addRRLocked s rr) as [s1 e] eqn:E.
  destruct (addRRLocked_set _ _ _ _ Hwf E) as (Hwf1 & Ho & He & Hz & _). destruct e as [err|].
  - exists rr. split; [set_solver|]. by apply He.
  - specialize (IH _ Hwf1). destruct (add_all s1 rrs) as [s'|err].
    + destruct IH as (H1 & H2 & H3). split_and!; [done|congruence|].
      rewrite H3, Hz by done. destruct (class_ok rr); [|set_solver].
      rewrite (keys_of_cons rr (List.filter class_ok rrs)). set_solver.
    + destruct IH as (rr' & ? & ?). exists rr'. split; [set_solver|done].
Qed.

(** building a store from a transfer loses nothing and adds nothing: on
    success the store is well formed, its records are exactly those of the
    transfer of class IN, and it only fails on a record that cannot be
    packed. *)
Theorem FromAXFR_exact origin rrs :
  match FromAXFR origin rrs with
  | Ok s => store_wf s ∧ st_origin s = Canonical origin ∧
      zone_set s = keys_of (List.filter class_ok rrs) ∧
      Store_RecordCount s = Z.of_nat (size (keys_of (List.filter class_ok rrs)))
  | Err err => ∃ rr, rr ∈ rrs ∧ PackRR rr = Err err
  end.
Proof.
  unfold FromAXFR. pose proof (add_all_spec rrs _ (NewStore_wf origin)) as H.
  destruct (add_all (NewStore origin) rrs) as [s|err]; [|done].
  destruct H as (H1 & H2 & H3). rewrite zone_set_NewStore, (right_id_L ∅ (∪)) in H3.
  split_and!; [done..|]. unfold Store_RecordCount. by rewrite (sw_rrs _ H1), H3.
Qed.
End spec.

(** ** Witnesses *)

(** A store built from records is well formed. *)
Definition built `{DL : !DnsLib, BT : !BTree} (origin : string) (rrs : list RR) : Store :=
  ok_or (NewStore origin) (FromAXFR origin rrs).

Lemma built_wf `{DL : !DnsLib, BT : !BTree, NL : !DnsNameLaws} origin rrs : store_wf (built origin rrs).
Proof.
  unfold built, FromAXFR. pose proof (add_all_spec rrs _ (NewStore_wf origin)) as H.
  destruct (add_all (NewStore origin) rrs); [apply H|apply NewStore_wf].
Qed.

Lemma built_Ok `{DL : !DnsLib, BT : !BTree} origin rrs :
  is_ok (FromAXFR origin rrs) = true → FromAXFR origin rrs = Ok (built origin rrs).
Proof. unfold built. by destruct (FromAXFR origin rrs). Qed.

Lemma triple_eta {A B C} (p : A * B * C) c : p.2 = c → p = (p.1.1, p.1.2, c).
Proof. by destruct p as [[? ?] ?]; intros <-. Qed.

Lemma triple_id {A B C} (p : A * B * C) : p = (p.1.1, p.1.2, p.2).
Proof. by destruct p as [[? ?] ?]. Qed.

Definition toy_adds : list RR := [toy_A "NS.z." "192.0.2.7"; toy_SOA "z." 8].
Definition toy_removes : list RR := [toy_SOA "z." 7; toy_A "ns.z." "192.0.2.1"].

Lemma ApplyChanges_refines_witness :
  ∃ s' t, ApplyChanges (built "z." toy_zone) toy_adds toy_removes = (s', t, None) ∧
    store_wf s' ∧ st_origin s' = st_origin (built "z." toy_zone) ∧
    zone_set s' = (zone_set (built "z." toy_zone) ∖ keys_of toy_removes) ∪ keys_of (List.filter class_ok toy_adds).
Proof.
  apply (ApplyChanges_refines (built "z." toy_zone) toy_adds toy_removes); [apply built_wf|].
  repeat constructor.
Defined.

Lemma ApplyChanges_error_witness :
  ∃ s' t err, ApplyChanges (built "z." toy_zone) [toy_bad] toy_removes = (s', t, Some err) ∧ store_wf s'.
Proof.
  set (p := ApplyChanges (built "z." toy_zone) [toy_bad] toy_removes).
  assert (∃ err, p.2 = Some err) as [err Herr] by (eexists; vm_compute; reflexivity).
  exists p.1.1, p.1.2, err. split; [by apply triple_eta|].
  eapply (ApplyChanges_error (built "z." toy_zone) [toy_bad] toy_removes);
    [apply built_wf|by apply triple_eta].
Defined.

Lemma FromAXFR_exact_witness :
  match FromAXFR "z." toy_zone with
  | Ok s => store_wf s ∧ st_origin s = Canonical "z." ∧
      zone_set s = keys_of (List.filter class_ok toy_zone) ∧
      Store_RecordCount s = Z.of_nat (size (keys_of (List.filter class_ok toy_zone)))
  | Err err => ∃ rr, rr ∈ toy_zone ∧ PackRR rr = Err err
  end.
Proof. apply (FromAXFR_exact "z." toy_zone). Defined.
