(* ===== verification/StoreTouch.v ===== *)
(** * What a changeset reports as touched (internal/zone/store.go)

    Incremental verification trusts the [Touched] value of [ApplyChanges]:
    it reverifies the names and NSEC3 hashes it lists and nothing else. The
    theorems here justify that: whatever is not listed is unchanged, also
    when the changeset fails half-way. *)

From S2P Require Import Prelude GoStrings DnsLib BTree DnsName Base32 CanonOrder Node Store StoreSpec Toy.

Section touched.
Context `{DL : !DnsLib, BT : !BTree}.
Implicit Types s : Store.

(** ** Frames of the two operations *)

Lemma indexRRLocked_nodes s name rr : st_nodes (indexRRLocked s name rr) = st_nodes s.
Proof. apply index_frame. Qed.
Lemma deindexRRLocked_nodes s name rr : st_nodes (deindexRRLocked s name rr) = st_nodes s.
Proof. apply deindex_frame. Qed.

Lemma serial_frame s (b : bool) (o : option SOA_rdata) :
  let s' := if b then match o with Some soa => with_serial s (soa_Serial soa) | None => s end else s in
  st_nodes s' = st_nodes s ∧ st_nsec3 s' = st_nsec3 s ∧ st_expiry s' = st_expiry s.
Proof. by destruct b, o. Qed.

Lemma addRRLocked_frame s rr s' e k :
  addRRLocked s rr = (s', e) → k ≠ Canonical (rr_Name rr) → st_nodes s' !! k = st_nodes s !! k.
Proof.
  unfold addRRLocked. intros Ha Hk. destruct (_ && _); [by injection Ha as <- <-|].
  destruct (PackRR rr); injection Ha as <- <-; [|done].
  rewrite indexRRLocked_nodes.
  match goal with |- context [if ?b then match ?o with _ => _ end else ?s0] =>
    destruct (serial_frame s0 b o) as (-> & _) end.
  cbn [st_nodes with_nodes]. by apply lookup_insert_ne.
Qed.

Lemma removeRRLocked_frame s rr s' e k :
  removeRRLocked s rr = (s', e) → k ≠ Canonical (rr_Name rr) → st_nodes s' !! k = st_nodes s !! k.
Proof.
  unfold removeRRLocked. intros Ha Hk.
  destruct (st_nodes s !! _); [|by injection Ha as <- <-].
  destruct (PackRR rr); [|by injection Ha as <- <-].
  destruct (removePacked _ _ _) as [node removed]. injection Ha as <- <-.
  match goal with |- context [if ?b then match ?o with _ => _ end else ?s0] =>
    destruct (serial_frame s0 b o) as (-> & _) end.
  rewrite deindexRRLocked_nodes.
  destruct (bool_decide _); cbn [st_nodes with_nodes];
    [by apply lookup_delete_ne|by apply lookup_insert_ne].
Qed.

(** ** The record of a changeset *)

(** What one processed record adds to the report. *)
Definition note_of (rr : RR) (t : Touched) : Touched := note (touch_name t (Canonical (rr_Name rr))) rr.

Definition noted_hash (rr : RR) (h : bytes) : Prop :=
  rr_Type rr = TypeNSEC3 ∧ HashFromOwner (rr_Name rr) = Ok h.

(** A report that covers the records [l]. *)
Record covers (t : Touched) (l : list RR) : Prop := {
  cv_names : t_Names t = list_to_set ((Canonical ∘ rr_Name) <$> l);
  cv_nsec3 : ∀ h, h ∈ t_NSEC3 t ↔ ∃ rr, rr ∈ l ∧ noted_hash rr h;
  cv_dnskey : t_DNSKEY t = existsb (λ rr, bool_decide (rr_Type rr = TypeDNSKEY)) l;
  cv_param : t_NSEC3PARAM t = existsb (λ rr, bool_decide (rr_Type rr = TypeNSEC3PARAM)) l;
  cv_soa : t_SOA t = existsb (λ rr, bool_decide (rr_Type rr = TypeSOA)) l
}.

Lemma covers_empty : covers emptyTouched [].
Proof. split; try done. intros h. simpl. set_solver. Qed.

Lemma covers_count t l : covers t l → covers (count_added t) l ∧ covers (count_removed t) l.
Proof. intros []. split; split; done. Qed.

Lemma covers_note t l rr : covers t l → covers (note_of rr t) (l ++ [rr]).
Proof.
  intros [H1 H2 H3 H4 H5].
  assert (∀ f, existsb f (l ++ [rr]) = existsb f l || f rr) as Hex.
  { intros f. rewrite existsb_app. simpl. by rewrite orb_false_r. }
  assert (∀ h, (∃ r, r ∈ l ++ [rr] ∧ noted_hash r h) ↔ h ∈ t_NSEC3 t ∨ noted_hash rr h) as Hh.
  { intros h. rewrite H2. setoid_rewrite elem_of_app. setoid_rewrite list_elem_of_singleton. naive_solver. }
  assert (t_Names (note_of rr t) = {[ Canonical (rr_Name rr) ]} ∪ t_Names t) as Hn.
  { unfold note_of, note. repeat case_match; done. }
  split.
  - rewrite Hn, H1, fmap_app, list_to_set_app_L. simpl. set_solver.
  - intros h. rewrite Hh. unfold note_of, note, noted_hash.
    destruct (bool_decide_reflect (rr_Type rr = TypeDNSKEY)) as [->|?]; simpl; [naive_solver|].
    destruct (bool_decide_reflect (rr_Type rr = TypeNSEC3PARAM)) as [->|?]; simpl; [naive_solver|].
    destruct (bool_decide_reflect (rr_Type rr = TypeSOA)) as [->|?]; simpl; [naive_solver|].
    destruct (bool_decide_reflect (rr_Type rr = TypeNSEC3)) as [->|?]; simpl; [|naive_solver].
    destruct (HashFromOwner (rr_Name rr)); simpl; [set_solver|naive_solver].
  - rewrite Hex, <-H3. unfold note_of, note.
    destruct (bool_decide_reflect (rr_Type rr = TypeDNSKEY)) as [E|_]; simpl; [by rewrite orb_true_r|].
    repeat case_match; simpl; by rewrite orb_false_r.
  - rewrite Hex, <-H4. unfold note_of, note.
    destruct (bool_decide_reflect (rr_Type rr = TypeDNSKEY)) as [E|_]; simpl; [rewrite E; by rewrite (orb_comm _ (bool_decide _))|].
    destruct (bool_decide_reflect (rr_Type rr = TypeNSEC3PARAM)) as [E|_]; simpl; [by rewrite orb_true_r|].
    repeat case_match; simpl; by rewrite orb_false_r.
  - rewrite Hex, <-H5. unfold note_of, note.
    destruct (bool_decide_reflect (rr_Type rr = TypeDNSKEY)) as [E|_]; simpl; [rewrite E; by rewrite (orb_comm _ (bool_decide _))|].
    destruct (bool_decide_reflect (rr_Type rr = TypeNSEC3PARAM)) as [E|_]; simpl; [rewrite E; by rewrite (orb_comm _ (bool_decide _))|].
    destruct (bool_decide_reflect (rr_Type rr = TypeSOA)) as [E|_]; simpl; [by rewrite orb_true_r|].
    repeat case_match; simpl; by rewrite orb_false_r.
Qed.

(** ** A loop of the changeset *)

(** The records a loop has looked at, with induction over them. *)
Lemma apply_each_covers op count rrs s t s' t' e l :
  (∀ t l, covers t l → covers (count t) l) → covers t l →
  apply_each op count rrs s t = (s', t', e) →
  ∃ pre rest, rrs = pre ++ rest ∧ covers t' (l ++ pre) ∧ (e = None → rest = []) ∧
    ∀ P : Store → Prop, P s →
      (∀ s1 rr s2 e, rr ∈ pre → P s1 → op s1 rr = (s2, e) → P s2) → P s'.
Proof.
  intros Hcount. revert s t l. induction rrs as [|rr rrs IH]; intros s t l Hc Ha; cbn [apply_each] in Ha.
  { injection Ha as <- <- <-. exists [], []. rewrite (app_nil_r l). split_and!; [done..|]. by intros P Hs _. }
  fold (note_of rr t) in Ha. apply (covers_note _ _ rr) in Hc.
  destruct (op s rr) as [s1 [err|]] eqn:E.
  - injection Ha as <- <- <-. exists [rr], rrs. split_and!; [done|done|done|].
    intros P Hs Hop. apply (Hop s rr s1 (Some err)); [set_solver|done..].
  - destruct (IH s1 (count (note_of rr t)) (l ++ [rr])) as (pre & rest & -> & H1 & H2 & H3); [auto|done|].
    exists (rr :: pre), rest. rewrite <-app_assoc in H1. split_and!; [done..|].
    intros P Hs Hop. apply H3; [apply (Hop s rr s1 None); [set_solver|done..]|].
    intros s2 r s3 e' Hr. apply Hop. set_solver.
Qed.

(** The processed records of a changeset, and induction over them. *)
Lemma ApplyChanges_covers s adds removes s' t e :
  ApplyChanges s adds removes = (s', t, e) →
  ∃ done_removes done_adds, covers t (done_removes ++ done_adds) ∧
    (∀ rr, rr ∈ done_removes ++ done_adds → rr ∈ adds ++ removes) ∧
    (e = None → done_removes ++ done_adds = removes ++ adds) ∧
    ∀ P : Store → Prop, P s →
      (∀ s1 rr s2 e, rr ∈ done_removes → P s1 → removeRRLocked s1 rr = (s2, e) → P s2) →
      (∀ s1 rr s2 e, rr ∈ done_adds → P s1 → addRRLocked s1 rr = (s2, e) → P s2) → P s'.
Proof.
  unfold ApplyChanges. intros Ha.
  destruct (apply_each removeRRLocked _ _ _ _) as [[s1 t1] e1] eqn:Er.
  destruct (apply_each_covers _ _ _ _ _ _ _ _ [] (λ t l H, proj2 (covers_count t l H)) covers_empty Er)
    as (pre1 & rest1 & -> & Hc1 & Hr1 & HP1). simpl in Hc1.
  destruct e1 as [err|].
  - injection Ha as <- <- <-. exists pre1, []. rewrite app_nil_r.
    split_and!; [done|set_solver|done|]. intros P Hs Hrem _. by apply HP1.
  - rewrite Hr1 in * by done. rewrite app_nil_r in *.
    destruct (apply_each_covers _ _ _ _ _ _ _ _ pre1 (λ t l H, proj1 (covers_count t l H)) Hc1 Ha)
      as (pre2 & rest2 & -> & Hc2 & Hr2 & HP2).
    exists pre1, pre2. split_and!; [done|set_solver| |].
    + intros ->. by rewrite Hr2, app_nil_r by done.
    + intros P Hs Hrem Hadd. apply HP2; [by apply HP1|done].
Qed.

(** Names not reported are unchanged. After any changeset, also one
    that fails half-way, a node whose name is not in [Touched.Names] is the
    node it was; a successful changeset reports exactly the canonical owner
    names of its records, and its flags tell which special types it holds. *)
Theorem ApplyChanges_touched s adds removes s' t e :
  ApplyChanges s adds removes = (s', t, e) →
  (∀ k, k ∉ t_Names t → st_nodes s' !! k = st_nodes s !! k) ∧
  (e = None →
     t_Names t = list_to_set ((Canonical ∘ rr_Name) <$> removes ++ adds) ∧
     (∀ h, h ∈ t_NSEC3 t ↔ ∃ rr, rr ∈ removes ++ adds ∧ noted_hash rr h) ∧
     t_DNSKEY t = existsb (λ rr, bool_decide (rr_Type rr = TypeDNSKEY)) (removes ++ adds) ∧
     t_NSEC3PARAM t = existsb (λ rr, bool_decide (rr_Type rr = TypeNSEC3PARAM)) (removes ++ adds) ∧
     t_SOA t = existsb (λ rr, bool_decide (rr_Type rr = TypeSOA)) (removes ++ adds)).
Proof.
  intros Ha. destruct (ApplyChanges_covers _ _ _ _ _ _ Ha) as (dr & da & Hc & Hin & He & HP).
  split.
  - intros k Hk. rewrite (cv_names _ _ Hc), elem_of_list_to_set in Hk.
    assert (∀ rr, rr ∈ dr ++ da → k ≠ Canonical (rr_Name rr)) as Hne.
    { intros rr Hrr ->. apply Hk. apply list_elem_of_fmap. by exists rr. }
    apply (HP (λ s1, st_nodes s1 !! k = st_nodes s !! k)); [done| |].
    + intros s1 rr s2 e' Hrr <- Hop. eapply removeRRLocked_frame; [done|]. apply Hne. set_solver.
    + intros s1 rr s2 e' Hrr <- Hop. eapply addRRLocked_frame; [done|]. apply Hne. set_solver.
  - intros ->. rewrite <-He by done. by split_and!; apply Hc.
Qed.

Context `{BL : !BTreeLaws, NL : !DnsNameLaws}.

(** The header of a record agrees with its dynamic type, as in every record
    the library builds. *)
Definition nsec3_typed (rr : RR) : Prop :=
  is_Some (as_NSEC3 rr) → rr_Type rr = TypeNSEC3.

Lemma HashFromOwner_Canonical n : HashFromOwner (Canonical n) = HashFromOwner n.
Proof. unfold HashFromOwner. by rewrite Canonical_idemp. Qed.

Lemma addRRLocked_nsec3 s rr s' e h :
  addRRLocked s rr = (s', e) → nsec3_typed rr → h ≠ "" → ¬ noted_hash rr h →
  bt_Get h (st_nsec3 s') = bt_Get h (st_nsec3 s).
Proof.
  unfold addRRLocked. intros Ha Ht Hh Hn. destruct (_ && _); [by injection Ha as <- <-|].
  destruct (PackRR rr); injection Ha as <- <-; [|done].
  match goal with |- context [if ?b then match ?o with _ => _ end else ?s0] =>
    destruct (serial_frame s0 b o) as (_ & Hs & _); revert Hs; cbv zeta;
    generalize (if b then match o with Some soa => with_serial s0 (soa_Serial soa) | None => s0 end else s0) end.
  intros s1 Hs. cbn [st_nsec3 with_nodes] in Hs. rewrite <-Hs. unfold indexRRLocked.
  unfold nsec3_typed, as_NSEC3 in Ht.
  destruct (rr_Data rr) as [| | | |v| | | | | | | | |]; try done. simpl.
  rewrite bt_get_set_ne; [done|]. rewrite HashFromOwner_Canonical. intros Heq.
  destruct (HashFromOwner (h_Name (rr_Hdr rr))) as [x|] eqn:E; simpl in Heq; [|congruence].
  apply Hn. split; [by apply Ht|]. unfold rr_Name. congruence.
Qed.

Lemma removeRRLocked_nsec3 s rr s' e h :
  removeRRLocked s rr = (s', e) → nsec3_typed rr → ¬ noted_hash rr h →
  bt_Get h (st_nsec3 s') = bt_Get h (st_nsec3 s).
Proof.
  unfold removeRRLocked. intros Ha Ht Hn.
  destruct (st_nodes s !! _); [|by injection Ha as <- <-].
  destruct (PackRR rr); [|by injection Ha as <- <-].
  destruct (removePacked _ _ _) as [node removed]. injection Ha as <- <-.
  match goal with |- context [if ?b then match ?o with _ => _ end else ?s0] =>
    destruct (serial_frame s0 b o) as (_ & -> & _) end.
  match goal with |- context [deindexRRLocked ?s0 _ _] => set (s1 := s0) end.
  assert (st_nsec3 s1 = st_nsec3 s) as Hs1 by (unfold s1; by destruct (bool_decide _)).
  unfold deindexRRLocked, nsec3_typed, as_NSEC3 in *.
  destruct (rr_Data rr) as [| | | |v| | | | | | | | |]; simpl; try by rewrite Hs1.
  rewrite HashFromOwner_Canonical.
  destruct (HashFromOwner (h_Name (rr_Hdr rr))) as [x|] eqn:E; simpl; [|by rewrite Hs1].
  rewrite bt_get_delete_ne; [by rewrite Hs1|]. intros ->. apply Hn. split; [by apply Ht|done].
Qed.

(** NSEC3 hashes not reported are unchanged: for every non-empty hash
    that is not in [Touched.NSEC3], the NSEC3 index holds after the changeset
    (failed or not) the record it held before. The empty hash is excluded
    because a record whose owner label does not decode is filed under it. *)
Theorem ApplyChanges_nsec3_frame s adds removes s' t e h :
  ApplyChanges s adds removes = (s', t, e) →
  Forall nsec3_typed (adds ++ removes) →
  h ≠ "" → h ∉ t_NSEC3 t →
  NSEC3ByHash s' h = NSEC3ByHash s h.
Proof.
  intros Ha Hty Hh Hn. rewrite Forall_forall in Hty.
  destruct (ApplyChanges_covers _ _ _ _ _ _ Ha) as (dr & da & Hc & Hin & He & HP).
  assert (∀ rr, rr ∈ dr ++ da → ¬ noted_hash rr h) as Hno.
  { intros rr Hrr Hx. apply Hn, (cv_nsec3 _ _ Hc). eauto. }
  unfold NSEC3ByHash.
  apply (HP (λ s1, bt_Get h (st_nsec3 s1) = bt_Get h (st_nsec3 s))); [done| |].
  - intros s1 rr s2 e' Hrr <- Hop.
    eapply removeRRLocked_nsec3; [done|apply Hty, Hin; set_solver|apply Hno; set_solver].
  - intros s1 rr s2 e' Hrr <- Hop.
    eapply addRRLocked_nsec3; [done|apply Hty, Hin; set_solver|done|apply Hno; set_solver].
Qed.
End touched.

(** ** Witnesses *)

Lemma ApplyChanges_touched_witness :
  ∃ s' t e, ApplyChanges (built "z." toy_zone) toy_adds toy_removes = (s', t, e) ∧
    ∀ k, k ∉ t_Names t → st_nodes s' !! k = st_nodes (built "z." toy_zone) !! k.
Proof.
  destruct (ApplyChanges (built "z." toy_zone) toy_adds toy_removes) as [[s' t] e] eqn:E.
  exists s', t, e. split; [done|].
  apply (ApplyChanges_touched (built "z." toy_zone) toy_adds toy_removes s' t e E).
Defined.

Definition toy_ring : list RR :=
  [toy_SOA "z." 7; toy_NSEC3 "aaaaa" "z." "bbbbb" 0 [TypeSOA]; toy_NSEC3 "bbbbb" "z." "aaaaa" 0 []].

Lemma ApplyChanges_nsec3_frame_witness :
  ∃ s' t e,
    ApplyChanges (built "z." toy_ring) [toy_NSEC3 "bbbbb" "z." "aaaaa" 1 []]
      [toy_NSEC3 "bbbbb" "z." "aaaaa" 0 []] = (s', t, e) ∧
    NSEC3ByHash s' "aaaaa" = NSEC3ByHash (built "z." toy_ring) "aaaaa".
Proof.
  assert (in_set "aaaaa" (t_NSEC3
    (ApplyChanges (built "z." toy_ring) [toy_NSEC3 "bbbbb" "z." "aaaaa" 1 []]
      [toy_NSEC3 "bbbbb" "z." "aaaaa" 0 []]).1.2) = false) as Hb by (vm_compute; reflexivity).
  destruct (ApplyChanges _ _ _) as [[s' t] e] eqn:E.
  exists s', t, e. split; [done|].
  apply (ApplyChanges_nsec3_frame (built "z." toy_ring) _ _ s' t e "aaaaa" E).
  - repeat constructor.
  - done.
  - by apply in_set_false.
Defined.
