(* ===== verification/StoreIndex.v ===== *)
(** * The indexes of the store (internal/zone/store.go)

    The expiry index is keyed by a fixed-width decimal of the expiration, so
    that the string order of the keys is the order of the expirations and a
    range scan is exact. The NSEC3 index is a ring in hash order, which
    [NextNSEC3], [PredNSEC3] and [CoveringNSEC3] walk with wrap-around. *)

From S2P Require Import Prelude GoStrings Decimal DnsLib BTree DnsName Base32 CanonOrder Node Store StoreSpec Toy.

(** ** Expiry keys *)

Lemma in_u32_10 z : in_u32 z → (0 ≤ z < 10 ^ Z.of_nat 10)%Z.
Proof. unfold in_u32. simpl. lia. Qed.

(** The numbers of a record fit their Go types. *)
Definition expiry_rec_ok (r : ExpiryRec) : Prop :=
  in_u32 (ex_Expiration r) ∧ (0 ≤ ex_TypeCovered r)%Z ∧ (0 ≤ ex_KeyTag r)%Z.

Definition rec_key_of (r : ExpiryRec) : string :=
  expiryKey (ex_Expiration r) (ex_Owner r) (ex_TypeCovered r) (ex_KeyTag r).

Lemma expiryKey_shape e o c k :
  expiryKey e o c k = fmt_0d 10 e +:+ String ":" ((o +:+ String ":" (fmt_d c)) +:+ String ":" (fmt_d k)).
Proof.
  unfold expiryKey. do 2 f_equal.
  change (":" +:+ ?x) with (String ":" x). rewrite <-str_app_assoc. done.
Qed.

(** Different records have different keys. *)
Lemma expiryKey_inj r1 r2 :
  expiry_rec_ok r1 → expiry_rec_ok r2 → rec_key_of r1 = rec_key_of r2 → r1 = r2.
Proof.
  destruct r1 as [e1 o1 c1 k1], r2 as [e2 o2 c2 k2].
  unfold expiry_rec_ok, rec_key_of. rewrite !expiryKey_shape. simpl.
  intros (He1 & Hc1 & Hk1) (He2 & Hc2 & Hk2) Heq.
  apply str_app_inj_length in Heq as [He Heq]; [|rewrite !fmt_0d_length by (lia || by apply in_u32_10); done].
  apply fmt_0d_inj in He; [|lia|by apply in_u32_10..].
  injection Heq as Heq.
  apply last_sep_inj in Heq as [Heq Hk]; [|by apply fmt_d_no_byte..].
  apply last_sep_inj in Heq as [Ho Hc]; [|by apply fmt_d_no_byte..].
  apply fmt_d_inj in Hc, Hk. by subst.
Qed.

(** Keys are ordered like expirations. *)
Lemma expiryKey_lt r1 r2 :
  expiry_rec_ok r1 → expiry_rec_ok r2 → (ex_Expiration r1 < ex_Expiration r2)%Z →
  str_lt (rec_key_of r1) (rec_key_of r2).
Proof.
  intros (He1 & _) (He2 & _) Hlt. unfold rec_key_of, expiryKey.
  apply in_u32_10 in He1, He2.
  apply str_lt_app_length; [by rewrite !fmt_0d_length by (lia || done)|].
  apply fmt_0d_lt; lia.
Qed.

Lemma expiryKey_le r1 r2 :
  expiry_rec_ok r1 → expiry_rec_ok r2 → str_le (rec_key_of r1) (rec_key_of r2) →
  (ex_Expiration r1 ≤ ex_Expiration r2)%Z.
Proof.
  intros H1 H2 Hle. destruct (Z.le_gt_cases (ex_Expiration r1) (ex_Expiration r2)); [done|].
  apply str_le_not_lt in Hle. destruct Hle. by apply expiryKey_lt; [..|lia].
Qed.

(** The end key of a range scan separates the expirations. *)
Lemma end_key r cutoff :
  expiry_rec_ok r → in_u32 cutoff →
  str_ltb (fmt_0d 10 cutoff +:+ "~") (rec_key_of r) = (cutoff <? ex_Expiration r)%Z.
Proof.
  intros (He & _) Hc. apply in_u32_10 in He, Hc. apply Bool.eq_true_iff_eq.
  rewrite str_ltb_spec, Z.ltb_lt. unfold rec_key_of, expiryKey.
  destruct (Z.lt_trichotomy cutoff (ex_Expiration r)) as [H|[H|H]].
  - split; [done|]. intros _. apply str_lt_app_length; [by rewrite !fmt_0d_length by (lia || done)|].
    apply fmt_0d_lt; lia.
  - rewrite H, str_lt_app_l. split; [|lia]. unfold str_lt. by rewrite str_app_cons.
  - split; [|lia]. intros Hlt. exfalso. eapply (str_lt_irrefl (fmt_0d 10 cutoff +:+ "~")).
    etrans; [exact Hlt|]. apply str_lt_app_length; [by rewrite !fmt_0d_length by (lia || done)|].
    apply fmt_0d_lt; lia.
Qed.

(** ** The range scan *)

Section expiry.
Context `{DL : !DnsLib, BT : !BTree, BL : !BTreeLaws}.
Implicit Types s : Store.

(** Every entry of the index is filed under its own key. *)
Definition expiry_ok (s : Store) : Prop :=
  ∀ k r, bt_Get k (st_expiry s) = Some r → k = rec_key_of r ∧ expiry_rec_ok r.

(** The records in the index. *)
Definition indexed (s : Store) (r : ExpiryRec) : Prop := bt_Get (rec_key_of r) (st_expiry s) = Some r.

Lemma indexed_scan s r : expiry_ok s → indexed s r ↔ r ∈ (bt_Scan (st_expiry s)).*2.
Proof.
  intros Hok. unfold indexed. rewrite list_elem_of_fmap. split.
  - intros Hg. exists (rec_key_of r, r). split; [done|]. by apply bt_scan_get.
  - intros ([k r'] & -> & Hin%bt_scan_get). destruct (Hok _ _ Hin) as [-> _]. done.
Qed.

Lemma ascend_all {V} (m : bt V) : bt_Ascend "" m = bt_Scan m.
Proof.
  rewrite bt_ascend_scan. induction (bt_Scan m) as [|[k v] l IH]; [done|]. cbn [List.filter fst].
  rewrite IH. replace (str_leb "" k) with true; [done|]. symmetry. by destruct k.
Qed.

(** Scanning a list sorted by key up to the cutoff keeps exactly the entries
    at or below it. *)
Lemma expiring_loop cutoff l out :
  in_u32 cutoff → StronglySorted key_lt l →
  (∀ e, e ∈ l → e.1 = rec_key_of e.2 ∧ expiry_rec_ok e.2) →
  iterate (λ out '(k, rec),
      if str_ltb (fmt_0d 10 cutoff +:+ "~") k then (out, false)
      else if (cutoff <? ex_Expiration rec)%Z then (out, false)
      else (out ++ [rec], true)) out l =
  out ++ List.filter (λ r, ex_Expiration r <=? cutoff)%Z (l.*2).
Proof.
  intros Hc Hs. revert out. induction Hs as [|[k r] l Hs IH Hf]; intros out Hok; simpl; [by rewrite app_nil_r|].
  destruct (Hok (k, r)) as [Hk Hr]; [set_solver|]. simpl in Hk, Hr. rewrite Hk, end_key by done.
  destruct (Z.ltb_spec cutoff (ex_Expiration r)) as [Hlt|Hge].
  - rewrite (proj2 (Z.leb_gt _ _)) by lia.
    replace (List.filter _ _) with (@nil ExpiryRec); [by rewrite app_nil_r|].
    symmetry. apply filter_all_false. rewrite Forall_forall in Hf.
    intros r' ([k' r''] & -> & Hin)%list_elem_of_fmap. simpl. apply Z.leb_gt.
    destruct (Hok (k', r'')) as [Hk' Hr']; [set_solver|]. simpl in *.
    specialize (Hf _ Hin). unfold key_lt in Hf. simpl in Hf. rewrite Hk, Hk' in Hf.
    pose proof (expiryKey_le _ _ Hr Hr' (str_lt_le _ _ Hf)). lia.
  - rewrite (proj2 (Z.leb_le _ _)) by lia. rewrite IH by (intros e He; apply Hok; set_solver).
    by rewrite <-app_assoc.
Qed.

Lemma expiry_ok_scan s e :
  expiry_ok s → e ∈ bt_Scan (st_expiry s) → e.1 = rec_key_of e.2 ∧ expiry_rec_ok e.2.
Proof. intros Hok. destruct e as [k r]. rewrite bt_scan_get. apply Hok. Qed.

Lemma ExpiringBefore_filter s cutoff :
  expiry_ok s → in_u32 cutoff →
  ExpiringBefore s cutoff = List.filter (λ r, ex_Expiration r <=? cutoff)%Z ((bt_Scan (st_expiry s)).*2).
Proof.
  intros Hok Hc. unfold ExpiringBefore. rewrite ascend_all.
  rewrite expiring_loop; [done|done|apply bt_scan_sorted|]. intros e. by apply expiry_ok_scan.
Qed.

(** The records of the index, soonest expiration first. *)
Lemma scan_expiration_sorted s :
  expiry_ok s → StronglySorted (λ a b, ex_Expiration a ≤ ex_Expiration b)%Z (bt_Scan (st_expiry s)).*2.
Proof.
  intros Hok. pose proof (bt_scan_sorted _ (st_expiry s)) as Hs.
  assert (∀ e, e ∈ bt_Scan (st_expiry s) → e.1 = rec_key_of e.2 ∧ expiry_rec_ok e.2) as Hl
    by (intros e; by apply expiry_ok_scan).
  induction Hs as [|[k r] l Hs IH Hf]; simpl; constructor.
  - apply IH. intros e He. apply Hl. set_solver.
  - rewrite Forall_forall in Hf. apply Forall_forall. intros r' ([k' r''] & -> & Hin)%list_elem_of_fmap.
    destruct (Hl (k, r)) as [Hk Hr]; [set_solver|]. destruct (Hl (k', r'')) as [Hk' Hr']; [set_solver|].
    simpl in *. specialize (Hf _ Hin). unfold key_lt in Hf. simpl in Hf. rewrite Hk, Hk' in Hf.
    apply expiryKey_le; [done..|by apply str_lt_le].
Qed.

Lemma EarliestExpiry_spec s :
  expiry_ok s →
  (∀ r, indexed s r → (EarliestExpiry s ≤ ex_Expiration r)%Z) ∧
  ((∃ r, indexed s r ∧ EarliestExpiry s = ex_Expiration r) ∨
   (∀ r, ¬ indexed s r) ∧ EarliestExpiry s = 0%Z).
Proof.
  intros Hok. pose proof (scan_expiration_sorted s Hok) as Hs.
  setoid_rewrite (indexed_scan s _ Hok). unfold EarliestExpiry.
  destruct (bt_Scan (st_expiry s)) as [|[k r] l]; simpl in *.
  - split; [by intros r ?%elem_of_nil|]. right. split; [|done]. intros r. apply not_elem_of_nil.
  - inversion Hs as [|? ? _ Hf]; subst. rewrite Forall_forall in Hf. split.
    + intros r' [->|Hr]%elem_of_cons; [done|]. by apply Hf.
    + left. exists r. split; [set_solver|done].
Qed.

(** ** Building the index *)

Definition sig_rec (name : string) (v : RRSIG_rdata) : ExpiryRec :=
  mkExpiryRec (sig_Expiration v) name (sig_TypeCovered v) (sig_KeyTag v).

(** The RRSIGs of a list of records, as the index describes them. *)
Definition sig_in (rrs : list RR) (r : ExpiryRec) : Prop :=
  ∃ rr v, rr ∈ rrs ∧ class_ok rr = true ∧ as_RRSIG rr = Some v ∧ r = sig_rec (Canonical (rr_Name rr)) v.

(** The fields of an RRSIG fit their Go types. *)
Definition rrsig_ok (rr : RR) : Prop :=
  ∀ v, as_RRSIG rr = Some v → in_u32 (sig_Expiration v) ∧ in_u16 (sig_TypeCovered v) ∧ in_u16 (sig_KeyTag v).

Lemma add_expiry s rr s' :
  addRRLocked s rr = (s', None) →
  st_expiry s' =
    if class_ok rr then
      match as_RRSIG rr with
      | Some v => bt_Set (rec_key_of (sig_rec (Canonical (rr_Name rr)) v)) (sig_rec (Canonical (rr_Name rr)) v) (st_expiry s)
      | None => st_expiry s
      end
    else st_expiry s.
Proof.
  unfold addRRLocked, class_ok, rr_Class. rewrite <-negb_orb.
  destruct (_ || _); [|by intros [= <-]]. cbn [negb].
  destruct (PackRR rr); [|done]. intros [= <-].
  match goal with |- context [indexRRLocked ?s0 _ _] =>
    assert (st_expiry s0 = st_expiry s) as Hs; [|set (s1 := s0) in *] end.
  { destruct (bool_decide _); [|done]. by destruct (as_SOA rr). }
  unfold indexRRLocked, as_RRSIG. destruct (rr_Data rr); try done. simpl. by rewrite Hs.
Qed.

Lemma sig_rec_ok rr v : rrsig_ok rr → as_RRSIG rr = Some v → expiry_rec_ok (sig_rec (Canonical (rr_Name rr)) v).
Proof. intros Hok Hv. destruct (Hok _ Hv) as (? & ? & ?). unfold in_u16 in *. split_and!; simpl; [done|lia..]. Qed.

Lemma sig_in_snoc l rr r :
  sig_in (l ++ [rr]) r ↔ sig_in l r ∨
    (class_ok rr = true ∧ ∃ v, as_RRSIG rr = Some v ∧ r = sig_rec (Canonical (rr_Name rr)) v).
Proof.
  unfold sig_in. split.
  - intros (rr' & v & [Hin|Hin%list_elem_of_singleton]%elem_of_app & Hc & Hv & Hr).
    + left. eauto 10.
    + right. subst rr'. eauto.
  - intros [(rr' & v & Hin & H)|(Hc & v & Hv & Hr)].
    + exists rr', v. split; [set_solver|done].
    + exists rr, v. split_and!; [set_solver|done..].
Qed.

(** The index holds exactly the RRSIGs of [done], filed under their keys. *)
Lemma add_all_expiry rrs s s' done_ :
  add_all s rrs = Ok s' →
  Forall rrsig_ok rrs →
  expiry_ok s → (∀ r, indexed s r ↔ sig_in done_ r) →
  expiry_ok s' ∧ (∀ r, indexed s' r ↔ sig_in (done_ ++ rrs) r).
Proof.
  revert s done_. induction rrs as [|rr rrs IH]; intros s done_ Ha Hall Hok Hidx; simpl in Ha.
  { injection Ha as <-. by rewrite app_nil_r. }
  inversion Hall as [|? ? Hrr Hall']; subst.
  destruct (addRRLocked s rr) as [s1 [err|]] eqn:E; [done|].
  apply add_expiry in E. rewrite (cons_middle rr done_ rrs), app_assoc. apply (IH s1); [done..| |].
  - intros k r. rewrite E. destruct (class_ok rr); [|apply Hok].
    destruct (as_RRSIG rr) as [v|] eqn:Hv; [|apply Hok].
    rewrite bt_get_set. case_bool_decide as Hk; [|apply Hok].
    intros [= <-]. split; [done|by apply sig_rec_ok].
  - intros r. assert (sig_in (done_ ++ [rr]) r ↔ sig_in done_ r ∨
      (class_ok rr = true ∧ ∃ v, as_RRSIG rr = Some v ∧ r = sig_rec (Canonical (rr_Name rr)) v)) as ->.
    { apply sig_in_snoc. }
    rewrite <-Hidx. unfold indexed. rewrite E. destruct (class_ok rr); [|naive_solver].
    destruct (as_RRSIG rr) as [v|] eqn:Hv; [|naive_solver].
    rewrite bt_get_set. case_bool_decide as Hk; split.
    + intros [= <-]. right. eauto.
    + intros [Hg|(_ & v' & [= <-] & ->)]; [|done]. f_equal.
      apply expiryKey_inj; [by apply sig_rec_ok| |done]. by apply (Hok _ _ Hg).
    + auto.
    + intros [Hg|(_ & v' & [= <-] & ->)]; [done|]. by destruct Hk.
Qed.

Lemma FromAXFR_expiry origin rrs s :
  FromAXFR origin rrs = Ok s → Forall rrsig_ok rrs → expiry_ok s ∧ (∀ r, indexed s r ↔ sig_in rrs r).
Proof.
  intros Ha Hall. apply (add_all_expiry rrs (NewStore origin) s [] Ha Hall).
  - intros k r. simpl. by rewrite bt_get_new.
  - intros r. unfold indexed. simpl. rewrite bt_get_new. split; [done|].
    by intros (rr & v & ?%elem_of_nil & _).
Qed.

(** C19: the expiry index of a transferred zone is exact. For a zone built
    from a transfer, [ExpiringBefore cutoff] yields the RRSIGs of the
    transfer that expire at or before the cutoff, all of them and no others,
    soonest first, although it only compares decimal strings; and
    [EarliestExpiry] is the least expiration of the zone, 0 if unsigned. *)
Theorem expiry_index_exact origin rrs s cutoff :
  FromAXFR origin rrs = Ok s → Forall rrsig_ok rrs → in_u32 cutoff →
  (∀ r, r ∈ ExpiringBefore s cutoff ↔ sig_in rrs r ∧ (ex_Expiration r ≤ cutoff)%Z) ∧
  StronglySorted (λ a b, ex_Expiration a ≤ ex_Expiration b)%Z (ExpiringBefore s cutoff) ∧
  (∀ r, sig_in rrs r → (EarliestExpiry s ≤ ex_Expiration r)%Z) ∧
  ((∃ r, sig_in rrs r ∧ EarliestExpiry s = ex_Expiration r) ∨
   (∀ r, ¬ sig_in rrs r) ∧ EarliestExpiry s = 0%Z).
Proof.
  intros Ha Hall Hc. destruct (FromAXFR_expiry origin rrs s Ha Hall) as [Hok Hidx].
  rewrite ExpiringBefore_filter by done. split_and!.
  - intros r. rewrite elem_of_filter_b, <-(indexed_scan s r Hok), Hidx, Z.leb_le. done.
  - pose proof (scan_expiration_sorted s Hok) as Hs.
    induction Hs as [|r l Hs IH Hf]; simpl; [constructor|].
    destruct (_ <=? _)%Z; [|done]. constructor; [done|]. rewrite Forall_forall in Hf. apply Forall_forall.
    intros r' [Hr' _]%elem_of_filter_b. by apply Hf.
  - intros r Hr. apply EarliestExpiry_spec; [done|]. by apply Hidx.
  - destruct (EarliestExpiry_spec s Hok) as [_ [(r & Hr & ->)|[Hno ->]]].
    + left. exists r. split; [by apply Hidx|done].
    + right. split; [|done]. intros r Hr. by apply (Hno r), Hidx.
Qed.
End expiry.

(** ** Witness *)

Lemma expiry_index_exact_witness :
  EarliestExpiry (built "z." toy_zone) = 4000%Z ∧
  (∀ r, sig_in toy_zone r → (4000 ≤ ex_Expiration r)%Z).
Proof.
  assert (FromAXFR "z." toy_zone = Ok (built "z." toy_zone)) as Hb
    by (apply built_Ok; vm_compute; reflexivity).
  assert (EarliestExpiry (built "z." toy_zone) = 4000%Z) as He by (vm_compute; reflexivity).
  split; [done|]. rewrite <-He.
  apply (expiry_index_exact "z." toy_zone (built "z." toy_zone) 4500 Hb).
  - repeat apply Forall_cons_2; [..|apply Forall_nil_2]; intros v Hv; try discriminate Hv;
      injection Hv as <-; unfold in_u32, in_u16; cbn; unfold TypeA, TypeSOA; lia.
  - unfold in_u32. lia.
Defined.
