(* ===== verification/StoreRing.v ===== *)
(** * The NSEC3 ring (internal/zone/store.go)

    The NSEC3 records of a zone form a ring in hash order. The three walks
    of the store are characterised by the order alone: the successor of a
    hash, its predecessor, and the record whose span covers it, each with
    the wrap-around at the ends; they are total on a non-empty ring, and
    predecessor undoes successor. *)

From S2P Require Import Prelude GoStrings DnsLib BTree DnsName Base32 CanonOrder Node Store Toy.

Section ring.
Context `{DL : !DnsLib, BT : !BTree}.
Implicit Types s : Store.

(** A hash of the ring, with its record. *)
Definition on_ring (s : Store) (k : bytes) (r : NSEC3Rec) : Prop := NSEC3ByHash s k = Some r.
Definition ring_hash (s : Store) (k : bytes) : Prop := is_Some (NSEC3ByHash s k).

(** [k] is the first hash after [h], going round. *)
Definition ring_next (s : Store) (h k : bytes) : Prop :=
  ring_hash s k ∧
  ((str_lt h k ∧ ∀ k', ring_hash s k' → str_lt h k' → str_le k k') ∨
   ((∀ k', ring_hash s k' → ¬ str_lt h k') ∧ ∀ k', ring_hash s k' → str_le k k')).

(** [k] is the last hash before [h], going round. *)
Definition ring_prev (s : Store) (h k : bytes) : Prop :=
  ring_hash s k ∧
  ((str_lt k h ∧ ∀ k', ring_hash s k' → str_lt k' h → str_le k' k) ∨
   ((∀ k', ring_hash s k' → ¬ str_lt k' h) ∧ ∀ k', ring_hash s k' → str_le k' k)).

(** [k] is the hash whose span [k, next) holds [h], going round. *)
Definition ring_cover (s : Store) (h k : bytes) : Prop :=
  ring_hash s k ∧
  ((str_le k h ∧ ∀ k', ring_hash s k' → str_le k' h → str_le k' k) ∨
   ((∀ k', ring_hash s k' → ¬ str_le k' h) ∧ ∀ k', ring_hash s k' → str_le k' k)).

(** A walk gives the record of the hash it is to find, or nothing on an
    empty ring. *)
Definition walk_spec (s : Store) (P : bytes → Prop) (o : option NSEC3Rec) : Prop :=
  match o with
  | Some r => ∃ k, on_ring s k r ∧ P k
  | None => ∀ k, ¬ ring_hash s k
  end.

Context `{BL : !BTreeLaws}.

Lemma scan_ring s k r : (k, r) ∈ bt_Scan (st_nsec3 s) ↔ on_ring s k r.
Proof. apply bt_scan_get. Qed.

Lemma ring_hash_scan s k : ring_hash s k ↔ ∃ r, (k, r) ∈ bt_Scan (st_nsec3 s).
Proof. unfold ring_hash, is_Some. by setoid_rewrite scan_ring. Qed.

Lemma take_first_head l : take_first l = snd <$> head l.
Proof. by destruct l as [|[k r] l]. Qed.

(** *** Skipping the pivot *)

Lemma next_loop (h : bytes) (l : list (string * NSEC3Rec)) :
  NoDup l.*1 →
  iterate (λ '(next, found) '(k, rec),
      if negb found then
        if bool_decide (k = h) then ((next, true), true)
        else ((Some rec, found), false)
      else ((Some rec, found), false)) (@None NSEC3Rec, false) l =
  (snd <$> head (List.filter (λ e, negb (bool_decide (e.1 = h))) l),
   bool_decide (fst <$> head l = Some h)).
Proof.
  intros Hnd. destruct l as [|[k r] l]; [done|]. cbn [iterate negb List.filter head fst].
  apply NoDup_cons in Hnd as [Hk _].
  rewrite (bool_decide_ext (fst <$> Some (k, r) = Some h) (k = h)) by (simpl; naive_solver).
  destruct (bool_decide_reflect (k = h)) as [->|Hne]; cbn [negb]; [|done].
  destruct l as [|[k' r'] l]; [done|]. cbn [iterate negb List.filter fst].
  rewrite bool_decide_false; [done|]. intros ->. apply Hk. set_solver.
Qed.

Lemma pred_loop (h : bytes) (l : list (string * NSEC3Rec)) :
  iterate (λ pred '(k, rec), if bool_decide (k = h) then (pred, true) else (Some rec, false))
    (@None NSEC3Rec) l = snd <$> head (List.filter (λ e, negb (bool_decide (e.1 = h))) l).
Proof.
  induction l as [|[k r] l IH]; [done|]. cbn [iterate List.filter fst].
  by destruct (bool_decide (k = h)).
Qed.

Lemma filter_filter {A} (f g : A → bool) l :
  List.filter f (List.filter g l) = List.filter (λ x, g x && f x) l.
Proof.
  induction l as [|x l IH]; [done|]. simpl. destruct (g x); simpl; [|done].
  destruct (f x); by rewrite IH.
Qed.

Lemma scan_keys_NoDup s : NoDup (bt_Scan (st_nsec3 s)).*1.
Proof.
  pose proof (bt_scan_sorted _ (st_nsec3 s)) as Hs.
  induction Hs as [|[k r] l Hs IH Hf]; simpl; constructor; [|done].
  intros ([k' r'] & -> & Hin)%list_elem_of_fmap. rewrite Forall_forall in Hf.
  apply Hf in Hin. by apply str_lt_irrefl in Hin.
Qed.

Lemma NoDup_fst_filter {V} (f : string * V → bool) l : NoDup l.*1 → NoDup (List.filter f l).*1.
Proof.
  induction l as [|e l IH]; [done|]. rewrite fmap_cons, NoDup_cons. intros [He Hl]. simpl.
  destruct (f e); [|auto]. rewrite fmap_cons, NoDup_cons. split; [|auto].
  intros (e' & Heq & [Hin _]%elem_of_filter_b)%list_elem_of_fmap. apply He. rewrite Heq.
  by apply list_elem_of_fmap_2.
Qed.

(** The least and the greatest hash, for the wrap-around. *)
Lemma scan_first s : walk_spec s (λ k, ∀ k', ring_hash s k' → str_le k k') (take_first (bt_Scan (st_nsec3 s))).
Proof.
  rewrite take_first_head. destruct (bt_Scan (st_nsec3 s)) as [|[k r] l] eqn:E; simpl.
  - intros k [r Hr]. apply scan_ring in Hr. rewrite E in Hr. by apply elem_of_nil in Hr.
  - exists k. split; [apply scan_ring; rewrite E; set_solver|].
    intros k' [r' Hr']%ring_hash_scan. apply (bt_scan_head_least _ _ _ (k', r') E Hr').
Qed.

Lemma scan_last s : walk_spec s (λ k, ∀ k', ring_hash s k' → str_le k' k) (take_first (bt_Reverse (st_nsec3 s))).
Proof.
  rewrite take_first_head, bt_reverse_scan. destruct (rev (bt_Scan (st_nsec3 s))) as [|[k r] l] eqn:E; simpl.
  - intros k [r Hr]. apply scan_ring, elem_of_rev in Hr. rewrite E in Hr. by apply elem_of_nil in Hr.
  - exists k. split; [apply scan_ring, elem_of_rev; rewrite E; set_solver|].
    intros k' [r' Hr']%ring_hash_scan.
    apply (sorted_last_greatest _ _ _ (k', r') (bt_scan_sorted _ (st_nsec3 s)) E Hr').
Qed.

Lemma walk_weaken s (P Q : bytes → Prop) o :
  (∀ k, ring_hash s k → P k → Q k) → walk_spec s P o → walk_spec s Q o.
Proof.
  intros HPQ. destruct o as [r|]; [|done]. intros (k & Hk & HP). exists k. split; [done|].
  apply HPQ; [|done]. by exists r.
Qed.

(** The two halves of a walk: the nearest on one side, or else the end. *)
Lemma walk_else s (near : option (string * NSEC3Rec)) (far : option NSEC3Rec) (P : bytes → Prop) :
  (∀ e, near = Some e → (e.1, e.2) ∈ bt_Scan (st_nsec3 s) ∧ P e.1) →
  (near = None → walk_spec s P far) →
  walk_spec s P (match snd <$> near with Some r => Some r | None => far end).
Proof.
  destruct near as [[k r]|]; simpl; [|auto]. intros H _. destruct (H (k, r) eq_refl) as [Hin HP].
  exists k. split; [by apply scan_ring|done].
Qed.

Lemma str_lt_of_le_ne a b : str_leb a b = true → negb (bool_decide (b = a)) = true → str_lt a b.
Proof.
  rewrite str_leb_spec, negb_true_iff, bool_decide_eq_false. intros [?| ->]; [done|]. by intros [].
Qed.

(** The entries strictly after (before) the pivot. *)
Lemma after_pivot h (e : string * NSEC3Rec) :
  str_leb h e.1 && negb (bool_decide (e.1 = h)) = true ↔ str_lt h e.1.
Proof.
  rewrite andb_true_iff. split.
  - intros [? ?]. by apply str_lt_of_le_ne.
  - intros Hlt. split; [by apply str_leb_spec, str_lt_le|].
    apply negb_true_iff, bool_decide_eq_false. intros Heq. rewrite Heq in Hlt. by apply str_lt_irrefl in Hlt.
Qed.

Lemma before_pivot h (e : string * NSEC3Rec) :
  str_leb e.1 h && negb (bool_decide (e.1 = h)) = true ↔ str_lt e.1 h.
Proof.
  rewrite andb_true_iff. split.
  - intros [? ?]. apply str_lt_of_le_ne; [done|].
    by rewrite (bool_decide_ext (h = e.1) (e.1 = h)) by done.
  - intros Hlt. split; [by apply str_leb_spec, str_lt_le|].
    apply negb_true_iff, bool_decide_eq_false. intros Heq. rewrite Heq in Hlt. by apply str_lt_irrefl in Hlt.
Qed.

Lemma NextNSEC3_walk s h : walk_spec s (ring_next s h) (NextNSEC3 s h).
Proof.
  unfold NextNSEC3. rewrite bt_ascend_scan, next_loop by apply NoDup_fst_filter, scan_keys_NoDup.
  rewrite filter_filter. apply walk_else.
  - intros [k r] Hh. simpl.
    destruct (first_filter_least _ _ _ (bt_scan_sorted _ _) Hh) as (Hin & Hf & Hleast).
    apply after_pivot in Hf. simpl in Hf. split; [done|].
    split; [apply ring_hash_scan; eauto|]. left. split; [done|].
    intros k' [r' Hr']%ring_hash_scan Hlt. apply (Hleast (k', r') Hr'). by apply after_pivot.
  - intros Hh. eapply walk_weaken; [|apply scan_first]. intros k Hk Hfirst.
    split; [done|]. right. split; [|done]. intros k' [r' Hr']%ring_hash_scan Hlt.
    pose proof (proj1 (head_filter_None _ _) Hh (k', r') Hr') as Hx.
    apply not_true_iff_false in Hx. apply Hx. by apply after_pivot.
Qed.

Lemma PredNSEC3_walk s h : walk_spec s (ring_prev s h) (PredNSEC3 s h).
Proof.
  unfold PredNSEC3. rewrite bt_descend_scan, pred_loop, filter_filter. cbv zeta. apply walk_else.
  - intros [k r] Hh. simpl.
    destruct (last_filter_greatest _ _ _ (bt_scan_sorted _ _) Hh) as (Hin & Hf & Hgreatest).
    apply before_pivot in Hf. simpl in Hf. split; [done|].
    split; [apply ring_hash_scan; eauto|]. left. split; [done|].
    intros k' [r' Hr']%ring_hash_scan Hlt. apply (Hgreatest (k', r') Hr'). by apply before_pivot.
  - intros Hh. eapply walk_weaken; [|apply scan_last]. intros k Hk Hlast.
    split; [done|]. right. split; [|done]. intros k' [r' Hr']%ring_hash_scan Hlt.
    rewrite head_filter_None in Hh. specialize (Hh (k', r')). rewrite elem_of_rev in Hh.
    apply Hh, not_true_iff_false in Hr'. apply Hr'. by apply before_pivot.
Qed.

Lemma CoveringNSEC3_walk s h : walk_spec s (ring_cover s h) (CoveringNSEC3 s h).
Proof.
  unfold CoveringNSEC3. destruct (bt_Get h (st_nsec3 s)) as [r|] eqn:E.
  { exists h. split; [done|]. split; [by exists r|]. left. split; [by right|]. by intros. }
  rewrite bt_descend_scan, take_first_head. apply walk_else.
  - intros [k r] Hh. simpl.
    destruct (last_filter_greatest _ _ _ (bt_scan_sorted _ _) Hh) as (Hin & Hf & Hgreatest).
    apply str_leb_spec in Hf. simpl in Hf. split; [done|].
    split; [apply ring_hash_scan; eauto|]. left. split; [done|].
    intros k' [r' Hr']%ring_hash_scan Hlt. apply (Hgreatest (k', r') Hr'). by apply str_leb_spec.
  - intros Hh. eapply walk_weaken; [|apply scan_last]. intros k Hk Hlast.
    split; [done|]. right. split; [|done]. intros k' [r' Hr']%ring_hash_scan Hle.
    rewrite head_filter_None in Hh. specialize (Hh (k', r')). rewrite elem_of_rev in Hh.
    apply Hh, not_true_iff_false in Hr'. apply Hr'. by apply str_leb_spec.
Qed.

(** The target of a walk is unique. *)
Lemma ring_next_unique s h k1 k2 : ring_next s h k1 → ring_next s h k2 → k1 = k2.
Proof.
  intros [R1 H1] [R2 H2]. apply (anti_symm str_le).
  - destruct H1 as [[L1 M1]|[N1 M1]]; [|by apply M1].
    destruct H2 as [[L2 M2]|[N2 M2]]; [by apply M1|]. by destruct (N2 k1).
  - destruct H2 as [[L2 M2]|[N2 M2]]; [|by apply M2].
    destruct H1 as [[L1 M1]|[N1 M1]]; [by apply M2|]. by destruct (N1 k2).
Qed.

(** Going to the successor and back returns to the same hash. *)
Lemma ring_prev_next s h k : ring_hash s h → ring_next s h k → ring_prev s k h.
Proof.
  intros Hh [Hk Hn]. split; [done|]. destruct Hn as [[Hlt Hleast]|[Hno Hleast]].
  - left. split; [done|]. intros k' Hk' Hlt'. apply str_le_not_lt. intros Hhk.
    apply (str_lt_irrefl k). eapply str_le_lt_trans; [|exact Hlt']. by apply Hleast.
  - right. split.
    + intros k' Hk' Hlt. apply (str_lt_irrefl k). eapply str_le_lt_trans; [by apply Hleast|done].
    + intros k' Hk'. apply str_le_not_lt. by apply Hno.
Qed.

Lemma ring_prev_unique s h k1 k2 : ring_prev s h k1 → ring_prev s h k2 → k1 = k2.
Proof.
  intros [R1 H1] [R2 H2]. apply (anti_symm str_le).
  - destruct H2 as [[L2 M2]|[N2 M2]]; [|by apply M2].
    destruct H1 as [[L1 M1]|[N1 M1]]; [by apply M2|]. by destruct (N1 k2).
  - destruct H1 as [[L1 M1]|[N1 M1]]; [|by apply M1].
    destruct H2 as [[L2 M2]|[N2 M2]]; [by apply M1|]. by destruct (N2 k1).
Qed.

(** C18: the NSEC3 ring. [NextNSEC3], [PredNSEC3] and [CoveringNSEC3] find,
    for any hash, the next record of the ring, the previous one, and the one
    whose span covers it, wrapping around at the ends; they return [nil]
    only on an empty ring; and from a record of the ring, the predecessor of
    the successor is that record. *)
Theorem nsec3_ring s h :
  walk_spec s (ring_next s h) (NextNSEC3 s h) ∧
  walk_spec s (ring_prev s h) (PredNSEC3 s h) ∧
  walk_spec s (ring_cover s h) (CoveringNSEC3 s h) ∧
  (∀ r k, on_ring s h r → ring_next s h k → PredNSEC3 s k = Some r).
Proof.
  split_and!; [apply NextNSEC3_walk|apply PredNSEC3_walk|apply CoveringNSEC3_walk|].
  intros r k Hr Hk.
  assert (ring_prev s k h) as Hp by (apply ring_prev_next; [by exists r|done]).
  pose proof (PredNSEC3_walk s k) as Hw. destruct (PredNSEC3 s k) as [r'|]; simpl in Hw.
  - destruct Hw as (k' & Hr' & Hp'). rewrite (ring_prev_unique s k k' h Hp' Hp) in Hr'.
    unfold on_ring in *. congruence.
  - destruct (Hw h). by exists r.
Qed.
End ring.

(** ** Witness *)

Lemma nsec3_ring_witness :
  let s := ok_or (NewStore "z.") (FromAXFR "z." [toy_NSEC3 "aaaaa" "z." "bbbbb" 0 []; toy_NSEC3 "bbbbb" "z." "aaaaa" 0 []]) in
  r3_Hash <$> PredNSEC3 s "bbbbb" = Some "aaaaa" ∧
  (∀ r k, on_ring s "aaaaa" r → ring_next s "aaaaa" k → PredNSEC3 s k = Some r).
Proof.
  intros s. split; [vm_compute; reflexivity|]. apply (nsec3_ring s "aaaaa").
Defined.
