(* ===== verification/Snapshot.v ===== *)
(** * Snapshots (internal/zone/store.go)

    The compact on-disk form of a store: a magic word, the origin, the
    serial, the time, and the records in wire form with 16-bit lengths, all
    big-endian. Reading what was written gives the records the store shows:
    its records, but for a record of TTL 0 in an RRset that has another TTL,
    which [unpackOne] gives that TTL. *)

From S2P Require Import Prelude GoStrings Bytes DnsLib BTree DnsName Base32 CanonOrder Node Store StoreSpec Toy.

Definition snapMagic : string := "DSA1".

Definition writeString (s : string) : bytes := be 2 (Z.of_nat (String.length s)) +:+ s.

Definition readString (r : bytes) : result (string * bytes) :=
  '(n, r) ← ReadFull 2 r;
  ReadFull (Z.to_nat (be_dec n)) r.

Section snapshot.
Context `{DL : !DnsLib, BT : !BTree}.

(** The record loop of [WriteSnapshot]. *)
Fixpoint write_rrs (rrs : list RR) : result bytes :=
  match rrs with
  | [] => Ok ""
  | rr :: rrs =>
      w ← dns_PackRR rr MaxMsgSize;
      rest ← write_rrs rrs;
      Ok (be 2 (Z.of_nat (String.length w)) +:+ (w +:+ rest))
  end.

(** The record loop of [ReadSnapshot], [n] records. *)
Fixpoint read_rrs (n : nat) (r : bytes) (st : Store) : result Store :=
  match n with
  | 0 => Ok st
  | S n =>
      '(len, r) ← ReadFull 2 r;
      '(buf, r) ← ReadFull (Z.to_nat (be_dec len)) r;
      rr ← dns_UnpackRR buf;
      match addRRLocked st rr with
      | (_, Some err) => Err err
      | (st, None) => read_rrs n r st
      end
  end.

Definition ReadSnapshot (r : bytes) : result (Store * Time) :=
  '(magic, r) ← ReadFull 4 r;
  if negb (bool_decide (magic = snapMagic)) then Err "bad snapshot magic"
  else
    '(origin, r) ← readString r;
    '(serial, r) ← ReadFull 4 r;
    '(saved, r) ← ReadFull 8 r;
    '(count, r) ← ReadFull 4 r;
    st ← read_rrs (Z.to_nat (be_dec count)) r (with_serial (NewStore origin) (be_dec serial));
    Ok (st, timeUnix (i64 (be_dec saved))).

Section write.
Context `{MR : !MapRange}.

(** [WriteSnapshot] at time [now], into a writer that does not fail. *)
Definition WriteSnapshot (s : Store) (now : Time) : result bytes :=
  rrs ← AllRRs s;
  body ← write_rrs rrs;
  Ok (snapMagic +:+ (writeString (st_origin s) +:+ (be 4 (st_serial s) +:+ (be 8 (Unix now) +:+
      (be 4 (u32 (Z.of_nat (length rrs))) +:+ body))))).
End write.
End snapshot.

Lemma readString_writeString s rest :
  (Z.of_nat (String.length s) < 2 ^ 16)%Z → readString (writeString s +:+ rest) = Ok (s, rest).
Proof.
  intros Hs. unfold readString, writeString. rewrite <-str_app_assoc.
  rewrite ReadFull_app by apply be_length. cbn [mbind result_bind].
  rewrite be_dec_be. rewrite Z.mod_small by (simpl in *; lia). rewrite Nat2Z.id.
  by apply ReadFull_app.
Qed.

(** ** Snapshots *)

#[local] Opaque be.

Section roundtrip.
Context `{DL : !DnsLib, BT : !BTree, WL : !DnsWireLaws}.
Implicit Types s : Store.

Lemma read_write_rrs rrs body st :
  Forall wire_exact rrs → write_rrs rrs = Ok body →
  read_rrs (length rrs) body st = add_all st rrs.
Proof.
  intros Hex. revert body st. induction Hex as [|rr rrs Hx Hex IH]; intros body st Hw; [done|].
  cbn [write_rrs] in Hw. destruct (dns_PackRR rr MaxMsgSize) as [w|] eqn:Hp; [|done].
  destruct (write_rrs rrs) as [rest|] eqn:Hr; [|done]. injection Hw as <-.
  cbn [length read_rrs add_all]. rewrite ReadFull_app by apply be_length.
  cbn [mbind result_bind]. pose proof (Pack_size _ _ _ Hp) as Hsz. unfold MaxMsgSize in Hsz.
  rewrite be_dec_be, Z.mod_small, Nat2Z.id by (simpl; lia).
  rewrite ReadFull_app by done. cbn [mbind result_bind].
  rewrite (Unpack_Pack _ _ _ Hx Hp). cbn [mbind result_bind].
  destruct (addRRLocked st rr) as [st' [err|]]; [done|]. by apply IH.
Qed.

Context `{MR : !MapRange}.

(** Reading a snapshot rebuilds the store record by record. *)
Lemma ReadSnapshot_WriteSnapshot s now b rrs :
  Forall wire_exact rrs → canonical (st_origin s) → AllRRs s = Ok rrs → WriteSnapshot s now = Ok b →
  (Z.of_nat (String.length (st_origin s)) < 2 ^ 16)%Z → in_u32 (st_serial s) →
  (- 2 ^ 63 ≤ Unix now < 2 ^ 63)%Z → (Z.of_nat (length rrs) < 2 ^ 32)%Z →
  ReadSnapshot b =
    (st ← add_all (with_serial (NewStore (st_origin s)) (st_serial s)) rrs;
     Ok (st, timeUnix (Unix now))).
Proof.
  intros Hex Hc Hall Hw Ho Hs Ht Hn. unfold WriteSnapshot in Hw. rewrite Hall in Hw.
  cbn [mbind result_bind] in Hw. destruct (write_rrs rrs) as [body|] eqn:Hb; [|done].
  injection Hw as <-. unfold ReadSnapshot.
  rewrite ReadFull_app by done. cbn [mbind result_bind]. rewrite bool_decide_true by done. cbn [negb].
  rewrite readString_writeString by done. cbn [mbind result_bind].
  rewrite ReadFull_app by apply be_length. cbn [mbind result_bind].
  rewrite ReadFull_app by apply be_length. cbn [mbind result_bind].
  rewrite ReadFull_app by apply be_length. cbn [mbind result_bind].
  rewrite !be_dec_be. change (256 ^ Z.of_nat 4)%Z with (2 ^ 32)%Z.
  rewrite (Z.mod_small (st_serial s)) by done.
  unfold u32, wrapN. rewrite Z.mod_mod by done. rewrite (Z.mod_small (Z.of_nat (length rrs))) by lia.
  rewrite Nat2Z.id. rewrite (read_write_rrs rrs body _ Hex Hb).
  change (Z.of_nat 8) with 8%Z. by rewrite i64_small by done.
Qed.

(** ** What a store shows of its records *)

Lemma mapM_result_total {A B} (f : A → result B) l ys x : mapM_result f l = Ok ys → x ∈ l → ∃ y, f x = Ok y.
Proof.
  revert ys. induction l as [|a l IH]; intros ys; [by intros _ ?%elem_of_nil|]. cbn [mapM_result].
  destruct (f a) as [y|] eqn:E; [|done]. cbn. destruct (mapM_result f l) as [zs|] eqn:El; [|done].
  intros _ [->|Hx]%elem_of_cons; eauto.
Qed.

(** A record the wire form carries: in the form of the decoder, named, with
    a TTL of 32 bits, and below the size limit of the snapshot buffer. *)
Definition rr_carried (rr : RR) : Prop :=
  wire_exact rr ∧ rr_Name rr ≠ "" ∧ in_u32 (rr_Ttl rr) ∧ (dns_Len rr + 64 ≤ MaxMsgSize)%Z.

(** A stored record [w] is the packed form of such a record. *)
Definition stored_as (k : string) (t : Z) (w : bytes) (rr : RR) : Prop :=
  dns_UnpackRR w = Ok rr ∧ PackRR rr = Ok w ∧
  Canonical (rr_Name rr) = k ∧ rr_Type rr = t ∧ class_ok rr = true ∧ rr_carried rr.

Definition set_ok (k : string) (x : RRSet) : Prop :=
  in_u32 (rs_TTL x) ∧ ∀ w, w ∈ rs_Rdata x → ∃ rr, stored_as k (rs_Type x) w rr.

(** Every record of the store decodes to what was packed; TTLs are 32 bits. *)
Definition decodable (s : Store) : Prop :=
  ∀ k n x, st_nodes s !! k = Some n → x ∈ n_Sets n → set_ok k x.

(** The records [AllRRs] gives, as a set: each stored record unpacked with
    the TTL of its RRset. *)
Definition shown (s : Store) : gset rec_key :=
  list_to_set ('(_, n) ← map_to_list (st_nodes s); x ← n_Sets n; w ← rs_Rdata x;
    match unpackOne (n_Name n) (rs_Type x) (rs_TTL x) w with
    | Ok rr => match rr_key rr with Some p => [p] | None => [] end
    | Err _ => []
    end).

(** No record of TTL 0 is in an RRset that has another TTL. *)
Definition ttl_kept (s : Store) : Prop :=
  ∀ k n x w rr, st_nodes s !! k = Some n → x ∈ n_Sets n → w ∈ rs_Rdata x →
    dns_UnpackRR w = Ok rr → rr_Ttl rr = 0%Z → rs_TTL x = 0%Z.

(** A stored record as it is unpacked. *)
Definition shown_rr (ttl : Z) (rr : RR) : RR :=
  set_ttl (if bool_decide (rr_Ttl rr = 0%Z) && negb (bool_decide (ttl = 0%Z)) then ttl else rr_Ttl rr) rr.

Lemma elem_of_shown s p :
  p ∈ shown s ↔ ∃ k n x w rr, st_nodes s !! k = Some n ∧ x ∈ n_Sets n ∧ w ∈ rs_Rdata x ∧
    unpackOne (n_Name n) (rs_Type x) (rs_TTL x) w = Ok rr ∧ rr_key rr = Some p.
Proof.
  unfold shown. rewrite elem_of_list_to_set, list_elem_of_bind. split.
  - intros ([k n] & (x & (w & Hp & Hw)%list_elem_of_bind & Hx)%list_elem_of_bind & Hn%elem_of_map_to_list).
    destruct (unpackOne _ _ _ w) as [rr|] eqn:Hu; [|by apply elem_of_nil in Hp].
    destruct (rr_key rr) as [q|] eqn:Hk; [|by apply elem_of_nil in Hp].
    apply list_elem_of_singleton in Hp as ->. by exists k, n, x, w, rr.
  - intros (k & n & x & w & rr & Hn & Hx & Hw & Hu & Hk). exists (k, n). split; [|by apply elem_of_map_to_list].
    apply list_elem_of_bind. exists x. split; [|done]. apply list_elem_of_bind. exists w. split; [|done].
    rewrite Hu, Hk. by apply list_elem_of_singleton.
Qed.

Lemma elem_of_AllRRs s rrs rr :
  AllRRs s = Ok rrs → rr ∈ rrs ↔ ∃ k n x w, st_nodes s !! k = Some n ∧ x ∈ n_Sets n ∧ w ∈ rs_Rdata x ∧
    unpackOne (n_Name n) (rs_Type x) (rs_TTL x) w = Ok rr.
Proof.
  intros Hall. unfold AllRRs in Hall. rewrite foldM_app in Hall.
  destruct (mapM_result Node_AllRRs (ForEachNode s)) as [zs|] eqn:Hzs; [|done]. injection Hall as <-. cbn [app].
  assert (∀ n z, Node_AllRRs n = Ok z → ∀ r, r ∈ z ↔ ∃ x w, x ∈ n_Sets n ∧ w ∈ rs_Rdata x ∧
    unpackOne (n_Name n) (rs_Type x) (rs_TTL x) w = Ok r) as Hnode.
  { intros n z Hz r. unfold Node_AllRRs in Hz. rewrite foldM_app in Hz.
    destruct (mapM_result _ (n_Sets n)) as [ys|] eqn:Hys; [|done]. injection Hz as <-. cbn [app].
    rewrite list_elem_of_join. setoid_rewrite (mapM_result_elem _ _ _ Hys). split.
    - intros (y & Hr & x & Hx & Hux). destruct (proj1 (mapM_result_elem _ _ _ Hux r) Hr) as (w & Hw & Hu). eauto.
    - intros (x & w & Hx & Hw & Hu). destruct (mapM_result_total _ _ _ x Hys Hx) as [y Hy].
      exists y. split; [|eauto]. apply (mapM_result_elem _ _ _ Hy). eauto. }
  rewrite list_elem_of_join. setoid_rewrite (mapM_result_elem _ _ _ Hzs). split.
  - intros (z & Hr & n & Hn & Hz). apply elem_of_range_snd in Hn as [k Hk]. destruct (proj1 (Hnode n z Hz rr) Hr) as (x & w & ?). exists k, n, x, w. naive_solver.
  - intros (k & n & x & w & Hk & Hx & Hw & Hu). assert (n ∈ ForEachNode s) as Hn by (apply elem_of_range_snd; eauto).
    destruct (mapM_result_total _ _ _ n Hzs Hn) as [z Hz].
    exists z. split; [|eauto]. apply (Hnode n z Hz). eauto.
Qed.

(** [AllRRs] gives what the store shows. *)
Lemma AllRRs_shown s rrs : AllRRs s = Ok rrs → keys_of rrs = shown s.
Proof.
  intros Hall. apply set_eq. intros p. rewrite elem_of_shown. unfold keys_of.
  rewrite elem_of_list_to_set, list_elem_of_omap. setoid_rewrite (elem_of_AllRRs s rrs _ Hall). naive_solver.
Qed.

(** ** Stores whose records decode *)

Lemma PackRR_Ok rr w : PackRR rr = Ok w → dns_PackRR rr (dns_Len rr + 64) = Ok w.
Proof. unfold PackRR, wrap_err. destruct (dns_PackRR _ _); congruence. Qed.

Lemma stored_as_pack rr w :
  PackRR rr = Ok w → class_ok rr = true → rr_carried rr → stored_as (Canonical (rr_Name rr)) (rr_Type rr) w rr.
Proof. intros Hp Hc Hpl. split_and!; try done. eapply Unpack_Pack; [apply Hpl|by apply PackRR_Ok]. Qed.

Lemma addPacked_set_ok ss k t ttl w rr :
  (∀ x, x ∈ ss → set_ok k x) → in_u32 ttl → stored_as k t w rr → ∀ x, x ∈ addPacked_sets ss t ttl w → set_ok k x.
Proof.
  intros Hss Httl Hw. induction ss as [|y ss IH]; cbn [addPacked_sets].
  { intros x ->%list_elem_of_singleton. split; [done|]. intros w' ->%list_elem_of_singleton. by exists rr. }
  pose proof (Hss y ltac:(left)) as [Hty Hwy].
  assert (∀ x, x ∈ ss → set_ok k x) as Hrest by (intros x Hx; apply Hss; by right).
  assert (in_u32 (if bool_decide (rs_TTL y = 0%Z) then ttl else rs_TTL y)) as Httl' by (by destruct (bool_decide _)).
  destruct (bool_decide_reflect (rs_Type y = t)) as [Ht|Ht]; [destruct (existsb _ _)|]; intros x [->|Hx]%elem_of_cons; try (by apply Hrest).
  - by split.
  - split; [done|]. intros w' [Hw'| ->%list_elem_of_singleton]%elem_of_app; [by apply Hwy|]. exists rr. cbn. by rewrite Ht.
  - by split.
  - by apply IH.
Qed.

Lemma add_decodable s rr s' : decodable s → rr_carried rr → addRRLocked s rr = (s', None) → decodable s'.
Proof.
  intros Hd Hc Ha. destruct (class_ok rr) eqn:Hcl.
  2:{ unfold addRRLocked, class_ok, rr_Class in *. rewrite <-negb_orb, Hcl in Ha. by injection Ha as <-. }
  destruct (PackRR rr) as [w|err] eqn:Hp.
  2:{ unfold addRRLocked, class_ok, rr_Class in *. by rewrite <-negb_orb, Hcl, Hp in Ha. }
  destruct (add_nodes s rr w Hp Hcl) as (s1 & Ha1 & _ & Hn & _). assert (s1 = s') as -> by congruence.
  intros k n x. rewrite Hn. destruct (decide (Canonical (rr_Name rr) = k)) as [<-|Hne].
  - rewrite lookup_insert_eq. intros [= <-]. apply (addPacked_set_ok _ _ _ _ _ rr); [|apply Hc|by apply stored_as_pack].
    destruct (st_nodes s !! Canonical (rr_Name rr)) as [n0|] eqn:En; [intros y; by apply Hd|].
    intros y Hy. by apply elem_of_nil in Hy.
  - rewrite lookup_insert_ne by done. apply Hd.
Qed.

(** Zones made of such records decode. *)
Lemma FromAXFR_decodable origin rrs s : FromAXFR origin rrs = Ok s → Forall rr_carried rrs → decodable s.
Proof.
  intros Ha Hall. unfold FromAXFR in Ha.
  assert (decodable (NewStore origin)) as H0 by (intros k n x; cbn; by rewrite lookup_empty).
  revert Ha H0. generalize (NewStore origin). induction Hall as [|rr rrs Hrr _ IH]; intros s0; cbn [add_all]; [by intros [= ->]|].
  destruct (addRRLocked s0 rr) as [s1 [e|]] eqn:E; [done|]. intros Ha Hd. apply (IH s1 Ha). by eapply add_decodable.
Qed.

Context `{TL : !DnsTtlLaws}.

Lemma shown_rr_hdr ttl rr : rr_Name (shown_rr ttl rr) = rr_Name rr ∧ rr_Type (shown_rr ttl rr) = rr_Type rr ∧
  class_ok (shown_rr ttl rr) = class_ok rr ∧ rr_Data (shown_rr ttl rr) = rr_Data rr.
Proof. done. Qed.

Lemma shown_rr_id ttl rr : (rr_Ttl rr = 0%Z → ttl = 0%Z) → shown_rr ttl rr = rr.
Proof.
  intros H. destruct rr as [[n t c l] d]. unfold shown_rr, set_ttl, rr_Ttl, rr_Name, rr_Type, rr_Class in *. cbn in *.
  case_bool_decide as Hl; [|done]. by rewrite bool_decide_true by auto.
Qed.

(** Unpacking a record of a decodable store. *)
Lemma unpackOne_stored k t ttl w rr :
  stored_as k t w rr → unpackOne k t ttl w = Ok (shown_rr ttl rr).
Proof.
  intros (Hu & Hp & Hk & Ht & Hc & Hpl). unfold unpackOne. rewrite Hu. f_equal. destruct Hpl as (_ & Hn & _).
  destruct rr as [[n t' c l] d]. unfold shown_rr, set_ttl, fix_header, rr_Name, rr_Ttl, rr_Type, rr_Class in *. cbn in *.
  by rewrite (bool_decide_false (n = "")) by done.
Qed.

Lemma shown_carried k t ttl w rr :
  stored_as k t w rr → in_u32 ttl →
  rr_carried (shown_rr ttl rr) ∧ class_ok (shown_rr ttl rr) = true ∧ ∃ w', rr_key (shown_rr ttl rr) = Some (k, (t, w')).
Proof.
  intros (Hu & Hp & Hk & Ht & Hc & Hx & Hn & Hl & Hs) Httl. unfold shown_rr. set (l := if (_ : bool) then _ else _).
  assert (in_u32 l) as Hl' by (subst l; by destruct (_ && _)). split_and!.
  - split_and!; [|done|done|by rewrite Len_ttl]. unfold wire_exact in *. by rewrite (norm_ttl rr l Hl'), Hx.
  - done.
  - unfold rr_key, PackRR. rewrite Len_ttl. pose proof (Pack_ttl _ _ _ l Hl' (PackRR_Ok _ _ Hp)) as Hok.
    destruct (dns_PackRR (set_ttl l rr) _) as [w'|]; [|done]. exists w'. cbn [wrap_err].
    change (rr_Name (set_ttl l rr)) with (rr_Name rr). change (rr_Type (set_ttl l rr)) with (rr_Type rr). by rewrite Hk, Ht.
Qed.

Lemma length_bind {A B} (f : A → list B) l : length (l ≫= f) = sum_list ((λ x, length (f x)) <$> l).
Proof. induction l as [|x l IH]; [done|]. change ((x :: l) ≫= f) with (f x ++ (l ≫= f)). by rewrite length_app, IH. Qed.

Lemma length_mjoin {A} (ls : list (list A)) : length (mjoin ls) = sum_list (length <$> ls).
Proof. induction ls as [|l ls IH]; [done|]. change (mjoin (l :: ls)) with (l ++ mjoin ls). by rewrite length_app, IH. Qed.

Lemma Node_AllRRs_ok k n :
  n_Name n = k → (∀ x, x ∈ n_Sets n → set_ok k x) → ∃ rrs, Node_AllRRs n = Ok rrs ∧ length rrs = length (node_recs n).
Proof.
  intros Hk Hok. unfold Node_AllRRs. rewrite foldM_app.
  destruct (mapM_result_fmap (λ x : RRSet, Unpack x (n_Name n)) (λ x, length (rs_Rdata x)) length (n_Sets n)) as (zs & -> & Hl).
  { intros x Hx. destruct (Hok x Hx) as [_ Hw].
    destruct (mapM_result_fmap (unpackOne (n_Name n) (rs_Type x) (rs_TTL x)) (λ _ : bytes, tt) (λ _ : RR, tt) (rs_Rdata x)) as (ys & Hys & Hlen).
    - intros w [rr Hr]%Hw. rewrite Hk. exists (shown_rr (rs_TTL x) rr). split; [by apply unpackOne_stored|done].
    - exists ys. split; [done|]. apply (f_equal length) in Hlen. by rewrite !length_fmap in Hlen. }
  eexists. split; [done|]. cbn [app]. rewrite length_mjoin, Hl. unfold node_recs, sets_recs. rewrite length_bind. f_equal.
  apply list_fmap_ext. intros _ x _. by rewrite length_fmap.
Qed.

(** All the records of a decodable store: how many, and in what form. *)
Lemma AllRRs_decodable s :
  store_wf s → decodable s →
  ∃ rrs, AllRRs s = Ok rrs ∧ Z.of_nat (length rrs) = st_rrs s ∧
    ∀ rr, rr ∈ rrs → rr_carried rr ∧ class_ok rr = true ∧ is_Some (rr_key rr).
Proof.
  intros Hwf Hd. unfold AllRRs at 1. rewrite foldM_app.
  destruct (mapM_result_fmap Node_AllRRs (λ n, length (node_recs n)) length (ForEachNode s)) as (zs & Hzs & Hl).
  { intros n [k Hk]%elem_of_range_snd. apply (Node_AllRRs_ok k); [apply (sw_nodes _ Hwf _ _ Hk)|]. intros x. by apply Hd. }
  rewrite Hzs. cbn [app mbind result_bind fmap result_fmap]. exists (mjoin zs). split; [done|].
  assert (AllRRs s = Ok (mjoin zs)) as Hall by (unfold AllRRs; rewrite foldM_app, Hzs; done). split.
  - rewrite (sw_rrs _ Hwf). f_equal. rewrite length_mjoin, Hl. transitivity (length (zone_list (st_nodes s))).
    + unfold zone_list. rewrite <-range_perm, length_bind. unfold ForEachNode. rewrite <-list_fmap_compose. f_equal.
      apply list_fmap_ext. intros _ [k n] _. cbn. by rewrite length_fmap.
    + unfold zone_set. rewrite size_list_to_set; [done|].
      apply NoDup_zone_list. intros k n Hk. by apply (node_wf_NoDup (st_origin s) k), Hwf.
  - intros rr (k & n & x & w & Hk & Hx & Hw & Hu)%(elem_of_AllRRs s _ _ Hall). destruct (Hd _ _ _ Hk Hx) as [Httl Hst].
    destruct (Hst w Hw) as [rr0 Hr0]. rewrite (nw_name _ _ _ (sw_nodes _ Hwf _ _ Hk)), (unpackOne_stored _ _ _ _ _ Hr0) in Hu.
    injection Hu as <-. destruct (shown_carried _ _ _ _ _ Hr0 Httl) as (? & ? & w' & ?). eauto.
Qed.

Lemma same_set s k n x y :
  store_wf s → st_nodes s !! k = Some n → x ∈ n_Sets n → y ∈ n_Sets n → rs_Type x = rs_Type y → x = y.
Proof.
  intros Hwf Hk Hx Hy Ht. destruct (nw_sets _ _ _ (sw_nodes _ Hwf _ _ Hk)) as [Hnd _].
  apply list_elem_of_lookup in Hx as [i Hi], Hy as [j Hj].
  assert (i = j) as ->; [|congruence].
  apply (NoDup_lookup (rs_Type <$> n_Sets n) _ _ (rs_Type x) Hnd); rewrite list_lookup_fmap; [by rewrite Hi|by rewrite Hj, Ht].
Qed.

(** A store shows its records as they are exactly when no TTL is replaced. *)
Lemma shown_kept s : store_wf s → decodable s → shown s = zone_set s ↔ ttl_kept s.
Proof.
  intros Hwf Hd. pose proof (λ k n Hk, nw_name _ _ _ (sw_nodes _ Hwf k n Hk)) as Hnm. split.
  - intros Heq k n x w rr Hk Hx Hw Hu H0. destruct (decide (rs_TTL x = 0%Z)) as [|Hne]; [done|exfalso].
    assert ((k, (rs_Type x, w)) ∈ shown s) as Hin.
    { rewrite Heq. apply elem_of_zone_set. exists n. split; [done|]. apply elem_of_sets_recs. eauto. }
    apply elem_of_shown in Hin as (k' & n' & x' & w' & rr' & Hk' & Hx' & Hw' & Hu' & Hkey).
    destruct (Hd _ _ _ Hk' Hx') as [Httl' Hst']. destruct (Hst' w' Hw') as [rr0 Hr0].
    rewrite (Hnm _ _ Hk'), (unpackOne_stored _ _ _ _ _ Hr0) in Hu'. injection Hu' as <-.
    destruct (shown_carried _ _ _ _ _ Hr0 Httl') as (Hcar & _ & w1 & Hk1). rewrite Hk1 in Hkey. injection Hkey as -> Ht ->.
    assert (n' = n) as -> by congruence. assert (x' = x) as -> by (by apply (same_set s k n)).
    assert (dns_UnpackRR w = Ok (shown_rr (rs_TTL x) rr0)) as Hu2.
    { unfold rr_key in Hk1. destruct (PackRR (shown_rr (rs_TTL x) rr0)) as [w2|] eqn:Hp2; [|done]. injection Hk1 as _ _ ->.
      eapply Unpack_Pack; [apply Hcar|by apply PackRR_Ok]. }
    assert (rr = shown_rr (rs_TTL x) rr0) as -> by congruence. revert H0. unfold shown_rr, rr_Ttl at 1. cbn [set_ttl rr_Hdr h_Ttl].
    rewrite (bool_decide_false (rs_TTL x = 0%Z)) by done. case_bool_decide; done.
  - intros Hkept. apply set_eq. intros [k [t w]]. rewrite elem_of_shown, elem_of_zone_set.
    assert (∀ n x w rr, st_nodes s !! k = Some n → x ∈ n_Sets n → w ∈ rs_Rdata x → stored_as k (rs_Type x) w rr →
      unpackOne (n_Name n) (rs_Type x) (rs_TTL x) w = Ok rr ∧ rr_key rr = Some (k, (rs_Type x, w))) as Hone.
    { intros n x w0 rr Hk Hx Hw Hr. rewrite (Hnm _ _ Hk), (unpackOne_stored _ _ _ _ _ Hr). split.
      - f_equal. apply shown_rr_id. destruct Hr as (Hu & _). eauto.
      - destruct Hr as (_ & Hp & Hn & Ht & _). unfold rr_key. by rewrite Hp, Hn, Ht. }
    split.
    + intros (k' & n & x & w' & rr & Hk' & Hx & Hw' & Hu & Hkey). destruct (Hd _ _ _ Hk' Hx) as [Httl Hst].
      destruct (Hst w' Hw') as [rr0 Hr0]. pose proof Hu as Hu0.
      rewrite (Hnm _ _ Hk'), (unpackOne_stored _ _ _ _ _ Hr0) in Hu0. injection Hu0 as <-.
      destruct (shown_carried _ _ _ _ _ Hr0 Httl) as (_ & _ & w1 & Hk1). rewrite Hk1 in Hkey. injection Hkey as -> <- ->.
      destruct (Hone n x w' rr0 Hk' Hx Hw' Hr0) as [Hu1 Hk2]. rewrite Hu1 in Hu. injection Hu as Hs. rewrite <-Hs, Hk2 in Hk1.
      injection Hk1 as ->. exists n. split; [done|]. apply elem_of_sets_recs. eauto.
    + intros (n & Hk & (x & Hx & <- & Hw)%elem_of_sets_recs). destruct (Hd _ _ _ Hk Hx) as [_ Hst]. destruct (Hst w Hw) as [rr Hr].
      exists k, n, x, w, rr. destruct (Hone n x w rr Hk Hx Hw Hr). done.
Qed.

Lemma write_rrs_ok rrs :
  (∀ rr, rr ∈ rrs → rr_carried rr ∧ class_ok rr = true ∧ is_Some (rr_key rr)) → ∃ b, write_rrs rrs = Ok b.
Proof.
  induction rrs as [|rr rrs IH]; intros Hok; [by exists ""|]. cbn [write_rrs].
  destruct (Hok rr) as [(_ & _ & _ & Hl) [_ [k Hk]]]; [set_solver|].
  unfold rr_key in Hk. destruct (PackRR rr) as [w|] eqn:Hp; [|done].
  rewrite (Pack_bigger _ _ _ _ (PackRR_Ok _ _ Hp) Hl). cbn [mbind result_bind].
  destruct IH as [b ->]; [intros; apply Hok; set_solver|]. cbn [mbind result_bind]. eauto.
Qed.

Context `{NL : !DnsNameLaws}.

(** What writing a snapshot at time [now] asks of a store: well formed,
    decodable, and within the widths of the format. *)
Record storable (s : Store) (now : Time) : Prop := {
  sb_wf : store_wf s;
  sb_decodable : decodable s;
  sb_origin : (Z.of_nat (String.length (st_origin s)) < 2 ^ 16)%Z;
  sb_serial : in_u32 (st_serial s);
  sb_time : (- 2 ^ 63 ≤ Unix now < 2 ^ 63)%Z;
  sb_count : (st_rrs s < 2 ^ 32)%Z
}.

(** Writing and reading a snapshot. *)
Lemma snapshot_back s now :
  storable s now →
  ∃ b s', WriteSnapshot s now = Ok b ∧ ReadSnapshot b = Ok (s', timeUnix (Unix now)) ∧
    store_wf s' ∧ st_origin s' = st_origin s ∧ zone_set s' = shown s.
Proof.
  intros [Hwf Hf Ho Hs Ht Hn].
  destruct (AllRRs_decodable s Hwf Hf) as (rrs & Hall & Hlen & Hok).
  destruct (write_rrs_ok rrs Hok) as [body Hbody].
  assert (∃ b, WriteSnapshot s now = Ok b) as [b Hw].
  { unfold WriteSnapshot. rewrite Hall. cbn [mbind result_bind]. rewrite Hbody. by eexists. }
  assert (Forall wire_exact rrs) as Hex by (apply Forall_forall; intros rr Hrr; by apply Hok).
  pose proof (ReadSnapshot_WriteSnapshot s now b rrs Hex (sw_origin _ Hwf) Hall Hw Ho Hs Ht) as Hread.
  specialize (Hread ltac:(lia)).
  assert (store_wf (with_serial (NewStore (st_origin s)) (st_serial s))) as Hwf0.
  { by apply (store_wf_frame (NewStore (st_origin s))), NewStore_wf. }
  pose proof (add_all_spec rrs _ Hwf0) as Hadd.
  destruct (add_all _ rrs) as [s'|err].
  - destruct Hadd as (Hwf' & Ho' & Hz'). exists b, s'. split_and!; try done.
    + rewrite Ho'. simpl. apply Hwf.
    + rewrite Hz', forallb_filter_id by (apply forallb_elem_of; intros; by apply Hok).
      rewrite (AllRRs_shown s rrs Hall). change (zone_set (with_serial ?x _)) with (zone_set x).
      by rewrite zone_set_NewStore, (right_id_L ∅ (∪)).
  - destruct Hadd as (rr & Hrr & Hp). destruct (Hok rr Hrr) as (_ & _ & [x Hx]).
    unfold rr_key in Hx. by rewrite Hp in Hx.
Qed.

(** C15: what a snapshot keeps. A well-formed store whose records decode to
    what was packed (every store built by adding records in the decoder's
    form) can be written, and reading the snapshot back succeeds with the
    time it was written (in seconds) and gives a well-formed store of the
    same origin that holds exactly the records the store shows, each with
    the TTL it is unpacked with. They are the records of the store exactly
    when no record of TTL 0 is in an RRset with another TTL. *)
Theorem snapshot_roundtrip s now :
  storable s now →
  ∃ b s', WriteSnapshot s now = Ok b ∧ ReadSnapshot b = Ok (s', timeUnix (Unix now)) ∧
    store_wf s' ∧ st_origin s' = st_origin s ∧ zone_set s' = shown s ∧ (zone_set s' = zone_set s ↔ ttl_kept s).
Proof.
  intros Hs. destruct (snapshot_back s now Hs) as (b & s' & Hw & Hr & Hwf & Ho & Hz). exists b, s'.
  split_and!; try done. rewrite Hz. apply shown_kept; apply Hs.
Qed.
End roundtrip.

(** ** Witness *)

Definition carriedb (rr : RR) : bool :=
  negb (bool_decide (rr_Name rr = "")) && bool_decide (in_u32 (rr_Ttl rr)) && (dns_Len rr + 64 <=? MaxMsgSize)%Z.

Lemma toy_carried rrs : forallb carriedb rrs = true → Forall rr_carried rrs.
Proof.
  intros H. rewrite forallb_elem_of in H. apply Forall_forall. intros rr Hrr. specialize (H rr Hrr).
  apply andb_true_iff in H as [[Hn%negb_true_iff%bool_decide_eq_false Ht%bool_decide_eq_true]%andb_true_iff Hl%Z.leb_le].
  repeat split; [exact Hn|apply Ht|apply Ht|exact Hl].
Qed.

Lemma toy_storable rrs now :
  is_ok (FromAXFR "z." rrs) && forallb carriedb rrs && bool_decide (in_u32 (st_serial (built "z." rrs)))
    && bool_decide (st_origin (built "z." rrs) = "z.") && (st_rrs (built "z." rrs) <? 2 ^ 32)%Z = true →
  (- 2 ^ 63 ≤ now < 2 ^ 63)%Z → storable (built "z." rrs) (timeUnix now).
Proof.
  rewrite !andb_true_iff, !bool_decide_eq_true. intros ((((Hb%built_Ok & Hc) & Hs) & Ho) & Hn%Z.ltb_lt) Ht.
  split; [apply built_wf|by eapply FromAXFR_decodable, toy_carried|by rewrite Ho|done|by rewrite Unix_timeUnix|done].
Qed.

Lemma toy_zone_storable : storable (built "z." toy_zone) (timeUnix 1700000000).
Proof. apply toy_storable; [vm_compute; reflexivity|lia]. Qed.

(** The signatures of a zone with NSEC3: the one over the NSEC3PARAM record
    has TTL 0, as the record it covers. *)
Definition toy_ttl_zone : list RR :=
  toy_zone ++ [set_ttl 0 (toy_RRSIG "z." TypeNSEC3PARAM 4000 4 "z." "ksk1")].

Lemma toy_ttl_differs : shown (built "z." toy_ttl_zone) ≠ zone_set (built "z." toy_ttl_zone).
Proof.
  apply (bool_decide_eq_false_1 (shown (built "z." toy_ttl_zone) = zone_set (built "z." toy_ttl_zone))). vm_compute. reflexivity.
Qed.

Lemma snapshot_roundtrip_witness :
  let s := built "z." toy_ttl_zone in
  st_rrs s = 6%Z ∧ shown s ≠ zone_set s ∧
  ∃ b s', WriteSnapshot s (timeUnix 1700000000) = Ok b ∧
    ReadSnapshot b = Ok (s', timeUnix (Unix (timeUnix 1700000000))) ∧
    store_wf s' ∧ st_origin s' = st_origin s ∧ zone_set s' = shown s ∧ (zone_set s' = zone_set s ↔ ttl_kept s).
Proof.
  split; [vm_compute; reflexivity|]. split; [exact toy_ttl_differs|].
  apply (snapshot_roundtrip (built "z." toy_ttl_zone) (timeUnix 1700000000)).
  apply toy_storable; [vm_compute; reflexivity|lia].
Defined.
