(* ===== verification/Config.v ===== *)
(** * Configuration (internal/config)

    The YAML configuration after decoding: its records, the defaults, the
    normalisation and validation of [Load], and the lookups the other
    components use. Main results: a configuration that validates has no
    dangling reference to a server or (outside catalogs) a TSIG key, and
    normalising is idempotent. Decoding YAML itself is a library's work. *)

From Stdlib Require Import SpecFloat.
From S2P Require Import Prelude GoStrings DnsLib DnsName Base32 Toy.

(** ** Data *)

Record TSIGKey := mkTSIGKey { tk_Name : string; tk_Secret : string; tk_Algorithm : string }.
Record Server := mkServer { sv_Name : string; sv_Address : string; sv_Port : Z; sv_TSIGKey : string }.
Record Zone := mkZone { zn_Name : string; zn_Servers : list string; zn_TSIGKey : string }.
Record Catalog := mkCatalog {
  ct_Name : string; ct_Servers : list string; ct_TSIGKey : string;
  ct_MemberServers : list string; ct_MemberTSIGKey : string; ct_Verify : bool
}.

(** Floating point fields keep the IEEE 754 value. *)
Definition float64 : Type := spec_float.

Record RefreshConfig := mkRefresh {
  rf_MinInterval : Duration; rf_MaxInterval : Duration;
  rf_RetryMin : Duration; rf_RetryMax : Duration;
  rf_Jitter : float64; rf_PreferIXFR : bool; rf_ConcurrentTransfers : Z;
  rf_ProbeAllServers : bool; rf_SerialSkewWarning : Z; rf_SerialSkewGrace : Duration;
  rf_AXFRTimeout : Duration; rf_SOATimeout : Duration
}.

Record NotifyConfig := mkNotify {
  nt_Enabled : bool; nt_BindAddress : string; nt_UDPPort : Z; nt_TCPPort : Z;
  nt_RequireTSIG : bool; nt_TSIGKey : string; nt_AllowedSources : list string
}.

Record HygieneConfig := mkHygiene {
  hy_Enabled : bool; hy_NSEC3MaxIterations : Z; hy_WarnNSEC3Salt : bool;
  hy_DeprecatedAlgorithms : list string; hy_WarnRRSIGTTLMismatch : bool
}.

Record VerificationConfig := mkVerification {
  vf_Workers : Z; vf_ClockSkew : Duration; vf_ExpiryWarning : Duration;
  vf_ExpiryCheckInterval : Duration; vf_FullReverifyInterval : Duration;
  vf_FullReverifyWhenInvalid : bool; vf_ZONEMD : string; vf_ZONEMDMaxAge : Duration;
  vf_Hygiene : HygieneConfig
}.

Record ChainConfig := mkChain {
  ch_Enabled : bool; ch_Mode : string; ch_Resolvers : list string;
  ch_Interval : Duration; ch_RequireMatch : bool
}.

Record WebhookTarget := mkTarget {
  wt_URL : string; wt_Events : list string; wt_Zones : list string; wt_Headers : gmap string string
}.
Record WebhookConfig := mkWebhooks {
  wh_Enabled : bool; wh_Timeout : Duration; wh_MaxRetries : Z; wh_RetryBackoff : Duration;
  wh_QueueSize : Z; wh_Targets : list WebhookTarget
}.

Record SnapshotConfig := mkSnapshotConfig { sn_Enabled : bool; sn_Dir : string; sn_MinInterval : Duration }.
Record StateConfig := mkStateConfig { sc_File : string; sc_SaveInterval : Duration; sc_ZoneSnapshots : SnapshotConfig }.
Record LoggingConfig := mkLogging { lg_Format : string; lg_Level : string; lg_SampleRate : float64; lg_SlowThresholdMS : Z }.
Record ThemeConfig := mkTheme {
  th_AppName : string; th_DefaultMode : string; th_AllowModeToggle : bool; th_Logo : string;
  th_Dark : gmap string string; th_Light : gmap string string
}.

Record Config := mkConfig {
  c_TSIGKeys : list TSIGKey;
  c_Servers : list Server;
  c_Zones : list Zone;
  c_Catalogs : list Catalog;
  c_Refresh : RefreshConfig;
  c_Notify : NotifyConfig;
  c_Verification : VerificationConfig;
  c_ChainOfTrust : ChainConfig;
  c_Webhooks : WebhookConfig;
  c_State : StateConfig;
  c_APIListen : string;
  c_Logging : LoggingConfig;
  c_Theme : ThemeConfig
}.

(** ** Defaults *)

Definition float_0 : float64 := S754_zero false.
Definition float_1 : float64 := S754_finite false 4503599627370496 (-52).
(** 0.1, rounded to nearest. *)
Definition float_tenth : float64 := S754_finite false 7205759403792794 (-56).

Definition Defaults : Config := {|
  c_TSIGKeys := []; c_Servers := []; c_Zones := []; c_Catalogs := [];
  c_Refresh := {|
    rf_MinInterval := 60 * Second; rf_MaxInterval := 24 * Hour;
    rf_RetryMin := 60 * Second; rf_RetryMax := Hour;
    rf_Jitter := float_tenth; rf_PreferIXFR := true; rf_ConcurrentTransfers := 4;
    rf_ProbeAllServers := true; rf_SerialSkewWarning := 2; rf_SerialSkewGrace := 10 * Minute;
    rf_AXFRTimeout := 10 * Minute; rf_SOATimeout := 5 * Second |};
  c_Notify := {|
    nt_Enabled := true; nt_BindAddress := "0.0.0.0"; nt_UDPPort := 5354; nt_TCPPort := 5354;
    nt_RequireTSIG := false; nt_TSIGKey := ""; nt_AllowedSources := [] |};
  c_Verification := {|
    vf_Workers := 0; vf_ClockSkew := Hour; vf_ExpiryWarning := 72 * Hour;
    vf_ExpiryCheckInterval := 5 * Minute; vf_FullReverifyInterval := 0;
    vf_FullReverifyWhenInvalid := true; vf_ZONEMD := "auto"; vf_ZONEMDMaxAge := 0;
    vf_Hygiene := {|
      hy_Enabled := true; hy_NSEC3MaxIterations := 0; hy_WarnNSEC3Salt := true;
      hy_DeprecatedAlgorithms :=
        ["RSAMD5"; "DSA"; "RSASHA1"; "DSA-NSEC3-SHA1"; "RSASHA1-NSEC3-SHA1"; "ECC-GOST"];
      hy_WarnRRSIGTTLMismatch := true |} |};
  c_ChainOfTrust := {|
    ch_Enabled := false; ch_Mode := "resolver"; ch_Resolvers := ["127.0.0.1:53"];
    ch_Interval := Hour; ch_RequireMatch := true |};
  c_Webhooks := {|
    wh_Enabled := false; wh_Timeout := 10 * Second; wh_MaxRetries := 3; wh_RetryBackoff := 2 * Second;
    wh_QueueSize := 1000; wh_Targets := [] |};
  c_State := {|
    sc_File := ""; sc_SaveInterval := Minute;
    sc_ZoneSnapshots := {| sn_Enabled := false; sn_Dir := "/var/lib/dnssec-auditor/zones"; sn_MinInterval := Hour |} |};
  c_APIListen := ":8080";
  c_Logging := {| lg_Format := "json"; lg_Level := "info"; lg_SampleRate := float_tenth; lg_SlowThresholdMS := 500 |};
  c_Theme := {|
    th_AppName := "DNSSEC Auditor"; th_DefaultMode := "dark"; th_AllowModeToggle := true; th_Logo := "";
    th_Dark := ∅; th_Light := ∅ |}
|}.

(** ** Durations *)

(** [Duration.UnmarshalYAML], by the dynamic type of the YAML value;
    [parse] is [time.ParseDuration]. Integers and floats are seconds. *)
Inductive yaml_scalar := YString (s : string) | YInt (n : Z) | YFloat (truncated : Z) | YOther (ty : string).

Definition UnmarshalDuration (parse : string → result Duration) (raw : yaml_scalar) : result Duration :=
  match raw with
  | YString v => wrap_err (λ err, "invalid duration " +:+ fmt_q v +:+ ": " +:+ err) (parse v)
  | YInt v | YFloat v => Ok (wrapN 64 (v * Second + 2 ^ 63) - 2 ^ 63)%Z
  | YOther ty => Err ("invalid duration type " +:+ ty)
  end.

Section config.
Context `{DL : !DnsLib}.

(** ** Normalisation *)

Definition norm_key (k : TSIGKey) : TSIGKey := {|
  tk_Name := ToLower (Canonical (tk_Name k));
  tk_Secret := tk_Secret k;
  tk_Algorithm := if bool_decide (tk_Algorithm k = "") then "hmac-sha256" else tk_Algorithm k
|}.
Definition norm_server (s : Server) : Server :=
  mkServer (sv_Name s) (sv_Address s) (if bool_decide (sv_Port s = 0%Z) then 53 else sv_Port s) (sv_TSIGKey s).
Definition norm_zone (z : Zone) : Zone := mkZone (Canonical (zn_Name z)) (zn_Servers z) (zn_TSIGKey z).
Definition norm_catalog (c : Catalog) : Catalog :=
  mkCatalog (Canonical (ct_Name c)) (ct_Servers c) (ct_TSIGKey c) (ct_MemberServers c) (ct_MemberTSIGKey c) (ct_Verify c).
Definition norm_verification (v : VerificationConfig) : VerificationConfig :=
  mkVerification (vf_Workers v) (vf_ClockSkew v) (vf_ExpiryWarning v) (vf_ExpiryCheckInterval v)
    (vf_FullReverifyInterval v) (vf_FullReverifyWhenInvalid v)
    (if bool_decide (vf_ZONEMD v = "") then "auto" else vf_ZONEMD v) (vf_ZONEMDMaxAge v) (vf_Hygiene v).
Definition norm_refresh (r : RefreshConfig) : RefreshConfig :=
  mkRefresh (rf_MinInterval r) (rf_MaxInterval r) (rf_RetryMin r) (rf_RetryMax r) (rf_Jitter r) (rf_PreferIXFR r)
    (if bool_decide (rf_ConcurrentTransfers r ≤ 0)%Z then 4 else rf_ConcurrentTransfers r)
    (rf_ProbeAllServers r) (rf_SerialSkewWarning r) (rf_SerialSkewGrace r) (rf_AXFRTimeout r) (rf_SOATimeout r).

Definition normalized (c : Config) : Config :=
  mkConfig (norm_key <$> c_TSIGKeys c) (norm_server <$> c_Servers c) (norm_zone <$> c_Zones c)
    (norm_catalog <$> c_Catalogs c) (norm_refresh (c_Refresh c)) (c_Notify c)
    (norm_verification (c_Verification c)) (c_ChainOfTrust c) (c_Webhooks c) (c_State c)
    (c_APIListen c) (c_Logging c) (c_Theme c).

Definition hasTSIG (keys : gmap string TSIGKey) (name : string) : bool :=
  bool_decide (is_Some (keys !! name)) || bool_decide (is_Some (keys !! Canonical name)).

(** One check of [validate]: an error stops the validation. *)
Definition guard_err (ok : bool) (msg : string) : result unit := if ok then Ok tt else Err msg.

Definition validate_keys (ks : list TSIGKey) : result (gmap string TSIGKey) :=
  foldM_result (λ m k,
    _ ← guard_err (negb (bool_decide (tk_Name k = "") || bool_decide (tk_Secret k = "")))
          "tsig_keys entries need name and secret";
    Ok (<[tk_Name k := k]> m)) ∅ ks.

Definition validate_servers (keys : gmap string TSIGKey) (ss : list Server) : result (gmap string Server) :=
  foldM_result (λ m s,
    _ ← guard_err (negb (bool_decide (sv_Name s = "") || bool_decide (sv_Address s = "")))
          "servers entries need name and address";
    _ ← guard_err (bool_decide (sv_TSIGKey s = "") || hasTSIG keys (sv_TSIGKey s))
          ("server " +:+ fmt_q (sv_Name s) +:+ " references unknown tsig_key " +:+ fmt_q (sv_TSIGKey s));
    Ok (<[sv_Name s := s]> m)) ∅ ss.

(** Every name of a list is a known server. *)
Definition check_servers (servers : gmap string Server) (msg : string → string) (names : list string) : result unit :=
  foldM_result (λ _ name, guard_err (bool_decide (is_Some (servers !! name))) (msg name)) tt names.

Definition validate_zone (keys : gmap string TSIGKey) (servers : gmap string Server) (z : Zone) : result unit :=
  _ ← guard_err (negb (bool_decide (zn_Name z = ""))) "zones entries need a name";
  _ ← guard_err (negb (bool_decide (zn_Servers z = []))) ("zone " +:+ fmt_q (zn_Name z) +:+ " has no servers");
  _ ← check_servers servers (λ name, "zone " +:+ fmt_q (zn_Name z) +:+ " references unknown server " +:+ fmt_q name) (zn_Servers z);
  guard_err (bool_decide (zn_TSIGKey z = "") || hasTSIG keys (zn_TSIGKey z))
    ("zone " +:+ fmt_q (zn_Name z) +:+ " references unknown tsig_key " +:+ fmt_q (zn_TSIGKey z)).

Definition validate_catalog (servers : gmap string Server) (c : Catalog) : result unit :=
  _ ← guard_err (negb (bool_decide (ct_Name c = ""))) "catalogs entries need a name";
  _ ← check_servers servers (λ name, "catalog " +:+ fmt_q (ct_Name c) +:+ " references unknown server " +:+ fmt_q name) (ct_Servers c);
  check_servers servers (λ name, "catalog " +:+ fmt_q (ct_Name c) +:+ " references unknown member_server " +:+ fmt_q name) (ct_MemberServers c).

Definition validate (c : Config) : result unit :=
  keys ← validate_keys (c_TSIGKeys c);
  servers ← validate_servers keys (c_Servers c);
  _ ← foldM_result (λ _ z, validate_zone keys servers z) tt (c_Zones c);
  _ ← foldM_result (λ _ cat, validate_catalog servers cat) tt (c_Catalogs c);
  guard_err (bool_decide (nt_TSIGKey (c_Notify c) = "") || hasTSIG keys (nt_TSIGKey (c_Notify c)))
    ("notify.tsig_key references unknown key " +:+ fmt_q (nt_TSIGKey (c_Notify c))).

Definition one_of (s : string) (l : list string) : bool := existsb (λ x, bool_decide (x = s)) l.

(** [Normalize]: the configuration as the method leaves it. *)
Definition Normalize (c : Config) : result Config :=
  let c := normalized c in
  _ ← guard_err (negb (SFltb (rf_Jitter (c_Refresh c)) float_0 || SFltb float_1 (rf_Jitter (c_Refresh c))))
        "refresh.jitter must be between 0 and 1";
  _ ← guard_err (one_of (ToLower (vf_ZONEMD (c_Verification c))) ["auto"; "on"; "off"])
        "verification.zonemd must be auto, on, or off";
  _ ← guard_err (one_of (ToLower (ch_Mode (c_ChainOfTrust c))) ["resolver"; "authoritative"; ""])
        "chain_of_trust.mode must be resolver or authoritative";
  _ ← validate c;
  Ok c.

(** [Load]: [file] is the content of the file, if a path is given and it can
    be read, [decode] is [yaml.Unmarshal] over the defaults. *)
Definition Load (path : string) (file : result bytes) (decode : bytes → Config → result Config) : result Config :=
  if bool_decide (path = "") then Normalize Defaults
  else
    data ← wrap_err (λ err, "read config: " +:+ err) file;
    cfg ← wrap_err (λ err, "parse config: " +:+ err) (decode data Defaults);
    Normalize cfg.

(** ** Lookups *)

Definition ServerByName (c : Config) (name : string) : option Server :=
  List.find (λ s, bool_decide (sv_Name s = name)) (c_Servers c).

Definition TSIGByName (c : Config) (name : string) : option TSIGKey :=
  let canon := Canonical name in
  List.find (λ k, bool_decide (tk_Name k = name) || bool_decide (tk_Name k = canon)
                  || bool_decide (Canonical (tk_Name k) = canon)) (c_TSIGKeys c).

Definition ResolveServers (c : Config) (names : list string) : list Server :=
  omap (ServerByName c) names.
End config.

(** ** Validated configurations *)

Section facts.
Context `{DL : !DnsLib}.

Lemma guard_err_Ok b msg u : guard_err b msg = Ok u → b = true.
Proof. unfold guard_err. by destruct b. Qed.

(** A loop that checks each element and files it under its name. *)
Lemma foldM_insert {A} (name : A → string) (f : gmap string A → A → result (gmap string A)) (P : A → Prop) l m m' :
  (∀ m x m', f m x = Ok m' → P x ∧ m' = <[name x := x]> m) →
  foldM_result f m l = Ok m' →
  (∀ x, x ∈ l → P x) ∧
  (∀ k, is_Some (m' !! k) ↔ is_Some (m !! k) ∨ ∃ x, x ∈ l ∧ name x = k).
Proof.
  intros Hf. revert m. induction l as [|x l IH]; intros m Hm; simpl in Hm.
  { injection Hm as <-. split; [by intros ? ?%elem_of_nil|]. intros k.
    split; [by left|]. by intros [?|(? & ?%elem_of_nil & _)]. }
  destruct (f m x) as [m1|] eqn:Hx; [|done]. simpl in Hm. apply Hf in Hx as [HP ->].
  destruct (IH _ Hm) as [H1 H2]. split.
  - intros y [->|Hy]%elem_of_cons; auto.
  - intros k. rewrite H2, lookup_insert_is_Some'. setoid_rewrite elem_of_cons. naive_solver.
Qed.

Lemma foldM_unit {A} (check : A → result unit) l :
  foldM_result (λ _ x, check x) tt l = Ok tt ↔ ∀ x, x ∈ l → check x = Ok tt.
Proof.
  induction l as [|x l IH]; simpl; [split; [by intros _ ? ?%elem_of_nil|done]|].
  split.
  - destruct (check x) as [[]|] eqn:Hx; [|done]. simpl. intros Hl y [->|Hy]%elem_of_cons; [done|].
    by apply IH.
  - intros H. rewrite H by set_solver. simpl. apply IH. intros y Hy. apply H. set_solver.
Qed.

Lemma validate_keys_spec ks m :
  validate_keys ks = Ok m → ∀ k, is_Some (m !! k) ↔ ∃ x, x ∈ ks ∧ tk_Name x = k.
Proof.
  intros Hv k. destruct (λ Hf, foldM_insert tk_Name _ (λ _, True) ks ∅ m Hf Hv) as [_ H].
  - intros m1 x m2. destruct (guard_err _ _); [|done]. by intros [= <-].
  - rewrite H, lookup_empty. split; [intros [[? ?]|?]; [done|done]|auto].
Qed.

Definition key_known (keys : gmap string TSIGKey) (name : string) : Prop := name = "" ∨ hasTSIG keys name = true.

Lemma guard_known keys name msg u :
  guard_err (bool_decide (name = "") || hasTSIG keys name) msg = Ok u → key_known keys name.
Proof.
  intros [H%bool_decide_eq_true|H]%guard_err_Ok%orb_true_iff; [by left|by right].
Qed.

Lemma validate_servers_spec keys ss m :
  validate_servers keys ss = Ok m →
  (∀ s, s ∈ ss → key_known keys (sv_TSIGKey s)) ∧
  (∀ k, is_Some (m !! k) ↔ ∃ s, s ∈ ss ∧ sv_Name s = k).
Proof.
  intros Hv.
  destruct (λ Hf, foldM_insert sv_Name _ (λ s, key_known keys (sv_TSIGKey s)) ss ∅ m Hf Hv) as [H1 H2].
  - intros m1 s m2. destruct (guard_err (negb _) _); [|done]. simpl.
    destruct (guard_err (_ || _) _) as [u|] eqn:E; [|done]. intros [= <-].
    split; [by eapply guard_known|done].
  - split; [done|]. intros k. rewrite H2, lookup_empty. split; [intros [[? ?]|?]; done|auto].
Qed.

Lemma check_servers_spec servers msg names u :
  check_servers servers msg names = Ok u → ∀ n, n ∈ names → is_Some (servers !! n).
Proof.
  destruct u. unfold check_servers. rewrite (foldM_unit (λ n, guard_err (bool_decide (is_Some (servers !! n))) (msg n))).
  intros H n Hn. by eapply bool_decide_eq_true, guard_err_Ok, H.
Qed.

Lemma validate_zone_spec keys servers z :
  validate_zone keys servers z = Ok tt →
  zn_Servers z ≠ [] ∧ (∀ n, n ∈ zn_Servers z → is_Some (servers !! n)) ∧ key_known keys (zn_TSIGKey z).
Proof.
  unfold validate_zone. destruct (guard_err (negb (bool_decide (zn_Name z = ""))) _); [|done]. simpl.
  destruct (guard_err (negb (bool_decide (zn_Servers z = []))) _) eqn:E1; [|done]. simpl.
  destruct (check_servers _ _ _) eqn:E2; [|done]. simpl. intros E3.
  apply guard_err_Ok, negb_true_iff, bool_decide_eq_false in E1. split_and!; [done| |by eapply guard_known].
  by eapply check_servers_spec.
Qed.

Lemma validate_catalog_spec servers c :
  validate_catalog servers c = Ok tt →
  ∀ n, n ∈ ct_Servers c ++ ct_MemberServers c → is_Some (servers !! n).
Proof.
  unfold validate_catalog. destruct (guard_err _ "catalogs entries need a name"); [|done]. simpl.
  destruct (check_servers _ _ (ct_Servers c)) eqn:E1; [|done]. simpl. intros E2 n [Hn|Hn]%elem_of_app.
  - by eapply check_servers_spec in E1.
  - by eapply check_servers_spec in E2.
Qed.

(** A name the validation knows is found by the lookups. *)
Lemma ServerByName_is_Some c n : (∃ s, s ∈ c_Servers c ∧ sv_Name s = n) → ∃ s, ServerByName c n = Some s ∧ sv_Name s = n.
Proof.
  intros (s & Hs & Hn). unfold ServerByName. destruct (List.find _ _) as [s'|] eqn:E.
  - exists s'. split; [done|]. by apply find_Some_elem in E as [_ ?%bool_decide_eq_true].
  - pose proof (proj1 (find_None_elem _ _) E s Hs) as Hx. by apply bool_decide_eq_false in Hx.
Qed.

Lemma ResolveServers_all c names :
  (∀ n, n ∈ names → ∃ s, s ∈ c_Servers c ∧ sv_Name s = n) → sv_Name <$> ResolveServers c names = names.
Proof.
  induction names as [|n names IH]; intros H; [done|]. unfold ResolveServers in *. cbn [omap list_omap].
  destruct (ServerByName_is_Some c n) as (s & -> & Hs); [apply H; set_solver|].
  rewrite fmap_cons, Hs, IH; [done|]. intros; apply H; set_solver.
Qed.

Lemma TSIGByName_known c keys n :
  (∀ k, is_Some (keys !! k) ↔ ∃ x, x ∈ c_TSIGKeys c ∧ tk_Name x = k) →
  hasTSIG keys n = true → is_Some (TSIGByName c n).
Proof.
  intros Hk Hh. apply not_eq_None_Some. intros Hf. unfold TSIGByName in Hf.
  rewrite find_None_elem in Hf. apply orb_true_iff in Hh as [Hh|Hh]; apply bool_decide_eq_true, Hk in Hh as (x & Hx & Hn).
  - specialize (Hf x Hx). by rewrite (bool_decide_true (tk_Name x = n)) in Hf.
  - specialize (Hf x Hx). rewrite (bool_decide_true (tk_Name x = Canonical n)) in Hf by done. by rewrite orb_true_r in Hf.
Qed.

(** A reference to a TSIG key that resolves. *)
Definition tsig_resolves (c : Config) (name : string) : Prop := name ≠ "" → is_Some (TSIGByName c name).

Lemma Normalize_inv c c' : Normalize c = Ok c' → c' = normalized c ∧ validate c' = Ok tt.
Proof.
  unfold Normalize. cbv zeta.
  destruct (guard_err _ "refresh.jitter must be between 0 and 1"); [|done]. simpl.
  destruct (guard_err _ "verification.zonemd must be auto, on, or off"); [|done]. simpl.
  destruct (guard_err _ "chain_of_trust.mode must be resolver or authoritative"); [|done]. simpl.
  destruct (validate (normalized c)) as [[]|] eqn:E; [|done]. simpl. by intros [= <-].
Qed.

(** C26: a configuration that loads has no dangling references: every server
    name of a zone or a catalog resolves to the server of that name, every
    zone has a server, and every TSIG key named by a zone, a server or the
    notify listener is found by [TSIGByName]. (Keys named by catalogs are
    not checked by the program, and not claimed.) *)
Theorem Normalize_resolves c c' :
  Normalize c = Ok c' →
  (∀ z, z ∈ c_Zones c' → zn_Servers z ≠ [] ∧
     sv_Name <$> ResolveServers c' (zn_Servers z) = zn_Servers z ∧ tsig_resolves c' (zn_TSIGKey z)) ∧
  (∀ ca, ca ∈ c_Catalogs c' → sv_Name <$> ResolveServers c' (ct_Servers ca) = ct_Servers ca ∧
     sv_Name <$> ResolveServers c' (ct_MemberServers ca) = ct_MemberServers ca) ∧
  (∀ s, s ∈ c_Servers c' → tsig_resolves c' (sv_TSIGKey s)) ∧
  tsig_resolves c' (nt_TSIGKey (c_Notify c')).
Proof.
  intros [_ Hv]%Normalize_inv. unfold validate in Hv.
  destruct (validate_keys _) as [keys|] eqn:Ek; [|done]. simpl in Hv.
  destruct (validate_servers _ _) as [servers|] eqn:Es; [|done]. simpl in Hv.
  destruct (foldM_result _ tt (c_Zones c')) as [[]|] eqn:Ez; [|done]. simpl in Hv.
  destruct (foldM_result _ tt (c_Catalogs c')) as [[]|] eqn:Ec; [|done]. simpl in Hv.
  pose proof (validate_keys_spec _ _ Ek) as Hk. destruct (validate_servers_spec _ _ _ Es) as [Hst Hs].
  rewrite (foldM_unit (validate_zone keys servers)) in Ez.
  rewrite (foldM_unit (validate_catalog servers)) in Ec.
  assert (∀ n, key_known keys n → tsig_resolves c' n) as Hres.
  { intros n [->|Hh] Hn; [done|]. by eapply TSIGByName_known. }
  split_and!.
  - intros z Hz. destruct (validate_zone_spec _ _ _ (Ez z Hz)) as (H1 & H2 & H3).
    split_and!; [done| |by apply Hres]. apply ResolveServers_all. intros n Hn. by apply Hs, H2.
  - intros ca Hca. pose proof (validate_catalog_spec _ _ (Ec ca Hca)) as H.
    split; apply ResolveServers_all; intros n Hn; apply Hs, H; set_solver.
  - intros s Hin. by apply Hres, Hst.
  - by eapply Hres, guard_known.
Qed.

Context `{NL : !DnsNameLaws}.

Lemma normalized_idemp c : normalized (normalized c) = normalized c.
Proof.
  destruct c as [ks ss zs cs rf nt vf ch wh st api lg th]. unfold normalized. simpl. f_equal.
  - rewrite <-list_fmap_compose. apply list_fmap_ext. intros _ [n s a] _. unfold norm_key. simpl.
    rewrite !Canonical_lower, Canonical_idemp. f_equal.
    destruct (bool_decide_reflect (a = "")); [done|]. by rewrite bool_decide_false.
  - rewrite <-list_fmap_compose. apply list_fmap_ext. intros _ [n a p k] _. unfold norm_server. simpl.
    f_equal. destruct (bool_decide_reflect (p = 0%Z)); [done|]. by rewrite bool_decide_false.
  - rewrite <-list_fmap_compose. apply list_fmap_ext. intros _ [n s k] _. unfold norm_zone. simpl.
    by rewrite Canonical_idemp.
  - rewrite <-list_fmap_compose. apply list_fmap_ext. intros _ [] _. unfold norm_catalog. simpl.
    by rewrite Canonical_idemp.
  - unfold norm_refresh. simpl. f_equal.
    destruct (bool_decide_reflect (rf_ConcurrentTransfers rf ≤ 0)%Z); [done|]. by rewrite bool_decide_false.
  - unfold norm_verification. simpl. f_equal.
    destruct (bool_decide_reflect (vf_ZONEMD vf = "")); [done|]. by rewrite bool_decide_false.
Qed.

(** normalising is idempotent: a configuration that [Normalize] has
    accepted is accepted again, unchanged, and all its zone and catalog
    names are canonical, so that lookups by canonical name find them. *)
Theorem Normalize_idempotent c c' :
  Normalize c = Ok c' →
  Normalize c' = Ok c' ∧
  (∀ z, z ∈ c_Zones c' → canonical (zn_Name z)) ∧
  (∀ ca, ca ∈ c_Catalogs c' → canonical (ct_Name ca)).
Proof.
  intros Hn. destruct (Normalize_inv _ _ Hn) as [-> _]. split_and!.
  - unfold Normalize in Hn |- *. cbv zeta in *. by rewrite normalized_idemp.
  - intros z Hz. simpl in Hz. apply list_elem_of_fmap in Hz as (z' & -> & _). apply canonical_Canonical.
  - intros z Hz. simpl in Hz. apply list_elem_of_fmap in Hz as (z' & -> & _). apply canonical_Canonical.
Qed.

(** The checks for an empty zone or catalog name never fire: [Normalize]
    runs first and turns the empty name into the root, so that an entry
    without a name is accepted as the root zone. *)
Theorem empty_zone_name_accepted c z :
  z ∈ c_Zones c → zn_Name z = "" → ∀ c', Normalize c = Ok c' →
  ∃ z', z' ∈ c_Zones c' ∧ zn_Name z' = "." ∧ zn_Servers z' = zn_Servers z.
Proof.
  intros Hz Hn c' [-> _]%Normalize_inv. exists (norm_zone z). split_and!; [|by simpl; rewrite Hn|done].
  simpl. by apply list_elem_of_fmap_2.
Qed.
End facts.

(** ** Witnesses *)

Definition toy_config : Config :=
  {| c_TSIGKeys := [mkTSIGKey "Key." "c2VjcmV0" ""];
     c_Servers := [mkServer "primary" "192.0.2.53" 0 "key"];
     c_Zones := [mkZone "Example." ["primary"] "KEY."; mkZone "" ["primary"] ""];
     c_Catalogs := [mkCatalog "cat" ["primary"] "" ["primary"] "nokey" true];
     c_Refresh := c_Refresh Defaults; c_Notify := c_Notify Defaults; c_Verification := c_Verification Defaults;
     c_ChainOfTrust := c_ChainOfTrust Defaults; c_Webhooks := c_Webhooks Defaults; c_State := c_State Defaults;
     c_APIListen := ":8080"; c_Logging := c_Logging Defaults; c_Theme := c_Theme Defaults |}.

Lemma toy_config_ok : Normalize toy_config = Ok (normalized toy_config).
Proof. vm_compute. reflexivity. Qed.

Lemma Normalize_resolves_witness :
  tsig_resolves (normalized toy_config) "key" ∧
  sv_Name <$> ResolveServers (normalized toy_config) ["primary"] = ["primary"].
Proof.
  destruct (Normalize_resolves toy_config _ toy_config_ok) as (Hz & _ & Hs & _). split.
  - apply (Hs (mkServer "primary" "192.0.2.53" 53 "key")). apply list_elem_of_here.
  - apply (Hz (mkZone "example." ["primary"] "KEY.")). apply list_elem_of_here.
Defined.

Lemma Normalize_idempotent_witness : Normalize (normalized toy_config) = Ok (normalized toy_config).
Proof. apply (Normalize_idempotent toy_config _ toy_config_ok). Defined.

Lemma empty_zone_name_accepted_witness :
  ∃ z', z' ∈ c_Zones (normalized toy_config) ∧ zn_Name z' = "." ∧ zn_Servers z' = ["primary"].
Proof.
  apply (empty_zone_name_accepted toy_config (mkZone "" ["primary"] "")); [|done|exact toy_config_ok].
  apply list_elem_of_further, list_elem_of_here.
Defined.
