(* ===== verification/Findings.v ===== *)
(** * Findings (internal/dnssec/findings.go)

    A verification pass produces findings, kept in a set keyed by code,
    owner and type. The clock readings a pass takes are arguments. Main
    results: the key identifies (code, owner, type); merging the findings of
    an incremental pass keeps those of the names it did not look at, replaces
    the others, and keeps the time a finding was first seen. *)

From S2P Require Import Prelude GoStrings Decimal DnsLib DnsName Toy.

Abbreviation Severity := string (only parsing).
Definition Error : Severity := "error".
Definition Warning : Severity := "warning".

Definition RRSIGMissing : string := "RRSIG_MISSING".
Definition RRSIGInvalid : string := "RRSIG_INVALID".
Definition RRSIGExpired : string := "RRSIG_EXPIRED".
Definition RRSIGNotYetValid : string := "RRSIG_NOT_YET_VALID".
Definition RRSIGUnknownKey : string := "RRSIG_UNKNOWN_KEY".
Definition RRSIGLabelsMismatch : string := "RRSIG_LABELS_MISMATCH".
Definition DNSKEYNotSignedByKSK : string := "DNSKEY_NOT_SIGNED_BY_KSK".
Definition NSECMissing : string := "NSEC_MISSING".
Definition NSEC3Missing : string := "NSEC3_MISSING".
Definition NSECBitmapMismatch : string := "NSEC_BITMAP_MISMATCH".
Definition NSEC3BitmapMismatch : string := "NSEC3_BITMAP_MISMATCH".
Definition NSECChainBroken : string := "NSEC_CHAIN_BROKEN".
Definition NSEC3ChainBroken : string := "NSEC3_CHAIN_BROKEN".
Definition NSEC3OptOutViolation : string := "NSEC3_OPTOUT_VIOLATION".
Definition NSEC3PARAMMismatch : string := "NSEC3PARAM_MISMATCH".
Definition KeytagCollisionLimit : string := "KEYTAG_COLLISION_LIMIT".
Definition ZONEMDMismatch : string := "ZONEMD_MISMATCH".
Definition ZONEMDMissing : string := "ZONEMD_MISSING".
Definition DSMismatch : string := "DS_MISMATCH".
Definition DSMissing : string := "DS_MISSING".
Definition SOASerialMismatch : string := "SOA_SERIAL_MISMATCH".
Definition IXFRApplyFailed : string := "IXFR_APPLY_FAILED".
Definition NSEC3IterationsNonzero : string := "NSEC3_ITERATIONS_NONZERO".
Definition NSEC3SaltPresent : string := "NSEC3_SALT_PRESENT".
Definition DeprecatedAlgorithm : string := "DEPRECATED_ALGORITHM".
Definition RRSIGTTLMismatch : string := "RRSIG_TTL_MISMATCH".
Definition RRSIGExpiringSoon : string := "RRSIG_EXPIRING_SOON".
Definition DNSKEYUnused : string := "DNSKEY_UNUSED".
Definition NSEC3OptOutZeroDeleg : string := "NSEC3_OPTOUT_ON_ZERO_DELEGATIONS".
Definition SerialSkew : string := "SERIAL_SKEW".
Definition ServerUnreachable : string := "SERVER_UNREACHABLE".
Definition InsecureDelegation : string := "INSECURE_DELEGATION".

Record Finding := mkFinding {
  f_Code : string; f_Severity : Severity; f_Owner : string; f_RRType : Z;
  f_RRTypeName : string; f_Message : string; f_FirstSeen : Time; f_LastSeen : Time
}.

#[export] Instance Finding_eq_dec : EqDecision Finding.
Proof. solve_decision. Defined.

Definition Key (f : Finding) : string := f_Code f +:+ "|" +:+ f_Owner f +:+ "|" +:+ fmt_d (f_RRType f).

Definition with_FirstSeen (f : Finding) (t : Time) : Finding :=
  mkFinding (f_Code f) (f_Severity f) (f_Owner f) (f_RRType f) (f_RRTypeName f) (f_Message f) t (f_LastSeen f).
Definition with_LastSeen (f : Finding) (t : Time) : Finding :=
  mkFinding (f_Code f) (f_Severity f) (f_Owner f) (f_RRType f) (f_RRTypeName f) (f_Message f) (f_FirstSeen f) t.

Section names.
Context `{DL : !DnsLib}.

Definition typeName (t : Z) : string :=
  match TypeToString t with Some s => s | None => "TYPE" +:+ fmt_d t end.

(** [NewFinding], [now] being the clock. *)
Definition NewFinding (now : Time) (code : string) (sev : Severity) (owner : string) (rrtype : Z) (msg : string) : Finding :=
  mkFinding code sev owner rrtype (typeName rrtype) msg now now.

Definition FormatFindingComment (f : Finding) : string :=
  let rr := if bool_decide (f_RRTypeName f = "") then typeName (f_RRType f) else f_RRTypeName f in
  "; " +:+ f_Code f +:+ " " +:+ f_Owner f +:+ " " +:+ rr +:+ " — " +:+ f_Message f.

(** The items of [ErrorCommentsByOwner]: owner, line, key. *)
Definition comment_item (f : Finding) : string * string * string :=
  (Canonical (f_Owner f), FormatFindingComment f, Key f).
Definition item_cmp (a b : string * string * string) : Z :=
  let '(oa, _, ka) := a in
  let '(ob, _, kb) := b in
  if negb (bool_decide (oa = ob)) then StrCompare oa ob else StrCompare ka kb.

Definition ErrorCommentsByOwner (findings : list Finding) : gmap string (list string) :=
  let items := SortFunc item_cmp
    (comment_item <$> List.filter (λ f, bool_decide (f_Severity f = Error)) findings) in
  foldl (λ out '(owner, line, _), <[owner := default [] (out !! owner) ++ [line]]> out) ∅ items.
End names.

(** ** Sets of findings *)

(** [Set]: the map [byKey]. *)
Abbreviation FSet := (gmap string Finding) (only parsing).
Definition NewSet : FSet := ∅.

(** [Set.Add]; [now] is the clock, read when the time is missing. *)
Definition Add (now : Time) (s : FSet) (f : Finding) : FSet :=
  match s !! Key f with
  | Some old =>
      let f := with_FirstSeen f (f_FirstSeen old) in
      let f := if IsZero (f_LastSeen f) then with_LastSeen f now else f in
      <[Key f := f]> s
  | None => <[Key f := f]> s
  end.

Definition AddAll (now : Time) (s : FSet) (fs : list Finding) : FSet := foldl (Add now) s fs.

Definition FSet_Get (s : FSet) (key : string) : option Finding := s !! key.
Definition FSet_Delete (s : FSet) (key : string) : FSet := delete key s.
Definition FSet_Len (s : FSet) : nat := size s.

Section sets.
Context `{MR : !MapRange}.

Definition FSet_List (s : FSet) : list Finding := (range s).*2.

Definition HasErrors (s : FSet) : bool :=
  existsb (λ f, bool_decide (f_Severity f = Error)) (FSet_List s).

Definition CountBySeverity (s : FSet) (sev : Severity) : Z :=
  foldl (λ n f, if bool_decide (f_Severity f = sev) then n + 1 else n)%Z 0%Z (FSet_List s).

Definition Codes (s : FSet) (sev : Severity) : list string :=
  foldl (λ out f,
      if negb (bool_decide (sev = "")) && negb (bool_decide (f_Severity f = sev)) then out
      else if existsb (λ c, bool_decide (c = f_Code f)) out then out
      else out ++ [f_Code f]) [] (FSet_List s).

Definition FSet_Clone (s : FSet) : FSet :=
  foldl (λ out '(k, v), <[k := v]> out) NewSet (range s).

(** The two loops of [MergeReplace]. *)
Definition merge_keep (now : Time) (owners : gset string) (acc : FSet * Z) (kf : string * Finding) : FSet * Z :=
  let '(next, closed) := acc in
  let '(k, f) := kf in
  if bool_decide (0 < size owners) && negb (in_set (f_Owner f) owners) then (Add now next f, closed)
  else
    match next !! k with
    | None => (next, closed + 1)%Z
    | Some _ => (next, closed)
    end.

Definition merge_date (prev : FSet) (acc : FSet * Z) (kf : string * Finding) : FSet * Z :=
  let '(next, opened) := acc in
  let '(k, f) := kf in
  match prev !! k with
  | Some old => (<[k := with_FirstSeen f (f_FirstSeen old)]> next, opened)
  | None => (next, opened + 1)%Z
  end.

(** [MergeReplace]: the set both pointers hold afterwards, the number of
    findings opened and closed. A [nil] set is an empty one. *)
Definition MergeReplace (now : Time) (prev next : FSet) (owners : gset string) : FSet * Z * Z :=
  let '(next, closed) := foldl (merge_keep now owners) (next, 0%Z) (range prev) in
  let '(next, opened) := foldl (merge_date prev) (next, 0%Z) (range next) in
  (next, opened, closed).
End sets.

(** ** Keys *)

Lemma Key_inj f1 f2 :
  no_byte "|" (f_Code f1) → no_byte "|" (f_Code f2) → (0 ≤ f_RRType f1)%Z → (0 ≤ f_RRType f2)%Z →
  Key f1 = Key f2 →
  f_Code f1 = f_Code f2 ∧ f_Owner f1 = f_Owner f2 ∧ f_RRType f1 = f_RRType f2.
Proof.
  unfold Key. intros H1 H2 Ht1 Ht2 Heq.
  apply first_sep_inj in Heq as [Hc Heq]; [|done..].
  apply (last_sep_inj "|" (f_Owner f1) (f_Owner f2)) in Heq as [Ho Ht]; [|by apply fmt_d_no_byte..].
  by apply fmt_d_inj in Ht.
Qed.

Lemma Key_with_FirstSeen f t : Key (with_FirstSeen f t) = Key f.
Proof. done. Qed.

(** ** Adding *)

(** A set whose findings are filed under their own keys. *)
Definition fset_wf (s : FSet) : Prop := ∀ k f, s !! k = Some f → Key f = k.

(** What [Add] files: the new finding with the date of the old one. *)
Definition dated (now : Time) (old : option Finding) (f : Finding) : Finding :=
  match old with
  | Some old =>
      let f := with_FirstSeen f (f_FirstSeen old) in
      if IsZero (f_LastSeen f) then with_LastSeen f now else f
  | None => f
  end.

Lemma Key_dated now old f : Key (dated now old f) = Key f.
Proof. unfold dated. destruct old; [|done]. by destruct (IsZero _). Qed.

Lemma Add_dated now s f : Add now s f = <[Key f := dated now (s !! Key f) f]> s.
Proof.
  unfold Add, dated. destruct (s !! Key f); [|done].
  destruct (IsZero (f_LastSeen (with_FirstSeen f (f_FirstSeen f0)))) eqn:E; by rewrite ?E.
Qed.

Lemma Add_wf now s f : fset_wf s → fset_wf (Add now s f).
Proof.
  intros Hwf k g. rewrite Add_dated. intros [[<- <-]|[_ Hk]]%lookup_insert_Some; [apply Key_dated|by apply Hwf].
Qed.

Lemma AddAll_wf now fs s : fset_wf s → fset_wf (AddAll now s fs).
Proof. unfold AddAll. intros Hwf. apply foldl_inv; [done|]. intros. by apply Add_wf. Qed.

Lemma NewSet_wf : fset_wf NewSet.
Proof. intros k f. unfold NewSet. by rewrite lookup_empty. Qed.

Lemma AddAll_app now s l1 l2 : AddAll now s (l1 ++ l2) = AddAll now (AddAll now s l1) l2.
Proof. apply foldl_app. Qed.

Lemma Add_lookup_ne now s f k : Key f ≠ k → Add now s f !! k = s !! k.
Proof. intros. rewrite Add_dated. by rewrite lookup_insert_ne. Qed.

Lemma AddAll_lookup_ne now s fs k : (∀ f, f ∈ fs → Key f ≠ k) → AddAll now s fs !! k = s !! k.
Proof.
  revert s. induction fs as [|f fs IH]; intros s Hk; [done|]. simpl.
  rewrite IH by (intros; apply Hk; set_solver). apply Add_lookup_ne, Hk. set_solver.
Qed.

Lemma Severity_dated now old f : f_Severity (dated now old f) = f_Severity f.
Proof. unfold dated. destruct old; [|done]. by destruct (IsZero _). Qed.

(** A key is present after adding exactly when it was or was added. *)
Lemma AddAll_is_Some now s fs k :
  is_Some (AddAll now s fs !! k) ↔ is_Some (s !! k) ∨ ∃ f, f ∈ fs ∧ Key f = k.
Proof.
  revert s. induction fs as [|f fs IH]; intros s; simpl.
  - split; [by left|]. by intros [?|(? & ?%elem_of_nil & _)].
  - rewrite IH, Add_dated, lookup_insert_is_Some'. setoid_rewrite elem_of_cons. naive_solver.
Qed.

Section errors.
Context `{MR : !MapRange}.

Lemma HasErrors_spec s : HasErrors s = true ↔ ∃ k f, s !! k = Some f ∧ f_Severity f = Error.
Proof.
  unfold HasErrors, FSet_List. rewrite existsb_elem_of. split.
  - intros (f & [k Hk]%elem_of_range_snd & ?%bool_decide_eq_true). eauto.
  - intros (k & f & Hk & Hf). exists f. split; [apply elem_of_range_snd; eauto|by apply bool_decide_eq_true].
Qed.

Definition is_error (f : Finding) : bool := bool_decide (f_Severity f = Error).

(** A code is used with one severity only. *)
Definition sev_consistent (fs : list Finding) : Prop :=
  ∀ f g, f ∈ fs → g ∈ fs → Key f = Key g → f_Severity f = f_Severity g.

(** Adding to an empty set keeps an error exactly when one is added,
    provided no finding can be replaced by one of another severity. *)
Lemma AddAll_last now s fs k f :
  AddAll now s fs !! k = Some f →
  s !! k = Some f ∨ ∃ g, g ∈ fs ∧ Key g = k ∧ f_Severity g = f_Severity f.
Proof.
  revert s. induction fs as [|g fs IH]; intros s Hk; simpl in Hk; [by left|].
  destruct (IH _ Hk) as [Ha|(g' & Hg & ? & ?)]; [|right; exists g'; set_solver].
  rewrite Add_dated in Ha. apply lookup_insert_Some in Ha as [[<- <-]|[_ Ha]]; [|by left].
  right. exists g. rewrite Severity_dated. set_solver.
Qed.

Lemma HasErrors_AddAll now s fs :
  (∀ g k f, g ∈ fs → Key g = k → s !! k = Some f → f_Severity f = f_Severity g) →
  sev_consistent fs →
  HasErrors (AddAll now s fs) = HasErrors s || existsb is_error fs.
Proof.
  intros Hs Hc. apply Bool.eq_true_iff_eq. rewrite orb_true_iff, !HasErrors_spec, existsb_elem_of. split.
  - intros (k & f & Hk & Hf). apply AddAll_last in Hk as [Hk|(g & Hg & <- & Hsev)]; [left; eauto|].
    right. exists g. split; [done|]. apply bool_decide_eq_true. congruence.
  - assert (∀ k sev, (is_Some (s !! k) → ∃ f, s !! k = Some f ∧ f_Severity f = sev) →
      (∀ g, g ∈ fs → Key g = k → f_Severity g = sev) →
      is_Some (AddAll now s fs !! k) → ∃ f, AddAll now s fs !! k = Some f ∧ f_Severity f = sev) as Hgen.
    { intros k sev Hs' Hfs [f Hf]. exists f. split; [done|].
      apply AddAll_last in Hf as [Hk|(g & Hg & Hk & <-)]; [|by apply Hfs].
      destruct Hs' as (f' & Hf' & <-); [by eexists|]. congruence. }
    intros [(k & f & Hk & Hf)|(g & Hg & Hsev%bool_decide_eq_true)].
    + destruct (Hgen k Error) as (f' & ? & ?); [eauto| | |eauto].
      * intros g Hg Hgk. rewrite <-(Hs g k f Hg Hgk Hk). done.
      * apply AddAll_is_Some. left. by eexists.
    + destruct (Hgen (Key g) Error) as (f' & ? & ?); [| | |eauto].
      * intros [f Hf]. exists f. split; [done|]. by rewrite (Hs g _ f Hg eq_refl Hf).
      * intros g' Hg' Hk. rewrite (Hc g' g Hg' Hg Hk). done.
      * apply AddAll_is_Some. right. eauto.
Qed.
End errors.

(** ** Merging *)

Section merge.
Context `{MR : !MapRange}.
Implicit Types prev next : FSet.

(** A finding of a name the pass did not look at. *)
Definition kept (owners : gset string) (f : Finding) : bool :=
  bool_decide (0 < size owners) && negb (in_set (f_Owner f) owners).

Lemma keep_loop now owners l next c :
  NoDup l.*1 → (∀ k f, (k, f) ∈ l → Key f = k) →
  let '(nx, c') := foldl (merge_keep now owners) (next, c) l in
  (∀ k f, (k, f) ∈ l → kept owners f = true → nx !! k = Some (dated now (next !! k) f)) ∧
  (∀ k, (∀ f, (k, f) ∈ l → kept owners f = false) → nx !! k = next !! k) ∧
  c' = (c + Z.of_nat (length (List.filter (λ kf : string * Finding,
          negb (kept owners kf.2) && bool_decide (next !! kf.1 = None)) l)))%Z.
Proof.
  revert next c. induction l as [|[k0 f0] l IH]; intros next c Hnd Hkey.
  { simpl. split_and!; [by intros ? ? ?%elem_of_nil|done|lia]. }
  rewrite fmap_cons, NoDup_cons in Hnd. destruct Hnd as [Hk0 Hnd]. simpl in Hk0.
  assert (Key f0 = k0) as HK by (apply Hkey; set_solver).
  assert (∀ f, (k0, f) ∉ l) as Hno.
  { intros f Hf. apply Hk0, list_elem_of_fmap. by exists (k0, f). }
  assert (∀ k f, (k, f) ∈ l → Key f = k) as Hkey' by (intros; apply Hkey; set_solver).
  cbn [foldl List.filter]. unfold merge_keep at 2. fold (kept owners f0). cbn [fst snd].
  destruct (kept owners f0) eqn:Hkept; cbn [negb andb].
  - specialize (IH (Add now next f0) c Hnd Hkey').
    destruct (foldl _ _ l) as [nx c']. destruct IH as (H1 & H2 & H3). split_and!.
    + intros k f [[= -> ->]|Hin]%elem_of_cons Hf.
      * rewrite H2 by (intros ? ?%Hno; done). rewrite Add_dated, HK. by rewrite lookup_insert_eq.
      * rewrite (H1 k f Hin Hf). f_equal. f_equal. apply Add_lookup_ne. rewrite HK.
        intros ->. by apply Hno in Hin.
    + intros k Hk. rewrite H2 by (intros; apply Hk; set_solver). apply Add_lookup_ne. rewrite HK.
      intros ->. specialize (Hk f0). rewrite Hkept in Hk. discriminate Hk. set_solver.
    + rewrite H3. do 3 f_equal. apply List.filter_ext_in. intros [k f] Hin%list_elem_of_In. simpl. f_equal.
      apply bool_decide_ext. rewrite Add_lookup_ne; [done|]. rewrite HK. intros ->. by apply Hno in Hin.
  - replace (match next !! k0 with Some _ => (next, c) | None => (next, c + 1)%Z end)
      with (next, c + if bool_decide (next !! k0 = None) then 1 else 0)%Z.
    2:{ destruct (next !! k0); simpl; [by rewrite Z.add_0_r|done]. }
    specialize (IH next (c + if bool_decide (next !! k0 = None) then 1 else 0)%Z Hnd Hkey').
    destruct (foldl _ _ l) as [nx c']. destruct IH as (H1 & H2 & H3). split_and!.
    + intros k f [[= -> ->]|Hin]%elem_of_cons Hf; [congruence|]. by apply H1.
    + intros k Hk. apply H2. intros; apply Hk; set_solver.
    + rewrite H3. destruct (bool_decide _); simpl; lia.
Qed.

Lemma date_loop prev l next c :
  NoDup l.*1 → (∀ k f, (k, f) ∈ l → next !! k = Some f) →
  let '(nx, c') := foldl (merge_date prev) (next, c) l in
  (∀ k f, (k, f) ∈ l →
     nx !! k = Some (match prev !! k with Some old => with_FirstSeen f (f_FirstSeen old) | None => f end)) ∧
  (∀ k, (∀ f, (k, f) ∉ l) → nx !! k = next !! k) ∧
  c' = (c + Z.of_nat (length (List.filter (λ kf : string * Finding, bool_decide (prev !! kf.1 = None)) l)))%Z.
Proof.
  revert next c. induction l as [|[k0 f0] l IH]; intros next c Hnd Hl.
  { simpl. split_and!; [by intros ? ? ?%elem_of_nil|done|lia]. }
  rewrite fmap_cons, NoDup_cons in Hnd. destruct Hnd as [Hk0 Hnd]. simpl in Hk0.
  assert (∀ f, (k0, f) ∉ l) as Hno.
  { intros f Hf. apply Hk0, list_elem_of_fmap. by exists (k0, f). }
  cbn [foldl List.filter]. unfold merge_date at 2. cbn [fst snd].
  destruct (prev !! k0) as [old|] eqn:Hp; [rewrite (bool_decide_false (Some old = None)) by done
    |rewrite (bool_decide_true (None = None)) by done].
  - specialize (IH (<[k0 := with_FirstSeen f0 (f_FirstSeen old)]> next) c Hnd).
    destruct (foldl _ _ l) as [nx c']. destruct IH as (H1 & H2 & H3).
    { intros k f Hin. rewrite lookup_insert_ne by (intros ->; by apply Hno in Hin). apply Hl. set_solver. }
    split_and!.
    + intros k f [[= -> ->]|Hin]%elem_of_cons; [|by apply H1]. rewrite H2 by done.
      by rewrite lookup_insert_eq, Hp.
    + intros k Hk. rewrite H2 by (intros f Hf; apply (Hk f); set_solver).
      apply lookup_insert_ne. intros ->. apply (Hk f0). set_solver.
    + exact H3.
  - specialize (IH next (c + 1)%Z Hnd). destruct (foldl _ _ l) as [nx c']. destruct IH as (H1 & H2 & H3).
    { intros k f Hin. apply Hl. set_solver. }
    split_and!.
    + intros k f [[= -> ->]|Hin]%elem_of_cons; [|by apply H1]. rewrite H2 by done.
      rewrite Hp. apply Hl. set_solver.
    + intros k Hk. apply H2. intros f Hf. apply (Hk f). set_solver.
    + rewrite H3. cbn [length]. lia.
Qed.

(** Counting the entries of a map that satisfy a test of their key. *)
Lemma filter_range_size (m : FSet) (f : string * Finding → bool) (X : gset string) :
  (∀ k, k ∈ X ↔ ∃ v, m !! k = Some v ∧ f (k, v) = true) →
  length (List.filter f (range m)) = size X.
Proof.
  intros HX. rewrite <-(length_fmap fst). rewrite <-(size_list_to_set (C := gset string)).
  - f_equal. apply set_eq. intros k. rewrite elem_of_list_to_set, list_elem_of_fmap, HX. split.
    + intros ([k' v] & -> & [Hin Hf]%elem_of_filter_b). exists v. by apply elem_of_range in Hin.
    + intros (v & Hk & Hf). exists (k, v). split; [done|]. apply elem_of_filter_b. by rewrite elem_of_range.
  - pose proof (NoDup_fst_range m) as Hnd. induction (range m) as [|[k v] l IH]; [constructor|].
    rewrite fmap_cons, NoDup_cons in Hnd. destruct Hnd as [Hk Hnd]. simpl.
    destruct (f (k, v)); [|by apply IH]. rewrite fmap_cons, NoDup_cons. split; [|by apply IH].
    intros ([k' v'] & Heq & [Hin _]%elem_of_filter_b)%list_elem_of_fmap. apply Hk.
    apply list_elem_of_fmap. by exists (k', v').
Qed.

(** What a merge leaves under a key. *)
Definition merged (prev next : FSet) (owners : gset string) (k : string) : option Finding :=
  match prev !! k with
  | None => next !! k
  | Some old =>
      if kept owners old then Some old
      else (λ f, with_FirstSeen f (f_FirstSeen old)) <$> next !! k
  end.

Lemma MergeReplace_merged now prev next owners :
  fset_wf prev → (∀ k f, prev !! k = Some f → f_LastSeen f ≠ 0%Z) →
  let '(res, opened, closed) := MergeReplace now prev next owners in
  (∀ k, res !! k = merged prev next owners k) ∧
  opened = Z.of_nat (size (dom res ∖ dom prev)) ∧
  closed = Z.of_nat (size (dom prev ∖ dom res)).
Proof.
  intros Hwf Hls. unfold MergeReplace.
  pose proof (keep_loop now owners (range prev) next 0 (NoDup_fst_range prev)) as Hk.
  destruct (foldl (merge_keep now owners) _ _) as [nx c1].
  destruct Hk as (K1 & K2 & K3). { intros k f Hin%elem_of_range. by apply Hwf. }
  pose proof (date_loop prev (range nx) nx 0 (NoDup_fst_range nx)) as Hd.
  destruct (foldl (merge_date prev) _ _) as [res c2].
  destruct Hd as (D1 & D2 & D3). { intros k f Hin. by apply elem_of_range. }
  assert (∀ k, res !! k = merged prev next owners k) as Hres.
  { intros k. unfold merged. destruct (prev !! k) as [old|] eqn:Hp; [destruct (kept owners old) eqn:Hkept|].
    - assert (nx !! k = Some (dated now (next !! k) old)) as Hnx by (apply K1; [by apply elem_of_range|done]).
      rewrite (D1 k _ (proj2 (elem_of_range _ _ _) Hnx)), Hp. f_equal.
      unfold dated. destruct (next !! k) as [f|]; [|by destruct old]. specialize (Hls k old Hp).
      unfold IsZero, zeroTime. rewrite bool_decide_false by done. by destruct old.
    - assert (nx !! k = next !! k) as Hnx.
      { apply K2. intros f Hin%elem_of_range. by assert (f = old) as -> by congruence. }
      destruct (next !! k) as [f|] eqn:Hn; simpl.
      + rewrite (D1 k f) by (by apply elem_of_range). by rewrite Hp.
      + rewrite D2; [done|]. intros f Hin%elem_of_range. congruence.
    - assert (nx !! k = next !! k) as Hnx.
      { apply K2. intros f Hin%elem_of_range. congruence. }
      destruct (next !! k) as [f|] eqn:Hn.
      + rewrite (D1 k f) by (by apply elem_of_range). by rewrite Hp.
      + rewrite D2; [done|]. intros f Hin%elem_of_range. congruence. }
  assert (∀ k, is_Some (nx !! k) ↔ is_Some (res !! k)) as Hdom.
  { intros k. destruct (nx !! k) as [f|] eqn:Hn.
    - rewrite (D1 k f) by (by apply elem_of_range). done.
    - rewrite D2; [by rewrite Hn|]. intros f Hin%elem_of_range. congruence. }
  split_and!; [done|rewrite D3|rewrite K3]; rewrite Z.add_0_l; f_equal; apply filter_range_size;
    intros k; rewrite elem_of_difference, !elem_of_dom.
  - rewrite <-Hdom. split.
    + intros [[v Hv] Hn]. exists v. split; [done|]. by apply bool_decide_eq_true, eq_None_not_Some.
    + intros (v & Hv & Hn%bool_decide_eq_true). split; [by eexists|by apply eq_None_not_Some].
  - rewrite Hres. unfold merged. split.
    + intros [[v Hv] Hn]. rewrite Hv in Hn. exists v. split; [done|]. simpl.
      destruct (kept owners v); [by destruct Hn|]. simpl. apply bool_decide_eq_true, eq_None_not_Some.
      by rewrite fmap_is_Some in Hn.
    + intros (v & Hv & [Hkept Hn%bool_decide_eq_true]%andb_true_iff). simpl in *. split; [by eexists|].
      rewrite Hv. apply negb_true_iff in Hkept. rewrite Hkept, Hn. simpl. by apply eq_None_not_Some.
Qed.

(** C20: merging an incremental result into the previous findings. For every
    key: a finding of a name outside the reverified owners is kept as it
    was; any other finding is what the new pass says, with the date it was
    first seen if it was known before, and is gone if the pass no longer
    reports it; the two counters are exactly the numbers of keys that
    appeared and disappeared. No iteration order matters. *)
Theorem MergeReplace_spec now prev next owners :
  fset_wf prev → (∀ k f, prev !! k = Some f → f_LastSeen f ≠ 0%Z) →
  let '(res, opened, closed) := MergeReplace now prev next owners in
  (∀ k, res !! k = merged prev next owners k) ∧
  opened = Z.of_nat (size (dom res ∖ dom prev)) ∧
  closed = Z.of_nat (size (dom prev ∖ dom res)).
Proof. apply MergeReplace_merged. Qed.
End merge.

Lemma MergeReplace_spec_witness :
  let prev := AddAll 5 NewSet [NewFinding 5 NSECMissing Error "a.z." TypeNSEC "missing NSEC"] in
  let next := AddAll 9 NewSet [NewFinding 9 NSECMissing Error "b.z." TypeA "expired"] in
  let '(res, opened, closed) := MergeReplace 9 prev next {[ "b.z." ]} in
  FSet_Len res = 2 ∧ opened = 1%Z ∧ ∀ k, res !! k = merged prev next {[ "b.z." ]} k.
Proof.
  intros prev next.
  assert (fset_wf prev) as Hwf by apply AddAll_wf, NewSet_wf.
  assert (∀ k f, prev !! k = Some f → f_LastSeen f ≠ 0%Z) as Hls.
  { intros k f. change prev with (Add 5 ∅ (NewFinding 5 NSECMissing Error "a.z." TypeNSEC "missing NSEC")).
    rewrite Add_dated. intros [[<- <-]|[_ Hk]]%lookup_insert_Some; [done|]. by rewrite lookup_empty in Hk. }
  pose proof (MergeReplace_spec 9 prev next {[ "b.z." ]} Hwf Hls) as H.
  destruct (MergeReplace 9 prev next {["b.z."]}) as [[res opened] closed] eqn:E.
  destruct H as (Hr & Ho & _). split_and!; [|rewrite Ho|exact Hr].
  - change res with (res, opened, closed).1.1. rewrite <-E. vm_compute. reflexivity.
  - change res with (res, opened, closed).1.1. rewrite <-E. vm_compute. reflexivity.
Defined.
