(* ===== verification/Keys.v ===== *)
(** * DNSKEYs (internal/dnssec/keys.go)

    The keys of a verification pass: their tags and flags, and the parsing
    of their public keys, on every branch of the algorithm switch. A key
    that parses is long enough for its algorithm. *)

From S2P Require Import Prelude GoStrings Base32 Bytes DnsLib Toy.

(** [crypto.PublicKey]: the types the parser builds. *)
Inductive PublicKey :=
| PubRSA (n : Z) (e : Z)
| PubECDSA (bits : Z) (x y : Z)
| PubEd25519 (raw : bytes).

#[export] Instance PublicKey_eq_dec : EqDecision PublicKey.
Proof. solve_decision. Defined.

Record CachedKey := mkCachedKey {
  ck_RR : DNSKEY_RR;
  ck_KeyTag : Z;
  ck_Flags : Z;
  ck_Alg : Z;
  ck_Pub : PublicKey;
  ck_IsKSK : bool;
  ck_IsZone : bool;
  ck_Used : bool
}.

Definition set_Used (k : CachedKey) : CachedKey :=
  mkCachedKey (ck_RR k) (ck_KeyTag k) (ck_Flags k) (ck_Alg k) (ck_Pub k) (ck_IsKSK k) (ck_IsZone k) true.

Definition byte_at (s : bytes) (i : nat) : Z :=
  match String.get i s with Some c => Z_of_byte c | None => 0 end.

Definition ed25519_PublicKeySize : nat := 32.

(** [parseRSA]; the exponent is the low 64 bits of its field. *)
Definition parseRSA (raw : bytes) : result PublicKey :=
  if bool_decide (String.length raw < 3) then Err "short RSA key"
  else
    let '(explen, off) :=
      if bool_decide (byte_at raw 0 = 0%Z)
      then (Z.to_nat (Z.lor (Z.shiftl (byte_at raw 1) 8) (byte_at raw 2)), 3)
      else (Z.to_nat (byte_at raw 0), 1) in
    if bool_decide (String.length raw ≤ off + explen) then Err "short RSA modulus"
    else
      let e := be_dec (str_take explen (str_drop off raw)) in
      let n := be_dec (str_drop (off + explen) raw) in
      Ok (PubRSA n (i64 e)).

Definition parseECDSA (raw : bytes) (bits : Z) : result PublicKey :=
  let sz := Z.to_nat ((bits + 7) / 8) in
  if negb (bool_decide (String.length raw = 2 * sz))
  then Err ("ecdsa key length " +:+ fmt_d (Z.of_nat (String.length raw)) +:+ " want " +:+ fmt_d (Z.of_nat (2 * sz)))
  else Ok (PubECDSA bits (be_dec (str_take sz raw)) (be_dec (str_drop sz raw))).

Definition parsePublicKey (k : DNSKEY_rdata) : result PublicKey :=
  raw ← match b64_Std (key_PublicKey k) with
        | Ok raw => Ok raw
        | Err _ => b64_RawStd (key_PublicKey k)
        end;
  let alg := key_Algorithm k in
  if bool_decide (alg ∈ [RSAMD5; RSASHA1; RSASHA1NSEC3SHA1; RSASHA256; RSASHA512]) then parseRSA raw
  else if bool_decide (alg = ECDSAP256SHA256) then parseECDSA raw 256
  else if bool_decide (alg = ECDSAP384SHA384) then parseECDSA raw 384
  else if bool_decide (alg = ED25519) then
    if negb (bool_decide (String.length raw = ed25519_PublicKeySize))
    then Err ("ed25519 key length " +:+ fmt_d (Z.of_nat (String.length raw)))
    else Ok (PubEd25519 raw)
  else Err ("unsupported algorithm " +:+ fmt_d alg).

Section keys.
Context `{DL : !DnsLib}.

Definition algName (a : Z) : string :=
  match AlgorithmToString a with Some s => s | None => "ALG" +:+ fmt_d a end.

Definition cacheKey (k : DNSKEY_RR) : result CachedKey :=
  pub ← wrap_err (λ err, "parse DNSKEY " +:+ fmt_d (KeyTag k.2) +:+ ": " +:+ err) (parsePublicKey k.2);
  Ok {| ck_RR := k; ck_KeyTag := KeyTag k.2; ck_Flags := key_Flags k.2; ck_Alg := key_Algorithm k.2;
        ck_Pub := pub;
        ck_IsKSK := negb (bool_decide (Z.land (key_Flags k.2) SEP = 0%Z));
        ck_IsZone := negb (bool_decide (Z.land (key_Flags k.2) ZONE = 0%Z));
        ck_Used := false |}.

Definition cacheKeys (keys : list DNSKEY_RR) : result (list CachedKey) := mapM_result cacheKey keys.

(** The flags are single bits of the DNSKEY flags field. *)
Lemma flag_testbit f i : (0 ≤ i)%Z → negb (bool_decide (Z.land f (2 ^ i) = 0%Z)) = Z.testbit f i.
Proof.
  intros Hi. destruct (Z.testbit f i) eqn:E.
  - apply negb_true_iff, bool_decide_eq_false. intros H0.
    apply (f_equal (λ z, Z.testbit z i)) in H0. rewrite Z.land_spec, Z.pow2_bits_true, E, Z.bits_0 in H0 by done. done.
  - apply negb_false_iff, bool_decide_eq_true. apply Z.bits_inj'. intros n Hn.
    rewrite Z.land_spec, Z.bits_0. destruct (decide (n = i)) as [->|Hne]; [by rewrite E|].
    rewrite Z.pow2_bits_false by congruence. apply andb_false_r.
Qed.

Lemma cacheKey_spec k c :
  cacheKey k = Ok c →
  ck_RR c = k ∧ ck_KeyTag c = KeyTag k.2 ∧ ck_Alg c = key_Algorithm k.2 ∧ ck_Used c = false ∧
  ck_IsKSK c = Z.testbit (key_Flags k.2) 0 ∧ ck_IsZone c = Z.testbit (key_Flags k.2) 8.
Proof.
  unfold cacheKey. destruct (wrap_err _ _); [|done]. intros [= <-]. simpl.
  change SEP with (2 ^ 0)%Z. change ZONE with (2 ^ 8)%Z. rewrite !flag_testbit by done. done.
Qed.

(** All the keys are cached, in order, or the pass stops. *)
Lemma cacheKeys_RR keys cs : cacheKeys keys = Ok cs → ck_RR <$> cs = keys.
Proof.
  unfold cacheKeys. revert cs. induction keys as [|k keys IH]; intros cs; simpl.
  { by intros [= <-]. }
  destruct (cacheKey k) as [c|] eqn:Hc; [|done]. simpl.
  destruct (mapM_result cacheKey keys) as [cs'|] eqn:Hcs; [|done]. simpl. intros [= <-].
  rewrite fmap_cons. f_equal; [by apply cacheKey_spec|by apply IH].
Qed.
End keys.

(** ** Sizes *)

Lemma str_length_drop n s : String.length (str_drop n s) = String.length s - n.
Proof. revert n. induction s as [|c s IH]; intros [|n]; simpl; auto. Qed.

Lemma be_acc_range s acc : (0 ≤ acc)%Z → (0 ≤ be_acc s acc < (acc + 1) * 256 ^ Z.of_nat (String.length s))%Z.
Proof.
  revert acc. induction s as [|c s IH]; intros acc Ha; cbn [be_acc String.length]; [simpl; lia|].
  pose proof (Z_of_byte_range c). specialize (IH (acc * 256 + Z_of_byte c)%Z ltac:(lia)).
  rewrite Nat2Z.inj_succ, Z.pow_succ_r by lia.
  assert (0 < 256 ^ Z.of_nat (String.length s))%Z by (apply Z.pow_pos_nonneg; lia). nia.
Qed.

Lemma be_dec_range s : (0 ≤ be_dec s < 256 ^ Z.of_nat (String.length s))%Z.
Proof. pose proof (be_acc_range s 0). unfold be_dec. lia. Qed.

(** what the key parser accepts has the shape its algorithm demands: an
    RSA key has a modulus and an exponent within the bytes of the field, an
    ECDSA key two coordinates of exactly the curve's width, an Ed25519 key
    32 bytes; every other algorithm is refused, and no input makes the
    parser read out of bounds. *)
Theorem parsePublicKey_shape k pub :
  parsePublicKey k = Ok pub →
  match pub with
  | PubRSA n e =>
      key_Algorithm k ∈ [RSAMD5; RSASHA1; RSASHA1NSEC3SHA1; RSASHA256; RSASHA512] ∧
      ∃ raw len off, (b64_Std (key_PublicKey k) = Ok raw ∨ b64_RawStd (key_PublicKey k) = Ok raw) ∧
        off + len < String.length raw ∧
        (0 ≤ n < 256 ^ Z.of_nat (String.length raw - (off + len)))%Z
  | PubECDSA bits x y =>
      (key_Algorithm k = ECDSAP256SHA256 ∧ bits = 256%Z ∨ key_Algorithm k = ECDSAP384SHA384 ∧ bits = 384%Z) ∧
      (0 ≤ x < 2 ^ bits)%Z ∧ (0 ≤ y < 2 ^ bits)%Z
  | PubEd25519 raw => key_Algorithm k = ED25519 ∧ String.length raw = 32
  end.
Proof.
  unfold parsePublicKey. intros Hp.
  destruct (match b64_Std (key_PublicKey k) with Ok raw => Ok raw | Err _ => b64_RawStd (key_PublicKey k) end)
    as [raw|] eqn:Hraw; [|done]. simpl in Hp.
  assert (b64_Std (key_PublicKey k) = Ok raw ∨ b64_RawStd (key_PublicKey k) = Ok raw) as Hd.
  { destruct (b64_Std _); [left; congruence|by right]. }
  assert (∀ bits, (bits = 256 ∨ bits = 384)%Z → parseECDSA raw bits = Ok pub →
    ∃ x y, pub = PubECDSA bits x y ∧ (0 ≤ x < 2 ^ bits)%Z ∧ (0 ≤ y < 2 ^ bits)%Z) as Hec.
  { intros bits Hb. unfold parseECDSA.
    destruct (bool_decide_reflect (String.length raw = 2 * Z.to_nat ((bits + 7) / 8))) as [Hl|Hl]; [|done]. cbn [negb]. intros [= <-].
    do 2 eexists. split; [done|].
    pose proof (be_dec_range (str_take (Z.to_nat ((bits + 7) / 8)) raw)) as Hx.
    pose proof (be_dec_range (str_drop (Z.to_nat ((bits + 7) / 8)) raw)) as Hy.
    rewrite str_length_take in Hx. rewrite str_length_drop in Hy.
    replace (_ `min` _) with (Z.to_nat ((bits + 7) / 8)) in Hx by lia.
    replace (String.length raw - _) with (Z.to_nat ((bits + 7) / 8)) in Hy by lia.
    replace (256 ^ Z.of_nat (Z.to_nat ((bits + 7) / 8)))%Z with (2 ^ bits)%Z in *
      by (destruct Hb as [->| ->]; vm_compute; reflexivity).
    done. }
  destruct (bool_decide_reflect (key_Algorithm k ∈ [RSAMD5; RSASHA1; RSASHA1NSEC3SHA1; RSASHA256; RSASHA512])) as [Ha|_].
  { unfold parseRSA in Hp. destruct (bool_decide_reflect (String.length raw < 3)) as [|Hl3]; [done|].
    destruct (if bool_decide (byte_at raw 0 = 0%Z) then _ else _) as [len off].
    destruct (bool_decide_reflect (String.length raw ≤ off + len)) as [|Hl]; [done|].
    injection Hp as <-. split; [done|]. exists raw, len, off. split_and!; [done|lia| |].
    - apply be_dec_range.
    - rewrite <-str_length_drop. apply be_dec_range. }
  destruct (bool_decide_reflect (key_Algorithm k = ECDSAP256SHA256)) as [Ha|_].
  { destruct (Hec 256%Z) as (x & y & -> & ? & ?); auto. }
  destruct (bool_decide_reflect (key_Algorithm k = ECDSAP384SHA384)) as [Ha|_].
  { destruct (Hec 384%Z) as (x & y & -> & ? & ?); auto. }
  destruct (bool_decide_reflect (key_Algorithm k = ED25519)) as [Ha|_]; [|done].
  destruct (bool_decide_reflect (String.length raw = ed25519_PublicKeySize)) as [Hl|]; [|done].
  cbn [negb] in Hp. by injection Hp as <-.
Qed.

(** A 32-byte key in base64. *)
Definition toy_ed25519 : string := "AAECAwQFBgcICQoLDA0ODxAREhMUFRYXGBkaGxwdHh8=".

Lemma parsePublicKey_shape_witness :
  ∃ raw, parsePublicKey (mkDNSKEY 257 3 ED25519 toy_ed25519) = Ok (PubEd25519 raw) ∧ String.length raw = 32.
Proof.
  assert (∃ raw, parsePublicKey (mkDNSKEY 257 3 ED25519 toy_ed25519) = Ok (PubEd25519 raw)) as [raw Hraw]
    by (eexists; vm_compute; reflexivity).
  exists raw. split; [done|]. apply (parsePublicKey_shape (mkDNSKEY 257 3 ED25519 toy_ed25519) _ Hraw).
Defined.
