(* ===== verification/Sha512.v ===== *)
(** * SHA-512 and SHA-384

    The two hash functions of the Go standard library that the ZONEMD check
    uses ([crypto/sha512]), as FIPS 180-4 defines them: padding, message
    schedule, eighty rounds per block. A [hash.Hash] is the bytes written to
    it so far; [Sum] is the function of this file on all of them. The
    functions run: the example at the end is a published test vector. *)

From S2P Require Import Prelude GoStrings Base32 Bytes.
Local Open Scope Z_scope.

(** ** Words *)

Definition rotr (x n : Z) : Z := Z.lor (Z.shiftr x n) (u64 (Z.shiftl x (64 - n))).
Definition Sigma0 (x : Z) : Z := Z.lxor (rotr x 28) (Z.lxor (rotr x 34) (rotr x 39)).
Definition Sigma1 (x : Z) : Z := Z.lxor (rotr x 14) (Z.lxor (rotr x 18) (rotr x 41)).
Definition sigma0 (x : Z) : Z := Z.lxor (rotr x 1) (Z.lxor (rotr x 8) (Z.shiftr x 7)).
Definition sigma1 (x : Z) : Z := Z.lxor (rotr x 19) (Z.lxor (rotr x 61) (Z.shiftr x 6)).
Definition Ch (x y z : Z) : Z := Z.lxor (Z.land x y) (Z.land (2 ^ 64 - 1 - x) z).
Definition Maj (x y z : Z) : Z := Z.lxor (Z.land x y) (Z.lxor (Z.land x z) (Z.land y z)).

(** The first 64 bits of the fractional parts of the cube roots of the first
    eighty primes. *)
Definition K512 : list Z :=
  [0x428a2f98d728ae22; 0x7137449123ef65cd; 0xb5c0fbcfec4d3b2f; 0xe9b5dba58189dbbc;
   0x3956c25bf348b538; 0x59f111f1b605d019; 0x923f82a4af194f9b; 0xab1c5ed5da6d8118;
   0xd807aa98a3030242; 0x12835b0145706fbe; 0x243185be4ee4b28c; 0x550c7dc3d5ffb4e2;
   0x72be5d74f27b896f; 0x80deb1fe3b1696b1; 0x9bdc06a725c71235; 0xc19bf174cf692694;
   0xe49b69c19ef14ad2; 0xefbe4786384f25e3; 0x0fc19dc68b8cd5b5; 0x240ca1cc77ac9c65;
   0x2de92c6f592b0275; 0x4a7484aa6ea6e483; 0x5cb0a9dcbd41fbd4; 0x76f988da831153b5;
   0x983e5152ee66dfab; 0xa831c66d2db43210; 0xb00327c898fb213f; 0xbf597fc7beef0ee4;
   0xc6e00bf33da88fc2; 0xd5a79147930aa725; 0x06ca6351e003826f; 0x142929670a0e6e70;
   0x27b70a8546d22ffc; 0x2e1b21385c26c926; 0x4d2c6dfc5ac42aed; 0x53380d139d95b3df;
   0x650a73548baf63de; 0x766a0abb3c77b2a8; 0x81c2c92e47edaee6; 0x92722c851482353b;
   0xa2bfe8a14cf10364; 0xa81a664bbc423001; 0xc24b8b70d0f89791; 0xc76c51a30654be30;
   0xd192e819d6ef5218; 0xd69906245565a910; 0xf40e35855771202a; 0x106aa07032bbd1b8;
   0x19a4c116b8d2d0c8; 0x1e376c085141ab53; 0x2748774cdf8eeb99; 0x34b0bcb5e19b48a8;
   0x391c0cb3c5c95a63; 0x4ed8aa4ae3418acb; 0x5b9cca4f7763e373; 0x682e6ff3d6b2b8a3;
   0x748f82ee5defb2fc; 0x78a5636f43172f60; 0x84c87814a1f0ab72; 0x8cc702081a6439ec;
   0x90befffa23631e28; 0xa4506cebde82bde9; 0xbef9a3f7b2c67915; 0xc67178f2e372532b;
   0xca273eceea26619c; 0xd186b8c721c0c207; 0xeada7dd6cde0eb1e; 0xf57d4f7fee6ed178;
   0x06f067aa72176fba; 0x0a637dc5a2c898a6; 0x113f9804bef90dae; 0x1b710b35131c471b;
   0x28db77f523047d84; 0x32caab7b40c72493; 0x3c9ebe0a15c9bebc; 0x431d67c49c100d4c;
   0x4cc5d4becb3e42b6; 0x597f299cfc657e2a; 0x5fcb6fab3ad6faec; 0x6c44198c4a475817].

(** Initial states: square roots of the first, and of the next, eight primes. *)
Definition IV512 : list Z :=
  [0x6a09e667f3bcc908; 0xbb67ae8584caa73b; 0x3c6ef372fe94f82b; 0xa54ff53a5f1d36f1;
   0x510e527fade682d1; 0x9b05688c2b3e6c1f; 0x1f83d9abfb41bd6b; 0x5be0cd19137e2179].
Definition IV384 : list Z :=
  [0xcbbb9d5dc1059ed8; 0x629a292a367cd507; 0x9159015a3070dd17; 0x152fecd8f70e5939;
   0x67332667ffc00b31; 0x8eb44a8768581511; 0xdb0c2e0d64f98fa7; 0x47b5481dbefa4fa4].

(** ** One block *)

(** The message schedule, backwards: the last sixteen words first. *)
Fixpoint extend (n : nat) (w : list Z) : list Z :=
  match n with
  | O => w
  | S n =>
      let at_ i := default 0 (w !! i%nat) in
      extend n (u64 (sigma1 (at_ 1%nat) + at_ 6%nat + sigma0 (at_ 14%nat) + at_ 15%nat) :: w)
  end.
Definition schedule (block : list Z) : list Z := rev (extend 64 (rev block)).

Definition round (s : list Z) (kw : Z * Z) : list Z :=
  match s with
  | [a; b; c; d; e; f; g; h] =>
      let t1 := u64 (h + Sigma1 e + Ch e f g + kw.1 + kw.2) in
      let t2 := u64 (Sigma0 a + Maj a b c) in
      [u64 (t1 + t2); a; b; c; u64 (d + t1); e; f; g]
  | _ => s
  end.

Definition compress (s : list Z) (block : list Z) : list Z :=
  zip_with (λ x y, u64 (x + y)) s (foldl round s (zip K512 (schedule block))).

(** ** Padding and the digest *)

Definition pad (m : bytes) : bytes :=
  let n := Z.of_nat (String.length m) in
  m +:+ String (byte_of_Z 128) (Repeat (String (byte_of_Z 0) "") (Z.to_nat ((111 - n) mod 128)))
    +:+ be 16 (8 * n).

(** Cut into words of eight bytes, and those into blocks of sixteen. *)
Fixpoint words (n : nat) (s : bytes) : list Z :=
  match n with
  | O => []
  | S n => be_dec (str_take 8 s) :: words n (str_drop 8 s)
  end.
Fixpoint blocks (n : nat) (ws : list Z) : list (list Z) :=
  match n with
  | O => []
  | S n => take 16 ws :: blocks n (drop 16 ws)
  end.

Definition sha2_state (iv : list Z) (m : bytes) : list Z :=
  let p := pad m in
  let n := Nat.div (String.length p) 128 in
  foldl compress iv (blocks n (words (16 * n) p)).

Definition bytes_of_words (ws : list Z) : bytes := foldr (λ w s, be 8 w +:+ s) "" ws.

Definition Sum512 (m : bytes) : bytes := bytes_of_words (sha2_state IV512 m).
Definition Sum384 (m : bytes) : bytes := bytes_of_words (take 6 (sha2_state IV384 m)).

(** ** Facts *)

Lemma round_length s kw : length (round s kw) = length s.
Proof. by destruct s as [|? [|? [|? [|? [|? [|? [|? [|? [|? ?]]]]]]]]]. Qed.

Lemma rounds_length s l : length (foldl round s l) = length s.
Proof. revert s. induction l as [|x l IH]; intros s; [done|]. simpl. by rewrite IH, round_length. Qed.

Lemma compress_length s b : length (compress s b) = length s.
Proof. unfold compress. rewrite length_zip_with, rounds_length. lia. Qed.

Lemma sha2_state_length iv m : length (sha2_state iv m) = length iv.
Proof.
  unfold sha2_state. generalize (blocks (Nat.div (String.length (pad m)) 128)
    (words (16 * Nat.div (String.length (pad m)) 128) (pad m))). intros l.
  revert iv. induction l as [|b l IH]; intros iv; [done|]. simpl. by rewrite IH, compress_length.
Qed.

Lemma bytes_of_words_length ws : String.length (bytes_of_words ws) = (8 * length ws)%nat.
Proof.
  induction ws as [|w ws IH]; [done|]. cbn [bytes_of_words foldr length].
  rewrite str_length_app, be_length. fold (bytes_of_words ws). lia.
Qed.

Lemma Sum512_length m : String.length (Sum512 m) = 64%nat.
Proof. unfold Sum512. by rewrite bytes_of_words_length, sha2_state_length. Qed.
Lemma Sum384_length m : String.length (Sum384 m) = 48%nat.
Proof. unfold Sum384. by rewrite bytes_of_words_length, length_take, sha2_state_length. Qed.

(** ** A test vector *)

Example sha512_abc : hex_EncodeToString (Sum512 "abc") =
  "ddaf35a193617abacc417349ae20413112e6fa4e89a97ea20a9eeee64b55d39a2192992a274fc1a836ba3c23a3feebbd454d4423643ce80e2a9ac94fa54ca49f".
Proof. vm_compute. reflexivity. Qed.
