(* ===== verification/Verify.v ===== *)
(** * RRset verification (internal/dnssec/verify.go)

    The part of a pass that looks at one node: which names are
    authoritative, and the verification of an RRset against the DNSKEYs.

    The functions of the code add findings to a set they never read and mark
    keys as used without reading the mark; here they return what they add
    and mark, in order ([Out]). A verifier fixes one reading of each clock:
    [v_now] for the comparisons, [v_wall] for the dates of the findings.

    Main results: climbing towards the origin terminates and finds exactly
    the delegations above a name; an RRset passes without an error exactly
    when it is exempt or every one of its RRSIGs is in its validity period,
    has the right label count, and one of them verifies with a zone key. *)

From S2P Require Import Prelude GoStrings Decimal DnsLib BTree DnsName Base32 CanonOrder Node Store StoreSpec Config Findings Keys Toy.

(** [Verifier]: configuration and clocks. *)
Record Verifier := mkVerifier {
  v_cfg : VerificationConfig;
  v_now : Time;
  v_wall : Time;
  v_gomaxprocs : Z
}.

(** [workers]. *)
Definition workers (v : Verifier) : Z :=
  if (0 <? vf_Workers (v_cfg v))%Z then vf_Workers (v_cfg v)
  else if (v_gomaxprocs v <? 1)%Z then 1 else v_gomaxprocs v.

(** What a check adds: findings, indexes of the keys it marks as used, the
    number of signatures it tried. *)
Record Out := mkOut { o_findings : list Finding; o_used : list nat; o_checked : Z }.
Definition out_nil : Out := mkOut [] [] 0.
Definition out_app (a b : Out) : Out :=
  mkOut (o_findings a ++ o_findings b) (o_used a ++ o_used b) (o_checked a + o_checked b)%Z.
Definition out_findings (fs : list Finding) : Out := mkOut fs [] 0.

(** Mark keys as used. *)
Definition mark_used (keys : list CachedKey) (used : list nat) : list CachedKey :=
  imap (λ i k, if bool_decide (i ∈ used) then set_Used k else k) keys.

Definition isWildcardOwner (name : string) : bool :=
  bool_decide (2 < String.length name) && HasPrefix name "*.".

(** [indexByte]: [None] is -1. *)
Definition indexByte (s : string) (c : ascii) : option nat := IndexByte s c.

Definition is_hash_char (c : ascii) : bool :=
  in_range "0" "9" c || in_range "a" "v" c || in_range "A" "V" c.

Definition hasTypicalName (name : string) : bool :=
  let lab :=
    match indexByte name "." with
    | Some (S dot) => str_take (S dot) name
    | _ => name
    end in
  if bool_decide (String.length lab < 20) then true
  else negb (str_all is_hash_char lab).

Section verify.
Context `{DL : !DnsLib, BT : !BTree}.
Variable v : Verifier.
Implicit Types st : Store.

Definition finding (code : string) (sev : Severity) (owner : string) (rrtype : Z) (msg : string) : Finding :=
  NewFinding (v_wall v) code sev owner rrtype msg.

(** The readings of the clock and the configuration, as 32-bit seconds. *)
Definition now32 : Z := u32 (Unix (v_now v)).
Definition skew32 : Z := seconds_u32 (vf_ClockSkew (v_cfg v)).
Definition warn32 : Z := seconds_u32 (vf_ExpiryWarning (v_cfg v)).

Definition isNSEC3Owner (name origin : string) : bool :=
  if bool_decide (name = origin) then false
  else if negb (IsSubdomain name origin) then false
  else bool_decide (Parent name = origin) && negb (hasTypicalName name).

(** ** Authority *)

(** The loop of [isAuthoritative]; [None] when the fuel runs out. *)
Fixpoint climb (fuel : nat) (st : Store) (name parent : string) : option bool :=
  match fuel with
  | 0 => None
  | S fuel =>
      if bool_decide (parent = st_origin st) || bool_decide (parent = ".") || bool_decide (parent = name)
      then Some true
      else if match Lookup st parent with Some p => n_IsDelegation p | None => false end
      then Some false
      else
        let next := Parent parent in
        if bool_decide (next = parent) then Some true
        else climb fuel st name next
  end.

(** A name of [n] bytes has fewer than [n] ancestors. *)
Definition isAuthoritative (st : Store) (n : Node) : bool :=
  if bool_decide (n_Name n = st_origin st) then true
  else default true (climb (S (String.length (n_Name n))) st (n_Name n) (Parent (n_Name n))).

(** ** One RRset *)

(** The state of the loop over the RRSIGs. *)
Record SigState := mkSigState {
  sg_findings : list Finding; sg_used : list nat; sg_ok : bool; sg_checked : Z; sg_unknown : Z
}.

(** The loop over the keys: the index of the key that verifies, and the
    number of keys tried. *)
Fixpoint try_keys (i : nat) (keys : list CachedKey) (sig : CompactRRSIG) (rrsig : RR) (rrs : list RR) : option nat * Z :=
  match keys with
  | [] => (None, 0%Z)
  | k :: keys =>
      if negb (bool_decide (ck_KeyTag k = cs_KeyTag sig)) || negb (bool_decide (ck_Alg k = cs_Algorithm sig))
         || negb (ck_IsZone k)
      then try_keys (S i) keys sig rrsig rrs
      else if Verify rrsig (ck_RR k) rrs then (Some i, 1%Z)
      else let '(matched, tried) := try_keys (S i) keys sig rrsig rrs in (matched, (tried + 1)%Z)
  end.

(** The number of labels an RRSIG of the name must show. *)
Definition wantLabels (name : string) : Z :=
  let w := CountLabel name in
  if isWildcardOwner name && (0 <? w)%Z then (w - 1)%Z else w.

Definition sig_step (n : Node) (set : RRSet) (keys : list CachedKey) (rrs : list RR)
    (s : SigState) (sig : CompactRRSIG) : SigState :=
  let add s fs := mkSigState (sg_findings s ++ fs) (sg_used s) (sg_ok s) (sg_checked s) (sg_unknown s) in
  let s :=
    if negb (bool_decide (cs_Labels sig = wantLabels (n_Name n)))
    then add s [finding RRSIGLabelsMismatch Error (n_Name n) (rs_Type set)
                  ("RRSIG labels=" +:+ fmt_d (cs_Labels sig) +:+ " name labels=" +:+ fmt_d (CountLabel (n_Name n)))]
    else s in
  if (u32 (now32 + skew32) <? cs_Inception sig)%Z then
    add s [finding RRSIGNotYetValid Error (n_Name n) (rs_Type set) ("inception " +:+ fmt_d (cs_Inception sig))]
  else if (u32 (cs_Expiration sig + skew32) <? now32)%Z then
    add s [finding RRSIGExpired Error (n_Name n) (rs_Type set) ("expiration " +:+ fmt_d (cs_Expiration sig))]
  else
    let s :=
      if hy_Enabled (vf_Hygiene (v_cfg v)) && hy_WarnRRSIGTTLMismatch (vf_Hygiene (v_cfg v))
         && negb (bool_decide (cs_OrigTTL sig = rs_TTL set))
      then add s [finding RRSIGTTLMismatch Warning (n_Name n) (rs_Type set)
                    ("origTTL " +:+ fmt_d (cs_OrigTTL sig) +:+ " != TTL " +:+ fmt_d (rs_TTL set))]
      else s in
    let s :=
      if (0 <? warn32)%Z && (now32 <? cs_Expiration sig)%Z && (u32 (cs_Expiration sig - now32) <=? warn32)%Z
      then add s [finding RRSIGExpiringSoon Warning (n_Name n) (rs_Type set)
                    ("expires in " +:+ fmt_d (u32 (cs_Expiration sig - now32)) +:+ "s")]
      else s in
    let '(matched, tried) := try_keys 0 keys sig (RRSIGFromCompact (n_Name n) (rs_TTL set) sig) rrs in
    match matched with
    | Some i => mkSigState (sg_findings s) (sg_used s ++ [i]) true (sg_checked s + tried) (sg_unknown s)
    | None => mkSigState (sg_findings s) (sg_used s) (sg_ok s) (sg_checked s + tried) (sg_unknown s + 1)
    end.

(** An RRset at a delegation that may lack a signature. *)
Definition unsigned_ok (n : Node) (t : Z) : bool :=
  n_IsDelegation n && (bool_decide (t = TypeNS)
    || (negb (bool_decide (t = TypeDS)) && negb (bool_decide (t = TypeNSEC)) && negb (bool_decide (t = TypeNSEC3)))).

Definition verifyRRSet (n : Node) (set : RRSet) (keys : list CachedKey) : Out :=
  let sigs := RRSIGsCovering n (rs_Type set) in
  if bool_decide (length sigs = 0) then
    if n_IsDelegation n && bool_decide (rs_Type set = TypeNS) then out_nil
    else if n_IsDelegation n && negb (bool_decide (rs_Type set = TypeDS))
            && negb (bool_decide (rs_Type set = TypeNSEC)) && negb (bool_decide (rs_Type set = TypeNSEC3)) then out_nil
    else out_findings [finding RRSIGMissing Error (n_Name n) (rs_Type set)
                         ("no RRSIG covering " +:+ typeName (rs_Type set))]
  else
    match Unpack set (n_Name n) with
    | Err err => out_findings [finding RRSIGInvalid Error (n_Name n) (rs_Type set) err]
    | Ok rrs =>
        let s := foldl (sig_step n set keys rrs) (mkSigState [] [] false 0 0) sigs in
        let last :=
          if negb (sg_ok s) then
            if bool_decide (sg_unknown s = Z.of_nat (length sigs)) && bool_decide (sg_checked s = 0%Z)
            then [finding RRSIGUnknownKey Error (n_Name n) (rs_Type set) "no matching DNSKEY for RRSIG"]
            else [finding RRSIGInvalid Error (n_Name n) (rs_Type set) "no RRSIG verified"]
          else [] in
        mkOut (sg_findings s ++ last) (sg_used s) (sg_checked s)
    end.

(** The loop of [verifyNode] over the RRsets of an authoritative node. *)
Definition verifySets (n : Node) (keys : list CachedKey) : Out :=
  foldl (λ o set,
      if bool_decide (rs_Type set = TypeRRSIG) || bool_decide (rs_Type set = TypeNSEC3) then o
      else out_app o (verifyRRSet n set keys))
    out_nil (n_Sets n).

(** ** The apex keys *)

Definition checkDNSKEYSignedByKSK (st : Store) (keys : list CachedKey) : Out :=
  match Apex st with
  | None => out_nil
  | Some apex =>
      match Node_Set apex TypeDNSKEY with
      | None => out_nil
      | Some set =>
          match Unpack set (n_Name apex) with
          | Err _ => out_nil
          | Ok rrs =>
              let hits := sig ← RRSIGsCovering apex TypeDNSKEY;
                omap (λ '(i, k),
                  if negb (ck_IsKSK k) || negb (bool_decide (ck_KeyTag k = cs_KeyTag sig)) then None
                  else if Verify (RRSIGFromCompact (n_Name apex) (rs_TTL set) sig) (ck_RR k) rrs then Some i
                  else None) (imap (λ i k, (i, k)) keys) in
              mkOut (if bool_decide (hits = []) then
                       [finding DNSKEYNotSignedByKSK Error (n_Name apex) TypeDNSKEY "DNSKEY RRset is not signed by a KSK"]
                     else []) hits 0
          end
      end
  end.

Context `{MR : !MapRange}.

Definition checkKeytagCollisions (origin : string) (keys : list CachedKey) : list Finding :=
  let byTag : gmap Z Z :=
    foldl (λ m k, <[ck_KeyTag k := (default 0 (m !! ck_KeyTag k) + 1)%Z]> m) ∅ keys in
  omap (λ '(tag, n),
    if (3 <? n)%Z then
      Some (finding KeytagCollisionLimit Error origin TypeDNSKEY
              ("keytag " +:+ fmt_d tag +:+ " has " +:+ fmt_d n +:+ " keys"))
    else None) (range byTag).
End verify.

(** ** Authority: termination and meaning *)

Section authority.
Context `{DL : !DnsLib, BT : !BTree, NL : !DnsNameLaws}.
Implicit Types st : Store.

Definition is_cut (st : Store) (p : string) : Prop :=
  ∃ q, Lookup st p = Some q ∧ n_IsDelegation q = true.

(** A climb stops at the origin, at the root, and at the name itself. *)
Definition stops (st : Store) (name p : string) : Prop := p = st_origin st ∨ p = "." ∨ p = name.

Lemma is_cut_match st p :
  match Lookup st p with Some q => n_IsDelegation q | None => false end = true ↔ is_cut st p.
Proof. unfold is_cut. destruct (Lookup st p); [|naive_solver]. split; [eauto|]. by intros (? & [= <-] & ?). Qed.

Lemma climb_total fuel st name parent :
  canonical parent → String.length parent < fuel → is_Some (climb fuel st name parent).
Proof.
  revert parent. induction fuel as [|fuel IH]; intros parent Hc Hl; [lia|]. cbn [climb].
  destruct (bool_decide (parent = st_origin st) || bool_decide (parent = ".") || bool_decide (parent = name)) eqn:E;
    [done|].
  destruct (match Lookup st parent with Some p => n_IsDelegation p | None => false end); [done|].
  destruct (bool_decide (Parent parent = parent)); [done|].
  apply IH; [apply canonical_Parent|].
  apply orb_false_iff in E as [[_ Hr%bool_decide_eq_false]%orb_false_iff _].
  pose proof (Parent_shorter parent Hc Hr). lia.
Qed.

Lemma climb_false fuel st name parent :
  canonical parent → String.length parent < fuel →
  climb fuel st name parent = Some false ↔
  ∃ i, is_cut st (iter_n Parent i parent) ∧ ∀ j, j ≤ i → ¬ stops st name (iter_n Parent j parent).
Proof.
  revert parent. induction fuel as [|fuel IH]; intros parent Hc Hl; [lia|]. cbn [climb].
  assert (bool_decide (parent = st_origin st) || bool_decide (parent = ".") || bool_decide (parent = name) = true
    ↔ stops st name parent) as Hst.
  { rewrite !orb_true_iff, !bool_decide_eq_true. unfold stops. tauto. }
  destruct (_ || _ || _) eqn:E.
  { split; [done|]. intros (i & _ & Hno). destruct (Hno 0); [lia|]. by apply Hst. }
  assert (¬ stops st name parent) as Hns by (rewrite <-Hst; congruence).
  destruct (match Lookup st parent with Some p => n_IsDelegation p | None => false end) eqn:Hcut.
  { split; [|done]. intros _. exists 0. split; [by apply is_cut_match|]. intros j Hj. by replace j with 0 by lia. }
  assert (¬ is_cut st parent) as Hncut by (rewrite <-is_cut_match; congruence).
  assert (parent ≠ ".") as Hroot by (intros ->; apply Hns; right; by left).
  pose proof (Parent_shorter parent Hc Hroot) as Hlt.
  rewrite bool_decide_false by (intros Heq; rewrite Heq in Hlt; lia).
  rewrite IH by (apply canonical_Parent || lia). split.
  - intros (i & Hi & Hno). exists (S i). split; [done|]. intros [|j] Hj; [done|]. apply (Hno j). lia.
  - intros ([|i] & Hi & Hno); [done|]. exists i. split; [done|]. intros j Hj. apply (Hno (S j)). lia.
Qed.

Lemma ancestor_shorter n j :
  canonical n → n ≠ "." →
  canonical (iter_n Parent j (Parent n)) ∧ String.length (iter_n Parent j (Parent n)) < String.length n.
Proof.
  intros Hc Hr. induction j as [|j [IHc IHl]].
  - split; [apply canonical_Parent|by apply Parent_shorter].
  - rewrite iter_n_S. split; [apply canonical_Parent|].
    destruct (decide (iter_n Parent j (Parent n) = ".")) as [He|He].
    { rewrite He in IHl |- *. by rewrite Parent_root. }
    pose proof (Parent_shorter _ IHc He). lia.
Qed.

(** A name strictly below a zone cut: an ancestor between it and the origin
    is a delegation. *)
Definition below_cut (st : Store) (name : string) : Prop :=
  ∃ i, is_cut st (iter_n Parent (S i) name) ∧
    ∀ j, j ≤ i → iter_n Parent (S j) name ≠ st_origin st ∧ iter_n Parent (S j) name ≠ ".".

(** [isAuthoritative] terminates (the climb always has fuel left, since
    every step shortens the name) and decides authority: it denies it
    exactly to the names other than the origin that have a delegation among
    their proper ancestors below the origin. *)
Theorem isAuthoritative_spec st n :
  canonical (n_Name n) →
  is_Some (climb (S (String.length (n_Name n))) st (n_Name n) (Parent (n_Name n))) ∧
  (isAuthoritative st n = false ↔ n_Name n ≠ st_origin st ∧ below_cut st (n_Name n)).
Proof.
  intros Hc.
  assert (String.length (Parent (n_Name n)) < S (String.length (n_Name n))) as Hl.
  { destruct (decide (n_Name n = ".")) as [->|Hr]; [rewrite Parent_root; lia|].
    pose proof (Parent_shorter _ Hc Hr). lia. }
  pose proof (climb_total _ st (n_Name n) _ (canonical_Parent _) Hl) as [b Hb].
  split; [by eexists|]. unfold isAuthoritative.
  destruct (bool_decide_reflect (n_Name n = st_origin st)) as [Ho|Ho]; [split; [done|]; by intros [? _]|].
  rewrite Hb. simpl.
  pose proof (climb_false _ st (n_Name n) _ (canonical_Parent (n_Name n)) Hl) as Hf. rewrite Hb in Hf.
  transitivity (Some b = Some false); [split; [by intros ->|by intros [= ->]]|]. rewrite Hf.
  unfold below_cut. split.
  - intros (i & Hcut & Hno). split; [done|]. exists i. split; [done|]. intros j Hj.
    specialize (Hno j Hj). unfold stops in Hno. simpl. tauto.
  - intros (_ & i & Hcut & Hno). exists i. split; [done|]. intros j Hj.
    destruct (Hno j Hj) as [H1 H2]. unfold stops. simpl in *. intros [?|[?|Heq]]; [done|done|].
    destruct (decide (n_Name n = ".")) as [Hr|Hr].
    + apply H2. rewrite Hr, Parent_root. clear -NL. induction j as [|j IHj]; [done|].
      simpl. by rewrite Parent_root.
    + destruct (ancestor_shorter (n_Name n) j Hc Hr) as [_ Hlt]. rewrite Heq in Hlt. lia.
Qed.
End authority.

(** ** One RRset: exactly when it passes *)

Section rrset.
Context `{DL : !DnsLib}.
Variable v : Verifier.

(** The validity period, as the code tests it. *)
Definition in_window (sig : CompactRRSIG) : bool :=
  negb (u32 (now32 v + skew32 v) <? cs_Inception sig)%Z && negb (u32 (cs_Expiration sig + skew32 v) <? now32 v)%Z.

(** Nothing to object to in an RRSIG before its signature is checked. *)
Definition sig_good (name : string) (sig : CompactRRSIG) : bool :=
  bool_decide (cs_Labels sig = wantLabels name) && in_window sig.

Definition key_matches (sig : CompactRRSIG) (k : CachedKey) : bool :=
  bool_decide (ck_KeyTag k = cs_KeyTag sig) && bool_decide (ck_Alg k = cs_Algorithm sig) && ck_IsZone k.

(** One of the zone keys the RRSIG names verifies it. *)
Definition sig_verifies (n : Node) (set : RRSet) (keys : list CachedKey) (rrs : list RR) (sig : CompactRRSIG) : bool :=
  existsb (λ k, key_matches sig k && Verify (RRSIGFromCompact (n_Name n) (rs_TTL set) sig) (ck_RR k) rrs) keys.

Lemma try_keys_spec i keys sig rrsig rrs :
  (∃ j, (try_keys i keys sig rrsig rrs).1 = Some j) ↔
  existsb (λ k, key_matches sig k && Verify rrsig (ck_RR k) rrs) keys = true.
Proof.
  revert i. induction keys as [|k keys IH]; intros i; cbn [try_keys existsb]; [split; [by intros [? ?]|done]|].
  rewrite <-!negb_andb. fold (key_matches sig k). destruct (key_matches sig k); cbn [negb andb].
  - destruct (Verify rrsig (ck_RR k) rrs); cbn [orb].
    + split; [done|]. intros _. by eexists.
    + rewrite <-(IH (S i)). by destruct (try_keys (S i) keys sig rrsig rrs).
  - cbn [orb]. apply IH.
Qed.

Lemma is_error_finding code sev owner t msg :
  is_error (finding v code sev owner t msg) = bool_decide (sev = Error).
Proof. done. Qed.

Ltac errs := rewrite ?existsb_app; cbn [existsb]; rewrite ?is_error_finding;
  rewrite ?(bool_decide_true (Error = Error)) by done; rewrite ?(bool_decide_false (Warning = Error)) by done;
  rewrite ?orb_false_r, ?orb_true_r.

(** One step of the loop: errors are added exactly for a bad RRSIG, and the
    RRset is found to verify exactly by a timely RRSIG that verifies. *)
Lemma sig_step_spec n set keys rrs s sig :
  existsb is_error (sg_findings (sig_step v n set keys rrs s sig)) =
    existsb is_error (sg_findings s) || negb (sig_good (n_Name n) sig) ∧
  sg_ok (sig_step v n set keys rrs s sig) = sg_ok s || (in_window sig && sig_verifies n set keys rrs sig).
Proof.
  unfold sig_step, sig_good, in_window, sig_verifies. cbv zeta.
  pose proof (try_keys_spec 0 keys sig (RRSIGFromCompact (n_Name n) (rs_TTL set) sig) rrs) as Hk.
  destruct (try_keys 0 keys sig _ rrs) as [m tried]. cbn [fst] in Hk.
  set (ver := existsb (λ k, key_matches sig k && _) keys) in *.
  assert (∀ b, (match m with Some _ => true | None => b end) = b || ver) as Hm.
  { intros b. destruct m as [j|], ver; rewrite ?orb_true_r, ?orb_false_r; try done.
    - by discriminate (proj1 Hk (ex_intro _ j eq_refl)).
    - by destruct (proj2 Hk eq_refl). }
  destruct (bool_decide (cs_Labels sig = wantLabels (n_Name n))); cbn [negb andb];
    destruct (u32 (now32 v + skew32 v) <? cs_Inception sig)%Z; cbn [negb andb sg_findings sg_ok];
    [split; [by errs|by rewrite orb_false_r]| |split; [by errs|by rewrite orb_false_r]|];
    (destruct (u32 (cs_Expiration sig + skew32 v) <? now32 v)%Z; cbn [negb andb sg_findings sg_ok];
    [split; [by errs|by rewrite orb_false_r]|]);
    destruct (hy_Enabled (vf_Hygiene (v_cfg v)) && _ && _);
    destruct ((0 <? warn32 v)%Z && _ && _); cbn [sg_findings sg_ok];
    rewrite <-Hm; destruct m as [j|]; cbn [sg_findings sg_ok]; (split; [by errs|done]).
Qed.
Lemma sig_loop_spec n set keys rrs sigs s :
  existsb is_error (sg_findings (foldl (sig_step v n set keys rrs) s sigs)) =
    existsb is_error (sg_findings s) || existsb (λ sig, negb (sig_good (n_Name n) sig)) sigs ∧
  sg_ok (foldl (sig_step v n set keys rrs) s sigs) =
    sg_ok s || existsb (λ sig, in_window sig && sig_verifies n set keys rrs sig) sigs.
Proof.
  revert s. induction sigs as [|sig sigs IH]; intros s; cbn [foldl existsb]; [by rewrite !orb_false_r|].
  destruct (IH (sig_step v n set keys rrs s sig)) as [-> ->].
  destruct (sig_step_spec n set keys rrs s sig) as [-> ->]. by rewrite !orb_assoc.
Qed.

(** What it takes for an RRset to pass. *)
Definition rrset_passes (n : Node) (set : RRSet) (keys : list CachedKey) : Prop :=
  let sigs := RRSIGsCovering n (rs_Type set) in
  (sigs = [] ∧ unsigned_ok n (rs_Type set) = true) ∨
  (sigs ≠ [] ∧ ∃ rrs, Unpack set (n_Name n) = Ok rrs ∧
     (∀ sig, sig ∈ sigs → sig_good (n_Name n) sig = true) ∧
     ∃ sig, sig ∈ sigs ∧ sig_verifies n set keys rrs sig = true).

Lemma verifyRRSet_unsigned n set keys :
  RRSIGsCovering n (rs_Type set) = [] →
  existsb is_error (o_findings (verifyRRSet v n set keys)) = negb (unsigned_ok n (rs_Type set)).
Proof.
  intros E. unfold verifyRRSet, unsigned_ok. rewrite E. cbn [length].
  rewrite bool_decide_true by done.
  destruct (n_IsDelegation n), (bool_decide (rs_Type set = TypeNS)), (bool_decide (rs_Type set = TypeDS)),
    (bool_decide (rs_Type set = TypeNSEC)), (bool_decide (rs_Type set = TypeNSEC3)); reflexivity.
Qed.

(** The verdict of the loop: what is added at the end if nothing verified. *)
Lemma last_error (s : SigState) n set (b : bool) :
  existsb is_error
    (if negb (sg_ok s) then
       if b then [finding v RRSIGUnknownKey Error (n_Name n) (rs_Type set) "no matching DNSKEY for RRSIG"]
       else [finding v RRSIGInvalid Error (n_Name n) (rs_Type set) "no RRSIG verified"]
     else []) = negb (sg_ok s).
Proof. by destruct (sg_ok s), b. Qed.

Lemma verifyRRSet_passes n set keys :
  existsb is_error (o_findings (verifyRRSet v n set keys)) = false ↔ rrset_passes n set keys.
Proof.
  unfold rrset_passes. destruct (decide (RRSIGsCovering n (rs_Type set) = [])) as [E|E].
  { rewrite verifyRRSet_unsigned, negb_false_iff by done. naive_solver. }
  unfold verifyRRSet. rewrite (bool_decide_false (length _ = 0)) by (by rewrite length_zero_iff_nil).
  destruct (Unpack set (n_Name n)) as [rrs|err].
  2:{ cbn. split; [done|]. intros [[? _]|(_ & rrs & ? & _)]; done. }
  cbn [o_findings]. rewrite existsb_app, last_error.
  destruct (sig_loop_spec n set keys rrs (RRSIGsCovering n (rs_Type set)) (mkSigState [] [] false 0 0)) as [-> ->].
  cbn [sg_findings sg_ok existsb orb]. rewrite orb_false_iff, negb_false_iff.
  rewrite <-(not_true_iff_false (existsb _ _)), !existsb_elem_of. split.
  - intros [Hgood (sig & Hsig & Hv%andb_true_iff)]. right. split; [done|]. exists rrs. split_and!; [done| |].
    + intros s Hs. destruct (sig_good (n_Name n) s) eqn:Eg; [done|]. destruct Hgood. exists s. by rewrite Eg.
    + exists sig. tauto.
  - intros [[? _]|(_ & rrs' & [= <-] & Hgood & sig & Hsig & Hv)]; [done|]. split.
    + intros (s & Hs & Hx). by rewrite Hgood in Hx.
    + exists sig. split; [done|]. specialize (Hgood sig Hsig). unfold sig_good in Hgood.
      apply andb_true_iff in Hgood as [_ ->]. done.
Qed.

(** C14: an RRset draws no error exactly when it passes: it has no RRSIG and
    is exempt at a delegation, or it can be unpacked, every RRSIG covering it
    shows the right number of labels (one less at a wildcard) and is inside
    its validity period, and at least one of them is verified by a zone key
    with its tag and algorithm. *)
Theorem verifyRRSet_exact n set keys :
  existsb is_error (o_findings (verifyRRSet v n set keys)) = false ↔ rrset_passes n set keys.
Proof. apply verifyRRSet_passes. Qed.

(** the validity test is exact as long as the 32-bit sums do not wrap:
    then an RRSIG is in its window exactly when the clock is between the
    inception minus the skew and the expiration plus the skew. *)
Theorem window_exact sig :
  in_u32 (cs_Expiration sig) → in_u32 (cs_Inception sig) →
  (now32 v + skew32 v < 2 ^ 32)%Z → (cs_Expiration sig + skew32 v < 2 ^ 32)%Z →
  in_window sig = true ↔
    (cs_Inception sig - skew32 v ≤ now32 v ≤ cs_Expiration sig + skew32 v)%Z.
Proof.
  intros He Hi Hn Hs. unfold in_u32 in *.
  assert (in_u32 (skew32 v)) as Hk by apply u32_range. assert (in_u32 (now32 v)) as Hw by apply u32_range.
  unfold in_u32 in *. unfold in_window. rewrite !u32_small by (unfold in_u32; lia).
  rewrite andb_true_iff, !negb_true_iff, !Z.ltb_ge. lia.
Qed.

(** Beyond that bound the test is wrong: when the expiration plus the
    skew exceeds 32 bits the sum wraps to a small number, and an RRSIG that
    is far from expiring is reported as expired. *)
Theorem expiration_wraps n set keys rrs s sig :
  in_u32 (cs_Expiration sig) → (2 ^ 32 ≤ cs_Expiration sig + skew32 v)%Z →
  (cs_Expiration sig + skew32 v - 2 ^ 32 < now32 v)%Z →
  (u32 (now32 v + skew32 v) <? cs_Inception sig)%Z = false →
  ∃ f, f ∈ sg_findings (sig_step v n set keys rrs s sig) ∧ f_Code f = RRSIGExpired ∧ f_Severity f = Error.
Proof.
  intros He Hwrap Hlt Hinc. unfold in_u32 in *.
  assert (u32 (cs_Expiration sig + skew32 v) = cs_Expiration sig + skew32 v - 2 ^ 32)%Z as Hu.
  { assert (in_u32 (skew32 v)) as Hk by apply u32_range. unfold in_u32 in *. unfold u32, wrapN.
    rewrite <-(Z.mod_add _ (-1)) by done. apply Z.mod_small. lia. }
  eexists. split; [|split].
  - unfold sig_step. cbv zeta. rewrite Hinc, Hu, (proj2 (Z.ltb_lt _ _)) by done. cbn [sg_findings].
    apply elem_of_app. right. apply list_elem_of_here.
  - done.
  - done.
Qed.
End rrset.

(** ** Witnesses *)

Definition toy_verifier (now : Z) : Verifier :=
  mkVerifier (c_Verification Defaults) (timeUnix now) (timeUnix now) 1.

Lemma isAuthoritative_spec_witness :
  let st := built "z." [toy_SOA "z." 7; toy_NS "sub.z." "ns.sub.z."; toy_A "ns.sub.z." "192.0.2.1"] in
  isAuthoritative st (mkNode "ns.sub.z." [] "" false false false) = false ∧
  below_cut st "ns.sub.z.".
Proof.
  intros st.
  assert (isAuthoritative st (mkNode "ns.sub.z." [] "" false false false) = false) as H by (vm_compute; reflexivity).
  split; [exact H|].
  apply (isAuthoritative_spec st (mkNode "ns.sub.z." [] "" false false false)); [vm_compute; reflexivity|exact H].
Defined.

(** An RRSIG that expires in 2106, examined in 2023 with the default skew. *)
Definition toy_late_sig : CompactRRSIG := mkCompact TypeA ED25519 2 300 4294967295 0 4 "z." "key1".

Lemma window_exact_witness :
  in_window (toy_verifier 1700000000) (mkCompact TypeA ED25519 2 300 1700000500 0 4 "z." "key1") = true ↔
    (0 - 3600 ≤ 1700000000 ≤ 1700000500 + 3600)%Z.
Proof.
  apply (window_exact (toy_verifier 1700000000) (mkCompact TypeA ED25519 2 300 1700000500 0 4 "z." "key1"));
    vm_compute; repeat split; discriminate.
Defined.

Lemma expiration_wraps_witness :
  ∃ f, f ∈ sg_findings (sig_step (toy_verifier 1700000000) (mkNode "ns.z." [] "" false false false)
              (mkRRSet TypeA 300 []) [] [] (mkSigState [] [] false 0 0) toy_late_sig) ∧
    f_Code f = RRSIGExpired ∧ f_Severity f = Error.
Proof.
  apply (expiration_wraps (toy_verifier 1700000000)); vm_compute; repeat split; discriminate.
Defined.
