(* ===== verification/NsecChain.v ===== *)
(** * The chains of denial of existence are closed (internal/dnssec/nsec.go)

    The two chain checks sort the names (hashes) and compare neighbours;
    here they are shown to decide a property of the zone that mentions
    neither the sort nor the order of iteration. *)

From S2P Require Import Prelude Cycle GoStrings Decimal DnsLib BTree DnsName Base32 CanonOrder Node Store StoreSpec StoreTouch StoreRing Config Findings Keys Verify Nsec Toy.

(** A list of checks indexed by position draws no error exactly when no
    position does. *)
Lemma imap_no_error {A} (f : nat → A → list Finding) l :
  existsb is_error (mjoin (imap f l)) = false ↔
  ∀ i x, l !! i = Some x → existsb is_error (f i x) = false.
Proof.
  rewrite <-not_true_iff_false, existsb_elem_of. split.
  - intros Hno i x Hi. apply not_true_iff_false. rewrite existsb_elem_of. intros (g & Hg & He).
    apply Hno. exists g. split; [|done]. apply list_elem_of_join. exists (f i x). split; [done|].
    apply elem_of_lookup_imap. eauto.
  - intros Hall (g & (y & Hg & (i & x & -> & Hi)%elem_of_lookup_imap)%list_elem_of_join & He).
    specialize (Hall i x Hi). apply not_true_iff_false in Hall. apply Hall, existsb_elem_of. eauto.
Qed.

Section chains.
Context `{DL : !DnsLib, BT : !BTree, BL : !BTreeLaws}.
Variable v : Verifier.
Implicit Types st : Store.

(** ** NSEC3 *)

(** The index files every record under its own hash. *)
Definition hash_ok (st : Store) : Prop := ∀ k r, on_ring st k r → r3_Hash r = k.

Lemma NewStore_hash_ok origin : hash_ok (NewStore origin).
Proof. intros k r. unfold on_ring, NSEC3ByHash. simpl. by rewrite bt_get_new. Qed.

Lemma addRRLocked_hash_ok st rr st' e : hash_ok st → addRRLocked st rr = (st', e) → hash_ok st'.
Proof.
  unfold addRRLocked. intros Hok Ha. destruct (_ && _); [by injection Ha as <- <-|].
  destruct (PackRR rr); injection Ha as <- <-; [|done].
  match goal with |- context [if ?b then match ?o with _ => _ end else ?s0] =>
    destruct (serial_frame s0 b o) as (_ & Hs & _); revert Hs; cbv zeta;
    generalize (if b then match o with Some soa => with_serial s0 (soa_Serial soa) | None => s0 end else s0) end.
  intros s1 Hs. cbn [st_nsec3 with_nodes] in Hs. unfold indexRRLocked, hash_ok, on_ring, NSEC3ByHash in *.
  destruct (rr_Data rr); try (by cbn [st_nsec3 with_expiry]; rewrite Hs). cbn [st_nsec3 with_nsec3].
  intros k r H. rewrite bt_get_set, Hs in H.
  match type of H with (if bool_decide ?P then _ else _) = _ => destruct (bool_decide P) eqn:E end;
    [|by apply Hok].
  apply bool_decide_eq_true in E. by injection H as <-.
Qed.

Lemma add_all_hash_ok rrs st st' : hash_ok st → add_all st rrs = Ok st' → hash_ok st'.
Proof.
  revert st. induction rrs as [|rr rrs IH]; intros st Hok Ha; simpl in Ha; [by injection Ha as <-|].
  destruct (addRRLocked st rr) as [st1 [err|]] eqn:E; [done|].
  apply (IH st1); [|done]. by eapply addRRLocked_hash_ok.
Qed.

Lemma built_hash_ok origin rrs : hash_ok (built origin rrs).
Proof.
  unfold built, FromAXFR. destruct (add_all (NewStore origin) rrs) eqn:E; [|apply NewStore_hash_ok].
  eapply add_all_hash_ok; [apply NewStore_hash_ok|done].
Qed.

Lemma ring_next_cyc st h k : ring_next st h k ↔ cyc_next str_lt (ring_hash st) h k.
Proof. unfold ring_next, cyc_next. by setoid_rewrite str_le_not_lt. Qed.

Lemma scan_keys_sorted st : StronglySorted str_lt (bt_Scan (st_nsec3 st)).*1.
Proof.
  pose proof (bt_scan_sorted _ (st_nsec3 st)) as Hs.
  induction Hs as [|e l Hs IH Hf]; simpl; constructor; [done|].
  rewrite Forall_forall in Hf. apply Forall_forall. intros k (e' & -> & He')%list_elem_of_fmap. by apply Hf.
Qed.

(** The sorted hashes are the keys of the index, in order. *)
Lemma sorted_hashes st :
  hash_ok st → sort_str (r3_Hash <$> ForEachNSEC3 st) = (bt_Scan (st_nsec3 st)).*1.
Proof.
  intros Hok.
  assert (r3_Hash <$> ForEachNSEC3 st = (bt_Scan (st_nsec3 st)).*1) as ->.
  { unfold ForEachNSEC3. rewrite <-list_fmap_compose. apply list_fmap_ext. intros i [k r] Hi.
    apply Hok. apply scan_ring. by eapply list_elem_of_lookup_2. }
  pose proof (scan_keys_sorted st) as Hs.
  apply (StronglySorted_unique_strong str_le).
  - intros x y _ _. apply (anti_symm str_le).
  - apply StronglySorted_merge_sort; apply _.
  - clear -Hs. induction Hs as [|x l Hs IH Hf]; constructor; [done|].
    eapply Forall_impl; [exact Hf|]. intros y. apply str_lt_le.
  - apply merge_sort_Permutation.
Qed.

Lemma nsec3_link_ok st hashes i h r :
  on_ring st h r →
  existsb is_error (nsec3_link v st hashes i h) = false ↔
    r3_Next r = default "" (hashes !! ((i + 1) mod length hashes)).
Proof.
  unfold on_ring, nsec3_link. intros ->. case_bool_decide; simpl; [done|]. by split.
Qed.

Lemma nsec3_chain_iff st p :
  hash_ok st →
  existsb is_error (verifyNSEC3Chain v st p) = false ↔
    (∀ k r, on_ring st k r → r3_Iterations r = n3p_Iterations p) ∧
    (∀ k r, on_ring st k r → ring_next st k (r3_Next r)).
Proof.
  intros Hok. unfold verifyNSEC3Chain. rewrite (sorted_hashes st Hok).
  set (ks := (bt_Scan (st_nsec3 st)).*1).
  assert (∀ k, k ∈ ks ↔ ring_hash st k) as Hks.
  { intros k. rewrite ring_hash_scan. unfold ks. rewrite list_elem_of_fmap. split.
    - intros ([k' r] & -> & Hin). eauto.
    - intros [r Hin]. by exists (k, r). }
  rewrite existsb_app, orb_false_iff. apply Morphisms_Prop.and_iff_morphism.
  - destruct (existsb _ (ForEachNSEC3 st)) eqn:E; simpl.
    + split; [done|]. intros Hall. apply existsb_elem_of in E as (r & Hr & Hne).
      apply list_elem_of_fmap in Hr as ([k r'] & -> & Hin%scan_ring). simpl in Hne.
      by rewrite bool_decide_true in Hne by (by eapply Hall).
    + split; [|done]. intros _ k r Hr. apply not_true_iff_false in E.
      destruct (decide (r3_Iterations r = n3p_Iterations p)); [done|]. destruct E. apply existsb_elem_of.
      exists r. split; [|by rewrite bool_decide_false]. apply list_elem_of_fmap. exists (k, r).
      split; [done|by apply scan_ring].
  - pose proof (scan_keys_sorted st) as Hsorted. fold ks in Hsorted.
    destruct (bool_decide_reflect (length ks = 0)) as [H0|H0]; simpl.
    { split; [|done]. intros _ k r Hr. assert (k ∈ ks) as Hk by (apply Hks; by exists r).
      apply length_zero_iff_nil in H0. rewrite H0 in Hk. by apply elem_of_nil in Hk. }
    rewrite imap_no_error. split.
    + intros Hall k r Hr. assert (k ∈ ks) as [i Hi]%list_elem_of_lookup by (apply Hks; by exists r).
      specialize (Hall i k Hi). rewrite (nsec3_link_ok st ks i k r Hr) in Hall.
      destruct (cyc_lookup ks i k Hi) as [k' Hk']. rewrite Hk' in Hall. simpl in Hall. rewrite Hall.
      apply ring_next_cyc. apply (cyc_next_ext _ _ (ring_hash st) k k' Hks).
      apply (sorted_cyc_next str_lt str_lt_irrefl str_lt_trans ks i); done.
    + intros Hall i k Hi. assert (ring_hash st k) as [r Hr] by (apply Hks; by eapply list_elem_of_lookup_2).
      rewrite (nsec3_link_ok st ks i k r Hr). destruct (cyc_lookup ks i k Hi) as [k' Hk']. rewrite Hk'. simpl.
      apply (cyc_next_unique str_lt (ring_hash st) k); [intros; apply str_lt_total|by apply ring_next_cyc, Hall|].
      apply (cyc_next_ext _ _ (ring_hash st) k k' Hks).
      apply (sorted_cyc_next str_lt str_lt_irrefl str_lt_trans ks i); done.
Qed.

(** C16: the NSEC3 chain check passes exactly when every NSEC3 record has the
    iteration count of NSEC3PARAM and points at the next hash of the ring,
    the last one at the first. *)
Theorem nsec3_chain_exact st p :
  hash_ok st →
  existsb is_error (verifyNSEC3Chain v st p) = false ↔
    (∀ k r, on_ring st k r → r3_Iterations r = n3p_Iterations p) ∧
    (∀ k r, on_ring st k r → ring_next st k (r3_Next r)).
Proof. apply nsec3_chain_iff. Qed.

(** ** NSEC *)

Context `{NL : !DnsNameLaws, MR : !MapRange}.

Definition canon_lt (a b : string) : Prop := (CanonicalCmp a b < 0)%Z.

Lemma canon_lt_irrefl a : ¬ canon_lt a a.
Proof.
  unfold canon_lt. pose proof (proj1 (proj2 (CanonicalCmp_sgn a a))) as H.
  assert (CanonicalCmp a a = 0%Z) by (by apply H). lia.
Qed.
Lemma canon_lt_trans a b c : canon_lt a b → canon_lt b c → canon_lt a c.
Proof. unfold canon_lt. rewrite !(proj1 (CanonicalCmp_sgn _ _)). apply labels_lt_trans. Qed.
Lemma canon_lt_total a b : canonical a → canonical b → canon_lt a b ∨ a = b ∨ canon_lt b a.
Proof.
  intros Ha Hb. unfold canon_lt. pose proof (cmp_sym (cmp := CanonicalCmp) a b) as Hs.
  destruct (Z.lt_trichotomy (CanonicalCmp a b) 0) as [?|[H0|?]]; [by left| |right; right; lia].
  right; left. by apply CanonicalCmp_0.
Qed.

(** A name with NSEC records, and the first of them. *)
Definition has_nsec (st : Store) (name : string) : Prop :=
  ∃ n, st_nodes st !! name = Some n ∧ Has n TypeNSEC = true.
Definition nsec_of (st : Store) (name : string) : option NSEC_rdata :=
  match st_nodes st !! name with
  | Some n => match UnpackType n TypeNSEC with Ok (rr :: _) => as_NSEC rr | _ => None end
  | None => None
  end.

Lemma nsec_link_ok st names i name :
  canonical name →
  existsb is_error (nsec_link v st names i name) = false ↔
    ∀ nsec, nsec_of st name = Some nsec →
      Canonical (nsec_NextDomain nsec) = default "" (names !! ((i + 1) mod length names)).
Proof.
  intros Hc. unfold nsec_link, nsec_of, Lookup. rewrite Hc.
  destruct (st_nodes st !! name) as [n|]; [|by split].
  destruct (UnpackType n TypeNSEC) as [[|rr rrs]|]; [by split| |by split].
  destruct (as_NSEC rr) as [nsec|]; [|by split].
  case_bool_decide as He; simpl; split; intros H; try done.
  - intros ? [= <-]. done.
  - by destruct He; apply H.
Qed.

(** The names of the chain, as the code sorts them. *)
Definition nsec_names (st : Store) : list string :=
  SortFunc CanonicalCmp (n_Name <$> List.filter (λ n, Has n TypeNSEC) (ForEachNode st)).

Lemma nsec_names_elem st name : store_wf st → name ∈ nsec_names st ↔ has_nsec st name.
Proof.
  intros Hwf. unfold nsec_names, has_nsec. rewrite elem_of_SortFunc, list_elem_of_fmap. split.
  - intros (n & -> & [Hin Hn]%elem_of_filter_b). apply elem_of_range_snd in Hin as [k Hk].
    rewrite (nw_name _ _ _ (sw_nodes _ Hwf _ _ Hk)). eauto.
  - intros (n & Hk & Hn). exists n. split; [by rewrite (nw_name _ _ _ (sw_nodes _ Hwf _ _ Hk))|].
    apply elem_of_filter_b. split; [|done]. apply elem_of_range_snd. eauto.
Qed.

Lemma nsec_names_sorted st : store_wf st → StronglySorted canon_lt (nsec_names st).
Proof.
  intros Hwf. unfold nsec_names.
  pose proof (SortFunc_sorted CanonicalCmp (n_Name <$> List.filter (λ n, Has n TypeNSEC) (ForEachNode st))) as Hs.
  assert (NoDup (SortFunc CanonicalCmp (n_Name <$> List.filter (λ n, Has n TypeNSEC) (ForEachNode st)))) as Hnd.
  { rewrite SortFunc_perm. unfold ForEachNode. pose proof (NoDup_fst_range (st_nodes st)) as Hnd.
    assert (∀ k n, (k, n) ∈ range (st_nodes st) → n_Name n = k) as Hnm.
    { intros k n Hin%elem_of_range. apply (sw_nodes _ Hwf _ _ Hin). }
    induction (range (st_nodes st)) as [|[k n] l IH]; [constructor|].
    rewrite fmap_cons, NoDup_cons in Hnd. destruct Hnd as [Hk Hnd]. simpl.
    assert (∀ k n, (k, n) ∈ l → n_Name n = k) as Hnm' by (intros; apply Hnm; set_solver).
    destruct (Has n TypeNSEC); [|by apply IH]. rewrite fmap_cons, NoDup_cons. split; [|by apply IH].
    intros (n' & Heq & [([k' n''] & -> & Hin)%list_elem_of_fmap _]%elem_of_filter_b)%list_elem_of_fmap.
    simpl in Heq. rewrite (Hnm k n), (Hnm' k' n'') in Heq by set_solver. subst. apply Hk.
    apply list_elem_of_fmap. by exists (k', n''). }
  assert (∀ x, x ∈ SortFunc CanonicalCmp (n_Name <$> List.filter (λ n, Has n TypeNSEC) (ForEachNode st)) → canonical x) as Hc.
  { intros x Hx. apply (nsec_names_elem st x Hwf) in Hx as (n & Hk & _). apply (sw_nodes _ Hwf _ _ Hk). }
  induction Hs as [|x l Hs IH Hf]; constructor.
  - apply IH; [by inversion Hnd|]. intros y Hy. apply Hc. set_solver.
  - rewrite Forall_forall in Hf. apply Forall_forall. intros y Hy. specialize (Hf y Hy).
    unfold cmp_le, canon_lt in *. destruct (decide (CanonicalCmp x y = 0)%Z) as [H0|]; [|lia].
    apply CanonicalCmp_0 in H0 as ->; [|apply Hc; set_solver..]. by inversion Hnd.
Qed.

Lemma nsec_chain_iff st :
  store_wf st →
  existsb is_error (verifyNSECChain v st) = false ↔
    ∀ name nsec, has_nsec st name → nsec_of st name = Some nsec →
      cyc_next canon_lt (has_nsec st) name (Canonical (nsec_NextDomain nsec)).
Proof.
  intros Hwf. unfold verifyNSECChain. fold (nsec_names st). set (ns := nsec_names st).
  assert (∀ k, k ∈ ns ↔ has_nsec st k) as Hns by (intros; by apply nsec_names_elem).
  pose proof (nsec_names_sorted st Hwf) as Hsorted. fold ns in Hsorted.
  assert (∀ k, has_nsec st k → canonical k) as Hc.
  { intros k (n & Hk & _). apply (sw_nodes _ Hwf _ _ Hk). }
  destruct (bool_decide_reflect (length ns = 0)) as [H0|H0]; simpl.
  { split; [|done]. intros _ name nsec Hn. apply Hns in Hn. apply length_zero_iff_nil in H0.
    rewrite H0 in Hn. by apply elem_of_nil in Hn. }
  rewrite imap_no_error. split.
  - intros Hall name nsec Hn Hnsec. pose proof Hn as [i Hi]%Hns%list_elem_of_lookup.
    specialize (Hall i name Hi). rewrite nsec_link_ok in Hall by auto. rewrite (Hall nsec Hnsec).
    destruct (cyc_lookup ns i name Hi) as [k' Hk']. rewrite Hk'. simpl.
    apply (cyc_next_ext _ _ (has_nsec st) name k' Hns).
    apply (sorted_cyc_next canon_lt canon_lt_irrefl canon_lt_trans ns i); done.
  - intros Hall i name Hi. assert (has_nsec st name) as Hn by (apply Hns; by eapply list_elem_of_lookup_2).
    rewrite nsec_link_ok by auto. intros nsec Hnsec.
    destruct (cyc_lookup ns i name Hi) as [k' Hk']. rewrite Hk'. simpl.
    apply (cyc_next_unique canon_lt (has_nsec st) name);
      [intros; apply canon_lt_total; auto|by apply Hall|].
    apply (cyc_next_ext _ _ (has_nsec st) name k' Hns).
    apply (sorted_cyc_next canon_lt canon_lt_irrefl canon_lt_trans ns i); done.
Qed.

(** C17: the NSEC chain check passes exactly when the NSEC record of every
    name points at the next name with an NSEC record in canonical order, the
    last one at the first; the order in which the map of nodes is visited
    does not matter. *)
Theorem nsec_chain_exact st :
  store_wf st →
  existsb is_error (verifyNSECChain v st) = false ↔
    ∀ name nsec, has_nsec st name → nsec_of st name = Some nsec →
      cyc_next canon_lt (has_nsec st) name (Canonical (nsec_NextDomain nsec)).
Proof. apply nsec_chain_iff. Qed.
End chains.

(** ** Witnesses *)

Lemma nsec3_chain_exact_witness :
  let st := built "z." [toy_NSEC3 "aaaaa" "z." "bbbbb" 0 []; toy_NSEC3 "bbbbb" "z." "aaaaa" 0 []] in
  ring_hash st "aaaaa" ∧
  ∀ k r, on_ring st k r → ring_next st k (r3_Next r).
Proof.
  intros st. split; [vm_compute; eauto|].
  apply (nsec3_chain_exact (toy_verifier 0) st (mkNSEC3PARAM 1 0 0 0 "")); [apply built_hash_ok|].
  vm_compute. reflexivity.
Defined.

Definition toy_nsec_zone : list RR :=
  [toy_SOA "z." 7; toy_NSEC "z." "b.z." [TypeSOA; TypeNSEC]; toy_A "b.z." "192.0.2.1"; toy_NSEC "b.z." "z." [TypeA; TypeNSEC]].

Lemma nsec_chain_exact_witness :
  let st := built "z." toy_nsec_zone in
  nsec_NextDomain <$> nsec_of st "b.z." = Some "z." ∧
  ∀ name nsec, has_nsec st name → nsec_of st name = Some nsec →
    cyc_next canon_lt (has_nsec st) name (Canonical (nsec_NextDomain nsec)).
Proof.
  intros st. split; [vm_compute; reflexivity|].
  apply (nsec_chain_exact (toy_verifier 0) st); [apply built_wf|]. vm_compute. reflexivity.
Defined.
