(* ===== verification/Zonemd.v ===== *)
(** * ZONEMD (internal/dnssec/zonemd.go)

    The digest over a whole zone and its comparison with the ZONEMD records
    of the apex. Main results: the check draws no error exactly when every
    ZONEMD record can be computed and read and one of them carries the digest
    of the zone; the digest does not depend on the order in which the store
    is walked; and it does not depend on the digest the zone carries, so that
    a generator can write the digest it computed over a placeholder. *)

From S2P Require Import Prelude GoStrings DnsLib BTree DnsName Base32 Bytes Sha512 CanonOrder Node Store StoreSpec Config Findings Verify Toy.

(** ** [encoding/hex] *)

Definition hex_value_of (c : ascii) : option Z :=
  if in_range "0" "9" c then Some (Z_of_byte c - 48)%Z
  else if in_range "a" "f" c then Some (Z_of_byte c - 87)%Z
  else if in_range "A" "F" c then Some (Z_of_byte c - 55)%Z
  else None.

(** [hex.DecodeString]; the caller only tests whether there is an error. *)
Fixpoint hex_DecodeString (s : string) : option bytes :=
  match s with
  | "" => Some ""
  | String a (String b s) =>
      x ← hex_value_of a; y ← hex_value_of b; r ← hex_DecodeString s;
      Some (String (byte_of_Z (16 * x + y)) r)
  | String _ "" => None
  end.

Section zonemd.
Context `{DL : !DnsLib}.

(** The comparison of [ComputeZONEMD]. *)
Definition zonemd_cmp (a b : RR) : Z :=
  let na := ToLower (rr_Name a) in
  let nb := ToLower (rr_Name b) in
  if negb (bool_decide (na = nb)) then CanonicalCmp na nb
  else if negb (bool_decide (rr_Type a = rr_Type b)) then (rr_Type a - rr_Type b)%Z
  else StrCompare (RR_String a) (RR_String b).

(** An RRSIG over ZONEMD is left out; a ZONEMD counts with a zero digest. *)
Definition zonemd_omit (rr : RR) : bool :=
  match as_RRSIG rr with Some sig => bool_decide (sig_TypeCovered sig = TypeZONEMD) | None => false end.

Definition set_digest (digest : string → string) (rr : RR) : RR :=
  match rr_Data rr with
  | RD_ZONEMD z => mkRR (rr_Hdr rr) (RD_ZONEMD (mkZONEMD (zmd_Serial z) (zmd_Scheme z) (zmd_Hash z) (digest (zmd_Digest z))))
  | _ => rr
  end.

Definition placeholder (scheme : Z) (rr : RR) : RR :=
  if bool_decide (scheme = 1%Z) then set_digest (λ d, Repeat "00" (Nat.div (String.length d) 2)) rr else rr.

(** The bytes written to the hash, in order. *)
Definition zonemd_input (scheme : Z) (rrs : list RR) : result bytes :=
  foldM_result (λ h rr,
    if zonemd_omit rr then Ok h
    else w ← dns_PackRR (placeholder scheme rr) MaxMsgSize; Ok (h +:+ w)) "" (SortFunc zonemd_cmp rrs).

Definition zonemd_hash (alg : Z) : option (bytes → bytes) :=
  if bool_decide (alg = 1%Z) then Some Sum384
  else if bool_decide (alg = 2%Z) then Some Sum512
  else None.

Context `{BT : !BTree, MR : !MapRange}.

Definition ComputeZONEMD (st : Store) (scheme alg : Z) : result bytes :=
  match zonemd_hash alg with
  | None => Err ("unsupported ZONEMD hash " +:+ fmt_d alg)
  | Some h => rrs ← AllRRs st; i ← zonemd_input scheme rrs; Ok (h i)
  end.

Variable v : Verifier.

(** One round of the loop of [verifyZONEMD]: the findings, and [ok]. *)
Definition zonemd_step (st : Store) (acc : list Finding * bool) (rr : RR) : list Finding * bool :=
  let '(fs, ok) := acc in
  match as_ZONEMD rr with
  | None => acc
  | Some z =>
      match ComputeZONEMD st (zmd_Scheme z) (zmd_Hash z) with
      | Err err => (fs ++ [finding v ZONEMDMismatch Error (st_origin st) TypeZONEMD err], ok)
      | Ok digest =>
          match hex_DecodeString (zmd_Digest z) with
          | None => (fs ++ [finding v ZONEMDMismatch Error (st_origin st) TypeZONEMD "bad ZONEMD digest encoding"], ok)
          | Some want =>
              if bool_decide (hex_EncodeToString digest = ToLower (zmd_Digest z)) || bool_decide (digest = want)
              then (fs, true) else (fs, ok)
          end
      end
  end.

(** What [verifyZONEMD] adds to a result: findings, [ZONEMDChecked],
    [ZONEMDOK]. *)
Record ZonemdOut := mkZonemdOut { zo_findings : list Finding; zo_checked : bool; zo_ok : bool }.

Definition verifyZONEMD (st : Store) : ZonemdOut :=
  let mode := ToLower (vf_ZONEMD (v_cfg v)) in
  match Apex st with
  | None => mkZonemdOut [] false false
  | Some apex =>
      match UnpackType apex TypeZONEMD with
      | Err _ => mkZonemdOut [] false false
      | Ok [] =>
          mkZonemdOut
            (if bool_decide (mode = "on")
             then [finding v ZONEMDMissing Error (st_origin st) TypeZONEMD "ZONEMD required but missing"] else [])
            false false
      | Ok rrs =>
          if bool_decide (mode = "off") then mkZonemdOut [] false false
          else
            let '(fs, ok) := foldl (zonemd_step st) ([], false) rrs in
            mkZonemdOut
              (fs ++ if negb ok then [finding v ZONEMDMismatch Error (st_origin st) TypeZONEMD "ZONEMD digest mismatch"] else [])
              true ok
      end
  end.
End zonemd.

(** ** Hexadecimal *)

Lemma hex_value_digit z : (0 ≤ z < 16)%Z → hex_value_of (hex_digit z) = Some z.
Proof.
  intros Hz. assert (z ∈ Z.of_nat <$> seq 0 16) as Hin.
  { apply list_elem_of_fmap. exists (Z.to_nat z). split; [lia|]. apply elem_of_seq. lia. }
  revert Hin. clear Hz. revert z. apply Forall_forall. repeat (constructor; [reflexivity|]). constructor.
Qed.

Lemma hex_decode_encode b : hex_DecodeString (hex_EncodeToString b) = Some b.
Proof.
  induction b as [|c b IH]; [done|]. cbn [hex_EncodeToString hex_DecodeString].
  pose proof (Z_of_byte_range c) as Hc.
  rewrite !hex_value_digit by (Z.div_mod_to_equations; lia). rewrite IH. cbn [mbind option_bind].
  rewrite <-Z.div_mod by done. by rewrite (byte_of_Z_of_byte c) by (by apply Z.mod_small).
Qed.

Lemma hex_value_lower c : hex_value_of (lower_byte c) = hex_value_of c.
Proof. by destruct c as [[] [] [] [] [] [] [] []]. Qed.

Lemma hex_decode_lower s : hex_DecodeString (ToLower s) = hex_DecodeString s.
Proof.
  assert (∀ n s, String.length s ≤ n → hex_DecodeString (ToLower s) = hex_DecodeString s) as H; [|by eapply H].
  intros n. induction n as [|n IH]; intros [|a [|b s']] Hl; try done; simpl in Hl; [lia|].
  unfold ToLower in *. cbn [str_map hex_DecodeString]. rewrite !hex_value_lower, IH by lia. done.
Qed.

(** A digest matches in either of the two ways exactly when it decodes to it. *)
Lemma digest_match digest s want :
  hex_DecodeString s = Some want →
  bool_decide (hex_EncodeToString digest = ToLower s) || bool_decide (digest = want) = bool_decide (want = digest).
Proof.
  intros Hs. destruct (bool_decide_reflect (want = digest)) as [->|Hne].
  - rewrite (bool_decide_true (digest = digest)) by done. apply orb_true_r.
  - rewrite (bool_decide_false (digest = want)) by congruence. rewrite orb_false_r.
    apply bool_decide_eq_false. intros Heq. apply Hne.
    rewrite <-hex_decode_lower, <-Heq, hex_decode_encode in Hs. congruence.
Qed.

Section facts.
Context `{DL : !DnsLib, BT : !BTree}.
Implicit Types st : Store.

(** ** The check *)

Section check.
Context `{MR : !MapRange}.
Variable v : Verifier.

(** A ZONEMD record that can be computed and read, and one that matches. *)
Definition zonemd_readable (st : Store) (rr : RR) : Prop :=
  ∀ z, as_ZONEMD rr = Some z →
    is_ok (ComputeZONEMD st (zmd_Scheme z) (zmd_Hash z)) = true ∧ is_Some (hex_DecodeString (zmd_Digest z)).
Definition zonemd_matches (st : Store) (rr : RR) : Prop :=
  ∃ z digest, as_ZONEMD rr = Some z ∧ ComputeZONEMD st (zmd_Scheme z) (zmd_Hash z) = Ok digest ∧
    hex_DecodeString (zmd_Digest z) = Some digest.

Lemma zonemd_step_spec st acc rr :
  (existsb is_error (zonemd_step v st acc rr).1 = false ↔
     existsb is_error acc.1 = false ∧ zonemd_readable st rr) ∧
  ((zonemd_step v st acc rr).2 = true ↔ acc.2 = true ∨ zonemd_matches st rr).
Proof.
  destruct acc as [fs ok]. unfold zonemd_step, zonemd_readable, zonemd_matches.
  destruct (as_ZONEMD rr) as [z|]; cbn [fst snd]; [|naive_solver].
  destruct (ComputeZONEMD st (zmd_Scheme z) (zmd_Hash z)) as [digest|err] eqn:Hc; cbn [fst snd].
  2:{ rewrite existsb_app. simpl. rewrite orb_true_r.
      split; [|split; [by left|intros [?|(z' & d & [= <-] & ? & ?)]; [done|congruence]]].
      split; [done|]. intros [_ H]. destruct (H z eq_refl) as [H1 _]. by rewrite Hc in H1. }
  destruct (hex_DecodeString (zmd_Digest z)) as [want|] eqn:Hd; cbn [fst snd].
  2:{ rewrite existsb_app. simpl. rewrite orb_true_r.
      split; [|split; [by left|intros [?|(z' & d & [= <-] & ? & ?)]; [done|congruence]]].
      split; [done|]. intros [_ H]. destruct (H z eq_refl) as [_ [? H2]]. by rewrite Hd in H2. }
  rewrite (digest_match _ _ _ Hd).
  assert (∀ z', Some z = Some z' →
    is_ok (ComputeZONEMD st (zmd_Scheme z') (zmd_Hash z')) = true ∧ is_Some (hex_DecodeString (zmd_Digest z'))) as Hr.
  { intros ? [= <-]. rewrite Hc, Hd. eauto. }
  destruct (bool_decide_reflect (want = digest)) as [->|Hne]; cbn [fst snd]; (split; [tauto|]).
  - split; [intros _; right; eauto 10|done].
  - split; [by left|]. intros [?|(z' & d & ? & ? & ?)]; [done|]. congruence.
Qed.

Lemma zonemd_steps st rrs acc :
  (existsb is_error (foldl (zonemd_step v st) acc rrs).1 = false ↔
     existsb is_error acc.1 = false ∧ ∀ rr, rr ∈ rrs → zonemd_readable st rr) ∧
  ((foldl (zonemd_step v st) acc rrs).2 = true ↔ acc.2 = true ∨ ∃ rr, rr ∈ rrs ∧ zonemd_matches st rr).
Proof.
  revert acc. induction rrs as [|rr rrs IH]; intros acc; cbn [foldl].
  { split; [split; [by split; [|intros ? ?%elem_of_nil]|tauto]|].
    split; [by left|]. by intros [?|(? & ?%elem_of_nil & _)]. }
  destruct (zonemd_step_spec st acc rr) as [S1 S2]. destruct (IH (zonemd_step v st acc rr)) as [I1 I2].
  rewrite I1, I2, S1, S2. setoid_rewrite elem_of_cons. naive_solver.
Qed.

(** The ZONEMD records the check looks at. *)
Definition zonemd_records (st : Store) : list RR :=
  match Apex st with
  | Some apex => match UnpackType apex TypeZONEMD with Ok rrs => rrs | Err _ => [] end
  | None => []
  end.

Definition zonemd_passes (st : Store) : Prop :=
  match zonemd_records st with
  | [] => ToLower (vf_ZONEMD (v_cfg v)) = "on" →
      match Apex st with Some apex => is_ok (UnpackType apex TypeZONEMD) = false | None => True end
  | rrs => ToLower (vf_ZONEMD (v_cfg v)) = "off" ∨
      (∀ rr, rr ∈ rrs → zonemd_readable st rr) ∧ ∃ rr, rr ∈ rrs ∧ zonemd_matches st rr
  end.

Lemma verifyZONEMD_errors st :
  existsb is_error (zo_findings (verifyZONEMD v st)) = false ↔ zonemd_passes st.
Proof.
  unfold zonemd_passes, zonemd_records, verifyZONEMD. destruct (Apex st) as [apex|]; [|by split].
  destruct (UnpackType apex TypeZONEMD) as [[|rr rrs]|]; [|clear|by split].
  { case_bool_decide; simpl; [split; [done|intros H'; by specialize (H' H)]|by split]. }
  case_bool_decide as Hoff; [simpl; split; [by left|done]|].
  pose proof (zonemd_steps st (rr :: rrs) ([], false)) as H.
  destruct (foldl _ _ _) as [fs ok]. destruct H as [H1 H2]. cbn [zo_findings fst snd] in *.
  rewrite existsb_app, orb_false_iff, H1.
  assert (existsb is_error (if negb ok then [finding v ZONEMDMismatch Error (st_origin st) TypeZONEMD "ZONEMD digest mismatch"] else [])
    = false ↔ ok = true) as -> by (by destruct ok).
  rewrite H2. naive_solver.
Qed.

(** C24: the ZONEMD check draws no error exactly when it should: without
    ZONEMD records at the apex, unless they are required; with some, if the
    check is off, or if every one of them names a supported hash and has a
    well-formed digest, and one of them carries the digest of the zone. *)
Theorem zonemd_exact st :
  existsb is_error (zo_findings (verifyZONEMD v st)) = false ↔ zonemd_passes st.
Proof. apply verifyZONEMD_errors. Qed.
End check.

(** ** The order of the records *)

Context `{NL : !DnsNameLaws}.

(** A record with a fully qualified name, as names from the wire are. *)
Definition fq_record (rr : RR) : Prop := canonical (ToLower (rr_Name rr)).

Lemma zonemd_cmp_on : CmpOn fq_record zonemd_cmp.
Proof.
  split.
  - intros a b Ha Hb. unfold zonemd_cmp.
    rewrite (bool_decide_ext (ToLower (rr_Name b) = ToLower (rr_Name a)) (ToLower (rr_Name a) = ToLower (rr_Name b))) by done.
    rewrite (bool_decide_ext (rr_Type b = rr_Type a) (rr_Type a = rr_Type b)) by done.
    destruct (bool_decide_reflect (ToLower (rr_Name a) = ToLower (rr_Name b))); cbn [negb];
      [|apply (cmp_sym (cmp := CanonicalCmp))].
    destruct (bool_decide_reflect (rr_Type a = rr_Type b)); cbn [negb]; [apply (cmp_sym (cmp := StrCompare))|lia].
  - intros a b c Ha Hb Hc. unfold zonemd_cmp.
    assert (∀ x y, fq_record x → fq_record y → ToLower (rr_Name x) ≠ ToLower (rr_Name y) →
      (CanonicalCmp (ToLower (rr_Name x)) (ToLower (rr_Name y)) ≤ 0)%Z →
      labels_lt (root_labels (ToLower (rr_Name x))) (root_labels (ToLower (rr_Name y)))) as Hlt.
    { intros x y Hx Hy Hne Hle. apply (proj1 (CanonicalCmp_sgn _ _)).
      destruct (decide (CanonicalCmp (ToLower (rr_Name x)) (ToLower (rr_Name y)) = 0)%Z) as [H0|]; [|lia].
      by apply CanonicalCmp_0 in H0. }
    destruct (bool_decide_reflect (ToLower (rr_Name a) = ToLower (rr_Name b))) as [Eab|Eab];
    destruct (bool_decide_reflect (ToLower (rr_Name b) = ToLower (rr_Name c))) as [Ebc|Ebc]; cbn [negb].
    + rewrite (bool_decide_true (ToLower (rr_Name a) = ToLower (rr_Name c))) by congruence. cbn [negb].
      destruct (bool_decide_reflect (rr_Type a = rr_Type b)) as [Tab|Tab];
      destruct (bool_decide_reflect (rr_Type b = rr_Type c)) as [Tbc|Tbc]; cbn [negb].
      * rewrite (bool_decide_true (rr_Type a = rr_Type c)) by congruence. cbn [negb]. apply (cmp_trans (cmp := StrCompare)).
      * rewrite (bool_decide_false (rr_Type a = rr_Type c)) by congruence. cbn [negb]. lia.
      * rewrite (bool_decide_false (rr_Type a = rr_Type c)) by congruence. cbn [negb]. lia.
      * intros. rewrite (bool_decide_false (rr_Type a = rr_Type c)) by lia. cbn [negb]. lia.
    + rewrite (bool_decide_false (ToLower (rr_Name a) = ToLower (rr_Name c))) by congruence. cbn [negb]. intros _. by rewrite Eab.
    + rewrite (bool_decide_false (ToLower (rr_Name a) = ToLower (rr_Name c))) by congruence. cbn [negb]. intros H _. by rewrite <-Ebc.
    + intros H1 H2. pose proof (labels_lt_trans _ _ _ (Hlt a b Ha Hb Eab H1) (Hlt b c Hb Hc Ebc H2)) as H3.
      rewrite (bool_decide_false (ToLower (rr_Name a) = ToLower (rr_Name c))).
      * cbn [negb]. apply (proj1 (CanonicalCmp_sgn _ _)) in H3. lia.
      * intros Heq. rewrite Heq in H3. by apply labels_lt_irrefl in H3.
Qed.

(** Texts tell the records apart. *)
Definition text_inj (rrs : list RR) : Prop :=
  ∀ a b, a ∈ rrs → b ∈ rrs → RR_String a = RR_String b → a = b.

Lemma zonemd_input_perm scheme l1 l2 :
  Forall fq_record l1 → text_inj l1 → l1 ≡ₚ l2 → zonemd_input scheme l1 = zonemd_input scheme l2.
Proof.
  intros Hfq Hinj Hp. unfold zonemd_input. f_equal.
  apply (SortFunc_unique_on fq_record _ zonemd_cmp_on); [done| |done].
  intros a b Ha Hb. unfold zonemd_cmp. rewrite Forall_forall in Hfq.
  destruct (bool_decide_reflect (ToLower (rr_Name a) = ToLower (rr_Name b))) as [En|En]; cbn [negb].
  2:{ intros H0. apply CanonicalCmp_0 in H0; [done|by apply Hfq..]. }
  destruct (bool_decide_reflect (rr_Type a = rr_Type b)) as [Et|Et]; cbn [negb]; [|lia].
  intros H0%StrCompare_0. by apply Hinj.
Qed.

(** The order in which the nodes are visited only permutes the records. *)
Lemma AllRRs_perm (MR1 MR2 : MapRange) st rrs :
  @AllRRs DL BT MR1 st = Ok rrs → ∃ rrs', @AllRRs DL BT MR2 st = Ok rrs' ∧ rrs ≡ₚ rrs'.
Proof.
  unfold AllRRs, ForEachNode. rewrite !foldM_app.
  assert (∀ l1 l2, l1 ≡ₚ l2 → ∀ zs, mapM_result Node_AllRRs l1 = Ok zs →
    ∃ zs', mapM_result Node_AllRRs l2 = Ok zs' ∧ zs ≡ₚ zs') as Hm.
  { clear. intros l1 l2 Hp. induction Hp as [|x l1 l2 Hp IH|x y l|l1 l2 l3 _ IH1 _ IH2]; intros zs; simpl.
    - intros [= <-]. by exists [].
    - destruct (Node_AllRRs x) as [z|]; simpl; [|done].
      destruct (mapM_result Node_AllRRs l1) as [zs1|]; simpl; [|done]. intros [= <-].
      destruct (IH zs1 eq_refl) as (zs2 & -> & Hzs). exists (z :: zs2). split; [done|by constructor].
    - destruct (Node_AllRRs x), (Node_AllRRs y); simpl; try done.
      destruct (mapM_result Node_AllRRs l) as [zs1|]; simpl; [|done]. intros [= <-].
      eexists. split; [done|constructor].
    - intros H. destruct (IH1 _ H) as (zs2 & H2 & P2). destruct (IH2 _ H2) as (zs3 & H3 & P3).
      exists zs3. split; [done|by etrans]. }
  destruct (mapM_result _ _) as [zs|] eqn:E; [|done]. simpl. intros [= <-].
  destruct (λ Hp, Hm _ ((@range MR2 _ _ _ _ (st_nodes st)).*2) Hp _ E) as (zs' & -> & Hzs).
  { apply fmap_Permutation. by rewrite !range_perm. }
  simpl. eexists. split; [done|]. by rewrite Hzs.
Qed.

(** the ZONEMD digest does not depend on the order in which the map of
    nodes is visited, for a zone whose names are fully qualified and whose
    records are told apart by their texts. *)
Theorem zonemd_order (MR1 MR2 : MapRange) st rrs scheme alg :
  @AllRRs DL BT MR1 st = Ok rrs → Forall fq_record rrs → text_inj rrs →
  @ComputeZONEMD DL BT MR1 st scheme alg = @ComputeZONEMD DL BT MR2 st scheme alg.
Proof.
  intros H1 Hfq Hinj. destruct (AllRRs_perm MR1 MR2 st rrs H1) as (rrs' & H2 & Hp).
  unfold ComputeZONEMD. destruct (zonemd_hash alg) as [h|]; [|done]. rewrite H1, H2. cbn [mbind result_bind].
  by rewrite (zonemd_input_perm scheme rrs rrs').
Qed.

(** ** Writing the digest into the zone *)

(** Records of type ZONEMD are the ones with ZONEMD data, and there is at
    most one. *)
Definition one_zonemd (rrs : list RR) : Prop :=
  (∀ rr, rr ∈ rrs → is_Some (as_ZONEMD rr) ↔ rr_Type rr = TypeZONEMD) ∧
  (∀ a b, a ∈ rrs → b ∈ rrs → rr_Type a = TypeZONEMD → rr_Type b = TypeZONEMD → a = b).

Lemma set_digest_other f rr : ¬ is_Some (as_ZONEMD rr) → set_digest f rr = rr.
Proof. unfold as_ZONEMD, set_digest. destruct rr as [h d]. destruct d; try done. intros H. by destruct H. Qed.

Lemma zonemd_cmp_digest rrs d a b :
  one_zonemd rrs → a ∈ rrs → b ∈ rrs →
  (zonemd_cmp (set_digest (λ _, d) a) (set_digest (λ _, d) b) ≤ 0 ↔ zonemd_cmp a b ≤ 0)%Z.
Proof.
  intros [Hty Hone] Ha Hb.
  assert (∀ rr, rr_Hdr (set_digest (λ _, d) rr) = rr_Hdr rr) as Hh.
  { intros rr. unfold set_digest. by destruct (rr_Data rr). }
  unfold zonemd_cmp, rr_Name, rr_Type. rewrite !Hh.
  destruct (negb (bool_decide (ToLower (h_Name (rr_Hdr a)) = _))); [done|].
  destruct (bool_decide_reflect (h_Rrtype (rr_Hdr a) = h_Rrtype (rr_Hdr b))) as [Et|Et]; cbn [negb]; [|done].
  destruct (decide (rr_Type a = TypeZONEMD)) as [Hz|Hz].
  - rewrite (Hone a b) by (unfold rr_Type in *; congruence). rewrite !(proj2 (StrCompare_0 _ _)) by done. done.
  - rewrite !set_digest_other; [done| |].
    + rewrite (Hty b Hb). unfold rr_Type in *. congruence.
    + by rewrite (Hty a Ha).
Qed.

(** the digest of a zone does not depend on the digest its ZONEMD record
    carries (scheme SIMPLE, one ZONEMD record, a digest of the same length):
    what a generator computes over a placeholder is what the verifier
    computes once the digest is written into the record. *)
Theorem zonemd_placeholder rrs d :
  one_zonemd rrs →
  (∀ rr z, rr ∈ rrs → as_ZONEMD rr = Some z → String.length (zmd_Digest z) = String.length d) →
  zonemd_input 1 (set_digest (λ _, d) <$> rrs) = zonemd_input 1 rrs.
Proof.
  intros Hone Hlen. unfold zonemd_input.
  rewrite SortFunc_fmap_on by (intros; by eapply zonemd_cmp_digest).
  apply foldM_fmap_ext. intros h rr Hrr%elem_of_SortFunc.
  specialize (Hlen rr). unfold zonemd_omit, as_RRSIG, placeholder, set_digest, as_ZONEMD in *.
  destruct rr as [hd dt]. cbn [rr_Data rr_Hdr] in *. rewrite bool_decide_true by done.
  destruct dt; try done. cbn [rr_Data rr_Hdr zmd_Serial zmd_Scheme zmd_Hash zmd_Digest].
  by rewrite (Hlen _ Hrr eq_refl).
Qed.
End facts.

(** ** Witnesses *)

Definition toy_ZONEMD (digest : string) : RR :=
  mkRR (hdr "z." TypeZONEMD) (RD_ZONEMD (mkZONEMD 7 1 1 digest)).
Definition toy_digest : string :=
  "466c3ad7f66262b0ca3b3bb9b5f9f4335ab8a8d2e2067b3a6a67829d7a028f696db83c792590dd0fc079d12fbef09e29".

Example toy_zonemd_ok : zo_ok (verifyZONEMD (toy_verifier 0) (built "z." [toy_SOA "z." 7; toy_ZONEMD toy_digest])) = true.
Proof. vm_compute. reflexivity. Qed.

Lemma toy_text_inj rrs : text_inj rrs.
Proof.
  intros a b _ _ H. simpl in H. unfold toy_wire in H.
  apply (f_equal (λ w, fields_rr (unesc w))) in H. rewrite !unesc_all, !fields_rr_fields in H. congruence.
Qed.

Lemma zonemd_order_witness :
  @ComputeZONEMD _ _ map_range_rev (built "z." toy_zone) 1 2 = ComputeZONEMD (built "z." toy_zone) 1 2.
Proof.
  destruct (@AllRRs _ _ map_range_rev (built "z." toy_zone)) as [rrs|] eqn:E; [|by vm_compute in E].
  refine (zonemd_order map_range_rev _ _ rrs 1 2 E _ (toy_text_inj rrs)).
  vm_compute in E. injection E as <-. repeat constructor.
Defined.

Lemma zonemd_placeholder_witness :
  zonemd_input 1 (toy_ZONEMD toy_digest :: toy_zone) = zonemd_input 1 (toy_ZONEMD (Repeat "00" 48) :: toy_zone).
Proof.
  refine (zonemd_placeholder (toy_ZONEMD (Repeat "00" 48) :: toy_zone) toy_digest _ _).
  - split.
    + intros rr Hrr. unfold toy_zone in Hrr.
      repeat (apply elem_of_cons in Hrr as [->|Hrr]; [split; [try (by intros [? ?])|try done]; vm_compute; eauto|]).
      by apply elem_of_nil in Hrr.
    + intros a b Ha Hb. unfold toy_zone in Ha, Hb.
      repeat (apply elem_of_cons in Ha as [->|Ha]; [try done|]); [|by apply elem_of_nil in Ha].
      repeat (apply elem_of_cons in Hb as [->|Hb]; [try done|]). by apply elem_of_nil in Hb.
  - intros rr z Hrr Hz. unfold toy_zone in Hrr.
    repeat (apply elem_of_cons in Hrr as [->|Hrr]; [try done|]); [|by apply elem_of_nil in Hrr].
    injection Hz as <-. vm_compute. reflexivity.
Defined.
