(* ===== verification/Hygiene.v ===== *)
(** * Hygiene, and what the checks report (internal/dnssec/hygiene.go)

    The hygiene check looks for outdated practice and only ever warns. The
    second half classifies the findings of every check of the package: each
    code has one severity, a check of a node reports the node's own name,
    and all findings of a pass carry the date of the pass. The driver's
    theorems need this to know that findings of different nodes do not
    replace each other. *)

From S2P Require Import Prelude Cycle GoStrings Decimal DnsLib BTree DnsName Base32 CanonOrder Node Store StoreSpec Config Findings Keys Verify Nsec Zonemd Toy.

Section hygiene.
Context `{DL : !DnsLib, BT : !BTree, MR : !MapRange}.
Variable v : Verifier.
Implicit Types st : Store.

Abbreviation finding := (finding v).

(** The part of [hygiene] that looks at NSEC3PARAM. *)
Definition hygiene_nsec3 (st : Store) (p : NSEC3PARAM_rdata) : list Finding :=
  let h := vf_Hygiene (v_cfg v) in
  let optout := existsb (λ rec, bool_decide (Z.land (r3_Flags rec) 1 = 1%Z)) (ForEachNSEC3 st) in
  let deleg := foldl (λ d n, if n_IsDelegation n then (d + 1)%Z else d) 0%Z (ForEachNode st) in
  (if (hy_NSEC3MaxIterations h <? n3p_Iterations p)%Z then
     [finding NSEC3IterationsNonzero Warning (st_origin st) TypeNSEC3PARAM
        ("NSEC3 iterations=" +:+ fmt_d (n3p_Iterations p) +:+ " (RFC 9276 recommends 0)")] else []) ++
  (if hy_WarnNSEC3Salt h && negb (bool_decide (n3p_Salt p = "")) && negb (bool_decide (n3p_Salt p = "-")) then
     [finding NSEC3SaltPresent Warning (st_origin st) TypeNSEC3PARAM "NSEC3 salt present (RFC 9276 recommends empty)"]
   else []) ++
  (if optout && bool_decide (deleg = 0%Z) then
     [finding NSEC3OptOutZeroDeleg Warning (st_origin st) TypeNSEC3PARAM "NSEC3 opt-out with no delegations"]
   else []).

Definition hygiene (st : Store) (keys : list CachedKey) : list Finding :=
  let h := vf_Hygiene (v_cfg v) in
  let deprecated : gset string := list_to_set (ToUpper <$> hy_DeprecatedAlgorithms h) in
  (match NSEC3PARAM st with Some p => hygiene_nsec3 st p | None => [] end) ++
  omap (λ k,
    let name := algName (ck_Alg k) in
    if in_set (ToUpper name) deprecated then
      Some (finding DeprecatedAlgorithm Warning (st_origin st) TypeDNSKEY
              ("DNSKEY algorithm " +:+ name +:+ " keytag " +:+ fmt_d (ck_KeyTag k)))
    else None) keys ++
  omap (λ k,
    if ck_IsZone k && negb (ck_IsKSK k) && negb (ck_Used k) then
      Some (finding DNSKEYUnused Warning (st_origin st) TypeDNSKEY
              ("zone key " +:+ fmt_d (ck_KeyTag k) +:+ " signs nothing"))
    else None) keys.
End hygiene.

(** ** Codes and severities *)

Definition hygiene_codes : list string :=
  [NSEC3IterationsNonzero; NSEC3SaltPresent; DeprecatedAlgorithm; DNSKEYUnused; NSEC3OptOutZeroDeleg].
Definition warning_codes : list string := hygiene_codes ++ [RRSIGTTLMismatch; RRSIGExpiringSoon].
(** Codes of the checks of a node, of the apex keys, and of the whole zone. *)
Definition node_codes : list string :=
  [RRSIGMissing; RRSIGInvalid; RRSIGExpired; RRSIGNotYetValid; RRSIGUnknownKey; RRSIGLabelsMismatch;
   RRSIGTTLMismatch; RRSIGExpiringSoon; NSECMissing; NSEC3Missing; NSECBitmapMismatch; NSEC3BitmapMismatch;
   NSEC3OptOutViolation].
Definition key_codes : list string := [KeytagCollisionLimit; DNSKEYNotSignedByKSK].
Definition zone_codes : list string :=
  [NSECChainBroken; NSEC3ChainBroken; NSEC3PARAMMismatch; ZONEMDMismatch; ZONEMDMissing; SOASerialMismatch] ++
  warning_codes.

Definition severity_of (code : string) : Severity :=
  if existsb (λ c, bool_decide (c = code)) warning_codes then Warning else Error.

(** A finding of this pass, with one of the codes, graded by its code. *)
Record made (v : Verifier) (codes : list string) (f : Finding) : Prop := {
  md_code : f_Code f ∈ codes;
  md_severity : f_Severity f = severity_of (f_Code f);
  md_first : f_FirstSeen f = v_wall v;
  md_last : f_LastSeen f = v_wall v
}.

Lemma made_finding `{DL : !DnsLib} v codes code sev owner t msg :
  code ∈ codes → sev = severity_of code → made v codes (Verify.finding v code sev owner t msg).
Proof. by intros Hc ->. Qed.

Lemma made_weaken v c1 c2 f : c1 ⊆ c2 → made v c1 f → made v c2 f.
Proof. intros Hs []. split; [by apply Hs|done..]. Qed.

(** Every element of a list of findings is one of those at hand. *)
Ltac made_tac :=
  repeat match goal with
  | H : _ ∈ [] |- _ => by apply elem_of_nil in H
  | H : _ ∈ _ ++ _ |- _ => apply elem_of_app in H as [H|H]
  | H : _ ∈ _ :: _ |- _ => apply elem_of_cons in H as [->|H]
  | H : _ ∈ (if ?b then _ else _) |- _ => destruct b
  | H : _ ∈ (match ?o with _ => _ end) |- _ => destruct o
  end;
  try (apply made_finding; [unfold node_codes, key_codes, zone_codes, warning_codes, hygiene_codes; set_solver|reflexivity]).

Section made.
Context `{DL : !DnsLib, BT : !BTree}.
Variable v : Verifier.
Implicit Types st : Store.

Lemma sig_step_made n set keys rrs s sig :
  (∀ f, f ∈ sg_findings s → made v node_codes f ∧ f_Owner f = n_Name n) →
  ∀ f, f ∈ sg_findings (sig_step v n set keys rrs s sig) → made v node_codes f ∧ f_Owner f = n_Name n.
Proof.
  intros Hs f. unfold sig_step. cbv zeta.
  destruct (try_keys 0 keys sig _ rrs) as [m tried].
  destruct (negb (bool_decide (cs_Labels sig = wantLabels (n_Name n))));
    (destruct (u32 (now32 v + skew32 v) <? cs_Inception sig)%Z; [|destruct (u32 (cs_Expiration sig + skew32 v) <? now32 v)%Z;
      [|destruct (hy_Enabled (vf_Hygiene (v_cfg v)) && _ && _), ((0 <? warn32 v)%Z && _ && _), m]]);
    cbn [sg_findings]; intros Hf;
    repeat (apply elem_of_app in Hf as [Hf|Hf]); try (by apply Hs);
    apply list_elem_of_singleton in Hf as ->; (split; [made_tac|done]).
Qed.

(** What a check of a node reports. *)
Definition node_made (n : Node) (fs : list Finding) : Prop :=
  ∀ f, f ∈ fs → made v node_codes f ∧ f_Owner f = n_Name n.

Lemma node_made_nil n : node_made n [].
Proof. by intros f ?%elem_of_nil. Qed.
Lemma node_made_app n l1 l2 : node_made n l1 → node_made n l2 → node_made n (l1 ++ l2).
Proof. intros H1 H2 f [Hf|Hf]%elem_of_app; auto. Qed.
Lemma node_made_one n code sev t msg :
  code ∈ node_codes → sev = severity_of code → node_made n [finding v code sev (n_Name n) t msg].
Proof. intros Hc Hs f ->%list_elem_of_singleton. split; [by apply made_finding|done]. Qed.

Ltac node_made_tac :=
  repeat (case_match; simplify_eq); first [apply node_made_nil |
    apply node_made_one; [unfold node_codes; set_solver|reflexivity]].

Lemma verifyRRSet_made n set keys : node_made n (o_findings (verifyRRSet v n set keys)).
Proof.
  unfold verifyRRSet. destruct (bool_decide _); [cbn; unfold out_nil, out_findings; node_made_tac|].
  destruct (Unpack set (n_Name n)) as [rrs|err]; [|unfold out_findings; cbn [o_findings]; node_made_tac].
  cbn [o_findings]. apply node_made_app.
  - apply (foldl_inv (λ s, node_made n (sg_findings s))); [apply node_made_nil|].
    intros s sig _ Hs. exact (sig_step_made n set keys rrs s sig Hs).
  - destruct (sg_ok _); cbn [negb]; [apply node_made_nil|]. destruct (_ && _); node_made_tac.
Qed.

Lemma verifySets_made n keys : node_made n (o_findings (verifySets v n keys)).
Proof.
  unfold verifySets. apply (foldl_inv (λ o, node_made n (o_findings o))); [apply node_made_nil|].
  intros o set _ Ho. destruct (_ || _); [done|]. cbn [out_app o_findings].
  apply node_made_app; [done|apply verifyRRSet_made].
Qed.

Lemma checkNSECPresence_made st n : node_made n (checkNSECPresence v st n).
Proof. unfold checkNSECPresence. node_made_tac. Qed.
Lemma checkNSEC3Presence_made st n p : node_made n (checkNSEC3Presence v st n p).
Proof. unfold checkNSEC3Presence. cbv zeta. node_made_tac. Qed.

Lemma verifyNode_made st n keys : node_made n (o_findings (verifyNode v st n keys)).
Proof.
  unfold verifyNode. cbv zeta.
  assert (node_made n (o_findings (if isAuthoritative st n then verifySets v n keys else out_nil))) as Ho.
  { destruct (isAuthoritative st n); [apply verifySets_made|apply node_made_nil]. }
  destruct (NSEC3PARAM st) as [p|].
  - cbn [out_app o_findings out_findings]. apply node_made_app; [done|apply checkNSEC3Presence_made].
  - destruct (negb _); [|done]. cbn [out_app o_findings out_findings].
    apply node_made_app; [done|apply checkNSECPresence_made].
Qed.

(** The checks of the apex keys and of the whole zone. *)
Definition all_made (codes : list string) (fs : list Finding) : Prop := ∀ f, f ∈ fs → made v codes f.

Lemma all_made_nil codes : all_made codes [].
Proof. by intros f ?%elem_of_nil. Qed.
Lemma all_made_app codes l1 l2 : all_made codes l1 → all_made codes l2 → all_made codes (l1 ++ l2).
Proof. intros H1 H2 f [Hf|Hf]%elem_of_app; auto. Qed.
Lemma all_made_one codes code sev owner t msg :
  code ∈ codes → sev = severity_of code → all_made codes [finding v code sev owner t msg].
Proof. intros Hc Hs f ->%list_elem_of_singleton. by apply made_finding. Qed.
Lemma all_made_omap {A} codes (g : A → option Finding) l :
  (∀ x f, g x = Some f → made v codes f) → all_made codes (omap g l).
Proof. intros Hg f (x & _ & Hx)%list_elem_of_omap. by eapply Hg. Qed.
Lemma all_made_imap {A} codes (g : nat → A → list Finding) l :
  (∀ i x, all_made codes (g i x)) → all_made codes (mjoin (imap g l)).
Proof. intros Hg f (y & Hf & (i & x & -> & _)%elem_of_lookup_imap)%list_elem_of_join. by eapply Hg. Qed.

Ltac all_made_tac :=
  repeat (case_match; simplify_eq); first [apply all_made_nil |
    apply all_made_one; [unfold key_codes, zone_codes, warning_codes, hygiene_codes; set_solver|reflexivity]].

Lemma checkDNSKEYSignedByKSK_made st keys : all_made key_codes (o_findings (checkDNSKEYSignedByKSK v st keys)).
Proof.
  unfold checkDNSKEYSignedByKSK. destruct (Apex st) as [apex|]; [|apply all_made_nil].
  destruct (Node_Set apex TypeDNSKEY) as [set|]; [|apply all_made_nil].
  destruct (Unpack set (n_Name apex)); [|apply all_made_nil]. cbn [o_findings]. all_made_tac.
Qed.

Lemma verifyNSEC3Chain_made st p : all_made zone_codes (verifyNSEC3Chain v st p).
Proof.
  unfold verifyNSEC3Chain. cbv zeta. apply all_made_app; [all_made_tac|].
  destruct (bool_decide _); [apply all_made_nil|]. apply all_made_imap. intros i h. unfold nsec3_link. all_made_tac.
Qed.

Context `{MR : !MapRange}.

Lemma checkKeytagCollisions_made origin keys : all_made key_codes (checkKeytagCollisions v origin keys).
Proof.
  unfold checkKeytagCollisions. cbv zeta. apply all_made_omap. intros [tag k] f.
  destruct (3 <? k)%Z; [|done]. intros [= <-]. apply made_finding; [unfold key_codes; set_solver|done].
Qed.

Lemma verifyNSECChain_made st : all_made zone_codes (verifyNSECChain v st).
Proof.
  unfold verifyNSECChain. cbv zeta. destruct (bool_decide _); [apply all_made_nil|]. apply all_made_imap.
  intros i h. unfold nsec_link. all_made_tac.
Qed.

Lemma verifyZONEMD_made st : all_made zone_codes (zo_findings (verifyZONEMD v st)).
Proof.
  unfold verifyZONEMD. destruct (Apex st) as [apex|]; [|apply all_made_nil].
  destruct (UnpackType apex TypeZONEMD) as [[|rr rrs]|]; [|clear|apply all_made_nil].
  { cbn [zo_findings]. all_made_tac. }
  destruct (bool_decide _); [apply all_made_nil|].
  assert (all_made zone_codes (foldl (zonemd_step v st) ([], false) (rr :: rrs)).1) as Hf.
  { apply (foldl_inv (λ a, all_made zone_codes a.1)); [apply all_made_nil|].
    intros [fs ok] x _ Ha. unfold zonemd_step. cbn [fst] in Ha.
    repeat (case_match; simplify_eq; try done); cbn [fst]; (apply all_made_app; [done|]);
      (apply all_made_one; [unfold zone_codes, warning_codes, hygiene_codes; set_solver|reflexivity]). }
  destruct (foldl _ _ _) as [fs ok]. cbn [zo_findings fst] in *. apply all_made_app; [done|]. all_made_tac.
Qed.

Lemma hygiene_made st keys : all_made hygiene_codes (hygiene v st keys).
Proof.
  unfold hygiene. cbv zeta. repeat apply all_made_app.
  - destruct (NSEC3PARAM st) as [p|]; [|apply all_made_nil]. unfold hygiene_nsec3. cbv zeta.
    repeat apply all_made_app; destruct_ifs; first [apply all_made_nil |
      apply all_made_one; [unfold hygiene_codes; set_solver|reflexivity]].
  - apply all_made_omap. intros k f. destruct (in_set _ _); [|done]. intros [= <-].
    apply made_finding; [unfold hygiene_codes; set_solver|done].
  - apply all_made_omap. intros k f. destruct (_ && _); [|done]. intros [= <-].
    apply made_finding; [unfold hygiene_codes; set_solver|done].
Qed.

(** Warnings are no errors. *)
Lemma warnings_no_error fs : all_made warning_codes fs → existsb is_error fs = false.
Proof.
  intros Hm. apply not_true_iff_false. rewrite existsb_elem_of. intros (f & Hf & He%bool_decide_eq_true).
  destruct (Hm f Hf) as [Hc Hs _ _]. rewrite Hs in He. unfold severity_of in He.
  rewrite (proj2 (existsb_elem_of _ _)) in He; [done|]. exists (f_Code f). split; [done|]. by apply bool_decide_eq_true.
Qed.
End made.

(** ** Keys of findings *)

(** The groups of codes do not overlap. *)
Lemma codes_disjoint :
  Forall (λ c, c ∉ node_codes) (key_codes ++ hygiene_codes ++ [NSECChainBroken; NSEC3ChainBroken]).
Proof. apply (bool_decide_unpack _). vm_compute. exact I. Qed.

Lemma codes_no_pipe code : code ∈ node_codes ++ key_codes ++ zone_codes → no_byte "|" code.
Proof.
  revert code. apply Forall_forall. unfold node_codes, key_codes, zone_codes, warning_codes, hygiene_codes.
  repeat (constructor; [vm_compute; repeat split; discriminate|]). constructor.
Qed.

Lemma fmt_d_no_pipe z : no_byte "|" (fmt_d z).
Proof.
  unfold fmt_d. destruct z as [|p|p]; [by apply (fmt_d_no_byte "|" 0)|by apply (fmt_d_no_byte "|" (Z.pos p))|].
  change (pretty (Z.neg p)) with ("-" +:+ pretty (N.pos p)). apply no_byte_app. split; [by vm_compute|].
  by apply (fmt_d_no_byte "|" (Z.pos p)).
Qed.

(** Findings under one key have the same code and the same owner. *)
Lemma Key_code_owner v codes f g :
  codes ⊆ node_codes ++ key_codes ++ zone_codes → made v codes f → made v codes g → Key f = Key g →
  f_Code f = f_Code g ∧ f_Owner f = f_Owner g.
Proof.
  intros Hs Hf Hg. unfold Key. intros Heq.
  apply first_sep_inj in Heq as [Hc Heq]; [|by apply codes_no_pipe, Hs, (md_code _ _ _ Hf)|by apply codes_no_pipe, Hs, (md_code _ _ _ Hg)].
  split; [done|]. by apply (last_sep_inj "|" (f_Owner f) (f_Owner g)) in Heq as [Ho _]; [|apply fmt_d_no_pipe..].
Qed.
