(* ===== verification/Pool.v ===== *)
(** * The worker pool of a full pass (internal/dnssec/verify.go)

    [Full] hands the nodes to goroutines through a channel; each collects
    its findings in a set of its own and merges it into the result, under a
    mutex, when the channel is drained. Here the pool is a transition
    system: a worker's step either takes the next node and checks it, or
    finds the channel empty and merges. A schedule is the sequence of the
    workers that step. Main results, for any function that checks a node:
    every run can be completed and takes exactly one step per node and one
    per worker; the set, the counters and the used keys at the end do not
    depend on the schedule. *)

From S2P Require Import Prelude GoStrings Decimal DnsLib DnsName BTree Base32 Node Store Findings Keys Verify Toy.

(** ** Sets of findings of one pass *)

(** The last finding added under a key. *)
Definition last_with (k : string) (fs : list Finding) : option Finding :=
  List.find (λ f, bool_decide (Key f = k)) (rev fs).

Definition fresh (wall : Time) (f : Finding) : Prop := f_FirstSeen f = wall ∧ f_LastSeen f = wall.
Definition fresh_set (wall : Time) (s : FSet) : Prop := ∀ k f, s !! k = Some f → Key f = k ∧ fresh wall f.

Lemma last_with_nil k : last_with k [] = None.
Proof. done. Qed.

Lemma last_with_snoc k fs f : last_with k (fs ++ [f]) = if bool_decide (Key f = k) then Some f else last_with k fs.
Proof. unfold last_with. by rewrite rev_unit. Qed.

Lemma last_with_elem k fs f : last_with k fs = Some f → f ∈ fs ∧ Key f = k.
Proof.
  intros [Hf Hk%bool_decide_eq_true]%find_Some_elem. by rewrite elem_of_rev in Hf.
Qed.

Lemma last_with_None k fs : last_with k fs = None ↔ ∀ f, f ∈ fs → Key f ≠ k.
Proof.
  unfold last_with. rewrite find_None_elem. setoid_rewrite elem_of_rev.
  by setoid_rewrite bool_decide_eq_false.
Qed.

Lemma last_with_is_Some k fs f : f ∈ fs → Key f = k → is_Some (last_with k fs).
Proof.
  intros Hf Hk. destruct (last_with k fs) eqn:E; [by eexists|].
  rewrite last_with_None in E. by apply E in Hf.
Qed.

Lemma dated_fresh wall old f : fresh wall f → (∀ o, old = Some o → fresh wall o) → dated wall old f = f.
Proof.
  intros [H1 H2] Ho. unfold dated. destruct old as [o|]; [|done]. destruct (Ho o eq_refl) as [H3 _].
  destruct f as [? ? ? ? ? ? a b]. cbn in *. subst a b. rewrite H3.
  by destruct (IsZero _).
Qed.

Lemma AddAll_fresh wall s fs :
  fresh_set wall s → (∀ f, f ∈ fs → fresh wall f) →
  fresh_set wall (AddAll wall s fs) ∧
  ∀ k, AddAll wall s fs !! k = match last_with k fs with Some f => Some f | None => s !! k end.
Proof.
  intros Hs. induction fs as [|f fs IH] using rev_ind; intros Hf; [done|].
  rewrite AddAll_app. unfold AddAll at 1 3. cbn [foldl].
  destruct IH as [Hs1 Hk1]; [intros; apply Hf; set_solver|].
  rewrite Add_dated, dated_fresh; [|apply Hf; set_solver|intros o Ho; by apply (Hs1 _ _ Ho)].
  split.
  - intros k g [[<- <-]|[_ Hg]]%lookup_insert_Some; [split; [done|apply Hf; set_solver]|by apply Hs1].
  - intros k. rewrite last_with_snoc. destruct (bool_decide_reflect (Key f = k)) as [<-|Hne].
    + by rewrite lookup_insert_eq.
    + by rewrite lookup_insert_ne, Hk1.
Qed.

Lemma last_with_List `{MR : !MapRange} wall s k : fresh_set wall s → last_with k (FSet_List s) = s !! k.
Proof.
  intros Hs. destruct (last_with k (FSet_List s)) as [f|] eqn:E.
  - apply last_with_elem in E as [[k' Hk']%elem_of_range_snd Hk].
    pose proof (Hs _ _ Hk') as [Heq _]. congruence.
  - rewrite last_with_None in E. destruct (s !! k) as [f|] eqn:Hk; [|done].
    exfalso. apply (E f); [apply elem_of_range_snd; eauto|by apply Hs].
Qed.

Lemma List_fresh `{MR : !MapRange} wall s : fresh_set wall s → ∀ f, f ∈ FSet_List s → fresh wall f.
Proof. intros Hs f [k Hk]%elem_of_range_snd. by apply (Hs _ _ Hk). Qed.

(** ** The pool *)

(** A goroutine: its local set and counter, until it has merged them. *)
Inductive Worker := Working (local : FSet) (locNSEC3 : Z) | Done.

Record Pool := mkPool {
  p_jobs : list Node;
  p_workers : list Worker;
  p_findings : FSet;
  p_verified : Z;
  p_nsec3 : Z;
  p_used : list nat
}.

Definition is_done (w : Worker) : bool := match w with Done => true | Working _ _ => false end.
Definition wcount (w : Worker) : Z := match w with Done => 0 | Working _ c => c end.

Section pool.
Context `{MR : !MapRange}.
Variable wall : Time.
Variable check : Node → Out.
Variable counted : Node → bool.

(** One step of worker [i]; [None] if there is none it can take. *)
Definition worker_step (i : nat) (p : Pool) : option Pool :=
  match p_workers p !! i with
  | Some (Working local c) =>
      match p_jobs p with
      | n :: jobs =>
          let o := check n in
          Some (mkPool jobs
            (<[i := Working (AddAll wall local (o_findings o)) (if counted n then c + 1 else c)%Z]> (p_workers p))
            (p_findings p) (p_verified p + o_checked o) (p_nsec3 p) (p_used p ++ o_used o))
      | [] =>
          Some (mkPool [] (<[i := Done]> (p_workers p))
            (AddAll wall (p_findings p) (FSet_List local)) (p_verified p) (p_nsec3 p + c) (p_used p))
      end
  | _ => None
  end.

Fixpoint run (sched : list nat) (p : Pool) : option Pool :=
  match sched with
  | [] => Some p
  | i :: sched => p' ← worker_step i p; run sched p'
  end.

(** [wg.Wait()] returns. *)
Definition wg_done (p : Pool) : bool := forallb is_done (p_workers p).

Definition pool0 (nodes : list Node) (workers : nat) (base : FSet) (used : list nat) : Pool :=
  mkPool nodes (replicate workers (Working NewSet 0)) base 0 0 used.

Lemma run_app s1 s2 p : run (s1 ++ s2) p = (p' ← run s1 p; run s2 p').
Proof.
  revert p. induction s1 as [|i s1 IH]; intros p; [done|]. simpl.
  destruct (worker_step i p); [apply IH|done].
Qed.

(** *** Progress and termination *)

(** The steps left. *)
Definition measure (p : Pool) : nat :=
  length (p_jobs p) + length (List.filter (λ w, negb (is_done w)) (p_workers p)).

Lemma filter_insert_length {A} (f : A → bool) l i x y :
  l !! i = Some x →
  length (List.filter f (<[i := y]> l)) + (if f x then 1 else 0) =
  length (List.filter f l) + (if f y then 1 else 0).
Proof.
  revert i. induction l as [|z l IH]; intros [|i]; simpl; [done..| |].
  - intros [= ->]. destruct (f x), (f y); simpl; lia.
  - intros Hi. specialize (IH i Hi). destruct (f z); simpl; lia.
Qed.

Lemma worker_step_measure i p p' : worker_step i p = Some p' → measure p = S (measure p').
Proof.
  unfold worker_step, measure. destruct (p_workers p !! i) as [[l c|]|] eqn:Hi; [|done..].
  destruct (p_jobs p) as [|n jobs]; intros [= <-]; cbn [p_jobs p_workers length].
  - pose proof (filter_insert_length (λ w, negb (is_done w)) _ _ _ Done Hi). simpl in *. lia.
  - pose proof (filter_insert_length (λ w, negb (is_done w)) _ _ _
      (Working (AddAll wall l (o_findings (check n))) (if counted n then c + 1 else c)%Z) Hi). simpl in *. lia.
Qed.

Lemma run_measure sched p p' : run sched p = Some p' → measure p = length sched + measure p'.
Proof.
  revert p. induction sched as [|i sched IH]; intros p; simpl; [by intros [= <-]|].
  destruct (worker_step i p) as [p1|] eqn:E; [|done]. simpl. intros H. apply IH in H.
  apply worker_step_measure in E. lia.
Qed.

Lemma wg_done_measure p : measure p = 0 → wg_done p = true.
Proof.
  unfold measure, wg_done. intros H. apply forallb_elem_of. intros w Hw.
  destruct (is_done w) eqn:E; [done|].
  assert (w ∈ List.filter (λ w, negb (is_done w)) (p_workers p)) as Hin by (apply elem_of_filter_b; by rewrite E).
  destruct (List.filter _ _); [by apply elem_of_nil in Hin|]. simpl in H. lia.
Qed.

(** A pool that still has a worker can go on to its end. *)
Lemma run_complete p :
  wg_done p = false ∨ p_jobs p = [] →
  ∃ sched p', run sched p = Some p' ∧ wg_done p' = true ∧ length sched = measure p.
Proof.
  remember (measure p) as m eqn:Hm. revert p Hm. induction m as [|m IH]; intros p Hm Hp.
  { exists [], p. split_and!; [done|by apply wg_done_measure|done]. }
  assert (∃ i l c, p_workers p !! i = Some (Working l c)) as (i & l & c & Hi).
  { destruct (wg_done p) eqn:E.
    - destruct Hp as [?|Hj]; [done|]. exfalso. unfold measure in Hm. rewrite Hj in Hm. simpl in Hm.
      unfold wg_done in E. rewrite forallb_elem_of in E. rewrite filter_all_false in Hm; [done|].
      intros w Hw. by rewrite (E w Hw).
    - apply not_true_iff_false in E. unfold wg_done in E. rewrite forallb_elem_of in E.
      destruct (List.find (λ w, negb (is_done w)) (p_workers p)) as [w|] eqn:Hf.
      + apply find_Some_elem in Hf as [[i Hi]%list_elem_of_lookup Hw]. destruct w as [l c|]; [|done]. eauto.
      + rewrite find_None_elem in Hf. destruct E. intros w Hw. apply Hf in Hw. by destruct (is_done w). }
  destruct (worker_step i p) as [p1|] eqn:E.
  2:{ unfold worker_step in E. rewrite Hi in E. by destruct (p_jobs p). }
  pose proof (worker_step_measure _ _ _ E) as Hm1.
  destruct (IH p1) as (sched & p' & Hr & Hd & Hl); [lia| |].
  - unfold worker_step in E. rewrite Hi in E. destruct (p_jobs p) as [|n jobs]; injection E as <-; [by right|].
    left. apply not_true_iff_false. unfold wg_done. rewrite forallb_elem_of. intros H.
    specialize (H (Working (AddAll wall l (o_findings (check n))) (if counted n then c + 1 else c)%Z)).
    discriminate H. cbn [p_workers]. apply list_elem_of_lookup. exists i. apply list_lookup_insert_eq.
    by eapply lookup_lt_Some.
  - exists (i :: sched), p'. split_and!; [simpl; by rewrite E|done|simpl; lia].
Qed.

(** A worker is only done once the channel is drained. *)
Definition done_drained (p : Pool) : Prop := ∀ i, p_workers p !! i = Some Done → p_jobs p = [].

Lemma run_drained sched p p' :
  done_drained p → run sched p = Some p' → done_drained p' ∧ length (p_workers p') = length (p_workers p).
Proof.
  revert p. induction sched as [|i sched IH]; intros p Hp; simpl; [by intros [= <-]|].
  unfold worker_step. destruct (p_workers p !! i) as [[l c|]|] eqn:Hi; [|done..].
  destruct (p_jobs p) as [|n jobs] eqn:Hj; cbn [mbind option_bind]; intros Hr; apply IH in Hr.
  - cbn [p_workers] in Hr. by rewrite length_insert in Hr.
  - by intros j _.
  - cbn [p_workers] in Hr. by rewrite length_insert in Hr.
  - intros j. cbn [p_workers p_jobs]. intros Hd. destruct (decide (j = i)) as [->|Hne].
    + rewrite list_lookup_insert_eq in Hd by (by eapply lookup_lt_Some). done.
    + rewrite list_lookup_insert_ne in Hd by done. apply Hp in Hd. congruence.
Qed.

Lemma pool_finishes sched nodes workers base used p :
  0 < workers → run sched (pool0 nodes workers base used) = Some p →
  ∃ rest p', run (sched ++ rest) (pool0 nodes workers base used) = Some p' ∧ wg_done p' = true ∧
    length (sched ++ rest) = length nodes + workers.
Proof.
  intros Hw Hr. destruct (run_drained sched (pool0 nodes workers base used) p) as [Hd Hl]; [|done|].
  { by intros i [? _]%lookup_replicate_1. }
  cbn [pool0 p_workers] in Hl. rewrite length_replicate in Hl.
  destruct (run_complete p) as (rest & p' & Hr' & Hd' & Hlen).
  { destruct (wg_done p) eqn:D; [right|by left]. unfold wg_done in D. rewrite forallb_elem_of in D.
    destruct (lookup_lt_is_Some_2 (p_workers p) 0) as [w Hi]; [lia|].
    apply (Hd 0). rewrite Hi. f_equal. apply list_elem_of_lookup_2, D in Hi. by destruct w. }
  exists rest, p'. split_and!; [by rewrite run_app, Hr|done|].
  apply run_measure in Hr. rewrite length_app, Hlen, <-Hr.
  unfold measure, pool0. cbn [p_jobs p_workers]. f_equal. clear. induction workers; simpl; auto.
Qed.
End pool.

(** ** What a run computes *)

Section result.
Context `{MR : !MapRange}.
Variable wall : Time.
Variable check : Node → Out.
Variable counted : Node → bool.
Variable nodes : list Node.
Variable base : FSet.
Variable used0 : list nat.
Variable workers : nat.

Abbreviation out n := (o_findings (check n)).

(** Findings of this pass; different nodes, and the findings made before the
    pool starts, have different keys. *)
Hypothesis fresh_base : fresh_set wall base.
Hypothesis fresh_out : ∀ n f, n ∈ nodes → f ∈ out n → fresh wall f.
Hypothesis nodes_NoDup : NoDup nodes.
Hypothesis out_disj : ∀ n m f g, n ∈ nodes → m ∈ nodes → f ∈ out n → g ∈ out m → Key f = Key g → n = m.
Hypothesis base_disj : ∀ n f, n ∈ nodes → f ∈ out n → base !! Key f = None.

Record pool_inv (taken : list Node) (p : Pool) : Prop := {
  iv_split : nodes = taken ++ p_jobs p;
  iv_local_fresh : ∀ i l c, p_workers p !! i = Some (Working l c) → fresh_set wall l;
  iv_fresh : fresh_set wall (p_findings p);
  iv_local : ∀ i l c k f, p_workers p !! i = Some (Working l c) → l !! k = Some f →
    ∃ n, n ∈ taken ∧ last_with k (out n) = Some f;
  iv_findings : ∀ k f, p_findings p !! k = Some f →
    base !! k = Some f ∨ ∃ n, n ∈ taken ∧ last_with k (out n) = Some f;
  iv_taken : ∀ n k f, n ∈ taken → last_with k (out n) = Some f →
    p_findings p !! k = Some f ∨ ∃ i l c, p_workers p !! i = Some (Working l c) ∧ l !! k = Some f;
  iv_base : ∀ k f, base !! k = Some f → p_findings p !! k = Some f;
  iv_verified : p_verified p = sum_list_Z ((λ n, o_checked (check n)) <$> taken);
  iv_nsec3 : (p_nsec3 p + sum_list_Z (wcount <$> p_workers p))%Z =
    sum_list_Z ((λ n, if counted n then 1 else 0)%Z <$> taken);
  iv_used : ∀ j, j ∈ p_used p ↔ j ∈ used0 ∨ ∃ n, n ∈ taken ∧ j ∈ o_used (check n);
  iv_done : ∀ i, p_workers p !! i = Some Done → p_jobs p = [];
  iv_workers : length (p_workers p) = workers
}.

Lemma last_with_disj n m k f g :
  n ∈ nodes → m ∈ nodes → last_with k (out n) = Some f → last_with k (out m) = Some g → n = m.
Proof.
  intros Hn Hm [Hf Hkf]%last_with_elem [Hg Hkg]%last_with_elem. apply (out_disj n m f g); congruence.
Qed.

Lemma sum_insert l i (x y : Z) :
  l !! i = Some x → sum_list_Z (<[i := y]> l) = (sum_list_Z l - x + y)%Z.
Proof.
  revert i. induction l as [|z l IH]; intros [|i]; simpl; [done..|intros [= ->]; lia|].
  intros Hi. rewrite (IH i Hi). lia.
Qed.

Lemma sum_snoc l x : sum_list_Z (l ++ [x]) = (sum_list_Z l + x)%Z.
Proof. induction l as [|y l IH]; simpl; lia. Qed.

Lemma pool0_inv : pool_inv [] (pool0 nodes workers base used0).
Proof.
  assert (∀ i l c, replicate workers (Working NewSet 0) !! i = Some (Working l c) → l = NewSet) as Hw.
  { intros i l c [H _]%lookup_replicate_1. by injection H. }
  split; cbn [pool0 p_jobs p_workers p_findings p_verified p_nsec3 p_used]; try done.
  - intros i l c Hi. rewrite (Hw _ _ _ Hi). intros k f. unfold NewSet. by rewrite lookup_empty.
  - intros i l c k f Hi. rewrite (Hw _ _ _ Hi). unfold NewSet. by rewrite lookup_empty.
  - by left.
  - by intros n k f ?%elem_of_nil.
  - assert (∀ n, sum_list_Z (wcount <$> replicate n (Working NewSet 0)) = 0%Z) as ->; [|done].
    intros n. induction n as [|n IH]; [done|exact IH].
  - intros j. split; [by left|]. by intros [?|(n & ?%elem_of_nil & _)].
  - by intros i [? _]%lookup_replicate_1.
  - apply length_replicate.
Qed.

(** A worker takes a node. *)
Lemma take_inv taken p i l c n jobs :
  pool_inv taken p → p_workers p !! i = Some (Working l c) → p_jobs p = n :: jobs →
  let o := check n in
  pool_inv (taken ++ [n])
    (mkPool jobs (<[i := Working (AddAll wall l (o_findings o)) (if counted n then c + 1 else c)%Z]> (p_workers p))
       (p_findings p) (p_verified p + o_checked o) (p_nsec3 p) (p_used p ++ o_used o)).
Proof.
  intros [I1 I2 I3 I4 I5 I6 I7 I8 I9 I10 I11 I12] Hi Hj. cbv zeta. rewrite Hj in I1.
  assert (n ∈ nodes) as Hn by (rewrite I1; set_solver).
  assert (∀ m, m ∈ taken → m ∈ nodes ∧ m ≠ n) as Htk.
  { intros m Hm. rewrite I1 in nodes_NoDup. apply NoDup_app in nodes_NoDup as (_ & Hd & _).
    split; [rewrite I1; set_solver|]. intros ->. apply (Hd n Hm). set_solver. }
  destruct (AddAll_fresh wall l (out n)) as [Hfr Hlk]; [by eapply I2|intros f; by apply fresh_out|].
  assert (i < length (p_workers p)) as Hlen by (by eapply lookup_lt_Some).
  assert (∀ i' l' c', <[i := Working (AddAll wall l (out n)) (if counted n then c + 1 else c)%Z]> (p_workers p) !! i'
    = Some (Working l' c') → (i' = i ∧ l' = AddAll wall l (out n)) ∨ p_workers p !! i' = Some (Working l' c')) as Hws.
  { intros i' l' c'. destruct (decide (i' = i)) as [->|Hne].
    - rewrite list_lookup_insert_eq by done. intros [= <- <-]. by left.
    - rewrite list_lookup_insert_ne by done. by right. }
  split; cbn [p_jobs p_workers p_findings p_verified p_nsec3 p_used]; try done.
  - by rewrite I1, <-app_assoc.
  - intros i' l' c' [[-> ->]|H]%Hws; [done|by eapply I2].
  - intros i' l' c' k f [[-> ->]|H]%Hws Hk.
    + rewrite Hlk in Hk. destruct (last_with k (out n)) as [g|] eqn:E.
      * injection Hk as ->. exists n. set_solver.
      * destruct (I4 i l c k f Hi Hk) as (m & Hm & Hf). exists m. set_solver.
    + destruct (I4 i' l' c' k f H Hk) as (m & Hm & Hf). exists m. set_solver.
  - intros k f Hk. destruct (I5 k f Hk) as [?|(m & Hm & Hf)]; [by left|]. right. exists m. set_solver.
  - intros m k f Hm Hf. apply elem_of_app in Hm as [Hm| ->%list_elem_of_singleton].
    + destruct (I6 m k f Hm Hf) as [?|(i' & l' & c' & Hi' & Hl')]; [by left|]. right.
      destruct (decide (i' = i)) as [->|Hne].
      * assert (l' = l) as -> by congruence. eexists i, _, _. split; [by apply list_lookup_insert_eq|].
        rewrite Hlk. destruct (last_with k (out n)) as [g|] eqn:E; [|done].
        destruct (Htk m Hm) as [Hmn Hne]. destruct Hne. by eapply last_with_disj.
      * exists i', l', c'. by rewrite list_lookup_insert_ne.
    + right. eexists i, _, _. split; [by apply list_lookup_insert_eq|]. by rewrite Hlk, Hf.
  - rewrite fmap_app. cbn. by rewrite sum_snoc, I8.
  - rewrite fmap_app. cbn. rewrite sum_snoc, <-I9, list_fmap_insert.
    rewrite (sum_insert _ i c); [|by rewrite list_lookup_fmap, Hi]. cbn. destruct (counted n); lia.
  - intros j. rewrite elem_of_app, I10. setoid_rewrite elem_of_app. setoid_rewrite list_elem_of_singleton. naive_solver.
  - intros i' Hd. destruct (decide (i' = i)) as [->|Hne].
    + by rewrite list_lookup_insert_eq in Hd.
    + rewrite list_lookup_insert_ne in Hd by done. apply I11 in Hd. by rewrite Hj in Hd.
  - by rewrite length_insert.
Qed.

(** A worker merges its findings. *)
Lemma merge_inv taken p i l c :
  pool_inv taken p → p_workers p !! i = Some (Working l c) → p_jobs p = [] →
  pool_inv taken
    (mkPool [] (<[i := Done]> (p_workers p)) (AddAll wall (p_findings p) (FSet_List l))
       (p_verified p) (p_nsec3 p + c) (p_used p)).
Proof.
  intros [I1 I2 I3 I4 I5 I6 I7 I8 I9 I10 I11 I12] Hi Hj. rewrite Hj, app_nil_r in I1. subst taken.
  pose proof (I2 _ _ _ Hi) as Hlf.
  destruct (AddAll_fresh wall (p_findings p) (FSet_List l)) as [Hfr Hlk]; [done|by apply List_fresh|].
  setoid_rewrite (last_with_List wall l _ Hlf) in Hlk.
  assert (i < length (p_workers p)) as Hlen by (by eapply lookup_lt_Some).
  assert (∀ i' l' c', <[i := Done]> (p_workers p) !! i' = Some (Working l' c') →
    i' ≠ i ∧ p_workers p !! i' = Some (Working l' c')) as Hws.
  { intros i' l' c'. destruct (decide (i' = i)) as [->|Hne]; [by rewrite list_lookup_insert_eq|].
    by rewrite list_lookup_insert_ne. }
  split; cbn [p_jobs p_workers p_findings p_verified p_nsec3 p_used]; try done.
  - by rewrite app_nil_r.
  - intros i' l' c' [_ H]%Hws. by eapply I2.
  - intros i' l' c' k f [_ H]%Hws Hk. by eapply I4.
  - intros k f Hk. rewrite Hlk in Hk. destruct (l !! k) as [g|] eqn:E; [|by apply I5].
    injection Hk as ->. right. by eapply I4.
  - intros n k f Hn Hf. destruct (I6 n k f Hn Hf) as [Hk|(i' & l' & c' & Hi' & Hl')].
    + left. rewrite Hlk. destruct (l !! k) as [g|] eqn:E; [|done]. f_equal.
      destruct (I4 _ _ _ _ _ Hi E) as (m & Hm & Hg).
      assert (m = n) as -> by (by eapply last_with_disj). congruence.
    + destruct (decide (i' = i)) as [->|Hne].
      * left. assert (l' = l) as -> by congruence. by rewrite Hlk, Hl'.
      * right. exists i', l', c'. by rewrite list_lookup_insert_ne.
  - intros k f Hk. rewrite Hlk. destruct (l !! k) as [g|] eqn:E; [|by apply I7].
    destruct (I4 _ _ _ _ _ Hi E) as (m & Hm & [Hg <-]%last_with_elem).
    by rewrite (base_disj m g Hm Hg) in Hk.
  - rewrite <-I9, list_fmap_insert. rewrite (sum_insert _ i c); [|by rewrite list_lookup_fmap, Hi]. cbn. lia.
  - by rewrite length_insert.
Qed.

Lemma run_inv sched p p' taken :
  pool_inv taken p → run wall check counted sched p = Some p' → ∃ taken', pool_inv taken' p'.
Proof.
  revert p taken. induction sched as [|i sched IH]; intros p taken Hp; simpl; [intros [= <-]; eauto|].
  unfold worker_step. destruct (p_workers p !! i) as [[l c|]|] eqn:Hi; [|done..].
  destruct (p_jobs p) as [|n jobs] eqn:Hj; simpl; intros Hr.
  - eapply IH; [|exact Hr]. by apply merge_inv.
  - eapply IH; [|exact Hr]. by eapply take_inv.
Qed.

Lemma sum_done ws : forallb is_done ws = true → sum_list_Z (wcount <$> ws) = 0%Z.
Proof. induction ws as [|[l c|] ws IH]; [done|done|]. intros H. exact (IH H). Qed.

(** The result of a complete run, which no schedule can change. *)
Lemma pool_result sched p :
  0 < workers →
  run wall check counted sched (pool0 nodes workers base used0) = Some p → wg_done p = true →
  (∀ k f, p_findings p !! k = Some f ↔ base !! k = Some f ∨ ∃ n, n ∈ nodes ∧ last_with k (out n) = Some f) ∧
  fresh_set wall (p_findings p) ∧
  p_verified p = sum_list_Z ((λ n, o_checked (check n)) <$> nodes) ∧
  p_nsec3 p = sum_list_Z ((λ n, if counted n then 1 else 0)%Z <$> nodes) ∧
  (∀ j, j ∈ p_used p ↔ j ∈ used0 ∨ ∃ n, n ∈ nodes ∧ j ∈ o_used (check n)).
Proof.
  intros Hw Hr Hd. destruct (run_inv _ _ _ _ pool0_inv Hr) as [taken [I1 I2 I3 I4 I5 I6 I7 I8 I9 I10 I11 I12]].
  unfold wg_done in Hd. pose proof (sum_done _ Hd) as Hs. rewrite forallb_elem_of in Hd.
  assert (∀ i w, p_workers p !! i = Some w → w = Done) as Hall.
  { intros i w Hi. apply list_elem_of_lookup_2, Hd in Hi. by destruct w. }
  assert (p_jobs p = []) as Hj.
  { destruct (lookup_lt_is_Some_2 (p_workers p) 0) as [w Hi]; [lia|].
    rewrite (Hall _ _ Hi) in Hi. by eapply I11. }
  rewrite Hj, app_nil_r in I1. subst taken. split_and!; [|done|done|lia|done].
  intros k f. split; [apply I5|]. intros [?|(n & Hn & Hf)]; [by apply I7|].
  destruct (I6 n k f Hn Hf) as [?|(i & l & c & Hi & _)]; [done|]. by apply Hall in Hi.
Qed.
End result.
