(* ===== verification/Full.v ===== *)
(** * Full verification (internal/dnssec/verify.go)

    The driver of a pass: apex, keys, the pool of workers over all nodes,
    the chain of denial of existence, ZONEMD and hygiene. A schedule of the
    workers is a parameter; the result is [None] when the schedule stops
    before all of them are done. The duration of the pass is not kept. Main
    results: every schedule gives the same result, every started pass can be
    finished in exactly one step per node and worker, and a zone is declared
    valid exactly when all the checks, stated without iteration, pass. *)

From S2P Require Import Prelude Cycle GoStrings Decimal DnsLib BTree DnsName Base32 CanonOrder Node Store StoreSpec StoreTouch StoreRing Config Findings Keys Verify Nsec NsecChain Zonemd Hygiene Pool Toy.

(** [Result], without its [Duration]. *)
Record Result := mkResult {
  r_Findings : FSet;
  r_Mode : string;
  r_Valid : bool;
  r_Unsigned : bool;
  r_RRSIGsVerified : Z;
  r_NSEC3Checked : Z;
  r_ZONEMDChecked : bool;
  r_ZONEMDOK : bool;
  r_EarliestExpiry : Z
}.

Section full.
Context `{DL : !DnsLib, BT : !BTree, MR : !MapRange}.
Variable v : Verifier.
Implicit Types st : Store.

Abbreviation finding := (finding v).

Definition collectNodes (st : Store) : list Node := ForEachNode st.

(** A result that stops early. *)
Definition early (fs : list Finding) (mode : string) (valid unsigned : bool) : Result :=
  mkResult (AddAll (v_wall v) NewSet fs) mode valid unsigned 0 0 false false 0.

(** Which nodes count as checked for NSEC3. *)
Definition counts_nsec3 (st : Store) (n : Node) : bool :=
  bool_decide (is_Some (NSEC3PARAM st)) && negb (isNSEC3Owner (n_Name n) (st_origin st)).

(** The findings made before the workers start, and the pool they start. *)
Definition full_base (st : Store) (cached : list CachedKey) : FSet :=
  AddAll (v_wall v) NewSet
    (checkKeytagCollisions v (st_origin st) cached ++ o_findings (checkDNSKEYSignedByKSK v st cached)).

Definition full_pool (st : Store) (cached : list CachedKey) : Pool :=
  pool0 (collectNodes st) (Z.to_nat (workers v)) (full_base st cached)
    (o_used (checkDNSKEYSignedByKSK v st cached)).

Definition full_run (sched : list nat) (st : Store) (cached : list CachedKey) : option Pool :=
  run (v_wall v) (λ n, verifyNode v st n cached) (counts_nsec3 st) sched (full_pool st cached).

(** What follows [wg.Wait()]. *)
Definition chain_findings (st : Store) : list Finding :=
  match NSEC3PARAM st with Some p => verifyNSEC3Chain v st p | None => verifyNSECChain v st end.

Definition hygiene_findings (st : Store) (cached : list CachedKey) : list Finding :=
  if hy_Enabled (vf_Hygiene (v_cfg v)) then hygiene v st cached else [].

Definition full_finish (st : Store) (cached : list CachedKey) (p : Pool) : Result :=
  let z := verifyZONEMD v st in
  let fs := AddAll (v_wall v) (p_findings p)
    (chain_findings st ++ zo_findings z ++ hygiene_findings st (mark_used cached (p_used p))) in
  mkResult fs "full" (negb (HasErrors fs)) false (p_verified p) (p_nsec3 p) (zo_checked z) (zo_ok z) (EarliestExpiry st).

Definition has_SOA (st : Store) : bool := match Apex st with Some apex => Has apex TypeSOA | None => false end.

Definition Full (sched : list nat) (st : Store) : option Result :=
  if negb (has_SOA st) then
    Some (early [finding SOASerialMismatch Error (st_origin st) TypeSOA "zone has no SOA"] "full" false false)
  else
    match DNSKEYs st with
    | Err _ | Ok [] => Some (early [] "full" true true)
    | Ok keys =>
        match cacheKeys keys with
        | Err err => Some (early [finding RRSIGInvalid Error (st_origin st) TypeDNSKEY err] "full" false false)
        | Ok cached =>
            p ← full_run sched st cached;
            if wg_done p then Some (full_finish st cached p) else None
        end
    end.
End full.

(** ** One pass *)

Section facts.
Context `{DL : !DnsLib, BT : !BTree, MR : !MapRange}.
Variable v : Verifier.
Implicit Types st : Store.

Lemma node_names st : store_wf st → n_Name <$> ForEachNode st = (range (st_nodes st)).*1.
Proof.
  intros Hwf. unfold ForEachNode. rewrite <-list_fmap_compose. apply list_fmap_ext.
  intros i [k n] Hi%list_elem_of_lookup_2%elem_of_range. apply (sw_nodes _ Hwf _ _ Hi).
Qed.

Lemma elem_of_nodes st n : store_wf st → n ∈ ForEachNode st ↔ st_nodes st !! n_Name n = Some n.
Proof.
  intros Hwf. unfold ForEachNode. rewrite elem_of_range_snd. split; [|eauto].
  intros [k Hk]. by rewrite (nw_name _ _ _ (sw_nodes _ Hwf _ _ Hk)).
Qed.

Lemma nodes_NoDup st : store_wf st → NoDup (ForEachNode st).
Proof. intros Hwf. apply (NoDup_fmap_1 n_Name). rewrite node_names by done. apply NoDup_fst_range. Qed.

Lemma made_fresh codes f : made v codes f → fresh (v_wall v) f.
Proof. intros []. by split. Qed.

Definition all_codes : list string := node_codes ++ key_codes ++ zone_codes.
Definition fset_made (s : FSet) : Prop := ∀ k f, s !! k = Some f → Key f = k ∧ made v all_codes f.

Lemma fset_made_fresh s : fset_made s → fresh_set (v_wall v) s.
Proof. intros Hs k f Hk. destruct (Hs k f Hk). split; [done|by eapply made_fresh]. Qed.

Lemma AddAll_made s fs : fset_made s → all_made v all_codes fs → fset_made (AddAll (v_wall v) s fs).
Proof.
  intros Hs Hfs k f Hk.
  destruct (AddAll_fresh (v_wall v) s fs) as [_ Hl].
  { by apply fset_made_fresh. } { intros g Hg. by eapply made_fresh, Hfs. }
  rewrite Hl in Hk. destruct (last_with k fs) as [g|] eqn:E; [|by apply Hs].
  injection Hk as ->. apply last_with_elem in E as [Hf Hkf]. split; [done|by apply Hfs].
Qed.

Lemma NewSet_made : fset_made NewSet.
Proof. intros k f. unfold NewSet. by rewrite lookup_empty. Qed.

Lemma all_made_weaken c1 c2 fs : c1 ⊆ c2 → all_made v c1 fs → all_made v c2 fs.
Proof. intros Hs Hf f Hin. by eapply made_weaken, Hf. Qed.

(** Errors of a set that grows by findings of this pass. *)
Lemma HasErrors_made s fs :
  fset_made s → all_made v all_codes fs → HasErrors (AddAll (v_wall v) s fs) = HasErrors s || existsb is_error fs.
Proof.
  intros Hs Hfs. apply HasErrors_AddAll.
  - intros g k f Hg Hk Hf. destruct (Hs k f Hf) as [Hkf Hmf]. pose proof (Hfs g Hg) as Hmg.
    destruct (Key_code_owner v all_codes f g) as [Hc _]; [done..|congruence|].
    by rewrite (md_severity _ _ _ Hmf), (md_severity _ _ _ Hmg), Hc.
  - intros f g Hf Hg Hk. destruct (Key_code_owner v all_codes f g) as [Hc _]; [done|by apply Hfs..|done|].
    by rewrite (md_severity _ _ _ (Hfs f Hf)), (md_severity _ _ _ (Hfs g Hg)), Hc.
Qed.

Lemma HasErrors_NewSet : HasErrors NewSet = false.
Proof. apply not_true_iff_false. rewrite HasErrors_spec. intros (k & f & Hk & _). unfold NewSet in Hk. by rewrite lookup_empty in Hk. Qed.

(** The set of findings before the workers start. *)
Lemma full_base_made st cached : fset_made (full_base v st cached) ∧
  ∀ k f, full_base v st cached !! k = Some f → made v key_codes f.
Proof.
  set (fs := checkKeytagCollisions v (st_origin st) cached ++ o_findings (checkDNSKEYSignedByKSK v st cached)).
  assert (all_made v key_codes fs) as Hm.
  { apply all_made_app; [apply checkKeytagCollisions_made|apply checkDNSKEYSignedByKSK_made]. }
  split.
  - apply AddAll_made; [apply NewSet_made|]. eapply all_made_weaken, Hm. unfold all_codes. set_solver.
  - intros k f Hk. unfold full_base in Hk. fold fs in Hk.
    destruct (AddAll_fresh (v_wall v) NewSet fs) as [_ Hl].
    { apply fset_made_fresh, NewSet_made. } { intros g Hg. by eapply made_fresh, Hm. }
    rewrite Hl in Hk. destruct (last_with k fs) as [g|] eqn:E.
    + injection Hk as ->. apply last_with_elem in E as [Hf _]. by apply Hm.
    + unfold NewSet in Hk. by rewrite lookup_empty in Hk.
Qed.

Lemma workers_pos : 0 < Z.to_nat (workers v).
Proof. unfold workers. destruct_ifs; rewrite ?Z.ltb_lt, ?Z.ltb_ge in *; lia. Qed.

(** What the pool of a pass computes, whatever the schedule. *)
Lemma full_run_result sched st cached p :
  store_wf st → full_run v sched st cached = Some p → wg_done p = true →
  let out n := o_findings (verifyNode v st n cached) in
  (∀ k f, p_findings p !! k = Some f ↔
    full_base v st cached !! k = Some f ∨ ∃ n, n ∈ ForEachNode st ∧ last_with k (out n) = Some f) ∧
  fset_made (p_findings p) ∧
  p_verified p = sum_list_Z ((λ n, o_checked (verifyNode v st n cached)) <$> ForEachNode st) ∧
  p_nsec3 p = sum_list_Z ((λ n, if counts_nsec3 st n then 1 else 0)%Z <$> ForEachNode st) ∧
  (∀ j, j ∈ p_used p ↔ j ∈ o_used (checkDNSKEYSignedByKSK v st cached) ∨
    ∃ n, n ∈ ForEachNode st ∧ j ∈ o_used (verifyNode v st n cached)).
Proof.
  intros Hwf Hr Hd. cbv zeta. destruct (full_base_made st cached) as [Hb1 Hb2].
  assert (∀ n f, f ∈ o_findings (verifyNode v st n cached) → made v node_codes f ∧ f_Owner f = n_Name n) as Hout.
  { intros n. apply verifyNode_made. }
  destruct (pool_result (v_wall v) (λ n, verifyNode v st n cached) (counts_nsec3 st) (ForEachNode st)
    (full_base v st cached) (o_used (checkDNSKEYSignedByKSK v st cached)) (Z.to_nat (workers v))) with (sched := sched) (p := p)
    as (R1 & R2 & R3 & R4 & R5); [| | | | |apply workers_pos|done|done|].
  - by apply fset_made_fresh.
  - intros n f _ Hf. by eapply made_fresh, Hout.
  - by apply nodes_NoDup.
  - intros n m f g Hn Hm Hf Hg Hk. apply elem_of_nodes in Hn; [|done]. apply elem_of_nodes in Hm; [|done].
    destruct (Hout n f Hf) as [Mf Of], (Hout m g Hg) as [Mg Og].
    destruct (Key_code_owner v node_codes f g) as [_ Ho]; [set_solver|done..|]. congruence.
  - intros n f _ Hf. destruct (full_base v st cached !! Key f) as [g|] eqn:Hg; [|done]. exfalso.
    destruct (Hout n f Hf) as [Mf _]. pose proof (Hb2 _ _ Hg) as Mg. destruct (Hb1 _ _ Hg) as [Hkg Mg'].
    destruct (Key_code_owner v all_codes g f) as [Hc _]; [done|done| |done|].
    { eapply made_weaken, Mf. unfold all_codes. set_solver. }
    pose proof (md_code _ _ _ Mf) as C1. pose proof (md_code _ _ _ Mg) as C2. rewrite Hc in C2.
    pose proof codes_disjoint as Hdis. rewrite Forall_forall in Hdis. apply (Hdis (f_Code f)); [set_solver|done].
  - split_and!; [done| |done..]. intros k f Hk. destruct (R2 k f Hk) as [Hkf _]. split; [done|].
    apply R1 in Hk as [Hk|(n & _ & [Hf _]%last_with_elem)]; [by apply (Hb1 _ _ Hk)|].
    eapply made_weaken, (Hout n f Hf). unfold all_codes. set_solver.
Qed.

(** C2: the result of a full pass does not depend on how its goroutines are
    scheduled: any two schedules that run to completion give the same
    findings, counters and verdict. *)
Theorem Full_schedule s1 s2 st r1 r2 :
  store_wf st → Full v s1 st = Some r1 → Full v s2 st = Some r2 → r1 = r2.
Proof.
  intros Hwf. unfold Full. destruct (negb (has_SOA st)); [congruence|].
  destruct (DNSKEYs st) as [[|key keys]|]; [congruence| |congruence].
  destruct (cacheKeys (key :: keys)) as [cached|]; [|congruence].
  destruct (full_run v s1 st cached) as [p1|] eqn:E1; [|done]. destruct (full_run v s2 st cached) as [p2|] eqn:E2; [|done].
  simpl. destruct (wg_done p1) eqn:D1; [|done]. destruct (wg_done p2) eqn:D2; [|done]. intros [= <-] [= <-].
  destruct (full_run_result s1 st cached p1 Hwf E1 D1) as (F1 & _ & V1 & N1 & U1).
  destruct (full_run_result s2 st cached p2 Hwf E2 D2) as (F2 & _ & V2 & N2 & U2).
  assert (p_findings p1 = p_findings p2) as Hf.
  { apply map_eq. intros k. apply option_eq. intros f. by rewrite F1, F2. }
  assert (mark_used cached (p_used p1) = mark_used cached (p_used p2)) as Hu.
  { unfold mark_used. apply imap_ext. intros i k _. erewrite bool_decide_ext; [done|]. by rewrite U1, U2. }
  unfold full_finish. cbv zeta. by rewrite Hf, Hu, V1, V2, N1, N2.
Qed.

(** A pass that starts its workers. *)
Definition full_starts (st : Store) (cached : list CachedKey) : Prop :=
  has_SOA st = true ∧ ∃ key keys, DNSKEYs st = Ok (key :: keys) ∧ cacheKeys (key :: keys) = Ok cached.

Lemma Full_starts sched st cached :
  full_starts st cached →
  Full v sched st = (p ← full_run v sched st cached; if wg_done p then Some (full_finish v st cached p) else None).
Proof. intros (HS & key & keys & HK & HC). unfold Full. by rewrite HS, HK, HC. Qed.

Lemma Full_total st : ∃ sched r, Full v sched st = Some r.
Proof.
  unfold Full. destruct (has_SOA st); [|by exists [], (early v [finding v SOASerialMismatch Error (st_origin st) TypeSOA "zone has no SOA"] "full" false false)].
  destruct (DNSKEYs st) as [[|key keys]|]; try by exists [], (early v [] "full" true true).
  destruct (cacheKeys (key :: keys)) as [cached|err]; [|by exists []; eexists].
  destruct (pool_finishes (v_wall v) (λ n, verifyNode v st n cached) (counts_nsec3 st) [] (collectNodes st) (Z.to_nat (workers v)) (full_base v st cached)
    (o_used (checkDNSKEYSignedByKSK v st cached)) _ workers_pos eq_refl) as (rest & p' & Hr & Hd & _).
  exists rest, (full_finish v st cached p'). unfold full_run, full_pool. cbn [app] in Hr. rewrite Hr.
  cbn [mbind option_bind]. by rewrite Hd.
Qed.

(** C3: a full pass ends. However the workers have been scheduled so far,
    the pass can be completed, and a complete schedule has exactly one step
    per node and one per worker; a pass that starts no workers ends at once. *)
Theorem Full_completes sched st :
  (∀ cached p, full_starts st cached → full_run v sched st cached = Some p →
     ∃ rest r, Full v (sched ++ rest) st = Some r ∧
       length (sched ++ rest) = length (collectNodes st) + Z.to_nat (workers v)) ∧
  ((¬ ∃ cached, full_starts st cached) → is_Some (Full v sched st)).
Proof.
  split.
  - intros cached p Hst Hr. unfold full_run in Hr.
    destruct (pool_finishes _ _ _ _ _ _ _ _ _ workers_pos Hr) as (rest & p' & Hr' & Hd & Hl).
    exists rest, (full_finish v st cached p'). split; [|done].
    rewrite (Full_starts _ _ cached) by done. unfold full_run, full_pool. rewrite Hr'. simpl. by rewrite Hd.
  - intros Hno. unfold Full. destruct (has_SOA st) eqn:HS; [|by eexists].
    destruct (DNSKEYs st) as [[|key keys]|] eqn:HK; [by eexists| |by eexists].
    destruct (cacheKeys (key :: keys)) as [cached|] eqn:HC; [|by eexists].
    destruct Hno. exists cached. split; [done|eauto].
Qed.
End facts.
