(* ===== verification/Verdict.v ===== *)
(** * What a verdict means

    A zone is declared valid exactly when the checks of the package,
    restated as properties of the zone without iteration, sets of findings
    or schedules, all hold. *)

From S2P Require Import Prelude Cycle GoStrings Decimal DnsLib BTree DnsName Base32 CanonOrder Node Store StoreSpec StoreTouch StoreRing Config Findings Keys Verify Nsec NsecChain Zonemd Hygiene Pool Full Toy.

Section verdict.
Context `{DL : !DnsLib, BT : !BTree, MR : !MapRange}.
Variable v : Verifier.
Implicit Types st : Store.

(** ** The checks, as properties *)

Definition tags_spread (keys : list CachedKey) : Prop :=
  ∀ tag, length (List.filter (λ k, bool_decide (ck_KeyTag k = tag)) keys) ≤ 3.

(** A KSK signs the DNSKEY RRset, if there is one that can be unpacked. *)
Definition ksk_signs (st : Store) (keys : list CachedKey) : Prop :=
  ∀ apex set rrs, Apex st = Some apex → Node_Set apex TypeDNSKEY = Some set → Unpack set (n_Name apex) = Ok rrs →
    ∃ sig k, sig ∈ RRSIGsCovering apex TypeDNSKEY ∧ k ∈ keys ∧ ck_IsKSK k = true ∧
      ck_KeyTag k = cs_KeyTag sig ∧ Verify (RRSIGFromCompact (n_Name apex) (rs_TTL set) sig) (ck_RR k) rrs = true.

Definition same_types (a b : list Z) : Prop := ∀ t, t ∈ a ↔ t ∈ b.

(** The node has a readable NSEC record with the right bitmap, if it needs one. *)
Definition nsec_ok (st : Store) (n : Node) : Prop :=
  Has n TypeNSEC3 = false → isAuthoritative st n = true →
  Has n TypeNSEC = true ∧ ∃ rr rrs, UnpackType n TypeNSEC = Ok (rr :: rrs) ∧
    ∀ nsec, as_NSEC rr = Some nsec → same_types (ExpectedBitmap n false) (nsec_TypeBitMap nsec).

(** The same for NSEC3, found by its hash. *)
Definition nsec3_ok (st : Store) (n : Node) (p : NSEC3PARAM_rdata) : Prop :=
  isNSEC3Owner (n_Name n) (st_origin st) = false → needsNSEC3 st n = true →
  ∃ rec, NSEC3ByHash st (HashName (n_Name n) (n3p_Hash p) (n3p_Iterations p) (saltOf p)) = Some rec ∧
    same_types (ExpectedBitmap n true) (r3_TypeBitMap rec).

Definition denial_ok (st : Store) (n : Node) : Prop :=
  match NSEC3PARAM st with
  | Some p => nsec3_ok st n p
  | None => isNSEC3Owner (n_Name n) (st_origin st) = false → nsec_ok st n
  end.

Definition node_passes (st : Store) (keys : list CachedKey) (n : Node) : Prop :=
  (isAuthoritative st n = true → ∀ set, set ∈ n_Sets n → rs_Type set ≠ TypeRRSIG → rs_Type set ≠ TypeNSEC3 →
     rrset_passes v n set keys) ∧
  denial_ok st n.

Definition chain_ok (st : Store) : Prop :=
  match NSEC3PARAM st with
  | Some p =>
      (∀ k r, on_ring st k r → r3_Iterations r = n3p_Iterations p) ∧
      (∀ k r, on_ring st k r → ring_next st k (r3_Next r))
  | None =>
      ∀ name nsec, has_nsec st name → nsec_of st name = Some nsec →
        cyc_next canon_lt (has_nsec st) name (Canonical (nsec_NextDomain nsec))
  end.

Definition zone_passes (st : Store) (keys : list CachedKey) : Prop :=
  tags_spread keys ∧ ksk_signs st keys ∧
  (∀ name n, st_nodes st !! name = Some n → node_passes st keys n) ∧
  chain_ok st ∧ zonemd_passes v st.

(** ** One check after the other *)

(** The map of [checkKeytagCollisions] counts the keys of each tag. *)
Lemma count_tags (keys : list CachedKey) (m : gmap Z Z) tag :
  default 0%Z (foldl (λ m k, <[ck_KeyTag k := (default 0 (m !! ck_KeyTag k) + 1)%Z]> m) m keys !! tag) =
  (default 0 (m !! tag) + Z.of_nat (length (List.filter (λ k, bool_decide (ck_KeyTag k = tag)) keys)))%Z.
Proof.
  revert m. induction keys as [|k keys IH]; intros m; [simpl; lia|]. cbn [foldl List.filter]. rewrite IH.
  destruct (bool_decide_reflect (ck_KeyTag k = tag)) as [<-|Hne].
  - rewrite lookup_insert_eq. cbn [from_option id length]. lia.
  - by rewrite lookup_insert_ne.
Qed.

Lemma checkKeytagCollisions_ok origin keys :
  existsb is_error (checkKeytagCollisions v origin keys) = false ↔ tags_spread keys.
Proof.
  unfold checkKeytagCollisions, tags_spread. cbv zeta.
  set (m := foldl _ ∅ keys). pose proof (count_tags keys ∅) as Hc. fold m in Hc.
  rewrite <-not_true_iff_false, existsb_elem_of. split.
  - intros Hno tag. specialize (Hc tag). rewrite lookup_empty in Hc. cbn [from_option id] in Hc.
    destruct (decide (length (List.filter (λ k, bool_decide (ck_KeyTag k = tag)) keys) ≤ 3)) as [|Hgt]; [done|].
    destruct (m !! tag) as [n|] eqn:Hm; cbn [from_option id] in Hc; [|lia]. destruct Hno.
    exists (finding v KeytagCollisionLimit Error origin TypeDNSKEY
      ("keytag " +:+ fmt_d tag +:+ " has " +:+ fmt_d n +:+ " keys")).
    split; [|done]. apply list_elem_of_omap. exists (tag, n).
    split; [by apply elem_of_range|]. by rewrite (proj2 (Z.ltb_lt _ _)) by lia.
  - intros Hle (f & ([tag n] & Hin%elem_of_range & Hf)%list_elem_of_omap & _).
    destruct (Z.ltb_spec 3 n); [|done]. specialize (Hle tag). specialize (Hc tag).
    rewrite Hin, lookup_empty in Hc. cbn [from_option id] in Hc. lia.
Qed.

Lemma checkDNSKEYSignedByKSK_ok st keys :
  existsb is_error (o_findings (checkDNSKEYSignedByKSK v st keys)) = false ↔ ksk_signs st keys.
Proof.
  unfold checkDNSKEYSignedByKSK, ksk_signs. destruct (Apex st) as [apex|]; [|by split].
  destruct (Node_Set apex TypeDNSKEY) as [set|] eqn:Hset; [|split; [by intros _ ? ? ? [= <-] ?; congruence|done]].
  destruct (Unpack set (n_Name apex)) as [rrs|] eqn:Hu; [|split; [intros _ ? ? ? [= <-] Hs Hr; congruence|done]].
  cbn [o_findings]. set (hits := _ ← RRSIGsCovering apex TypeDNSKEY; _).
  assert (hits ≠ [] ↔ ∃ sig k, sig ∈ RRSIGsCovering apex TypeDNSKEY ∧ k ∈ keys ∧ ck_IsKSK k = true ∧
      ck_KeyTag k = cs_KeyTag sig ∧ Verify (RRSIGFromCompact (n_Name apex) (rs_TTL set) sig) (ck_RR k) rrs = true) as Hh.
  { split.
    - intros Hne. destruct hits as [|i hs] eqn:E; [done|]. assert (i ∈ hits) as Hi by (rewrite E; set_solver).
      unfold hits in Hi. apply list_elem_of_bind in Hi as (sig & Hi & Hsig).
      apply list_elem_of_omap in Hi as ([j k] & (j' & k' & Heq & Hk)%elem_of_lookup_imap & Hx). injection Heq as -> ->.
      destruct (ck_IsKSK k') eqn:Hksk; [|done]. cbn [negb orb] in Hx.
      destruct (bool_decide_reflect (ck_KeyTag k' = cs_KeyTag sig)); [|done]. cbn [negb] in Hx.
      destruct (Verify _ _ _) eqn:Hv; [|done]. exists sig, k'. split_and!; [done|by eapply list_elem_of_lookup_2|done..].
    - intros (sig & k & Hsig & [i Hi]%list_elem_of_lookup & Hksk & Htag & Hv) Hnil.
      assert (i ∈ hits) as Hin; [|by rewrite Hnil in Hin; apply elem_of_nil in Hin].
      unfold hits. apply list_elem_of_bind. exists sig. split; [|done]. apply list_elem_of_omap.
      exists (i, k). split; [apply elem_of_lookup_imap; eauto|]. by rewrite Hksk, bool_decide_true, Hv. }
  destruct (bool_decide_reflect (hits = [])) as [Hn|Hn].
  - split; [done|]. intros H. exfalso. by apply (proj2 Hh (H apex set rrs eq_refl Hset Hu)).
  - split; [|done]. intros _ a s r [= <-] Hs Hr. rewrite Hset in Hs. injection Hs as <-. rewrite Hu in Hr. injection Hr as <-.
    by apply Hh.
Qed.

Lemma verifySets_ok n keys :
  existsb is_error (o_findings (verifySets v n keys)) = false ↔
  ∀ set, set ∈ n_Sets n → rs_Type set ≠ TypeRRSIG → rs_Type set ≠ TypeNSEC3 → rrset_passes v n set keys.
Proof.
  unfold verifySets.
  assert (∀ l o, existsb is_error (o_findings (foldl (λ o set,
      if bool_decide (rs_Type set = TypeRRSIG) || bool_decide (rs_Type set = TypeNSEC3) then o
      else out_app o (verifyRRSet v n set keys)) o l)) = false ↔
    existsb is_error (o_findings o) = false ∧
    ∀ set, set ∈ l → rs_Type set ≠ TypeRRSIG → rs_Type set ≠ TypeNSEC3 → rrset_passes v n set keys) as H.
  { intros l. induction l as [|set l IH]; intros o; cbn [foldl].
    { split; [by split; [|intros ? ?%elem_of_nil]|tauto]. }
    rewrite IH. setoid_rewrite elem_of_cons.
    destruct (bool_decide_reflect (rs_Type set = TypeRRSIG)) as [Hr|Hr]; cbn [orb]; [naive_solver|].
    destruct (bool_decide_reflect (rs_Type set = TypeNSEC3)) as [Hn|Hn]; [naive_solver|].
    cbn [out_app o_findings]. rewrite existsb_app, orb_false_iff, verifyRRSet_passes. naive_solver. }
  rewrite H. by split; [intros [_ ?]|].
Qed.

Lemma checkNSECPresence_ok st n :
  existsb is_error (checkNSECPresence v st n) = false ↔ nsec_ok st n.
Proof.
  unfold checkNSECPresence, nsec_ok. destruct (Has n TypeNSEC3); [by split|].
  destruct (isAuthoritative st n); cbn [negb]; [|by split].
  destruct (Has n TypeNSEC); cbn [negb]; [|split; [done|]; by intros [? _]].
  destruct (UnpackType n TypeNSEC) as [[|rr rrs]|].
  - split; [done|]. intros H. by destruct H as (_ & ? & ? & ? & _).
  - destruct (as_NSEC rr) as [nsec|] eqn:Hn.
    + pose proof (bitmapEqual_iff (ExpectedBitmap n false) (nsec_TypeBitMap nsec)) as Hb.
      destruct (bitmapEqual _ _); cbn.
      * split; [|done]. intros _ _ _. split; [done|]. exists rr, rrs. split; [done|].
        intros ns Hns. rewrite Hn in Hns. injection Hns as <-. exact (proj1 Hb eq_refl).
      * split; [done|]. intros H. destruct H as (_ & rr' & rrs' & [= <- <-] & Hs); [done..|]. specialize (Hs _ Hn).
        by discriminate (proj2 Hb Hs).
    + split; [|done]. intros _ _ _. split; [done|]. exists rr, rrs. split; [done|]. intros ? ?; congruence.
  - split; [done|]. intros H. by destruct H as (_ & ? & ? & ? & _).
Qed.

(** A name that needs an NSEC3 record is never an insecure delegation. *)
Lemma needsNSEC3_secure st name n :
  node_wf (st_origin st) name n → needsNSEC3 st n = true → n_IsDelegation n && negb (n_HasDS n) = false.
Proof.
  intros Hwf. unfold needsNSEC3. destruct (bool_decide_reflect (n_Name n = st_origin st)) as [Ho|Ho].
  - intros _. rewrite (nw_delegation _ _ _ Hwf), <-(nw_name _ _ _ Hwf), Ho. by rewrite bool_decide_true.
  - destruct (isAuthoritative st n); [|done]. cbn [negb]. by destruct (_ && _).
Qed.

Lemma checkNSEC3Presence_ok st name n p :
  node_wf (st_origin st) name n →
  existsb is_error (checkNSEC3Presence v st n p) = false ↔ nsec3_ok st n p.
Proof.
  intros Hwf. unfold checkNSEC3Presence, nsec3_ok. cbv zeta.
  destruct (isNSEC3Owner (n_Name n) (st_origin st)); [by split|].
  destruct (needsNSEC3 st n) eqn:Hneed; cbn [negb]; [|by split].
  destruct (NSEC3ByHash st _) as [rec|].
  - pose proof (bitmapEqual_iff (ExpectedBitmap n true) (r3_TypeBitMap rec)) as Hb.
    destruct (bitmapEqual _ _); cbn.
    + split; [|done]. intros _ _ _. exists rec. split; [done|]. exact (proj1 Hb eq_refl).
    + split; [done|]. intros H. destruct H as (rec' & [= <-] & Hs); [done..|]. by discriminate (proj2 Hb Hs).
  - rewrite (needsNSEC3_secure st name n Hwf Hneed). cbn [andb].
    destruct (n_IsDelegation n && n_HasDS n); (split; [done|]); intros H; by destruct H as (? & ? & _).
Qed.

Lemma verifyNode_ok st name n keys :
  node_wf (st_origin st) name n →
  existsb is_error (o_findings (verifyNode v st n keys)) = false ↔ node_passes st keys n.
Proof.
  intros Hwf. unfold verifyNode, node_passes, denial_ok. cbv zeta.
  assert (existsb is_error (o_findings (if isAuthoritative st n then verifySets v n keys else out_nil)) = false ↔
    (isAuthoritative st n = true → ∀ set, set ∈ n_Sets n → rs_Type set ≠ TypeRRSIG → rs_Type set ≠ TypeNSEC3 →
       rrset_passes v n set keys)) as Hs.
  { destruct (isAuthoritative st n); [|by split]. rewrite verifySets_ok. naive_solver. }
  destruct (NSEC3PARAM st) as [p|].
  - cbn [out_app out_findings o_findings]. by rewrite existsb_app, orb_false_iff, Hs, (checkNSEC3Presence_ok st name).
  - destruct (isNSEC3Owner (n_Name n) (st_origin st)); cbn [negb].
    + rewrite Hs. naive_solver.
    + cbn [out_app out_findings o_findings]. rewrite existsb_app, orb_false_iff, Hs, checkNSECPresence_ok. naive_solver.
Qed.

Context `{BL : !BTreeLaws, NL : !DnsNameLaws}.

Lemma chain_findings_ok st :
  store_wf st → hash_ok st → existsb is_error (chain_findings v st) = false ↔ chain_ok st.
Proof.
  intros Hwf Hh. unfold chain_findings, chain_ok. destruct (NSEC3PARAM st) as [p|].
  - by apply nsec3_chain_iff.
  - by apply nsec_chain_iff.
Qed.

(** ** The verdict *)

(** Errors under some key after the workers are done. *)
Lemma pool_errors sched st cached p :
  store_wf st → full_run v sched st cached = Some p → wg_done p = true →
  HasErrors (p_findings p) = false ↔
    HasErrors (full_base v st cached) = false ∧
    ∀ n, n ∈ ForEachNode st → existsb is_error (o_findings (verifyNode v st n cached)) = false.
Proof.
  intros Hwf Hr Hd. destruct (full_run_result v sched st cached p Hwf Hr Hd) as (HF & _).
  rewrite <-!not_true_iff_false, !HasErrors_spec. split.
  - intros Hno. split.
    + intros (k & f & Hk & Hf). apply Hno. exists k, f. split; [|done]. apply HF. by left.
    + intros n Hn. apply not_true_iff_false. rewrite existsb_elem_of. intros (f & Hf & He%bool_decide_eq_true).
      destruct (last_with_is_Some (Key f) _ f Hf eq_refl) as [g Hg]. pose proof Hg as [Hg' Hk]%last_with_elem.
      destruct (verifyNode_made v st n cached f Hf) as [Mf _]. destruct (verifyNode_made v st n cached g Hg') as [Mg _].
      destruct (Key_code_owner v node_codes f g) as [Hc _]; [set_solver|done..|].
      apply Hno. exists (Key f), g. split; [apply HF; right; eauto|].
      by rewrite (md_severity _ _ _ Mg), <-Hc, <-(md_severity _ _ _ Mf).
  - intros [Hb Hn] (k & f & [Hk|(n & Hin & Hl)]%HF & Hf); [by apply Hb; eauto|].
    specialize (Hn n Hin). apply not_true_iff_false in Hn. apply Hn, existsb_elem_of.
    exists f. split; [by apply last_with_elem in Hl as [? _]|by apply bool_decide_eq_true].
Qed.

Lemma full_finish_valid sched st cached p :
  store_wf st → hash_ok st → full_run v sched st cached = Some p → wg_done p = true →
  r_Valid (full_finish v st cached p) = true ↔ zone_passes st cached.
Proof.
  intros Hwf Hh Hr Hd. pose proof (full_run_result v sched st cached p Hwf Hr Hd) as (_ & Hm & _).
  assert (all_made v all_codes (chain_findings v st ++ zo_findings (verifyZONEMD v st) ++
    hygiene_findings v st (mark_used cached (p_used p))) ∧
    existsb is_error (hygiene_findings v st (mark_used cached (p_used p))) = false) as [Ha Hy].
  { assert (all_made v hygiene_codes (hygiene_findings v st (mark_used cached (p_used p)))) as Hyg.
    { unfold hygiene_findings. destruct (hy_Enabled _); [apply hygiene_made|apply all_made_nil]. }
    split; [|apply (warnings_no_error v); eapply all_made_weaken, Hyg; unfold warning_codes; set_solver]. repeat apply all_made_app.
    - eapply all_made_weaken; [|unfold chain_findings; destruct (NSEC3PARAM st);
        [apply verifyNSEC3Chain_made|apply verifyNSECChain_made]]. unfold all_codes. set_solver.
    - eapply all_made_weaken, verifyZONEMD_made. unfold all_codes. set_solver.
    - eapply all_made_weaken, Hyg. unfold all_codes, zone_codes, warning_codes. set_solver. }
  unfold full_finish. cbv zeta. cbn [r_Valid]. rewrite negb_true_iff, HasErrors_made by done.
  rewrite orb_false_iff, !existsb_app, !orb_false_iff, (pool_errors sched st cached p) by done.
  rewrite chain_findings_ok, verifyZONEMD_errors by done. unfold full_base.
  rewrite HasErrors_made, HasErrors_NewSet, existsb_app, !orb_false_iff; [|apply NewSet_made|].
  2:{ apply all_made_app; (eapply all_made_weaken; [|first [apply checkKeytagCollisions_made|apply checkDNSKEYSignedByKSK_made]]);
      unfold all_codes; set_solver. }
  rewrite checkKeytagCollisions_ok, checkDNSKEYSignedByKSK_ok. unfold zone_passes.
  assert ((∀ n, n ∈ ForEachNode st → existsb is_error (o_findings (verifyNode v st n cached)) = false) ↔
    ∀ name n, st_nodes st !! name = Some n → node_passes st cached n) as ->; [|tauto].
  setoid_rewrite elem_of_nodes; [|done]. split.
  - intros H name n Hn. pose proof (sw_nodes _ Hwf _ _ Hn) as Hnw. apply (verifyNode_ok st name n cached Hnw).
    apply H. by rewrite (nw_name _ _ _ Hnw).
  - intros H n Hn. apply (verifyNode_ok st (n_Name n) n cached (sw_nodes _ Hwf _ _ Hn)). by eapply H.
Qed.

(** What a full pass is to find out. *)
Definition verdict (st : Store) : Prop :=
  has_SOA st = true ∧
  match DNSKEYs st with
  | Err _ | Ok [] => True
  | Ok keys => ∃ cached, cacheKeys keys = Ok cached ∧ zone_passes st cached
  end.

Lemma Full_verdict_iff sched st r :
  store_wf st → hash_ok st → Full v sched st = Some r →
  (r_Valid r = true ↔ verdict st) ∧
  (r_Unsigned r = true ↔ has_SOA st = true ∧ (DNSKEYs st = Ok [] ∨ is_ok (DNSKEYs st) = false)).
Proof.
  intros Hwf Hh. unfold Full, verdict. destruct (has_SOA st); cbn [negb].
  2:{ intros [= <-]. cbn. naive_solver. }
  destruct (DNSKEYs st) as [[|key keys]|].
  - intros [= <-]. cbn. naive_solver.
  - destruct (cacheKeys (key :: keys)) as [cached|].
    + destruct (full_run v sched st cached) as [p|] eqn:Hr; [|done]. simpl.
      destruct (wg_done p) eqn:Hd; [|done]. intros [= <-]. rewrite (full_finish_valid sched) by done. cbn. split.
      * split; [eauto|]. by intros (_ & c & [= <-] & H).
      * split; [done|]. by intros (_ & [?|?]).
    + intros [= <-]. cbn. split; (split; [done|]); [by intros (_ & ? & ? & _)|by intros (_ & [?|?])].
  - intros [= <-]. cbn. naive_solver.
Qed.

(** C1: the verdict of a full pass is right, whatever the schedule. A zone
    is declared valid exactly when it has a SOA and either it has no (usable)
    DNSKEY, and is reported as unsigned, or all its keys parse and: no key tag
    is shared by more than three keys; a KSK signs the DNSKEY RRset; every
    RRset of every authoritative node verifies; every name that needs denial
    of existence has a record with exactly its types; the NSEC or NSEC3 chain
    is closed; and the ZONEMD digest, if it is to be checked, matches. *)
Theorem Full_verdict sched st r :
  store_wf st → hash_ok st → Full v sched st = Some r →
  (r_Valid r = true ↔ verdict st) ∧
  (r_Unsigned r = true ↔ has_SOA st = true ∧ (DNSKEYs st = Ok [] ∨ is_ok (DNSKEYs st) = false)).
Proof. apply Full_verdict_iff. Qed.
End verdict.

(** ** Witnesses *)

(** A small signed zone, and a verifier with two workers. *)
Definition toy_key : DNSKEY_rdata := mkDNSKEY 257 3 ED25519 toy_ed25519.
Definition toy_sig (name : string) (covered : Z) : RR :=
  toy_RRSIG name covered 5000 (KeyTag toy_key) "z." toy_ed25519.
Definition toy_signed : list RR :=
  [toy_SOA "z." 7; mkRR (hdr "z." TypeDNSKEY) (RD_DNSKEY toy_key);
   toy_NSEC "z." "b.z." [TypeSOA; TypeDNSKEY; TypeRRSIG; TypeNSEC];
   toy_sig "z." TypeSOA; toy_sig "z." TypeDNSKEY; toy_sig "z." TypeNSEC;
   toy_A "b.z." "192.0.2.1"; toy_NSEC "b.z." "z." [TypeA; TypeRRSIG; TypeNSEC]; toy_sig "b.z." TypeA; toy_sig "b.z." TypeNSEC].
Definition toy_two : Verifier := mkVerifier (c_Verification Defaults) (timeUnix 1000) (timeUnix 1000) 2.

Example toy_signed_valid : r_Valid <$> Full toy_two [0; 1; 1; 0] (built "z." toy_signed) = Some true.
Proof. vm_compute. reflexivity. Qed.

(** These runs are complete. *)
Definition is_some {A} (o : option A) : bool := match o with Some _ => true | None => false end.
Lemma is_some_eq {A} (o : option A) : is_some o = true → ∃ a, o = Some a.
Proof. destruct o; [by eexists|done]. Qed.

Lemma Full_verdict_witness : verdict toy_two (built "z." toy_signed).
Proof.
  destruct (is_some_eq (Full toy_two [0; 1; 1; 0] (built "z." toy_signed))) as [r E]; [vm_compute; reflexivity|].
  apply (Full_verdict toy_two [0; 1; 1; 0] (built "z." toy_signed) r (built_wf _ _) (built_hash_ok _ _) E).
  pose proof toy_signed_valid as H. rewrite E in H. by injection H.
Defined.

Lemma Full_schedule_witness :
  Full toy_two [0; 1; 1; 0] (built "z." toy_signed) = Full toy_two [1; 1; 1; 0] (built "z." toy_signed).
Proof.
  destruct (is_some_eq (Full toy_two [0; 1; 1; 0] (built "z." toy_signed))) as [r1 E1]; [vm_compute; reflexivity|].
  destruct (is_some_eq (Full toy_two [1; 1; 1; 0] (built "z." toy_signed))) as [r2 E2]; [vm_compute; reflexivity|].
  rewrite E1, E2. f_equal. exact (Full_schedule toy_two _ _ _ r1 r2 (built_wf _ _) E1 E2).
Defined.

Lemma Full_completes_witness :
  ∃ cached rest r, full_starts (built "z." toy_signed) cached ∧
    Full toy_two ([1; 1] ++ rest) (built "z." toy_signed) = Some r ∧ length ([1; 1] ++ rest) = 4.
Proof.
  assert (is_ok (cacheKeys [(hdr "z." TypeDNSKEY, toy_key)]) = true) as HC by (vm_compute; reflexivity).
  destruct (cacheKeys [(hdr "z." TypeDNSKEY, toy_key)]) as [cached|] eqn:EC; [|discriminate HC].
  assert (full_starts (built "z." toy_signed) cached) as Hs.
  { split; [vm_compute; reflexivity|]. exists (hdr "z." TypeDNSKEY, toy_key), []. split; [vm_compute; reflexivity|exact EC]. }
  destruct (is_some_eq (full_run toy_two [1; 1] (built "z." toy_signed) cached)) as [p Hr].
  { assert (match cacheKeys [(hdr "z." TypeDNSKEY, toy_key)] with
      | Ok c => is_some (full_run toy_two [1; 1] (built "z." toy_signed) c) | Err _ => false end = true) as H
      by (vm_compute; reflexivity).
    rewrite EC in H. exact H. }
  destruct (proj1 (Full_completes toy_two [1; 1] (built "z." toy_signed)) cached p Hs Hr) as (rest & r & HF & Hl).
  exists cached, rest, r. split; [exact Hs|]. split; [exact HF|]. rewrite Hl. vm_compute. reflexivity.
Defined.
