(* ===== verification/Incremental.v ===== *)
(** * Incremental verification (internal/dnssec/incremental.go)

    After a change only the touched names and NSEC3 hashes are checked
    again, and the outcome is merged into the findings of the passes before;
    [SweepExpiry] ages the signatures between passes. Main results: a pass
    says about every touched name exactly what a full pass would say about
    that node, keeps what is known about the others, and its verdict follows
    from the merged findings; a sweep adds exactly the signatures that have
    expired or soon will. Two behaviours that look unintended are shown on
    the way: a removed NSEC3 record makes the zone invalid, and zone-signing
    keys are reported as unused because no other name was looked at. *)

From S2P Require Import Prelude Cycle GoStrings Decimal DnsLib BTree DnsName Base32 CanonOrder Node Store StoreSpec StoreTouch StoreIndex StoreRing Config Findings Keys Verify Nsec NsecChain Zonemd Hygiene Pool Full Verdict Toy.

Section incremental.
Context `{DL : !DnsLib, BT : !BTree, MR : !MapRange}.
Variable v : Verifier.
Implicit Types st : Store.

Abbreviation finding := (finding v).

(** The body of the loop over [touched.Names]. *)
Definition recheck_name (st : Store) (cached : list CachedKey) (name : string) : Out :=
  match Lookup st name with
  | None => out_nil
  | Some n => verifyNode v st n cached
  end.

(** The body of the loop over [touched.NSEC3]: what it adds, and by how much
    it increments [NSEC3Checked]. *)
Definition recheck_nsec3 (st : Store) (cached : list CachedKey) (h : bytes) : Out * Z :=
  match NSEC3ByHash st h with
  | None =>
      (out_findings [finding NSEC3ChainBroken Error (st_origin st) TypeNSEC3 "touched NSEC3 missing"], 0%Z)
  | Some rec =>
      let next_broken :=
        match NextNSEC3 st h with
        | None => true
        | Some next => negb (bool_decide (r3_Next rec = r3_Hash next))
        end in
      let fs1 := if next_broken
        then [finding NSEC3ChainBroken Error (r3_Owner rec) TypeNSEC3 "NSEC3 next pointer broken"] else [] in
      let fs2 :=
        match PredNSEC3 st h with
        | Some pred =>
            if negb (bool_decide (r3_Next pred = r3_Hash rec))
            then [finding NSEC3ChainBroken Error (r3_Owner pred) TypeNSEC3 "predecessor next pointer broken"] else []
        | None => []
        end in
      let o :=
        match Lookup st (r3_Owner rec) with
        | Some n => match Node_Set n TypeNSEC3 with Some set => verifyRRSet v n set cached | None => out_nil end
        | None => out_nil
        end in
      (out_app (out_findings (fs1 ++ fs2)) o, 1%Z)
  end.

(** Both loops. *)
Definition recheck (st : Store) (cached : list CachedKey) (t : Touched) : Out * Z :=
  let o1 := foldl (λ o name, out_app o (recheck_name st cached name)) out_nil (range_set (t_Names t)) in
  if bool_decide (is_Some (NSEC3PARAM st)) then
    foldl (λ '(o, c) h, let '(o', c') := recheck_nsec3 st cached h in (out_app o o', (c + c')%Z))
      (o1, 0%Z) (range_set (t_NSEC3 t))
  else (o1, 0%Z).

(** The owners whose findings are replaced. *)
Definition owners_of (st : Store) (t : Touched) : gset string :=
  t_Names t ∪ list_to_set (omap (λ h, r3_Owner <$> NSEC3ByHash st h) (range_set (t_NSEC3 t))).

Definition merge_prev (prev : option FSet) (next : FSet) (owners : gset string) : FSet :=
  match prev with
  | Some prev => let '(merged, _, _) := MergeReplace (v_wall v) prev next owners in merged
  | None => next
  end.

(** The findings of the pass before the merge. *)
Definition incr_findings (st : Store) (cached : list CachedKey) (t : Touched) : list Finding :=
  let '(o, _) := recheck st cached t in
  o_findings o ++ hygiene_findings v st (mark_used cached (o_used o)).

Definition incr_finish (st : Store) (prev : option FSet) (cached : list CachedKey) (t : Touched) : Result :=
  let '(o, c) := recheck st cached t in
  let fs := merge_prev prev (AddAll (v_wall v) NewSet (incr_findings st cached t)) (owners_of st t) in
  mkResult fs "incremental" (negb (HasErrors fs)) false (o_checked o) c false false (EarliestExpiry st).

(** [Incremental]; [sched] schedules the workers if it falls back to a full
    pass. The set [prev] points to holds the findings of the result
    afterwards, whenever the result has been merged into it. *)
Definition Incremental (sched : list nat) (st : Store) (prev : option FSet) (touched : option Touched) : option Result :=
  if match touched with Some t => t_DNSKEY t || t_NSEC3PARAM t | None => false end then Full v sched st
  else
    match DNSKEYs st with
    | Err _ | Ok [] =>
        Some (mkResult (merge_prev prev NewSet ∅) "incremental" true true 0 0 false false 0)
    | Ok keys =>
        match cacheKeys keys with
        | Err err => Some (early v [finding RRSIGInvalid Error (st_origin st) TypeDNSKEY err] "incremental" false false)
        | Ok cached =>
            match touched with
            | None => Full v sched st
            | Some t => Some (incr_finish st prev cached t)
            end
        end
    end.

(** ** Sweeping *)

(** The finding for one record of the expiry index. *)
Definition sweep_one (rec : ExpiryRec) : list Finding :=
  if (u32 (ex_Expiration rec + skew32 v) <? now32 v)%Z then
    [finding RRSIGExpired Error (ex_Owner rec) (ex_TypeCovered rec) "RRSIG expired"]
  else if (now32 v <? ex_Expiration rec)%Z && (u32 (ex_Expiration rec - now32 v) <=? warn32 v)%Z then
    [finding RRSIGExpiringSoon Warning (ex_Owner rec) (ex_TypeCovered rec) "RRSIG expiring soon"]
  else [].

(** [SweepExpiry]: the set afterwards and the number of findings opened. *)
Definition SweepExpiry (st : Store) (findings : FSet) : FSet * Z :=
  let before := FSet_Len findings in
  let fs := foldl (λ s rec, AddAll (v_wall v) s (sweep_one rec)) findings
    (ExpiringBefore st (u32 (now32 v + skew32 v + warn32 v))) in
  (fs, (Z.of_nat (FSet_Len fs) - Z.of_nat before)%Z).
End incremental.

(** ** What a pass finds *)

Section facts.
Context `{DL : !DnsLib, BT : !BTree, MR : !MapRange}.
Variable v : Verifier.
Implicit Types st : Store.



Lemma out_foldl {A} (g : A → Out) l o :
  o_findings (foldl (λ o x, out_app o (g x)) o l) = o_findings o ++ mjoin ((λ x, o_findings (g x)) <$> l).
Proof.
  revert o. induction l as [|x l IH]; intros o; cbn [foldl]; [by rewrite app_nil_r|].
  rewrite IH. cbn [out_app o_findings]. by rewrite <-app_assoc, fmap_cons.
Qed.

Lemma out_foldl_pair {A} (g : A → Out * Z) l o c :
  o_findings (foldl (λ '(o, c) x, let '(o', c') := g x in (out_app o o', (c + c')%Z)) (o, c) l).1 =
  o_findings o ++ mjoin ((λ x, o_findings (g x).1) <$> l).
Proof.
  revert o c. induction l as [|x l IH]; intros o c; cbn [foldl]; [by rewrite app_nil_r|].
  rewrite fmap_cons. destruct (g x) as [o' c']. rewrite IH. cbn [out_app o_findings fst].
  by rewrite <-app_assoc.
Qed.

(** The findings of the two loops. *)
Definition name_findings (st : Store) (cached : list CachedKey) (t : Touched) : list Finding :=
  mjoin ((λ name, o_findings (recheck_name v st cached name)) <$> range_set (t_Names t)).
Definition hash_findings (st : Store) (cached : list CachedKey) (t : Touched) : list Finding :=
  if bool_decide (is_Some (NSEC3PARAM st))
  then mjoin ((λ h, o_findings (recheck_nsec3 v st cached h).1) <$> range_set (t_NSEC3 t)) else [].

Lemma recheck_findings st cached t :
  o_findings (recheck v st cached t).1 = name_findings st cached t ++ hash_findings st cached t.
Proof.
  unfold recheck, name_findings, hash_findings. cbv zeta. destruct (bool_decide _).
  - rewrite out_foldl_pair, out_foldl. done.
  - cbn [fst]. by rewrite out_foldl, app_nil_r.
Qed.

(** ** Where the findings come from *)

(** An RRset reports its own type, with codes of its own. *)
Definition rrset_codes : list string :=
  [RRSIGMissing; RRSIGInvalid; RRSIGExpired; RRSIGNotYetValid; RRSIGUnknownKey; RRSIGLabelsMismatch;
   RRSIGTTLMismatch; RRSIGExpiringSoon].

Lemma verifyRRSet_types n set keys f :
  f ∈ o_findings (verifyRRSet v n set keys) → f_RRType f = rs_Type set ∧ f_Code f ∈ rrset_codes.
Proof.
  set (P := λ f, f_RRType f = rs_Type set ∧ f_Code f ∈ rrset_codes). change (f ∈ o_findings (verifyRRSet v n set keys) → P f).
  assert (∀ code sev msg, code ∈ rrset_codes → P (finding v code sev (n_Name n) (rs_Type set) msg)) as Hone by (by split).
  unfold verifyRRSet. destruct (bool_decide _).
  { destruct (_ && _); [by intros ?%elem_of_nil|]. destruct (_ && _); [by intros ?%elem_of_nil|].
    intros ->%list_elem_of_singleton. apply Hone. unfold rrset_codes. set_solver. }
  destruct (Unpack set (n_Name n)) as [rrs|err].
  2:{ intros ->%list_elem_of_singleton. apply Hone. unfold rrset_codes. set_solver. }
  cbn [o_findings]. intros [Hf|Hf]%elem_of_app.
  - revert f Hf. apply (foldl_inv (λ s, ∀ f, f ∈ sg_findings s → P f)); [by intros f ?%elem_of_nil|].
    intros s sig _ Hs f. unfold sig_step. cbv zeta. destruct (try_keys 0 keys sig _ rrs) as [m tried].
    destruct (negb (bool_decide (cs_Labels sig = wantLabels (n_Name n))));
      (destruct (u32 (now32 v + skew32 v) <? cs_Inception sig)%Z; [|destruct (u32 (cs_Expiration sig + skew32 v) <? now32 v)%Z;
        [|destruct (hy_Enabled (vf_Hygiene (v_cfg v)) && _ && _), ((0 <? warn32 v)%Z && _ && _), m]]);
      cbn [sg_findings]; intros Hf; repeat (apply elem_of_app in Hf as [Hf|Hf]); try (by apply Hs);
      apply list_elem_of_singleton in Hf as ->; apply Hone; unfold rrset_codes; set_solver.
  - destruct (negb _); [|by apply elem_of_nil in Hf].
    destruct (_ && _); apply list_elem_of_singleton in Hf as ->; apply Hone; unfold rrset_codes; set_solver.
Qed.

(** A touched hash reports broken links, or what is wrong with an NSEC3 RRset. *)
Lemma recheck_nsec3_shape st cached h f :
  f ∈ o_findings (recheck_nsec3 v st cached h).1 →
  made v all_codes f ∧ (f_Code f = NSEC3ChainBroken ∨ (f_RRType f = TypeNSEC3 ∧ f_Code f ∈ rrset_codes)).
Proof.
  assert (∀ owner msg, made v all_codes (finding v NSEC3ChainBroken Error owner TypeNSEC3 msg)) as Hc.
  { intros. apply made_finding; [unfold all_codes, zone_codes; set_solver|done]. }
  unfold recheck_nsec3. destruct (NSEC3ByHash st h) as [rec|].
  2:{ intros ->%list_elem_of_singleton. split; [apply Hc|by left]. }
  cbv zeta. cbn [fst out_app out_findings o_findings]. rewrite !elem_of_app. intros [[Hf|Hf]|Hf].
  - destruct (match NextNSEC3 st h with Some _ => _ | None => _ end); [|by apply elem_of_nil in Hf].
    apply list_elem_of_singleton in Hf as ->. split; [apply Hc|by left].
  - destruct (PredNSEC3 st h) as [pred|]; [|by apply elem_of_nil in Hf].
    destruct (negb _); [|by apply elem_of_nil in Hf].
    apply list_elem_of_singleton in Hf as ->. split; [apply Hc|by left].
  - destruct (Lookup st (r3_Owner rec)) as [n|]; [|by apply elem_of_nil in Hf].
    destruct (Node_Set n TypeNSEC3) as [set|] eqn:Hset; [|by apply elem_of_nil in Hf].
    split.
    + eapply made_weaken; [|apply (verifyRRSet_made v n set cached f Hf)]. unfold all_codes. set_solver.
    + right. apply verifyRRSet_types in Hf as [Ht Hcode]. split; [|done].
      rewrite Ht. by apply Node_Set_elem in Hset as [_ ?].
Qed.

Lemma recheck_name_made st cached name : all_made v node_codes (o_findings (recheck_name v st cached name)).
Proof.
  unfold recheck_name. destruct (Lookup st name); [|apply all_made_nil].
  intros f Hf. by apply (verifyNode_made v st n cached f Hf).
Qed.

Lemma all_made_join {A} codes (g : A → list Finding) l :
  (∀ x, all_made v codes (g x)) → all_made v codes (mjoin (g <$> l)).
Proof. intros Hg f (fs & Hf & (x & -> & _)%list_elem_of_fmap)%list_elem_of_join. by eapply Hg. Qed.

Lemma hygiene_findings_made st cached : all_made v hygiene_codes (hygiene_findings v st cached).
Proof. unfold hygiene_findings. destruct (hy_Enabled _); [apply hygiene_made|apply all_made_nil]. Qed.

Lemma hygiene_codes_all : hygiene_codes ⊆ all_codes.
Proof. unfold all_codes, zone_codes, warning_codes. intros c Hc. rewrite !elem_of_app. tauto. Qed.

Lemma incr_findings_split st cached t :
  ∃ used, incr_findings v st cached t =
    (name_findings st cached t ++ hash_findings st cached t) ++ hygiene_findings v st (mark_used cached used).
Proof.
  unfold incr_findings. pose proof (recheck_findings st cached t) as H.
  destruct (recheck v st cached t) as [o c]. cbn [fst] in H. exists (o_used o). by rewrite H.
Qed.

Lemma incr_findings_made st cached t : all_made v all_codes (incr_findings v st cached t).
Proof.
  destruct (incr_findings_split st cached t) as [used ->]. repeat apply all_made_app.
  - apply all_made_join. intros name. eapply all_made_weaken, recheck_name_made. unfold all_codes. set_solver.
  - unfold hash_findings. destruct (bool_decide _); [|apply all_made_nil].
    apply all_made_join. intros h f Hf. by apply (recheck_nsec3_shape st cached h f Hf).
  - eapply all_made_weaken, hygiene_findings_made. apply hygiene_codes_all.
Qed.

(** The set of the pass, key by key. *)
Lemma incr_set_lookup st cached t k :
  AddAll (v_wall v) NewSet (incr_findings v st cached t) !! k = last_with k (incr_findings v st cached t).
Proof.
  destruct (AddAll_fresh (v_wall v) NewSet (incr_findings v st cached t)) as [_ ->].
  - intros k' f. unfold NewSet. by rewrite lookup_empty.
  - intros f Hf. by eapply made_fresh, incr_findings_made.
  - destruct (last_with k _); [done|]. unfold NewSet. by rewrite lookup_empty.
Qed.

(** ** The merged result *)

(** A pass that does not fall back to a full one. *)
Definition incr_starts (st : Store) (cached : list CachedKey) (t : Touched) : Prop :=
  (∃ key keys, DNSKEYs st = Ok (key :: keys) ∧ cacheKeys (key :: keys) = Ok cached) ∧
  t_DNSKEY t = false ∧ t_NSEC3PARAM t = false.

Lemma Incremental_starts sched st prev cached t :
  incr_starts st cached t → Incremental v sched st prev (Some t) = Some (incr_finish v st prev cached t).
Proof. intros ((key & keys & HK & HC) & HD & HP). unfold Incremental. by rewrite HD, HP, HK, HC. Qed.

Lemma Incremental_total st prev touched : ∃ sched r, Incremental v sched st prev touched = Some r.
Proof.
  destruct (Full_total v st) as (sched & r & Hr). exists sched. unfold Incremental.
  destruct (match touched with Some t => _ | None => false end); [by eexists|].
  destruct (DNSKEYs st) as [[|key keys]|]; try by eexists.
  destruct (cacheKeys (key :: keys)); [|by eexists]. destruct touched; by eexists.
Qed.

(** Findings kept from earlier passes: filed under their keys, dated, with
    codes that are words. *)
Definition prev_ok (prev : FSet) : Prop :=
  ∀ k f, prev !! k = Some f → Key f = k ∧ no_byte "|" (f_Code f) ∧ f_LastSeen f ≠ 0%Z.

Lemma incr_finish_lookup st prev cached t k :
  prev_ok prev →
  r_Findings (incr_finish v st (Some prev) cached t) !! k =
  merged prev (AddAll (v_wall v) NewSet (incr_findings v st cached t)) (owners_of st t) k.
Proof.
  intros Hp. unfold incr_finish. destruct (recheck v st cached t) as [o c]. cbn [r_Findings merge_prev].
  pose proof (MergeReplace_merged (v_wall v) prev (AddAll (v_wall v) NewSet (incr_findings v st cached t)) (owners_of st t)) as Hm.
  destruct (MergeReplace _ _ _ _) as [[res ?] ?]. apply Hm.
  - intros k' f Hf. by apply (Hp k' f Hf).
  - intros k' f Hf. by apply (Hp k' f Hf).
Qed.


(** The key under which a check of a node files a finding. *)
Definition key_of (code owner : string) (ty : Z) : string := code +:+ "|" +:+ owner +:+ "|" +:+ fmt_d ty.

Lemma key_of_Key f code owner ty :
  no_byte "|" (f_Code f) → no_byte "|" code → Key f = key_of code owner ty →
  f_Code f = code ∧ f_Owner f = owner ∧ f_RRType f = ty.
Proof.
  intros Hf Hc. unfold Key, key_of. intros Heq. apply first_sep_inj in Heq as [Hcode Heq]; [|done..].
  apply (last_sep_inj "|" (f_Owner f) owner) in Heq as [Ho Ht]; [|apply fmt_d_no_pipe..].
  split_and!; [done..|]. by apply fmt_d_inj.
Qed.








Lemma range_set_empty : range_set (∅ : gset string) = [].
Proof.
  destruct (range_set ∅) as [|x l] eqn:E; [done|]. assert (x ∈ range_set ∅) as Hx by (rewrite E; set_solver).
  apply elem_of_range_set in Hx. set_solver.
Qed.

(** A pass that looks at nothing only has hygiene to report. *)
Lemma incr_findings_empty st cached t :
  t_Names t = ∅ → t_NSEC3 t = ∅ →
  owners_of st t = ∅ ∧ all_made v hygiene_codes (incr_findings v st cached t).
Proof.
  intros HN H3. split; [unfold owners_of; rewrite HN, H3, range_set_empty; set_solver|].
  destruct (incr_findings_split st cached t) as [used ->].
  unfold name_findings, hash_findings. rewrite HN, H3, range_set_empty.
  apply all_made_app; [|apply hygiene_findings_made]. destruct (bool_decide _); apply all_made_nil.
Qed.

Lemma hygiene_no_error fs : all_made v hygiene_codes fs → existsb is_error fs = false.
Proof.
  intros Hm. apply (warnings_no_error v). eapply all_made_weaken; [|exact Hm].
  unfold warning_codes. intros c Hc. apply elem_of_app. by left.
Qed.

Lemma incr_finish_valid st prev cached t :
  r_Valid (incr_finish v st prev cached t) = negb (HasErrors (r_Findings (incr_finish v st prev cached t))).
Proof. unfold incr_finish. by destruct (recheck v st cached t). Qed.

(** C29: an incremental pass over an empty change forgets everything. With
    no touched name and no touched hash the set of owners to replace is
    empty, which the merge reads as "replace all": whatever was wrong with
    the zone before, it is declared valid. *)
Theorem incremental_empty sched st prev cached t r :
  prev_ok prev → incr_starts st cached t → t_Names t = ∅ → t_NSEC3 t = ∅ →
  Incremental v sched st (Some prev) (Some t) = Some r → r_Valid r = true.
Proof.
  intros Hp Hst HN H3. rewrite (Incremental_starts _ _ _ cached) by done. intros [= <-].
  rewrite incr_finish_valid. apply negb_true_iff, not_true_iff_false. rewrite HasErrors_spec. intros (k & f & Hk & Hf).
  rewrite incr_finish_lookup in Hk by done.
  destruct (incr_findings_empty st cached t HN H3) as [Ho Hm]. rewrite Ho in Hk.
  assert (∃ g, last_with k (incr_findings v st cached t) = Some g ∧ f_Severity g = Error) as (g & Hg & Hsev).
  { unfold merged, kept in Hk. rewrite size_empty in Hk. rewrite incr_set_lookup in Hk.
    destruct (prev !! k); cbn in Hk; [|eauto].
    destruct (last_with k _) as [g|]; [|done]. injection Hk as <-. eauto. }
  apply last_with_elem in Hg as [Hg _]. apply hygiene_no_error, not_true_iff_false in Hm.
  apply Hm, existsb_elem_of. exists g. split; [done|by apply bool_decide_eq_true].
Qed.

(** A finding of the pass, unless an older one under its key is kept. *)
Lemma incr_reports st prev cached t f :
  prev_ok prev → f ∈ incr_findings v st cached t →
  (∀ old, prev !! Key f = Some old → f_Severity old = f_Severity f ∧ f_Code old = f_Code f) →
  ∃ g, r_Findings (incr_finish v st (Some prev) cached t) !! Key f = Some g ∧
    f_Severity g = f_Severity f ∧ f_Code g = f_Code f.
Proof.
  intros Hp Hf Hold. rewrite incr_finish_lookup by done. unfold merged. rewrite incr_set_lookup.
  destruct (last_with_is_Some (Key f) _ f Hf eq_refl) as [g Hg]. rewrite Hg.
  apply last_with_elem in Hg as [Hgin Hgk].
  assert (f_Severity g = f_Severity f ∧ f_Code g = f_Code f) as [Hs Hc].
  { pose proof (incr_findings_made st cached t g Hgin) as Mg. pose proof (incr_findings_made st cached t f Hf) as Mf.
    destruct (Key_code_owner v all_codes g f) as [Hc _]; [done..|].
    by rewrite (md_severity _ _ _ Mg), (md_severity _ _ _ Mf), Hc. }
  destruct (prev !! Key f) as [old|] eqn:E; [|by eauto].
  destruct (kept _ old); [by eauto|]. eexists. split; [done|]. done.
Qed.

(** removing an NSEC3 record makes a zone invalid. The hash of the
    removed record is touched, the record is not found, and the pass reports
    a broken chain at the apex, whether or not the chain was closed over the
    gap (a finding of that kind that is already known counts as an error). *)
Theorem incremental_removed_nsec3 sched st prev cached t r h :
  prev_ok prev → incr_starts st cached t → is_Some (NSEC3PARAM st) →
  h ∈ t_NSEC3 t → NSEC3ByHash st h = None →
  (∀ old, prev !! key_of NSEC3ChainBroken (st_origin st) TypeNSEC3 = Some old → f_Severity old = Error) →
  Incremental v sched st (Some prev) (Some t) = Some r → r_Valid r = false.
Proof.
  intros Hp Hst Hn3 Hh Hnone Hold. rewrite (Incremental_starts _ _ _ cached) by done. intros [= <-].
  set (f := finding v NSEC3ChainBroken Error (st_origin st) TypeNSEC3 "touched NSEC3 missing").
  destruct (incr_reports st prev cached t f Hp) as (g & Hg & Hs & _).
  - destruct (incr_findings_split st cached t) as [used ->]. unfold hash_findings.
    rewrite bool_decide_true by done. rewrite !elem_of_app. left; right. apply list_elem_of_join.
    exists [f]. split; [set_solver|]. apply list_elem_of_fmap. exists h. split; [|by apply elem_of_range_set].
    unfold recheck_nsec3. by rewrite Hnone.
  - intros old Ho. split; [by apply Hold|]. destruct (Hp _ _ Ho) as (HK & Hpipe & _).
    change (Key f) with (key_of NSEC3ChainBroken (st_origin st) TypeNSEC3) in HK.
    apply key_of_Key in HK as (? & _); [done|done|]. apply codes_no_pipe. apply elem_of_app. right.
    apply elem_of_app. right. unfold zone_codes. set_solver.
  - rewrite incr_finish_valid. apply negb_false_iff, HasErrors_spec. exists (Key f), g. by rewrite Hs.
Qed.

(** After every incremental pass with hygiene checks, a zone-signing key
    that signs nothing at the touched names is reported as signing nothing at
    all: usage is only recorded for the signatures the pass looks at. *)
Theorem incremental_unused sched st prev cached t r k :
  prev_ok prev → incr_starts st cached t → hy_Enabled (vf_Hygiene (v_cfg v)) = true →
  k ∈ mark_used cached (o_used (recheck v st cached t).1) →
  ck_IsZone k = true → ck_IsKSK k = false → ck_Used k = false →
  (∀ old, prev !! key_of DNSKEYUnused (st_origin st) TypeDNSKEY = Some old → f_Severity old = Warning) →
  Incremental v sched st (Some prev) (Some t) = Some r →
  ∃ f, r_Findings r !! key_of DNSKEYUnused (st_origin st) TypeDNSKEY = Some f ∧ f_Code f = DNSKEYUnused.
Proof.
  intros Hp Hst Hy Hk HZ HK HU Hold. rewrite (Incremental_starts _ _ _ cached) by done. intros [= <-].
  set (f := finding v DNSKEYUnused Warning (st_origin st) TypeDNSKEY ("zone key " +:+ fmt_d (ck_KeyTag k) +:+ " signs nothing")).
  destruct (incr_reports st prev cached t f Hp) as (g & Hg & _ & Hc).
  - unfold incr_findings. destruct (recheck v st cached t) as [o c]. cbn [fst] in Hk.
    apply elem_of_app. right. unfold hygiene_findings. rewrite Hy. unfold hygiene. cbv zeta. rewrite !elem_of_app.
    right; right. apply list_elem_of_omap. exists k. split; [done|]. by rewrite HZ, HK, HU.
  - intros old Ho. split; [by apply Hold|]. destruct (Hp _ _ Ho) as (HK' & Hpipe & _).
    change (Key f) with (key_of DNSKEYUnused (st_origin st) TypeDNSKEY) in HK'.
    apply key_of_Key in HK' as (? & _); [done|done|]. apply codes_no_pipe. apply elem_of_app. right.
    apply elem_of_app. right. unfold zone_codes, warning_codes, hygiene_codes. set_solver.
  - exists g. split; [exact Hg|exact Hc].
Qed.

(** ** Sweeping *)

Lemma sweep_fold l s :
  foldl (λ s rec, AddAll (v_wall v) s (sweep_one v rec)) s l = AddAll (v_wall v) s (mjoin (sweep_one v <$> l)).
Proof.
  revert s. induction l as [|r l IH]; intros s; [done|]. rewrite fmap_cons. cbn [foldl].
  change (mjoin (sweep_one v r :: (sweep_one v <$> l))) with (sweep_one v r ++ mjoin (sweep_one v <$> l)).
  by rewrite AddAll_app, IH.
Qed.

(** What a sweep is to report about one signature. *)
Definition sweep_key (rec : ExpiryRec) (k : string) : Prop :=
  (ex_Expiration rec + skew32 v < now32 v)%Z ∧ k = key_of RRSIGExpired (ex_Owner rec) (ex_TypeCovered rec) ∨
  (now32 v < ex_Expiration rec ≤ now32 v + warn32 v)%Z ∧ k = key_of RRSIGExpiringSoon (ex_Owner rec) (ex_TypeCovered rec).

Lemma sweep_one_key rec k :
  in_u32 (ex_Expiration rec) → (ex_Expiration rec + skew32 v < 2 ^ 32)%Z →
  (∃ f, f ∈ sweep_one v rec ∧ Key f = k) ↔ sweep_key rec k.
Proof.
  intros He Hs. assert (in_u32 (skew32 v)) as Hk by apply u32_range. assert (in_u32 (now32 v)) as Hw by apply u32_range.
  unfold in_u32 in *. unfold sweep_one, sweep_key. rewrite (u32_small (_ + _)) by (unfold in_u32; lia).
  destruct (Z.ltb_spec (ex_Expiration rec + skew32 v) (now32 v)) as [H1|H1].
  { setoid_rewrite list_elem_of_singleton. split.
    - intros (f & -> & <-). left. done.
    - intros [[_ ->]|[? _]]; [|lia]. eexists. split; [done|]. done. }
  destruct (Z.ltb_spec (now32 v) (ex_Expiration rec)) as [H2|H2]; cbn [andb].
  2:{ split; [by intros (f & ?%elem_of_nil & _)|]. intros [[? _]|[? _]]; lia. }
  rewrite (u32_small (_ - _)) by (unfold in_u32; lia).
  destruct (Z.leb_spec (ex_Expiration rec - now32 v) (warn32 v)) as [H3|H3].
  - setoid_rewrite list_elem_of_singleton. split.
    + intros (f & -> & <-). right. split; [lia|done].
    + intros [[? _]|[_ ->]]; [lia|]. eexists. split; [done|]. done.
  - split; [by intros (f & ?%elem_of_nil & _)|]. intros [[? _]|[? _]]; lia.
Qed.

(** C27: a sweep adds exactly the signatures of the expiry index that have
    expired (beyond the clock skew) and those that expire within the warning
    period, under their keys; nothing is removed, and the number returned
    is the number of keys that are new. (As long as the 32-bit sums of the
    clock and of the expirations do not wrap.) *)
Theorem sweep_exact `{BL : !BTreeLaws} st findings :
  expiry_ok st → (now32 v + skew32 v + warn32 v < 2 ^ 32)%Z →
  (∀ rec, indexed st rec → ex_Expiration rec + skew32 v < 2 ^ 32)%Z →
  let '(res, opened) := SweepExpiry v st findings in
  (∀ k, is_Some (res !! k) ↔ is_Some (findings !! k) ∨ ∃ rec, indexed st rec ∧ sweep_key rec k) ∧
  opened = Z.of_nat (size (dom res ∖ dom findings)).
Proof.
  intros Hok Hnow Hexp. unfold SweepExpiry. cbv zeta. rewrite sweep_fold.
  assert (in_u32 (skew32 v)) as Hk by apply u32_range. assert (in_u32 (now32 v)) as Hw by apply u32_range.
  assert (in_u32 (warn32 v)) as Hwn by apply u32_range. unfold in_u32 in *.
  rewrite u32_small by (unfold in_u32; lia). rewrite ExpiringBefore_filter by (done || (unfold in_u32; lia)).
  set (recs := List.filter _ _).
  assert (∀ rec, rec ∈ recs ↔ indexed st rec ∧ (ex_Expiration rec ≤ now32 v + skew32 v + warn32 v)%Z) as Hrecs.
  { intros rec. unfold recs. by rewrite elem_of_filter_b, <-indexed_scan, Z.leb_le. }
  set (res := AddAll _ _ _).
  assert (∀ k, is_Some (res !! k) ↔ is_Some (findings !! k) ∨ ∃ rec, indexed st rec ∧ sweep_key rec k) as Hres.
  { intros k. unfold res. rewrite AddAll_is_Some. apply Morphisms_Prop.or_iff_morphism; [done|].
    assert (∀ rec, indexed st rec → in_u32 (ex_Expiration rec)) as Hu32 by (intros rec Hi; by apply (Hok _ _ Hi)).
    split.
    - intros (f & (fs & Hf & (rec & -> & Hrec)%list_elem_of_fmap)%list_elem_of_join & HK).
      apply Hrecs in Hrec as [Hi _]. exists rec. split; [done|]. apply sweep_one_key; eauto.
    - intros (rec & Hi & HK). assert (rec ∈ recs) as Hrec.
      { apply Hrecs. split; [done|]. destruct HK as [[? _]|[? _]]; lia. }
      apply sweep_one_key in HK as (f & Hf & HK); [|eauto..]. exists f. split; [|done].
      apply list_elem_of_join. eexists. split; [exact Hf|]. apply list_elem_of_fmap. eauto. }
  split; [done|]. unfold FSet_Len.
  assert (dom findings ⊆ dom res) as Hsub by (intros k; rewrite !elem_of_dom, Hres; by left).
  rewrite size_difference, !size_dom by done. apply subseteq_size in Hsub. rewrite !size_dom in Hsub. lia.
Qed.
End facts.

(** ** Witnesses *)

Definition toy_touched : Touched := mkTouched {[ "b.z." ]} ∅ false false false 1 0.
Definition toy_prev : FSet := AddAll 5 NewSet [NewFinding 5 RRSIGMissing Error "z." TypeSOA "no RRSIG covering SOA"].

Lemma toy_prev_ok : prev_ok toy_prev.
Proof.
  intros k f. change toy_prev with (Add 5 ∅ (NewFinding 5 RRSIGMissing Error "z." TypeSOA "no RRSIG covering SOA")).
  rewrite Add_dated. intros [[<- <-]|[_ Hk]]%lookup_insert_Some; [|by rewrite lookup_empty in Hk].
  split_and!; [done| |done]. vm_compute. repeat split; discriminate.
Qed.

(** The keys of the toy zone. *)
Lemma toy_keys : ∃ cached, cacheKeys [(hdr "z." TypeDNSKEY, toy_key)] = Ok cached.
Proof. assert (is_ok (cacheKeys [(hdr "z." TypeDNSKEY, toy_key)]) = true) as H by (vm_compute; reflexivity).
  destruct (cacheKeys _) as [c|]; [by eexists|discriminate H]. Qed.

Lemma toy_incr_starts t :
  t_DNSKEY t = false → t_NSEC3PARAM t = false → ∃ cached, incr_starts (built "z." toy_signed) cached t.
Proof.
  intros H1 H2. destruct toy_keys as [cached Hc]. exists cached. split; [|done].
  exists (hdr "z." TypeDNSKEY, toy_key), []. split; [vm_compute; reflexivity|exact Hc].
Qed.

Definition toy_missing : Finding := NewFinding 5 RRSIGMissing Error "z." TypeSOA "no RRSIG covering SOA".






Lemma incremental_empty_witness :
  ∃ r, Incremental toy_two [] (built "z." toy_signed) (Some toy_prev) (Some emptyTouched) = Some r ∧
    HasErrors toy_prev = true ∧ r_Valid r = true.
Proof.
  destruct (toy_incr_starts emptyTouched eq_refl eq_refl) as [cached Hs].
  pose proof (Incremental_starts toy_two [] (built "z." toy_signed) (Some toy_prev) cached emptyTouched Hs) as Hr.
  eexists. split; [exact Hr|]. split; [vm_compute; reflexivity|].
  exact (incremental_empty toy_two [] (built "z." toy_signed) toy_prev cached emptyTouched _ toy_prev_ok Hs eq_refl eq_refl Hr).
Defined.

(** A zone-signing key that signs nothing at b.z. *)
Definition toy_zsk : DNSKEY_rdata := mkDNSKEY 256 3 ED25519 "AQECAwQFBgcICQoLDA0ODxAREhMUFRYXGBkaGxwdHh8=".
Definition toy_zsk_signed : list RR :=
  mkRR (hdr "z." TypeNSEC3PARAM) (RD_NSEC3PARAM (mkNSEC3PARAM 1 0 0 0 "")) ::
  mkRR (hdr "z." TypeDNSKEY) (RD_DNSKEY toy_zsk) :: toy_signed.

Lemma toy_zsk_starts t :
  t_DNSKEY t = false → t_NSEC3PARAM t = false →
  ∃ cached, incr_starts (built "z." toy_zsk_signed) cached t ∧
    cached = ok_or [] (cacheKeys [(hdr "z." TypeDNSKEY, toy_zsk); (hdr "z." TypeDNSKEY, toy_key)]).
Proof.
  intros H1 H2. eexists. split; [|reflexivity]. split; [|done].
  eexists _, _. split; [vm_compute; reflexivity|]. vm_compute. reflexivity.
Qed.

Definition toy_gone : Touched := mkTouched {[ "gone.z." ]} {[ "aaaaa" ]} false false false 0 1.

Lemma incremental_removed_nsec3_witness :
  ∃ r, Incremental toy_two [] (built "z." toy_zsk_signed) (Some toy_prev) (Some toy_gone) = Some r ∧ r_Valid r = false.
Proof.
  destruct (toy_zsk_starts toy_gone eq_refl eq_refl) as (cached & Hs & _).
  pose proof (Incremental_starts toy_two [] (built "z." toy_zsk_signed) (Some toy_prev) cached toy_gone Hs) as Hr.
  eexists. split; [exact Hr|].
  refine (incremental_removed_nsec3 toy_two [] (built "z." toy_zsk_signed) toy_prev cached toy_gone _ "aaaaa" toy_prev_ok Hs _ _ _ _ Hr).
  - assert (bool_decide (is_Some (NSEC3PARAM (built "z." toy_zsk_signed))) = true) as H by (vm_compute; reflexivity).
    by apply bool_decide_eq_true in H.
  - unfold toy_gone. cbn [t_NSEC3]. set_solver.
  - vm_compute. reflexivity.
  - intros old. assert (toy_prev !! key_of NSEC3ChainBroken (st_origin (built "z." toy_zsk_signed)) TypeNSEC3 = None) as -> by (vm_compute; reflexivity).
    done.
Defined.

Lemma toy_prev_none k : k ≠ Key toy_missing → toy_prev !! k = None.
Proof.
  intros Hk. change toy_prev with (Add 5 ∅ toy_missing). rewrite Add_dated.
  assert (<[Key toy_missing := toy_missing]> (∅ : FSet) !! k = None) as H.
  { rewrite lookup_insert_ne; [apply lookup_empty|]. congruence. }
  exact H.
Qed.

Lemma toy_unused_key :
  ∃ k, k ∈ mark_used (ok_or [] (cacheKeys [(hdr "z." TypeDNSKEY, toy_zsk); (hdr "z." TypeDNSKEY, toy_key)])) (o_used (recheck toy_two (built "z." toy_zsk_signed)
        (ok_or [] (cacheKeys [(hdr "z." TypeDNSKEY, toy_zsk); (hdr "z." TypeDNSKEY, toy_key)])) toy_touched).1) ∧
    ck_IsZone k && negb (ck_IsKSK k) && negb (ck_Used k) = true.
Proof.
  assert (existsb (λ k, ck_IsZone k && negb (ck_IsKSK k) && negb (ck_Used k)) (mark_used (ok_or [] (cacheKeys [(hdr "z." TypeDNSKEY, toy_zsk); (hdr "z." TypeDNSKEY, toy_key)])) (o_used (recheck toy_two (built "z." toy_zsk_signed)
        (ok_or [] (cacheKeys [(hdr "z." TypeDNSKEY, toy_zsk); (hdr "z." TypeDNSKEY, toy_key)])) toy_touched).1)) = true) as H by (vm_compute; reflexivity).
  by apply existsb_elem_of in H.
Qed.

Lemma incremental_unused_witness :
  ∃ r f, Incremental toy_two [] (built "z." toy_zsk_signed) (Some toy_prev) (Some toy_touched) = Some r ∧
    r_Findings r !! key_of DNSKEYUnused (st_origin (built "z." toy_zsk_signed)) TypeDNSKEY = Some f.
Proof.
  destruct (toy_zsk_starts toy_touched eq_refl eq_refl) as (cached & Hs & Hc).
  pose proof (Incremental_starts toy_two [] (built "z." toy_zsk_signed) (Some toy_prev) cached toy_touched Hs) as Hr.
  destruct toy_unused_key as (k & Hk & Hb). rewrite <-Hc in Hk.
  apply andb_prop in Hb as [Hb HU%negb_true_iff]. apply andb_prop in Hb as [HZ HK%negb_true_iff].
  assert (∀ old, toy_prev !! key_of DNSKEYUnused (st_origin (built "z." toy_zsk_signed)) TypeDNSKEY = Some old →
    f_Severity old = Warning) as Hold.
  { intros old. rewrite toy_prev_none; [done|]. vm_compute. discriminate. }
  destruct (incremental_unused toy_two [] (built "z." toy_zsk_signed) toy_prev cached toy_touched _ k toy_prev_ok Hs eq_refl
    Hk HZ HK HU Hold Hr) as (f & Hf & _).
  exists (incr_finish toy_two (built "z." toy_zsk_signed) (Some toy_prev) cached toy_touched), f. split; [exact Hr|exact Hf].
Defined.

Lemma toy_rrsigs_ok : Forall rrsig_ok toy_signed.
Proof.
  repeat apply Forall_cons_2; [..|apply Forall_nil_2]; intros v Hv; try discriminate Hv;
    injection Hv as <-; (split_and!; vm_compute; repeat split; discriminate).
Qed.

Lemma toy_expirations rr v : rr ∈ toy_signed → as_RRSIG rr = Some v → sig_Expiration v = 5000%Z.
Proof.
  assert (forallb (λ rr, match as_RRSIG rr with Some v => sig_Expiration v =? 5000 | None => true end)%Z toy_signed = true)
    as H by (vm_compute; reflexivity).
  rewrite forallb_forall in H. intros Hin Hv. apply list_elem_of_In, H in Hin. rewrite Hv in Hin.
  by apply Z.eqb_eq.
Qed.

Lemma sweep_exact_witness :
  is_Some ((SweepExpiry toy_two (built "z." toy_signed) NewSet).1 !! key_of RRSIGExpiringSoon "z." TypeSOA).
Proof.
  assert (FromAXFR "z." toy_signed = Ok (built "z." toy_signed)) as Hb by (apply built_Ok; vm_compute; reflexivity).
  destruct (FromAXFR_expiry "z." toy_signed _ Hb toy_rrsigs_ok) as [Hok Hidx].
  assert (∀ rec, indexed (built "z." toy_signed) rec → ex_Expiration rec = 5000%Z) as Hexp.
  { intros rec (rr & v & Hin & _ & Hv & ->)%Hidx. by apply (toy_expirations rr v Hin Hv). }
  pose proof (sweep_exact toy_two (built "z." toy_signed) NewSet Hok) as H.
  destruct (SweepExpiry toy_two (built "z." toy_signed) NewSet) as [res opened]. cbn [fst].
  assert (now32 toy_two + skew32 toy_two + warn32 toy_two < 2 ^ 32)%Z as Hnow by (vm_compute; reflexivity).
  assert (skew32 toy_two < 2 ^ 31)%Z as Hskew by (vm_compute; reflexivity).
  apply H; [done| |].
  { intros rec Hr. rewrite (Hexp _ Hr). lia. }
  right. exists (mkExpiryRec 5000 "z." TypeSOA (KeyTag toy_key)). split.
  - apply Hidx. exists (toy_sig "z." TypeSOA), (mkRRSIG TypeSOA ED25519 1 300 5000 0 (KeyTag toy_key) "z." toy_ed25519).
    split_and!; [|vm_compute; reflexivity..]. do 3 apply elem_of_cons, or_intror. apply elem_of_cons. by left.
  - right. split; [|done]. cbn [ex_Expiration]. split; vm_compute; [reflexivity|discriminate].
Defined.
