(* ===== verification/Xfr.v ===== *)
(** * Zone transfers (internal/xfr/client.go)

    The client that probes serials and fetches zones. The DNS library's
    connections are the operations of the class [Net], an argument of the
    client's operations; what the client asks for is a [Request]. Main
    results: which answers to an incremental request are read as changes and
    which as a whole zone; a one-step difference sequence is read as its
    changes; a sequence of several steps is not: the records added by all
    steps but the last are read as removed. *)

From S2P Require Import Prelude GoStrings DnsLib BTree DnsName Node Store StoreSpec Config Toy.

(** ** What is asked, and what comes back *)

(** The message a request builds with the library. *)
Inductive Query :=
| SetQuestion (name : string) (qtype : Z)
| SetAxfr (name : string)
| SetIxfr (name : string) (serial : Z) (ns mbox : string).

(** [SetTsig], and the secrets the connection is given. *)
Record Tsig := mkTsig {
  ts_Secret : gmap string string; ts_Key : string; ts_Alg : string; ts_Fudge : Z; ts_Time : Z
}.

Record Request := mkRequest { rq_Query : Query; rq_Tsig : option Tsig; rq_Timeout : Duration }.

(** [dns.Envelope]. *)
Inductive Envelope :=
| EnvError (err : string)
| EnvRR (rrs : list RR).

(** The network at the time of an operation. [net_Exchange proto q addr] is
    the answer section of a single exchange, [net_In q addr] are the
    envelopes of a transfer, [ctx_Err n] is the state of the context after
    the n-th envelope. *)
Class Net : Type := {
  net_Exchange : string → Request → string → result (list RR);
  net_In : Request → string → result (list Envelope);
  ctx_Err : nat → option string
}.

Definition HmacSHA1 : string := "hmac-sha1.".
Definition HmacSHA256 : string := "hmac-sha256.".
Definition HmacSHA384 : string := "hmac-sha384.".
Definition HmacSHA512 : string := "hmac-sha512.".

(** [net.JoinHostPort] *)
Definition JoinHostPort (host port : string) : string :=
  if bool_decide (is_Some (IndexByte host ":")) then "[" +:+ host +:+ "]:" +:+ port else host +:+ ":" +:+ port.

Record Result `{BT : !BTree} := mkXfrResult {
  x_Store : option Store;
  x_Adds : list RR;
  x_Removes : list RR;
  x_Method : string;
  x_Fallback : bool;
  x_Serial : Z;
  x_Records : Z;
  x_Server : string
}.

Record SOAResult := mkSOAResult {
  sr_Server : string; sr_Serial : Z; sr_Refresh : Z; sr_Retry : Z; sr_Expire : Z;
  sr_Err : option string; sr_Reachable : bool
}.

(** ** Reading an incremental answer *)

(** The variable [mode]: 0 looking at first, 1 deleting, 2 adding. *)
Inductive Mode := First | Deleting | Adding.

Record IxfrState := mkIxfr { ix_mode : Mode; ix_adds : list RR; ix_removes : list RR }.

Definition ixfr_step (serial : Z) (s : IxfrState) (rr : RR) : IxfrState :=
  match ix_mode s with
  | First => if is_SOA rr then mkIxfr Deleting (ix_adds s) (ix_removes s) else s
  | Deleting =>
      match as_SOA rr with
      | Some soa =>
          if bool_decide (soa_Serial soa = serial)
          then mkIxfr Adding (ix_adds s ++ [rr]) (ix_removes s)
          else mkIxfr Deleting (ix_adds s) (ix_removes s ++ [rr])
      | None => mkIxfr Deleting (ix_adds s) (ix_removes s ++ [rr])
      end
  | Adding =>
      match as_SOA rr with
      | Some soa =>
          if negb (bool_decide (soa_Serial soa = serial))
          then mkIxfr Deleting (ix_adds s) (ix_removes s ++ [rr]) else s
      | None => mkIxfr Adding (ix_adds s ++ [rr]) (ix_removes s)
      end
  end.

(** [parseIXFR]: adds, removes, serial, fallback. *)
Definition parseIXFR (rrs : list RR) (fromSerial : Z) : list RR * list RR * Z * bool :=
  match omap as_SOA rrs with
  | [] => ([], [], 0%Z, true)
  | first :: rest =>
      let soas := first :: rest in
      let serial := soa_Serial first in
      if match rest with [second] => bool_decide (soa_Serial first = soa_Serial second) | _ => false end
      then ([], [], serial, true)
      else if bool_decide (length soas ≤ 2) && bool_decide (soa_Serial first = fromSerial)
      then ([], [], serial, false)
      else
        let s := foldl (ixfr_step serial) (mkIxfr First [] []) rrs in
        (ix_adds s, ix_removes s, serial, false)
  end.

(** The loop of [stripSOAEnvelope]. *)
Fixpoint strip_loop (seenFirst : bool) (rrs : list RR) : list RR :=
  match rrs with
  | [] => []
  | rr :: rest =>
      if is_SOA rr then
        if negb seenFirst then rr :: strip_loop true rest
        else if bool_decide (rest = []) then strip_loop seenFirst rest
        else rr :: strip_loop seenFirst rest
      else rr :: strip_loop seenFirst rest
  end.
Definition stripSOAEnvelope (rrs : list RR) : list RR := strip_loop false rrs.

(** ** The client *)

Section client.
Context `{DL : !DnsLib, BT : !BTree}.
Variable cfg : Config.
Implicit Types server : Server.

Definition tsigAlg (name : string) : string :=
  let n := ToLower (TrimSuffix name ".") in
  if bool_decide (n = "hmac-sha1") || bool_decide (n = "hmac-sha1.") then HmacSHA1
  else if bool_decide (n = "hmac-sha256") || bool_decide (n = "hmac-sha256.") then HmacSHA256
  else if bool_decide (n = "hmac-sha512") || bool_decide (n = "hmac-sha512.") then HmacSHA512
  else if bool_decide (n = "hmac-sha384") || bool_decide (n = "hmac-sha384.") then HmacSHA384
  else if bool_decide (name = "") then HmacSHA256 else name.

(** [tsigFor]: the secrets, the key name and the algorithm; [None] is the
    nil map. *)
Definition tsigFor (server : Server) (zoneTSIG : string) : option (gmap string string * string * string) :=
  let name := if bool_decide (zoneTSIG = "") then sv_TSIGKey server else zoneTSIG in
  if bool_decide (name = "") then None
  else
    match TSIGByName cfg name with
    | None => None
    | Some k =>
        let keyName := Canonical (tk_Name k) in
        Some ({[ keyName := tk_Secret k ]}, keyName, tsigAlg (tk_Algorithm k))
    end.

Definition addr (s : Server) : string := JoinHostPort (sv_Address s) (fmt_d (sv_Port s)).

(** A query, signed if there is a key. *)
Definition request (q : Query) (server : Server) (zoneTSIG : string) (timeout : Duration) (now : Time) : Request :=
  mkRequest q
    ('(secrets, keyName, alg) ← tsigFor server zoneTSIG; Some (mkTsig secrets keyName alg 300 (Unix now)))
    timeout.

Section net.
Context `{N : !Net}.

(** [ProbeSOA]; [now] is the time of the call. *)
Definition ProbeSOA (zname : string) (server : Server) (zoneTSIG : string) (timeout : Duration) (now : Time) : SOAResult :=
  let m := request (SetQuestion (Canonical zname) TypeSOA) server zoneTSIG timeout now in
  let r :=
    match net_Exchange "udp" m (addr server) with
    | Ok answer => Ok answer
    | Err _ => net_Exchange "tcp" m (addr server)
    end in
  match r with
  | Err err => mkSOAResult (sv_Name server) 0 0 0 0 (Some err) false
  | Ok answer =>
      match omap as_SOA answer with
      | soa :: _ => mkSOAResult (sv_Name server) (soa_Serial soa) (soa_Refresh soa) (soa_Retry soa) (soa_Expire soa) None true
      | [] => mkSOAResult (sv_Name server) 0 0 0 0 (Some "no SOA in response") false
      end
  end.

(** The records of an envelope, added one by one; TKEY records are skipped. *)
Fixpoint axfr_add (st : Store) (n : Z) (rrs : list RR) : result (Store * Z) :=
  match rrs with
  | [] => Ok (st, n)
  | rr :: rrs =>
      if bool_decide (rr_Type rr = TypeTKEY) then axfr_add st n rrs
      else
        match AddRR st rr with
        | (_, Some err) => Err err
        | (st, None) => axfr_add st (n + 1) rrs
        end
  end.

(** The loop over the envelopes of [AXFR]; [i] have been seen. *)
Fixpoint axfr_loop (fail : string → string) (i : nat) (st : Store) (n : Z) (ch : list Envelope) : result (Store * Z) :=
  match ch with
  | [] => Ok (st, n)
  | EnvError err :: _ => Err (fail err)
  | EnvRR rrs :: ch =>
      '(st, n) ← axfr_add st n rrs;
      match ctx_Err (S i) with
      | Some err => Err err
      | None => axfr_loop fail (S i) st n ch
      end
  end.

Definition AXFR (zname : string) (server : Server) (zoneTSIG : string) (timeout : Duration) (now : Time) : result Result :=
  let zname := Canonical zname in
  let m := request (SetAxfr zname) server zoneTSIG timeout now in
  let fail err := "axfr " +:+ zname +:+ "@" +:+ sv_Name server +:+ ": " +:+ err in
  match net_In m (addr server) with
  | Err err => Err (fail err)
  | Ok ch =>
      '(st, n) ← axfr_loop fail 0 (NewStore zname) 0 ch;
      Ok (mkXfrResult _ (Some st) [] [] "axfr" false (st_serial st) n (sv_Name server))
  end.

(** The loop over the envelopes of [IXFR]. *)
Fixpoint ixfr_loop (fail : string → string) (i : nat) (all : list RR) (ch : list Envelope) : result (list RR) :=
  match ch with
  | [] => Ok all
  | EnvError err :: _ => Err (fail err)
  | EnvRR rrs :: ch =>
      match ctx_Err (S i) with
      | Some err => Err err
      | None => ixfr_loop fail (S i) (all ++ rrs) ch
      end
  end.

Definition IXFR (zname : string) (fromSerial : Z) (server : Server) (zoneTSIG : string) (timeout : Duration) (now : Time) : result Result :=
  let zname := Canonical zname in
  let m := request (SetIxfr zname fromSerial "ns." "hostmaster.") server zoneTSIG timeout now in
  let fail err := "ixfr " +:+ zname +:+ "@" +:+ sv_Name server +:+ ": " +:+ err in
  match net_In m (addr server) with
  | Err err => Err (fail err)
  | Ok ch =>
      all ← ixfr_loop fail 0 [] ch;
      let '(adds, removes, serial, fallback) := parseIXFR all fromSerial in
      if fallback then
        st ← FromAXFR zname (stripSOAEnvelope all);
        Ok (mkXfrResult _ (Some st) adds removes "axfr" fallback (st_serial st) (Store_RecordCount st) (sv_Name server))
      else Ok (mkXfrResult _ None adds removes "ixfr" fallback serial (Z.of_nat (length all)) (sv_Name server))
  end.
End net.
End client.

(** ** How answers are read *)

Lemma is_SOA_spec rr : is_SOA rr = true ↔ is_Some (as_SOA rr).
Proof. apply bool_decide_eq_true. Qed.
Lemma is_SOA_false rr : is_SOA rr = false ↔ as_SOA rr = None.
Proof. unfold is_SOA. rewrite bool_decide_eq_false, <-eq_None_not_Some. done. Qed.

(** A record that is not a SOA. *)
Definition no_soa (rr : RR) : Prop := as_SOA rr = None.

(** What each mode does with a stretch of records. *)
Lemma ixfr_deleting serial adds removes l :
  Forall (λ rr, ∀ soa, as_SOA rr = Some soa → soa_Serial soa ≠ serial) l →
  foldl (ixfr_step serial) (mkIxfr Deleting adds removes) l = mkIxfr Deleting adds (removes ++ l).
Proof.
  intros Hl. revert removes. induction Hl as [|rr l Hrr _ IH]; intros removes; [by rewrite app_nil_r|].
  cbn [foldl]. unfold ixfr_step at 2. cbn [ix_mode ix_adds ix_removes].
  assert (removes ++ rr :: l = (removes ++ [rr]) ++ l) as -> by by rewrite <-app_assoc.
  destruct (as_SOA rr) as [soa|]; [|apply IH]. rewrite bool_decide_false by auto. apply IH.
Qed.

Lemma ixfr_adding serial adds removes l :
  Forall (λ rr, ∀ soa, as_SOA rr = Some soa → soa_Serial soa = serial) l →
  foldl (ixfr_step serial) (mkIxfr Adding adds removes) l =
  mkIxfr Adding (adds ++ List.filter (λ rr, negb (is_SOA rr)) l) removes.
Proof.
  intros Hl. revert adds. induction Hl as [|rr l Hrr _ IH]; intros adds; [by rewrite app_nil_r|].
  cbn [foldl]. unfold ixfr_step at 2. cbn [ix_mode ix_adds ix_removes List.filter].
  destruct (as_SOA rr) as [soa|] eqn:E.
  - rewrite bool_decide_true by auto. cbn [negb]. rewrite (proj2 (is_SOA_spec rr)) by by rewrite E. apply IH.
  - rewrite (proj2 (is_SOA_false rr)) by done. cbn [negb]. by rewrite IH, <-app_assoc.
Qed.

Lemma ixfr_first serial adds removes rr :
  is_SOA rr = true → ixfr_step serial (mkIxfr First adds removes) rr = mkIxfr Deleting adds removes.
Proof. intros H. unfold ixfr_step. cbn [ix_mode]. by rewrite H. Qed.

Lemma ixfr_turn serial adds removes rr soa :
  as_SOA rr = Some soa → soa_Serial soa = serial →
  ixfr_step serial (mkIxfr Deleting adds removes) rr = mkIxfr Adding (adds ++ [rr]) removes.
Proof. intros H Hs. unfold ixfr_step. cbn [ix_mode ix_adds ix_removes]. by rewrite H, bool_decide_true. Qed.

Lemma ixfr_back serial adds removes rr soa :
  as_SOA rr = Some soa → soa_Serial soa ≠ serial →
  ixfr_step serial (mkIxfr Adding adds removes) rr = mkIxfr Deleting adds (removes ++ [rr]).
Proof. intros H Hs. unfold ixfr_step. cbn [ix_mode ix_adds ix_removes]. by rewrite H, bool_decide_false. Qed.

Lemma omap_as_SOA_app l1 l2 : omap as_SOA (l1 ++ l2) = omap as_SOA l1 ++ omap as_SOA l2.
Proof. induction l1 as [|rr l1 IH]; [done|]. cbn. destruct (as_SOA rr); [by rewrite IH|done]. Qed.

(** A whole zone is read into a message that either has no SOA at all or
    wraps the zone in two SOAs of the same serial. *)
Lemma parseIXFR_fallback rrs from adds removes serial :
  parseIXFR rrs from = (adds, removes, serial, true) ↔
  adds = [] ∧ removes = [] ∧
  (omap as_SOA rrs = [] ∧ serial = 0%Z ∨
   ∃ a b, omap as_SOA rrs = [a; b] ∧ soa_Serial a = serial ∧ soa_Serial b = serial).
Proof.
  unfold parseIXFR. destruct (omap as_SOA rrs) as [|a [|b [|c l]]]; cbv zeta.
  - naive_solver.
  - destruct (_ && _); naive_solver.
  - case_bool_decide; [naive_solver|]. destruct (_ && _); naive_solver.
  - destruct (_ && _); naive_solver.
Qed.

(** Enough SOAs for the answer to be a difference sequence. *)
Lemma parseIXFR_walk rr first rest rrs from :
  as_SOA rr = Some first → omap as_SOA rrs = rest → 2 ≤ length rest →
  parseIXFR (rr :: rrs) from =
  let s := foldl (ixfr_step (soa_Serial first)) (mkIxfr Deleting [] []) rrs in
  (ix_adds s, ix_removes s, soa_Serial first, false).
Proof.
  intros Hrr Hrest Hlen. unfold parseIXFR. cbn [omap list_omap foldl].
  rewrite Hrr, Hrest. destruct rest as [|b [|c rest]]; simpl in Hlen; [lia..|]. cbv zeta.
  rewrite (bool_decide_false (length _ ≤ 2)) by (simpl; lia). cbn [andb].
  rewrite ixfr_first; [done|]. apply is_SOA_spec. by rewrite Hrr.
Qed.

(** A difference sequence of one step: the new SOA, the old SOA and what
    goes, the new SOA and what comes, the new SOA. *)
Definition one_step (new old : RR) (del add : list RR) : list RR :=
  new :: (old :: del) ++ new :: add ++ [new].

Lemma parseIXFR_one_step new old del add snew from :
  as_SOA new = Some snew →
  Forall (λ rr, ∀ soa, as_SOA rr = Some soa → soa_Serial soa ≠ soa_Serial snew) (old :: del) →
  Forall (λ rr, ∀ soa, as_SOA rr = Some soa → soa_Serial soa = soa_Serial snew) add →
  parseIXFR (one_step new old del add) from =
    (new :: List.filter (λ rr, negb (is_SOA rr)) add, old :: del, soa_Serial snew, false).
Proof.
  intros Hnew Hdel Hadd. unfold one_step.
  assert (is_SOA new = true) as Hs by (apply is_SOA_spec; by rewrite Hnew).
  rewrite (parseIXFR_walk _ snew _ _ from Hnew eq_refl).
  - cbv zeta. rewrite foldl_app, ixfr_deleting by done. cbn [foldl app].
    rewrite (ixfr_turn _ _ _ _ snew) by done. rewrite ixfr_adding.
    + cbn [ix_adds ix_removes app]. rewrite List.filter_app. cbn [List.filter]. rewrite Hs. cbn [negb].
      by rewrite app_nil_r.
    + apply Forall_app. split; [done|]. apply Forall_singleton. intros soa. rewrite Hnew. by intros [= <-].
  - rewrite omap_as_SOA_app, length_app. cbn [omap list_omap]. rewrite Hnew. simpl.
    rewrite omap_as_SOA_app, length_app. cbn [omap list_omap]. rewrite Hnew. simpl. lia.
Qed.

(** C28: a difference sequence of two steps is misread. In an answer that
    takes the zone from [old] over [mid] to [new], the SOA that starts the
    additions of the first step is taken for the start of another step: the
    records the first step adds, its SOA included, end up among the removes,
    and only those of the last step are added. *)
Theorem ixfr_two_steps_misread new old mid del1 add1 del2 add2 snew sold smid from :
  as_SOA new = Some snew → as_SOA old = Some sold → as_SOA mid = Some smid →
  soa_Serial sold ≠ soa_Serial snew → soa_Serial smid ≠ soa_Serial snew →
  Forall no_soa (del1 ++ add1 ++ del2 ++ add2) →
  parseIXFR (new :: (old :: del1 ++ mid :: add1) ++ (mid :: del2 ++ new :: add2) ++ [new]) from =
    (new :: add2, (old :: del1 ++ mid :: add1) ++ mid :: del2, soa_Serial snew, false).
Proof.
  intros Hnew Hold Hmid Ho Hm Hno. rewrite !Forall_app in Hno. destruct Hno as (H1 & H2 & H3 & H4).
  assert (∀ rr, no_soa rr → ∀ soa, as_SOA rr = Some soa → soa_Serial soa ≠ soa_Serial snew) as Hd
    by (intros rr Hrr soa; unfold no_soa in Hrr; congruence).
  assert (∀ rr, no_soa rr → ∀ soa, as_SOA rr = Some soa → soa_Serial soa = soa_Serial snew) as Ha
    by (intros rr Hrr soa; unfold no_soa in Hrr; congruence).
  assert (∀ l, Forall no_soa l → List.filter (λ rr, negb (is_SOA rr)) l = l) as Hfilter.
  { intros l Hl. apply forallb_filter_id, forallb_elem_of. intros rr Hrr.
    rewrite Forall_forall in Hl. by rewrite (proj2 (is_SOA_false rr) (Hl rr Hrr)). }
  pose proof (parseIXFR_one_step new old (del1 ++ mid :: add1 ++ mid :: del2) add2 snew from Hnew) as H.
  rewrite Hfilter in H by done. unfold one_step in H.
  transitivity (parseIXFR (new :: (old :: del1 ++ mid :: add1 ++ mid :: del2) ++ new :: add2 ++ [new]) from).
  { f_equal. simpl. rewrite <-!app_assoc. simpl. by rewrite <-!app_assoc. }
  rewrite H.
  - f_equal. f_equal. f_equal. simpl. by rewrite <-!app_assoc.
  - assert (∀ soa, as_SOA mid = Some soa → soa_Serial soa ≠ soa_Serial snew) as Hmid' by (intros; congruence).
    apply Forall_cons; split; [intros; congruence|]. apply Forall_app. split; [by eapply Forall_impl|].
    apply Forall_cons; split; [done|]. apply Forall_app. split; [by eapply Forall_impl|].
    apply Forall_cons; split; [done|]. by eapply Forall_impl.
  - by eapply Forall_impl.
Qed.

(** The records of an answer of the form of a transfer. *)
Lemma stripSOAEnvelope_zone soa body :
  is_SOA soa = true → Forall no_soa body → stripSOAEnvelope (soa :: body ++ [soa]) = soa :: body.
Proof.
  intros Hs Hb. unfold stripSOAEnvelope. cbn [strip_loop]. rewrite Hs. cbn [negb]. f_equal.
  induction Hb as [|rr body Hrr Hb IH]; cbn [app strip_loop].
  - rewrite Hs. done.
  - unfold no_soa in Hrr. rewrite (proj2 (is_SOA_false rr)) by done. by f_equal.
Qed.

(** ** What a transfer builds *)

Section axfr.
Context `{DL : !DnsLib, BT : !BTree, N : !Net}.

(** Envelopes without errors, received before the context ends. *)
Definition arrives (envs : list (list RR)) : Prop := ∀ n, n ≤ length envs → ctx_Err n = None.

Definition not_TKEY (rr : RR) : bool := negb (bool_decide (rr_Type rr = TypeTKEY)).

Lemma axfr_add_all st n rrs st' :
  add_all st (List.filter not_TKEY rrs) = Ok st' → ∃ n', axfr_add st n rrs = Ok (st', n').
Proof.
  revert st n. induction rrs as [|rr rrs IH]; intros st n; cbn [List.filter axfr_add].
  { intros [= <-]. eauto. }
  unfold not_TKEY at 1. destruct (bool_decide _); cbn [negb]; [apply IH|]. cbn [add_all]. unfold AddRR.
  destruct (addRRLocked st rr) as [st1 [err|]]; [done|apply IH].
Qed.

Lemma axfr_add_split st rrs rest st' :
  add_all st (List.filter not_TKEY (rrs ++ rest)) = Ok st' →
  ∃ st1, add_all st (List.filter not_TKEY rrs) = Ok st1 ∧ add_all st1 (List.filter not_TKEY rest) = Ok st'.
Proof.
  rewrite List.filter_app. generalize (List.filter not_TKEY rrs). intros l.
  revert st. induction l as [|rr l IH]; intros st; cbn [app add_all]; [by eauto|].
  destruct (addRRLocked st rr) as [st1 [err|]]; [done|apply IH].
Qed.

Lemma axfr_loop_all fail i st n envs st' :
  (∀ m, i < m ≤ i + length envs → ctx_Err m = None) →
  add_all st (List.filter not_TKEY (mjoin envs)) = Ok st' →
  ∃ n', axfr_loop fail i st n (EnvRR <$> envs) = Ok (st', n').
Proof.
  revert i st n. induction envs as [|rrs envs IH]; intros i st n Hctx Hadd.
  { injection Hadd as <-. rewrite fmap_nil. cbn [axfr_loop]. eauto. }
  change (mjoin (rrs :: envs)) with (rrs ++ mjoin envs) in Hadd.
  apply axfr_add_split in Hadd as (st1 & H1 & H2).
  destruct (axfr_add_all st n rrs st1 H1) as [n1 E].
  rewrite fmap_cons. cbn [axfr_loop]. rewrite E. cbn [mbind result_bind].
  rewrite Hctx by (simpl; lia). apply IH; [|done]. intros m Hm. apply Hctx. simpl. lia.
Qed.

Lemma ixfr_loop_all fail i all envs :
  (∀ m, i < m ≤ i + length envs → ctx_Err m = None) →
  ixfr_loop fail i all (EnvRR <$> envs) = Ok (all ++ mjoin envs).
Proof.
  revert i all. induction envs as [|rrs envs IH]; intros i all Hctx.
  { rewrite fmap_nil. cbn [ixfr_loop]. by rewrite app_nil_r. }
  rewrite fmap_cons. cbn [ixfr_loop]. rewrite Hctx by (simpl; lia).
  change (mjoin (rrs :: envs)) with (rrs ++ mjoin envs). rewrite app_assoc.
  apply IH. intros m Hm. apply Hctx. simpl. lia.
Qed.

Variable cfg : Config.

Lemma AXFR_built zname server tsig timeout now envs st :
  net_In (request cfg (SetAxfr (Canonical zname)) server tsig timeout now) (addr server) = Ok (EnvRR <$> envs) →
  arrives envs → FromAXFR (Canonical zname) (List.filter not_TKEY (mjoin envs)) = Ok st →
  ∃ r, AXFR cfg zname server tsig timeout now = Ok r ∧ x_Store r = Some st ∧ x_Method r = "axfr" ∧ x_Serial r = st_serial st.
Proof.
  intros Hin Hctx Hst. unfold AXFR. cbv zeta. rewrite Hin.
  match goal with |- context [axfr_loop ?fail ?i ?s ?n _] =>
    destruct (axfr_loop_all fail i s n envs st) as [n' ->] end; [intros; apply Hctx; lia|exact Hst|].
  cbn [mbind result_bind]. eauto.
Qed.

Lemma IXFR_whole zname from server tsig timeout now envs adds removes serial st :
  net_In (request cfg (SetIxfr (Canonical zname) from "ns." "hostmaster.") server tsig timeout now) (addr server) =
    Ok (EnvRR <$> envs) →
  arrives envs → parseIXFR (mjoin envs) from = (adds, removes, serial, true) →
  FromAXFR (Canonical zname) (stripSOAEnvelope (mjoin envs)) = Ok st →
  ∃ r, IXFR cfg zname from server tsig timeout now = Ok r ∧ x_Store r = Some st ∧ x_Fallback r = true.
Proof.
  intros Hin Hctx Hp Hst. unfold IXFR. cbv zeta. rewrite Hin, ixfr_loop_all by (intros; apply Hctx; lia).
  cbn [mbind result_bind app]. rewrite Hp, Hst. cbn [mbind result_bind]. eauto.
Qed.

Lemma IXFR_changes zname from server tsig timeout now envs adds removes serial :
  net_In (request cfg (SetIxfr (Canonical zname) from "ns." "hostmaster.") server tsig timeout now) (addr server) =
    Ok (EnvRR <$> envs) →
  arrives envs → parseIXFR (mjoin envs) from = (adds, removes, serial, false) →
  ∃ r, IXFR cfg zname from server tsig timeout now = Ok r ∧ x_Store r = None ∧ x_Fallback r = false ∧
    x_Adds r = adds ∧ x_Removes r = removes ∧ x_Serial r = serial.
Proof.
  intros Hin Hctx Hp. unfold IXFR. cbv zeta. rewrite Hin, ixfr_loop_all by (intros; apply Hctx; lia).
  cbn [mbind result_bind app]. rewrite Hp. eexists. split_and!; done.
Qed.
End axfr.

(** ** Witness *)

Lemma ixfr_two_steps_misread_witness :
  parseIXFR (toy_SOA "z." 9 :: (toy_SOA "z." 7 :: [] ++ toy_SOA "z." 8 :: [toy_A "a.z." "192.0.2.1"]) ++
      (toy_SOA "z." 8 :: [] ++ toy_SOA "z." 9 :: [toy_A "b.z." "192.0.2.2"]) ++ [toy_SOA "z." 9]) 7 =
  (toy_SOA "z." 9 :: [toy_A "b.z." "192.0.2.2"],
   (toy_SOA "z." 7 :: [] ++ toy_SOA "z." 8 :: [toy_A "a.z." "192.0.2.1"]) ++ toy_SOA "z." 8 :: [], 9%Z, false).
Proof.
  refine (ixfr_two_steps_misread (toy_SOA "z." 9) (toy_SOA "z." 7) (toy_SOA "z." 8) [] [toy_A "a.z." "192.0.2.1"] []
    [toy_A "b.z." "192.0.2.2"] _ _ _ 7 eq_refl eq_refl eq_refl _ _ _); [discriminate..|by repeat constructor].
Defined.
