(* ===== verification/TestPrimary.v ===== *)
(** * The test primary (internal/testprimary/server.go)

    An authoritative server that applies updates literally and answers SOA
    queries and transfers, from a journal if it can. Its state is a map of
    stores and a map of journals; a handler is a function from the state and
    a message to the state after and what is sent. Main results: a client
    that transfers a zone holds the records the server's store shows, and a
    client that applies the answer to its incremental request agrees with the
    server after an update on every record on which it agreed before. *)

From S2P Require Import Prelude GoStrings DnsLib BTree DnsName Base32 Node Store StoreSpec Snapshot Config Xfr Toy.

Record changeset := mkChangeset { cs_From : Z; cs_To : Z; cs_Adds : list RR; cs_Removes : list RR }.

(** A message as far as the handlers read it. *)
Record Msg := mkMsg { m_Opcode : Z; m_Question : list (string * Z); m_Ns : list RR }.

(** A reply: [SetReply] and the fields set afterwards. *)
Record Reply := mkReply { rp_Authoritative : bool; rp_Rcode : Z; rp_Answer : list RR }.

(** What a handler sends: a message, the envelopes of a transfer. *)
Inductive Effect :=
| WriteMsg (m : Reply)
| TransferOut (ch : list (list RR)).

Definition OpcodeQuery : Z := 0.
Definition OpcodeUpdate : Z := 5.
Definition RcodeSuccess : Z := 0.
Definition RcodeNameError : Z := 3.
Definition RcodeRefused : Z := 5.

(** [soa.Serial++] *)
Definition bump_serial (soa : RR) : RR :=
  match rr_Data soa with
  | RD_SOA d => mkRR (rr_Hdr soa) (RD_SOA (mkSOA (soa_Ns d) (soa_Mbox d) (u32 (soa_Serial d + 1)) (soa_Refresh d) (soa_Retry d) (soa_Expire d) (soa_Minttl d)))
  | _ => soa
  end.

Section primary.
Context `{DL : !DnsLib, BT : !BTree, MR : !MapRange}.

Record Server := mkPrimary {
  tp_zones : gmap string Store;
  tp_journal : gmap string (list changeset);
  tp_tsig : gmap string string;
  tp_notifyTo : string
}.

Definition New : Server := mkPrimary ∅ ∅ ∅ "".
Definition SetTSIG (s : Server) (name secret : string) : Server :=
  mkPrimary (tp_zones s) (tp_journal s) (<[Canonical name := secret]> (tp_tsig s)) (tp_notifyTo s).
Definition SetNotify (s : Server) (addr : string) : Server :=
  mkPrimary (tp_zones s) (tp_journal s) (tp_tsig s) addr.
Definition LoadZone (s : Server) (st : Store) : Server :=
  mkPrimary (<[st_origin st := st]> (tp_zones s)) (tp_journal s) (tp_tsig s) (tp_notifyTo s).
Definition StoreOf (s : Server) (name : string) : option Store := tp_zones s !! Canonical name.
Definition PurgeJournal (s : Server) (name : string) : Server :=
  mkPrimary (tp_zones s) (delete (Canonical name) (tp_journal s)) (tp_tsig s) (tp_notifyTo s).

(** The part of [Apply] that follows a changeset without a new serial: the
    store, the serial, and the adds and removes of the journal. *)
Definition bump (st : Store) (from : Z) (adds removes : list RR) : Store * Z * list RR * list RR :=
  let same := (st, st_serial st, adds, removes) in
  if bool_decide (st_serial st = from) then
    match SOA st with
    | None => same
    | Some soa =>
        match RemoveRR st soa with
        | (st, Some _) => (st, from, adds, removes)
        | (st, None) =>
            let oldSOA := soa in
            let soa := bump_serial soa in
            match AddRR st soa with
            | (st, Some _) => (st, from, adds, removes)
            | (st, None) =>
                (st, match as_SOA soa with Some d => soa_Serial d | None => from end, adds ++ [soa], removes ++ [oldSOA])
            end
        end
    end
  else same.

(** [Apply]: the state, the error, and the zone a notification is sent for. *)
Definition Apply (s : Server) (name : string) (adds removes : list RR) : Server * option string * option string :=
  match tp_zones s !! Canonical name with
  | None => (s, Some "unknown zone", None)
  | Some st =>
      let from := st_serial st in
      let put st j := mkPrimary (<[Canonical name := st]> (tp_zones s)) j (tp_tsig s) (tp_notifyTo s) in
      match ApplyChanges st adds removes with
      | (st, _, Some err) => (put st (tp_journal s), Some err, None)
      | (st, _, None) =>
          let '(st, to, adds, removes) := bump st from adds removes in
          let entries := default [] (tp_journal s !! st_origin st) ++ [mkChangeset from to adds removes] in
          (put st (<[st_origin st := entries]> (tp_journal s)), None, Some (st_origin st))
      end
  end.

(** [sendNotify]: the address and the zone of the message sent. *)
Definition sendNotify (s : Server) (zone : string) : option (string * string) :=
  if bool_decide (tp_notifyTo s = "") then None else Some (tp_notifyTo s, zone).

Fixpoint findJournal (js : list changeset) (from to : Z) : option changeset :=
  match js with
  | [] => None
  | j :: js => if bool_decide (cs_From j = from) && bool_decide (cs_To j = to) then Some j else findJournal js from to
  end.

Definition writeIXFR (newSOA oldSOA : RR) (ch : changeset) : Effect :=
  WriteMsg (mkReply true RcodeSuccess
    ([newSOA; oldSOA] ++ cs_Removes ch ++ [newSOA] ++ cs_Adds ch ++ [newSOA])).

(** The goroutine that feeds the transfer. *)
Fixpoint xfr_chunks (soa : RR) (chunk : list RR) (rrs : list RR) : list (list RR) :=
  match rrs with
  | [] => [chunk ++ [soa]]
  | rr :: rrs =>
      if is_SOA rr then xfr_chunks soa chunk rrs
      else
        let chunk := chunk ++ [rr] in
        if bool_decide (32 ≤ length chunk) then chunk :: xfr_chunks soa [] rrs
        else xfr_chunks soa chunk rrs
  end.

Definition handleXFR (s : Server) (name : string) (qtype : Z) (r : Msg) : list Effect :=
  match tp_zones s !! Canonical name with
  | None => [WriteMsg (mkReply false RcodeNameError [])]
  | Some st =>
      let journal := default [] (tp_journal s !! Canonical name) in
      match SOA st with
      | None => []
      | Some soa =>
          let serial := match as_SOA soa with Some d => soa_Serial d | None => 0%Z end in
          let incremental :=
            if bool_decide (qtype = TypeIXFR) then
              match m_Ns r with
              | q :: _ =>
                  match as_SOA q with
                  | Some qsoa => ch ← findJournal journal (soa_Serial qsoa) serial; Some (writeIXFR soa q ch)
                  | None => None
                  end
              | [] => None
              end
            else None in
          match incremental with
          | Some e => [e]
          | None =>
              match AllRRs st with
              | Err _ => []
              | Ok rrs => [TransferOut (xfr_chunks soa [soa] rrs)]
              end
          end
      end
  end.

Definition handleSOA (s : Server) (name : string) : list Effect :=
  match tp_zones s !! Canonical name with
  | None => [WriteMsg (mkReply true RcodeNameError [])]
  | Some st => [WriteMsg (mkReply true RcodeSuccess (match SOA st with Some soa => [soa] | None => [] end))]
  end.

Definition handleUpdate (s : Server) (r : Msg) : Server * list Effect * option string :=
  match m_Question r with
  | [] => (s, [], None)
  | (name, _) :: _ =>
      let is_remove rr := bool_decide (rr_Class rr = ClassANY) || bool_decide (rr_Class rr = ClassNONE) in
      let '(s, _, notify) := Apply s (Canonical name) (List.filter (λ rr, negb (is_remove rr)) (m_Ns r))
        (List.filter is_remove (m_Ns r)) in
      (s, [WriteMsg (mkReply false RcodeSuccess [])], notify)
  end.

(** [handle]: the state, what is sent, and the zone to notify about. *)
Definition handle (s : Server) (r : Msg) : Server * list Effect * option string :=
  let refused := (s, [WriteMsg (mkReply false RcodeRefused [])], None) in
  if bool_decide (m_Opcode r = OpcodeUpdate) then handleUpdate s r
  else if bool_decide (m_Opcode r = OpcodeQuery) then
    match m_Question r with
    | (name, qtype) :: _ =>
        if bool_decide (qtype = TypeAXFR) || bool_decide (qtype = TypeIXFR) then (s, handleXFR s name qtype r, None)
        else if bool_decide (qtype = TypeSOA) then (s, handleSOA s name, None)
        else refused
    | [] => refused
    end
  else refused.
End primary.

(** ** Stores with one SOA *)

Section facts.
Context `{DL : !DnsLib, BT : !BTree, NL : !DnsNameLaws, WL : !DnsWireLaws}.
Implicit Types s c st : Store.

(** A SOA record of the zone [o], in the form of the decoder, with a TTL. *)
Record zone_soa (o : string) (soa : RR) : Prop := {
  zs_soa : is_SOA soa = true;
  zs_exact : wire_exact soa;
  zs_class : class_ok soa = true;
  zs_name : rr_Name soa ≠ "";
  zs_ttl : rr_Ttl soa ≠ 0%Z;
  zs_key : ∃ w, rr_key soa = Some (o, (TypeSOA, w))
}.

(** The only record of type SOA is [soa], at the apex. *)
Record one_soa (s : Store) (soa : RR) : Prop := {
  os_zone : zone_soa (st_origin s) soa;
  os_only : ∀ k w, (k, (TypeSOA, w)) ∈ zone_set s ↔ rr_key soa = Some (k, (TypeSOA, w))
}.

Lemma rr_key_inv rr k t w : rr_key rr = Some (k, (t, w)) → Canonical (rr_Name rr) = k ∧ rr_Type rr = t ∧ PackRR rr = Ok w.
Proof. unfold rr_key. destruct (PackRR rr); [|done]. by intros [= -> -> ->]. Qed.

Lemma rr_key_unpack rr k t w : wire_exact rr → rr_key rr = Some (k, (t, w)) → dns_UnpackRR w = Ok rr.
Proof. intros Hx (_ & _ & Hp)%rr_key_inv. eapply Unpack_Pack; [done|by apply PackRR_Ok]. Qed.

Lemma zone_soa_type o soa : zone_soa o soa → rr_Type soa = TypeSOA ∧ Canonical (rr_Name soa) = o.
Proof. intros [_ _ _ _ _ [w (? & ? & _)%rr_key_inv]]. done. Qed.

(** The store answers with it as it is. *)
Lemma unpackOne_soa o soa k w n t ttl :
  zone_soa o soa → rr_key soa = Some (k, (TypeSOA, w)) → unpackOne n t ttl w = Ok soa.
Proof.
  intros [_ Hx _ Hn Httl _] Hk. unfold unpackOne. rewrite (rr_key_unpack _ _ _ _ Hx Hk). f_equal.
  destruct soa as [[nm ty cl l] d]. unfold fix_header, rr_Name, rr_Ttl in *. cbn in *.
  by rewrite !bool_decide_false by done.
Qed.

Lemma one_soa_SOA s soa : store_wf s → one_soa s soa → SOA s = Some soa.
Proof.
  intros Hwf [Hsoa Huniq]. destruct (zs_key _ _ Hsoa) as [w Hk]. pose proof (proj2 (Huniq _ w) Hk) as Hin.
  apply elem_of_zone_set in Hin as (n & Hn & Hin). pose proof (sw_nodes _ Hwf _ _ Hn) as Hnw.
  assert (∃ set, Node_Set n TypeSOA = Some set) as [set Hset].
  { unfold Node_Set. destruct (List.find _ _) as [set|] eqn:E; [by eauto|].
    apply elem_of_sets_recs in Hin as (x & Hx & Ht & _). rewrite find_None_elem in E.
    specialize (E x Hx). by rewrite bool_decide_true in E. }
  assert (∀ w', w' ∈ rs_Rdata set ↔ w' = w) as Hw.
  { intros w'. rewrite (Node_Set_recs n _ set w' (nw_sets _ _ _ Hnw) Hset). split.
    - intros Hr. assert ((st_origin s, (TypeSOA, w')) ∈ zone_set s) as Hz by (apply elem_of_zone_set; eauto).
      apply Huniq in Hz. congruence.
    - by intros ->. }
  unfold SOA, apex_first, Apex. rewrite Hn. cbn [mbind option_bind]. unfold UnpackType. rewrite Hset. unfold Unpack.
  assert (∀ l, (∀ w', w' ∈ l → w' = w) → mapM_result (unpackOne (n_Name n) (rs_Type set) (rs_TTL set)) l = Ok ((λ _, soa) <$> l)) as Hmap.
  { induction l as [|w' l IH]; intros Hl; [done|]. rewrite (Hl w') in * by left. cbn [mapM_result].
    rewrite (unpackOne_soa _ _ _ _ _ _ _ Hsoa Hk). cbn [mbind result_bind]. rewrite IH by (intros; apply Hl; by right). done. }
  rewrite Hmap by (intros w' Hw'; by apply Hw).
  destruct (rs_Rdata set) as [|w0 rest] eqn:Er; [exfalso; by apply (not_elem_of_nil w), Hw|].
  cbn. by rewrite (zs_soa _ _ Hsoa).
Qed.

(** Changes without a SOA leave the serial alone. *)
Definition plain_change (rr : RR) : Prop := no_soa rr ∧ rr_Type rr ≠ TypeSOA.

Lemma index_serial s name rr : st_serial (indexRRLocked s name rr) = st_serial s.
Proof. unfold indexRRLocked. by destruct (rr_Data rr). Qed.
Lemma deindex_serial s name rr : st_serial (deindexRRLocked s name rr) = st_serial s.
Proof. unfold deindexRRLocked. destruct (rr_Data rr); try done. by destruct (HashFromOwner name). Qed.

Lemma add_serial s rr s' e : rr_Type rr ≠ TypeSOA → addRRLocked s rr = (s', e) → st_serial s' = st_serial s.
Proof.
  unfold addRRLocked, rr_Type. intros Ht. destruct (_ && _); [by intros [= <- _]|].
  destruct (PackRR rr); [|by intros [= <- _]]. rewrite bool_decide_false by done.
  intros [= <- _]. by rewrite index_serial.
Qed.

Lemma remove_serial s rr s' e : rr_Type rr ≠ TypeSOA → removeRRLocked s rr = (s', e) → st_serial s' = st_serial s.
Proof.
  unfold removeRRLocked, rr_Type. intros Ht. destruct (st_nodes s !! _) as [n|]; [|by intros [= <- _]].
  destruct (PackRR rr); [|by intros [= <- _]]. destruct (removePacked _ _ _) as [n' removed].
  rewrite (bool_decide_false (_ = TypeSOA)) by done. intros [= <- _]. rewrite deindex_serial.
  by destruct (bool_decide _).
Qed.

Lemma apply_each_serial op count rrs s t s' t' e :
  (∀ s rr s' e, rr_Type rr ≠ TypeSOA → op s rr = (s', e) → st_serial s' = st_serial s) →
  Forall plain_change rrs → apply_each op count rrs s t = (s', t', e) → st_serial s' = st_serial s.
Proof.
  intros Hop Hall. revert s t. induction Hall as [|rr rrs [_ Hrr] _ IH]; intros s t; cbn [apply_each].
  { by intros [= <- _ _]. }
  destruct (op s rr) as [s1 [err|]] eqn:E; apply Hop in E; [|done| |done].
  - by intros [= <- _ _].
  - intros Ha%IH. congruence.
Qed.

Lemma ApplyChanges_serial s adds removes s' t e :
  Forall plain_change (adds ++ removes) → ApplyChanges s adds removes = (s', t, e) → st_serial s' = st_serial s.
Proof.
  intros [Ha Hr]%Forall_app. unfold ApplyChanges.
  destruct (apply_each removeRRLocked _ _ _ _) as [[s1 t1] e1] eqn:E.
  apply apply_each_serial in E; [|by apply remove_serial|done].
  destruct e1; [by intros [= <- _ _]|]. intros E2%apply_each_serial; [congruence|apply add_serial|done].
Qed.

(** The keys of such changes are not SOAs. *)
Lemma plain_keys rrs k w : Forall plain_change rrs → (k, (TypeSOA, w)) ∉ keys_of rrs.
Proof.
  intros Hall Hin. unfold keys_of in Hin. apply elem_of_list_to_set, list_elem_of_omap in Hin as (rr & Hrr & Hk).
  apply rr_key_inv in Hk as (_ & Ht & _). rewrite Forall_forall in Hall. by destruct (Hall rr Hrr).
Qed.

Lemma keys_of_app l1 l2 : keys_of (l1 ++ l2) = keys_of l1 ∪ keys_of l2.
Proof. unfold keys_of. by rewrite omap_app, list_to_set_app_L. Qed.
Lemma keys_of_one rr k : rr_key rr = Some k → keys_of [rr] = {[ k ]}.
Proof. intros Hk. unfold keys_of. cbn. rewrite Hk. set_solver. Qed.

Lemma elem_of_keys rrs k : k ∈ keys_of rrs ↔ ∃ rr, rr ∈ rrs ∧ rr_key rr = Some k.
Proof. unfold keys_of. by rewrite elem_of_list_to_set, list_elem_of_omap. Qed.

Lemma filter_class_sub rrs : Forall plain_change rrs → Forall plain_change (List.filter class_ok rrs).
Proof. rewrite !Forall_forall. intros H rr [Hrr _]%elem_of_filter_b. auto. Qed.

Lemma plain_no_soa rrs : Forall plain_change rrs → Forall no_soa rrs.
Proof. intros H. eapply Forall_impl; [exact H|]. by intros rr []. Qed.

(** The unique SOA survives such changes. *)
Lemma one_soa_change s s' soa adds removes :
  one_soa s soa → st_origin s' = st_origin s → Forall plain_change adds → Forall plain_change removes →
  zone_set s' = (zone_set s ∖ keys_of removes) ∪ keys_of (List.filter class_ok adds) → one_soa s' soa.
Proof.
  intros [Hs Hu] Ho Ha Hr Hz. split; [by rewrite Ho|].
  intros k w'. rewrite <-Hu, Hz, elem_of_union, elem_of_difference.
  pose proof (plain_keys removes k w' Hr). pose proof (plain_keys _ k w' (filter_class_sub _ Ha)). tauto.
Qed.

(** ** Updates *)

Lemma bump_serial_data soa d :
  as_SOA soa = Some d → ∃ d', as_SOA (bump_serial soa) = Some d' ∧ soa_Serial d' = u32 (soa_Serial d + 1).
Proof. unfold as_SOA, bump_serial. destruct (rr_Data soa); try done. intros [= ->]. simpl. eauto. Qed.

Lemma add_serial_soa s rr s' d :
  rr_Type rr = TypeSOA → as_SOA rr = Some d → class_ok rr = true → addRRLocked s rr = (s', None) → st_serial s' = soa_Serial d.
Proof.
  unfold addRRLocked, rr_Type, class_ok, rr_Class. intros Ht Hd Hc. rewrite <-negb_orb, Hc. cbn [negb].
  destruct (PackRR rr); [|done]. rewrite bool_decide_true by done. rewrite Hd. intros [= <-]. by rewrite index_serial.
Qed.

(** What an update starts from: the zone at [name], with one SOA, of the
    serial the store shows. *)
Record updatable (tp : Server) (name : string) (s : Store) (soa : RR) (d : SOA_rdata) : Prop := {
  up_zone : tp_zones tp !! Canonical name = Some s;
  up_name : Canonical name = st_origin s;
  up_wf : store_wf s;
  up_soa : one_soa s soa;
  up_data : as_SOA soa = Some d;
  up_serial : st_serial s = soa_Serial d
}.

(** Records of which the only SOA is [soa]. *)
Definition soa_or_plain (soa : RR) (rrs : list RR) : Prop := Forall (λ rr, rr = soa ∨ plain_change rr) rrs.

(** An update that leaves the SOA to the server, which increments its serial,
    and one that replaces the SOA itself. *)
Inductive soa_change (soa soa' : RR) (adds removes : list RR) : Prop :=
| soa_bumped : Forall plain_change (adds ++ removes) → soa' = bump_serial soa → soa_change soa soa' adds removes
| soa_replaced : soa' ∈ adds → soa_or_plain soa' adds → soa ∈ removes → soa_or_plain soa removes →
    soa_change soa soa' adds removes.

Record update_ok (o : string) (soa soa' : RR) (d d' : SOA_rdata) (adds removes : list RR) : Prop := {
  uo_change : soa_change soa soa' adds removes;
  uo_packs : Forall (λ rr, is_ok (PackRR rr) = true) (adds ++ removes);
  uo_soa : zone_soa o soa';
  uo_data : as_SOA soa' = Some d';
  uo_moves : soa_Serial d' ≠ soa_Serial d
}.

(** What the journal says of an update from [s] to [s']: both SOAs are in the
    entry, and it is the difference of the two stores. *)
Record journaled (s s' : Store) (soa soa' : RR) (adds removes : list RR) : Prop := {
  jn_adds : soa' ∈ adds ∧ soa_or_plain soa' adds;
  jn_removes : soa ∈ removes ∧ soa_or_plain soa removes;
  jn_packs : Forall (λ rr, is_ok (PackRR rr) = true) (adds ++ removes);
  jn_set : zone_set s' = (zone_set s ∖ keys_of removes) ∪ keys_of (List.filter class_ok adds)
}.

Lemma soa_or_plain_keys soa rrs k w :
  soa_or_plain soa rrs → (k, (TypeSOA, w)) ∈ keys_of rrs → soa ∈ rrs ∧ rr_key soa = Some (k, (TypeSOA, w)).
Proof.
  intros Hall (rr & Hrr & Hk)%elem_of_keys. unfold soa_or_plain in Hall. rewrite Forall_forall in Hall.
  destruct (Hall rr Hrr) as [->|[_ Hp]]; [done|]. by apply rr_key_inv in Hk as (_ & ? & _).
Qed.

Lemma soa_or_plain_class soa rrs : soa_or_plain soa rrs → soa_or_plain soa (List.filter class_ok rrs).
Proof. unfold soa_or_plain. rewrite !Forall_forall. intros H rr [Hrr _]%elem_of_filter_b. auto. Qed.

Lemma plain_or_soa soa rrs : Forall plain_change rrs → soa_or_plain soa (rrs ++ [soa]).
Proof. intros H. apply Forall_app. split; [eapply Forall_impl; [exact H|tauto]|]. apply Forall_singleton. by left. Qed.

(** The new SOA is the only one afterwards. *)
Lemma journaled_one_soa s s' soa soa' adds removes :
  one_soa s soa → zone_soa (st_origin s) soa' → st_origin s' = st_origin s →
  journaled s s' soa soa' adds removes → one_soa s' soa'.
Proof.
  intros [Hs Hu] Hs' Ho [[Hin Ha] [Hin' Hr] _ Hz]. split; [by rewrite Ho|]. intros k w.
  rewrite Hz, elem_of_union, elem_of_difference. split.
  - intros [[Hk Hn]|Hk].
    + destruct Hn. apply elem_of_keys. exists soa. split; [done|]. by apply Hu.
    + by apply (soa_or_plain_keys soa' _ k w (soa_or_plain_class _ _ Ha)) in Hk as [_ ?].
  - intros Hk. right. apply elem_of_keys. exists soa'. split; [|done]. apply elem_of_filter_b. split; [done|apply Hs'].
Qed.

(** The serial after adds with a new SOA. *)
Lemma adds_serial soa' d' count adds s t s' t' :
  rr_Type soa' = TypeSOA → as_SOA soa' = Some d' → class_ok soa' = true → soa_or_plain soa' adds →
  soa' ∈ adds ∨ st_serial s = soa_Serial d' →
  apply_each addRRLocked count adds s t = (s', t', None) → st_serial s' = soa_Serial d'.
Proof.
  intros Ht Hd Hc Hall. revert s t. induction Hall as [|rr adds Hrr _ IH]; intros s t Hor; cbn [apply_each].
  { destruct Hor as [?%elem_of_nil|]; [done|]. by intros [= <- _]. }
  destruct (addRRLocked s rr) as [s1 [err|]] eqn:E; [done|]. apply IH. destruct Hrr as [->|[_ Hrr]].
  - right. by eapply add_serial_soa.
  - destruct Hor as [[->|Hor]%elem_of_cons|Hor]; [by exfalso|by left|]. right. rewrite <-Hor. by eapply add_serial.
Qed.

(** The store and the journal after an update. *)
Lemma Apply_journals tp name s soa soa' d d' adds removes :
  updatable tp name s soa d → update_ok (st_origin s) soa soa' d d' adds removes →
  ∃ s' adds' removes',
    Apply tp name adds removes =
      (mkPrimary (<[Canonical name := s']> (tp_zones tp))
         (<[st_origin s := default [] (tp_journal tp !! st_origin s) ++
            [mkChangeset (soa_Serial d) (soa_Serial d') adds' removes']]> (tp_journal tp))
         (tp_tsig tp) (tp_notifyTo tp), None, Some (st_origin s)) ∧
    store_wf s' ∧ st_origin s' = st_origin s ∧ st_serial s' = soa_Serial d' ∧
    journaled s s' soa soa' adds' removes'.
Proof.
  intros [Hz Hn Hwf H1 Hd Hser] [Hch Hpk Hs' Hd' Hmv].
  destruct (ApplyChanges_refines_wf s adds removes Hwf Hpk) as (s1 & t1 & Ha & Hwf1 & Ho1 & Hz1).
  destruct (zone_soa_type _ _ Hs') as [Hty' _].
  destruct Hch as [Hplain Hb|Hin Hadds Hin' Hrem].
  2:{ assert (st_serial s1 = soa_Serial d') as Hser1.
      { unfold ApplyChanges in Ha. destruct (apply_each removeRRLocked _ _ _ _) as [[s0 t0] [e|]]; [done|].
        eapply adds_serial; [exact Hty'|exact Hd'|apply Hs'|exact Hadds|by left|exact Ha]. }
      exists s1, adds, removes. split_and!; try done.
      unfold Apply. cbv zeta. rewrite Hz, Ha. unfold bump. cbv zeta.
      rewrite bool_decide_false by (rewrite Hser1, Hser; done). by rewrite Ho1, Hser1, Hser. }
  pose proof Hplain as [Hpa Hpr]%Forall_app.
  pose proof (ApplyChanges_serial _ _ _ _ _ _ Hplain Ha) as Hser1.
  pose proof (one_soa_change s s1 soa adds removes H1 Ho1 Hpa Hpr Hz1) as H11.
  pose proof (one_soa_SOA s1 soa Hwf1 H11) as HSOA.
  destruct (zs_key _ _ (os_zone _ _ H1)) as [w Hk]. pose proof (rr_key_inv _ _ _ _ Hk) as (_ & _ & Hpw).
  destruct (zs_key _ _ Hs') as [w' Hk']. pose proof (rr_key_inv _ _ _ _ Hk') as (_ & _ & Hpw').
  destruct (removeRRLocked s1 soa) as [s2 e2] eqn:E2.
  destruct (removeRRLocked_set s1 soa s2 e2 Hwf1 E2) as (Hwf2 & Ho2 & _ & Hz2 & He2).
  rewrite He2 in * by by rewrite Hpw. specialize (Hz2 eq_refl).
  destruct (addRRLocked s2 soa') as [s3 e3] eqn:E3.
  destruct (addRRLocked_set s2 soa' s3 e3 Hwf2 E3) as (Hwf3 & Ho3 & _ & Hz3 & He3).
  rewrite He3 in * by by rewrite Hpw'. specialize (Hz3 eq_refl). rewrite (zs_class _ _ Hs') in Hz3.
  assert (st_origin s3 = st_origin s) as Ho by congruence.
  exists s3, (adds ++ [soa']), (removes ++ [soa]). split_and!; try done.
  - unfold Apply. cbv zeta. rewrite Hz, Ha. unfold bump. cbv zeta. rewrite bool_decide_true by done. rewrite HSOA.
    unfold RemoveRR, AddRR. rewrite E2, <-Hb, E3, Hd', Ho, Hser. done.
  - eapply add_serial_soa; [exact Hty'|exact Hd'|apply Hs'|exact E3].
  - apply Forall_app in Hpk as [Hka Hkr]. split.
    + split; [set_solver|by apply plain_or_soa].
    + split; [set_solver|by apply plain_or_soa].
    + repeat (apply Forall_app; split); [done|by apply Forall_singleton; rewrite Hpw'|done|by apply Forall_singleton; rewrite Hpw].
    + rewrite Hz3, Hz2, Hz1, List.filter_app, !keys_of_app. cbn [List.filter]. rewrite (zs_class _ _ Hs').
      rewrite (keys_of_one _ _ Hk). pose proof (plain_keys _ (st_origin s) w (filter_class_sub _ Hpa)). clear -H. set_solver.
Qed.

Lemma findJournal_snoc js ch :
  findJournal js (cs_From ch) (cs_To ch) = None → findJournal (js ++ [ch]) (cs_From ch) (cs_To ch) = Some ch.
Proof.
  induction js as [|j js IH]; cbn [app findJournal]; [by rewrite !bool_decide_true|].
  destruct (_ && _); [done|apply IH].
Qed.
End facts.

(** ** Client and server together *)

Section together.
Context `{DL : !DnsLib, BT : !BTree, NL : !DnsNameLaws, WL : !DnsWireLaws, MR : !MapRange, N : !Net}.

(** A network that carries what the server sends, in time. *)
Definition delivered (es : list Effect) : result (list Envelope) :=
  match es with
  | [WriteMsg m] => Ok [EnvRR (rp_Answer m)]
  | [TransferOut ch] => Ok (EnvRR <$> ch)
  | _ => Err "no answer"
  end.

(** The message a request for a transfer is sent as. *)
Definition transfer_query (r : Msg) (name : string) (qtype : Z) : Prop :=
  m_Opcode r = OpcodeQuery ∧ ∃ name', m_Question r = [(name', qtype)] ∧ Canonical name' = Canonical name.

Record ixfr_query (r : Msg) (name : string) (serial : Z) (q : RR) : Prop := {
  iq_query : transfer_query r name TypeIXFR;
  iq_ns : m_Ns r = [q];
  iq_type : rr_Type q = TypeSOA;
  iq_packs : is_ok (PackRR q) = true;
  iq_serial : ∃ qd, as_SOA q = Some qd ∧ soa_Serial qd = serial
}.

Lemma handle_transfer (tp : Server) r name qtype :
  transfer_query r name qtype → qtype = TypeAXFR ∨ qtype = TypeIXFR →
  ∃ name', Canonical name' = Canonical name ∧ (handle tp r).1.2 = handleXFR tp name' qtype r.
Proof.
  intros (Hop & name' & Hq & Hn) Ht. exists name'. split; [done|]. unfold handle. cbv zeta. rewrite Hop, Hq.
  rewrite bool_decide_false, bool_decide_true by done.
  assert (bool_decide (qtype = TypeAXFR) || bool_decide (qtype = TypeIXFR) = true) as -> by
    (apply orb_true_iff; rewrite !bool_decide_eq_true; done). done.
Qed.

Lemma mjoin_one {A} (l : list A) : mjoin [l] = l.
Proof. change (mjoin [l]) with (l ++ []). apply app_nil_r. Qed.

(** The answer from the journal. *)
Lemma handleXFR_journal (tp : Server) name r st soa d q qd ch :
  tp_zones tp !! Canonical name = Some st → SOA st = Some soa → as_SOA soa = Some d →
  m_Ns r = [q] → as_SOA q = Some qd →
  findJournal (default [] (tp_journal tp !! Canonical name)) (soa_Serial qd) (soa_Serial d) = Some ch →
  handleXFR tp name TypeIXFR r = [writeIXFR soa q ch].
Proof.
  intros Hz Hs Hd Hns Hq Hj. unfold handleXFR. cbv zeta. rewrite Hz, Hs, Hd, Hns, Hq, Hj.
  by rewrite bool_decide_true.
Qed.

(** The answer from the journal, read by the client. *)
Lemma journal_parsed soa soa' q qd d d' adds removes :
  as_SOA soa' = Some d' → as_SOA soa = Some d → as_SOA q = Some qd → soa_Serial d' ≠ soa_Serial d → soa_Serial qd = soa_Serial d →
  soa_or_plain soa' adds → soa_or_plain soa removes →
  parseIXFR (one_step soa' q removes adds) (soa_Serial d) =
    (soa' :: List.filter (λ rr, negb (is_SOA rr)) adds, q :: removes, soa_Serial d', false).
Proof.
  intros Hd' Hd Hq Hmv Hqs Ha Hr. apply (parseIXFR_one_step soa' q removes adds d' _ Hd').
  - apply Forall_cons. split; [intros ?; rewrite Hq; intros [= <-]; congruence|].
    eapply Forall_impl; [exact Hr|]. intros rr [->|[Hrr _]] x Hx; [congruence|]. unfold no_soa in Hrr. congruence.
  - eapply Forall_impl; [exact Ha|]. intros rr [->|[Hrr _]] x Hx; [congruence|]. unfold no_soa in Hrr. congruence.
Qed.

(** The keys of the adds the client reads are those of the entry. *)
Lemma parsed_keys soa' adds :
  is_SOA soa' = true → class_ok soa' = true → soa' ∈ adds → soa_or_plain soa' adds →
  keys_of (List.filter class_ok (soa' :: List.filter (λ rr, negb (is_SOA rr)) adds)) = keys_of (List.filter class_ok adds).
Proof.
  intros Hs Hc Hin Ha. apply set_eq. intros p. rewrite !elem_of_keys. f_equiv. intros rr. f_equiv.
  rewrite !elem_of_filter_b, elem_of_cons, elem_of_filter_b. unfold soa_or_plain in Ha. rewrite Forall_forall in Ha. split.
  - intros [[->|[Hrr _]] Hcl]; done.
  - intros [Hrr Hcl]. split; [|done]. destruct (Ha rr Hrr) as [->|[Hno _]]; [by left|]. right. split; [done|].
    by rewrite (proj2 (is_SOA_false rr) Hno).
Qed.

(** C10: an update replicates. Let the server's zone have one SOA, and take
    an update that either has no SOA records, so that the server increments
    the serial, or replaces the SOA by one of another serial, a step the
    journal does not have yet. A client asks for the changes since the
    serial before the update; the server answers from its journal; the
    client reads the answer and applies it. Then client and server agree on
    every record on which they agreed before: a client that held exactly the
    server's records holds them again, under the new serial. *)
Theorem ixfr_replicates cfg (tp tp' : Server) name s soa soa' d d' adds removes c r q srv tsig timeout now :
  updatable tp name s soa d → update_ok (st_origin s) soa soa' d d' adds removes →
  findJournal (default [] (tp_journal tp !! Canonical name)) (soa_Serial d) (soa_Serial d') = None →
  tp' = (Apply tp name adds removes).1.1 →
  store_wf c → ixfr_query r name (soa_Serial d) q →
  net_In (request cfg (SetIxfr (Canonical name) (soa_Serial d) "ns." "hostmaster.") srv tsig timeout now) (addr srv) =
    delivered (handle tp' r).1.2 →
  (∀ n, ctx_Err n = None) →
  ∃ res s' c' t, IXFR cfg name (soa_Serial d) srv tsig timeout now = Ok res ∧ x_Fallback res = false ∧
    tp_zones tp' !! Canonical name = Some s' ∧ x_Serial res = st_serial s' ∧ st_serial s' = soa_Serial d' ∧
    ApplyChanges c (x_Adds res) (x_Removes res) = (c', t, None) ∧ store_wf c' ∧
    (∀ p, (p ∈ zone_set c ↔ p ∈ zone_set s) → (p ∈ zone_set c' ↔ p ∈ zone_set s')) ∧
    (zone_set c = zone_set s → zone_set c' = zone_set s').
Proof.
  intros Hup Huo Hj -> Hwfc [Hq Hns Hqt Hqp (qd & Hqd & Hqs)] Hnet Hctx.
  pose proof (up_name _ _ _ _ _ Hup) as Hname. pose proof (up_soa _ _ _ _ _ Hup) as Hone. pose proof (uo_soa _ _ _ _ _ _ _ Huo) as Hs'.
  destruct (Apply_journals tp name s soa soa' d d' adds removes Hup Huo) as (s' & adds' & rem' & HA & Hwf' & Ho' & Hser' & Hjn).
  rewrite HA in *. cbn [fst] in *. clear HA.
  set (ch := mkChangeset _ _ _ _) in *. set (tp' := mkPrimary _ _ _ _) in *.
  destruct (handle_transfer tp' r name TypeIXFR Hq (or_intror eq_refl)) as (name' & Hn' & Hh). rewrite Hh in Hnet. clear Hh.
  pose proof (uo_data _ _ _ _ _ _ _ Huo) as Hd'. pose proof (up_data _ _ _ _ _ Hup) as Hd.
  rewrite (handleXFR_journal tp' name' r s' soa' d' q qd ch) in Hnet; [|..]; try done.
  2:{ unfold tp'. cbn [tp_zones]. rewrite Hn'. by rewrite lookup_insert_eq. }
  2:{ apply one_soa_SOA; [done|]. by eapply (journaled_one_soa s s' soa soa'). }
  2:{ unfold tp'. cbn [tp_journal]. rewrite Hn', Hname, lookup_insert_eq. cbn [from_option id].
      rewrite Hqs. rewrite Hname in Hj. exact (findJournal_snoc _ ch Hj). }
  destruct Hjn as [[Hin Ha] [Hin' Hr] [Hka Hkr]%Forall_app Hz'].
  pose proof (journal_parsed soa soa' q qd d d' adds' rem' Hd' Hd Hqd (uo_moves _ _ _ _ _ _ _ Huo) Hqs Ha Hr) as Hparse.
  rewrite <-(mjoin_one (one_step soa' q rem' adds')) in Hparse.
  destruct (IXFR_changes cfg name (soa_Serial d) srv tsig timeout now [_] _ _ _ Hnet (λ n _, Hctx n) Hparse)
    as (res & Hres & _ & Hfb & HA & HR & HS).
  rewrite Forall_forall in Hka. pose proof (Hka soa' Hin) as Hps.
  destruct (ApplyChanges_refines_wf c (soa' :: List.filter (λ rr, negb (is_SOA rr)) adds') (q :: rem') Hwfc) as (c' & t & Hc & Hwfc' & _ & Hzc').
  { apply Forall_app. split; apply Forall_cons; (split; [done|]); [|exact Hkr].
    apply Forall_forall. intros rr [Hrr _]%elem_of_filter_b. by apply Hka. }
  rewrite (parsed_keys soa' adds' (zs_soa _ _ Hs') (zs_class _ _ Hs') Hin Ha), (keys_of_cons q) in Hzc'.
  assert (∀ p, p ∈ keys_of [q] → p ∈ zone_set s → p ∈ keys_of rem') as Hqz.
  { intros [k0 [t0 w0]] Hx Hins. apply elem_of_keys in Hx as (rr & ->%list_elem_of_singleton & Hx).
    apply rr_key_inv in Hx as (_ & Ht & _). rewrite Hqt in Ht. subst t0. apply (os_only _ _ Hone) in Hins. apply elem_of_keys. eauto. }
  assert (∀ p, (p ∈ zone_set c ↔ p ∈ zone_set s) → (p ∈ zone_set c' ↔ p ∈ zone_set s')) as Hagree.
  { intros p Hp. specialize (Hqz p). rewrite Hz', Hzc', !elem_of_union, !elem_of_difference, elem_of_union, Hp.
    clear -Hqz. destruct (decide (p ∈ keys_of rem')); tauto. }
  exists res, s', c', t. rewrite HA, HR. split_and!; try done.
  { unfold tp'. cbn [tp_zones]. by rewrite lookup_insert_eq. }
  { congruence. }
  intros Heq. apply set_eq. intros p. apply Hagree. by rewrite Heq.
Qed.

(** Whole zones. *)
Lemma xfr_chunks_join soa chunk rrs :
  mjoin (xfr_chunks soa chunk rrs) = chunk ++ List.filter (λ rr, negb (is_SOA rr)) rrs ++ [soa].
Proof.
  revert chunk. induction rrs as [|rr rrs IH]; intros chunk; cbn [xfr_chunks List.filter]; [apply mjoin_one|].
  destruct (is_SOA rr); cbn [negb]; [apply IH|]. case_bool_decide.
  - change (mjoin ((chunk ++ [rr]) :: xfr_chunks soa [] rrs)) with ((chunk ++ [rr]) ++ mjoin (xfr_chunks soa [] rrs)).
    rewrite IH. by rewrite <-app_assoc.
  - rewrite IH. by rewrite <-app_assoc.
Qed.

Context `{TL : !DnsTtlLaws}.

(** A zone as a primary serves it: one SOA, found by its type, no TKEY. *)
Record servable (s : Store) (soa : RR) : Prop := {
  se_wf : store_wf s;
  se_decodable : decodable s;
  se_soa : one_soa s soa;
  se_types : ∀ k t w rr, (k, (t, w)) ∈ zone_set s → dns_UnpackRR w = Ok rr →
    t ≠ TypeTKEY ∧ (is_SOA rr = true → t = TypeSOA)
}.

(** The records a transfer of the zone carries, first the SOA. *)
Lemma served_records s soa :
  servable s soa →
  ∃ rrs, AllRRs s = Ok rrs ∧
    let body := List.filter (λ rr, negb (is_SOA rr)) rrs in
    Forall (λ rr, is_ok (PackRR rr) = true ∧ class_ok rr = true ∧ not_TKEY rr = true) (soa :: body) ∧
    keys_of (soa :: body) = shown s.
Proof.
  intros [Hwf Hd [Hs Hu] Ht]. destruct (AllRRs_decodable s Hwf Hd) as (rrs & Hall & _ & Hok). exists rrs. split; [done|]. cbv zeta.
  destruct (zone_soa_type _ _ Hs) as [Hty _]. destruct (zs_key _ _ Hs) as [w Hk].
  assert (∀ rr, rr ∈ rrs → rr_Type rr ≠ TypeTKEY ∧ (is_SOA rr = true → rr = soa)) as Htypes.
  { intros rr (k & n & x & w0 & Hn & Hx & Hw & Hur)%(elem_of_AllRRs s _ _ Hall).
    destruct (Hd _ _ _ Hn Hx) as [_ Hst]. destruct (Hst w0 Hw) as [rr0 Hr0].
    assert ((k, (rs_Type x, w0)) ∈ zone_set s) as Hz by (apply elem_of_zone_set; exists n; split; [done|apply elem_of_sets_recs; eauto]).
    pose proof Hr0 as (Hu0 & Hp0 & Hn0 & Ht0 & _). destruct (Ht _ _ _ _ Hz Hu0) as [Hne HS].
    pose proof Hur as Hur'. rewrite (nw_name _ _ _ (sw_nodes _ Hwf _ _ Hn)), (unpackOne_stored _ _ _ _ _ Hr0) in Hur'. injection Hur' as <-.
    change (rr_Type (shown_rr (rs_TTL x) rr0)) with (rr_Type rr0). rewrite Ht0. split; [done|]. intros His.
    rewrite (HS His) in Hz. apply Hu in Hz. rewrite (unpackOne_soa _ _ _ _ (n_Name n) (rs_Type x) (rs_TTL x) Hs Hz) in Hur. congruence. }
  assert (soa ∈ rrs) as Hsoa.
  { apply (elem_of_AllRRs s _ _ Hall). pose proof (proj2 (Hu _ _) Hk) as Hz.
    apply elem_of_zone_set in Hz as (n & Hn & (x & Hx & _ & Hw)%elem_of_sets_recs). exists (st_origin s), n, x, w. split_and!; try done.
    by apply (unpackOne_soa _ _ _ _ _ _ _ Hs Hk). }
  split.
  - apply Forall_forall. intros rr Hrr. assert (rr ∈ rrs) as Hin.
    { apply elem_of_cons in Hrr as [->|[Hrr _]%elem_of_filter_b]; done. }
    destruct (Hok rr Hin) as (_ & Hc & [p Hp]). destruct (Htypes rr Hin) as [Hne _]. split_and!; [|done|].
    + unfold rr_key in Hp. by destruct (PackRR rr).
    + unfold not_TKEY. by rewrite bool_decide_false.
  - rewrite <-(AllRRs_shown s rrs Hall). apply set_eq. intros p. rewrite !elem_of_keys. f_equiv. intros rr. f_equiv.
    rewrite elem_of_cons, elem_of_filter_b. split; [intros [->|[? _]]; done|]. intros Hrr.
    destruct (is_SOA rr) eqn:Es; [left; by apply Htypes|by right].
Qed.

Lemma FromAXFR_records origin rrs :
  Forall (λ rr, is_ok (PackRR rr) = true ∧ class_ok rr = true ∧ not_TKEY rr = true) rrs →
  ∃ st, FromAXFR origin rrs = Ok st ∧ store_wf st ∧ zone_set st = keys_of rrs.
Proof.
  intros Hall. rewrite Forall_forall in Hall. unfold FromAXFR.
  pose proof (add_all_spec rrs _ (NewStore_wf origin)) as Hs.
  destruct (add_all _ rrs) as [st|err].
  - exists st. destruct Hs as (Hwf & _ & Hz). split_and!; [done..|].
    rewrite Hz, zone_set_NewStore, (right_id_L ∅ (∪)), forallb_filter_id; [done|].
    apply forallb_elem_of. intros rr Hrr. apply (Hall rr Hrr).
  - destruct Hs as (rr & Hrr & Hp). destruct (Hall rr Hrr) as [Hok _]. by rewrite Hp in Hok.
Qed.

(** C11: a transfer replicates the zone. From a server that holds a zone
    with one SOA, a client's AXFR builds a well-formed store of exactly the
    records the server's store shows, whatever the order in which they are
    sent and however they are cut into messages; an IXFR whose changes the
    server does not have in its journal is recognised as a whole zone and
    builds the same records. They are the records the server holds exactly
    when no record of TTL 0 is in an RRset with another TTL. *)
Theorem transfer_replicates cfg (tp : Server) name s soa r srv tsig timeout now :
  tp_zones tp !! Canonical name = Some s → servable s soa →
  (∀ n, ctx_Err n = None) →
  (transfer_query r name TypeAXFR →
   net_In (request cfg (SetAxfr (Canonical name)) srv tsig timeout now) (addr srv) = delivered (handle tp r).1.2 →
   ∃ res c, AXFR cfg name srv tsig timeout now = Ok res ∧ x_Store res = Some c ∧ store_wf c ∧ zone_set c = shown s) ∧
  (∀ from q qd d, as_SOA soa = Some d → transfer_query r name TypeIXFR → m_Ns r = [q] → as_SOA q = Some qd →
   findJournal (default [] (tp_journal tp !! Canonical name)) (soa_Serial qd) (soa_Serial d) = None →
   net_In (request cfg (SetIxfr (Canonical name) from "ns." "hostmaster.") srv tsig timeout now) (addr srv) =
     delivered (handle tp r).1.2 →
   ∃ res c, IXFR cfg name from srv tsig timeout now = Ok res ∧ x_Fallback res = true ∧
     x_Store res = Some c ∧ store_wf c ∧ zone_set c = shown s) ∧
  (shown s = zone_set s ↔ ttl_kept s).
Proof.
  intros Hz Hs Hctx. pose proof (one_soa_SOA s soa (se_wf _ _ Hs) (se_soa _ _ Hs)) as HSOA.
  destruct (served_records s soa Hs) as (rrs & Hall & Hgood & Hkeys). cbv zeta in Hgood, Hkeys.
  set (body := List.filter _ rrs) in *.
  assert (mjoin (xfr_chunks soa [soa] rrs) = soa :: body ++ [soa]) as Hjoin by apply xfr_chunks_join.
  pose proof (zs_soa _ _ (os_zone _ _ (se_soa _ _ Hs))) as His.
  split_and!; [| |apply shown_kept; apply Hs].
  - intros Hq Hnet. destruct (handle_transfer tp r name TypeAXFR Hq (or_introl eq_refl)) as (name' & Hn' & Hh).
    assert (handleXFR tp name' TypeAXFR r = [TransferOut (xfr_chunks soa [soa] rrs)]) as Hx.
    { unfold handleXFR. cbv zeta. rewrite Hn', Hz, HSOA, bool_decide_false, Hall by done. done. }
    rewrite Hh, Hx in Hnet.
    destruct (FromAXFR_records (Canonical name) (soa :: body ++ [soa])) as (c & Hc & Hwf & Hzc).
    { apply Forall_cons in Hgood as [Hg Hgb]. apply Forall_cons. split; [done|]. apply Forall_app. split; [done|]. by apply Forall_singleton. }
    destruct (AXFR_built cfg name srv tsig timeout now _ c Hnet (λ n _, Hctx n)) as (res & Hr & Hst & _).
    { rewrite Hjoin, forallb_filter_id; [done|]. apply forallb_elem_of. rewrite Forall_forall in Hgood.
      intros rr Hrr. apply Hgood. revert Hrr. rewrite !elem_of_cons, elem_of_app, list_elem_of_singleton. tauto. }
    exists res, c. split_and!; [done..|]. rewrite Hzc, <-Hkeys, (keys_of_cons soa (body ++ [soa])), keys_of_app, (keys_of_cons soa body). clear. set_solver.
  - intros from q qd d Hd Hq Hns Hqd Hj Hnet.
    destruct (handle_transfer tp r name TypeIXFR Hq (or_intror eq_refl)) as (name' & Hn' & Hh).
    assert (handleXFR tp name' TypeIXFR r = [TransferOut (xfr_chunks soa [soa] rrs)]) as Hx.
    { unfold handleXFR. cbv zeta. rewrite Hn', Hz, HSOA, Hns, Hqd, Hd, bool_decide_true, Hj by done. cbn. by rewrite Hall. }
    rewrite Hh, Hx in Hnet.
    destruct (FromAXFR_records (Canonical name) (soa :: body)) as (c & Hc & Hwf & Hzc); [done|].
    assert (Forall no_soa body) as Hbody.
    { apply Forall_forall. intros rr [_ Hb]%elem_of_filter_b. by apply is_SOA_false, negb_true_iff. }
    assert (omap as_SOA (soa :: body ++ [soa]) = [d; d]) as Hom.
    { cbn [omap list_omap]. rewrite Hd, omap_as_SOA_app. cbn [omap list_omap]. rewrite Hd. f_equal.
      clear -Hbody. induction Hbody as [|rr body Hrr _ IH]; [done|]. cbn. unfold no_soa in Hrr. by rewrite Hrr. }
    destruct (IXFR_whole cfg name from srv tsig timeout now _ [] [] (soa_Serial d) c Hnet (λ n _, Hctx n)) as (res & Hr & Hst & Hfb).
    { rewrite Hjoin. apply parseIXFR_fallback. split_and!; [done..|]. right. by exists d, d. }
    { by rewrite Hjoin, stripSOAEnvelope_zone. }
    exists res, c. split_and!; try done. by rewrite Hzc.
Qed.
End together.

Lemma FromAXFR_set `{DL : !DnsLib, BT : !BTree, NL : !DnsNameLaws} origin rrs st :
  FromAXFR origin rrs = Ok st → zone_set st = keys_of (List.filter class_ok rrs).
Proof.
  unfold FromAXFR. intros Hst. pose proof (add_all_spec rrs _ (NewStore_wf origin)) as H. rewrite Hst in H.
  destruct H as (_ & _ & ->). by rewrite zone_set_NewStore, (right_id_L ∅ (∪)).
Qed.

(** ** Witnesses *)

(** A network on which everything asked is answered by one server. *)
Definition toy_net (tp : Server) (r : Msg) : Net := {|
  net_Exchange _ _ _ := Err "unreachable";
  net_In _ _ := delivered (handle tp r).1.2;
  ctx_Err _ := None
|}.

Definition toy_primary : Server := LoadZone New (built "z." toy_zone).
Definition toy_srv : Config.Server := Config.mkServer "primary" "192.0.2.53" 53 "".
Definition toy_ixfr : Msg := mkMsg OpcodeQuery [("Z.", TypeIXFR)] [mkRR (hdr "z." TypeSOA) (RD_SOA (mkSOA "ns." "hostmaster." 7 0 0 0 0))].
Definition toy_axfr : Msg := mkMsg OpcodeQuery [("Z.", TypeAXFR)] [].
Definition toy_upd_adds : list RR := [toy_A "new.z." "192.0.2.9"].
Definition toy_upd_removes : list RR := [toy_A "ns.z." "192.0.2.1"].

Lemma toy_zone_Ok : FromAXFR "z." toy_zone = Ok (built "z." toy_zone).
Proof. apply built_Ok. vm_compute. reflexivity. Qed.

(** The checks on a list of records that make a zone of it. *)
Definition toy_zone_ok (rrs : list RR) : bool :=
  is_ok (FromAXFR "z." rrs) && forallb class_ok rrs && forallb carriedb rrs
    && forallb (λ rr, negb (bool_decide (rr_Type rr = TypeTKEY))
         && (if bool_decide (rr_Type rr = TypeSOA) then bool_decide (rr = toy_SOA "z." 7) else negb (is_SOA rr))) rrs
    && existsb (λ rr, bool_decide (rr = toy_SOA "z." 7)) rrs && bool_decide (st_origin (built "z." rrs) = "z.").

Lemma toy_zone_soa : zone_soa "z." (toy_SOA "z." 7).
Proof. split; [reflexivity..|discriminate|discriminate|]. eexists. vm_compute. reflexivity. Qed.

Lemma toy_servable rrs : toy_zone_ok rrs = true → servable (built "z." rrs) (toy_SOA "z." 7).
Proof.
  unfold toy_zone_ok. rewrite !andb_true_iff, !forallb_elem_of, bool_decide_eq_true.
  intros (((((Hb%built_Ok & Hc) & Hcar) & Hty) & (x & Hx & ->%bool_decide_eq_true)%existsb_elem_of) & Ho).
  assert (∀ k, k ∈ zone_set (built "z." rrs) ↔ ∃ rr, rr ∈ rrs ∧ rr_key rr = Some k) as Hkeys.
  { intros k. rewrite (FromAXFR_set _ _ _ Hb), forallb_filter_id by (by apply forallb_elem_of). apply elem_of_keys. }
  assert (∀ rr, rr ∈ rrs → rr_Type rr ≠ TypeTKEY ∧ (rr_Type rr = TypeSOA → rr = toy_SOA "z." 7) ∧ (is_SOA rr = true → rr_Type rr = TypeSOA)) as Htypes.
  { intros rr Hrr. specialize (Hty rr Hrr). apply andb_true_iff in Hty as [Hk%negb_true_iff%bool_decide_eq_false Ht].
    split; [done|]. case_bool_decide as Hs; [by apply bool_decide_eq_true in Ht|]. apply negb_true_iff in Ht. rewrite Ht. done. }
  split.
  - apply built_wf.
  - eapply FromAXFR_decodable; [exact Hb|]. apply toy_carried. by apply forallb_elem_of.
  - split; [rewrite Ho; exact toy_zone_soa|]. intros k w. rewrite Hkeys. split.
    + intros (rr & Hrr & Hk). pose proof (rr_key_inv _ _ _ _ Hk) as (_ & Ht & _). by rewrite <-(proj1 (proj2 (Htypes rr Hrr)) Ht).
    + intros Hk. by exists (toy_SOA "z." 7).
  - intros k t w rr (rr0 & Hrr & Hk)%Hkeys Hu.
    assert (wire_exact rr0) as Hxr by reflexivity. pose proof (rr_key_unpack _ _ _ _ Hxr Hk) as Hu0.
    assert (rr = rr0) as -> by (rewrite Hu0 in Hu; by injection Hu).
    apply rr_key_inv in Hk as (_ & <- & _). split; apply (Htypes rr0 Hrr).
Qed.

Lemma toy_zone_servable : servable (built "z." toy_zone) (toy_SOA "z." 7).
Proof. apply toy_servable. vm_compute. reflexivity. Qed.

Lemma toy_origin : st_origin (built "z." toy_zone) = "z.".
Proof. vm_compute. reflexivity. Qed.

Lemma toy_updatable :
  updatable toy_primary "z." (built "z." toy_zone) (toy_SOA "z." 7) (mkSOA "ns.z." "mail.z." 7 900 300 86400 60).
Proof.
  split; [|exact (eq_sym toy_origin)|apply built_wf|apply toy_zone_servable|reflexivity|vm_compute; reflexivity].
  unfold toy_primary, LoadZone. cbn [tp_zones]. rewrite toy_origin. apply lookup_insert_eq.
Qed.

(** The update leaves the SOA to the server. *)
Lemma toy_update_ok : update_ok "z." (toy_SOA "z." 7) (bump_serial (toy_SOA "z." 7)) (mkSOA "ns.z." "mail.z." 7 900 300 86400 60)
  (mkSOA "ns.z." "mail.z." 8 900 300 86400 60) toy_upd_adds toy_upd_removes.
Proof.
  split; [apply soa_bumped; [|done]| | |reflexivity|discriminate].
  - repeat apply Forall_cons_2; [..|apply Forall_nil_2]; (split; [reflexivity|discriminate]).
  - repeat apply Forall_cons_2; [..|apply Forall_nil_2]; vm_compute; reflexivity.
  - split; [reflexivity..|discriminate|discriminate|]. eexists. vm_compute. reflexivity.
Qed.

(** The update carries the SOA itself, as [SignedSerialBump] makes them. *)
Definition toy_bump_adds : list RR := toy_SOA "z." 9 :: toy_upd_adds.
Definition toy_bump_removes : list RR := toy_SOA "z." 7 :: toy_upd_removes.
Lemma toy_bump_ok : update_ok "z." (toy_SOA "z." 7) (toy_SOA "z." 9) (mkSOA "ns.z." "mail.z." 7 900 300 86400 60)
  (mkSOA "ns.z." "mail.z." 9 900 300 86400 60) toy_bump_adds toy_bump_removes.
Proof.
  split; [apply soa_replaced| | |reflexivity|discriminate].
  - by left.
  - repeat apply Forall_cons_2; [by left|right; split; [reflexivity|discriminate]|apply Forall_nil_2].
  - by left.
  - repeat apply Forall_cons_2; [by left|right; split; [reflexivity|discriminate]|apply Forall_nil_2].
  - repeat apply Forall_cons_2; [..|apply Forall_nil_2]; vm_compute; reflexivity.
  - split; [reflexivity..|discriminate|discriminate|]. eexists. vm_compute. reflexivity.
Qed.

Definition toy_soa_q : RR := mkRR (hdr "z." TypeSOA) (RD_SOA (mkSOA "ns." "hostmaster." 7 0 0 0 0)).
Lemma toy_ixfr_query : ixfr_query toy_ixfr "z." 7 toy_soa_q.
Proof.
  split; [|reflexivity|reflexivity|vm_compute; reflexivity|].
  - split; [reflexivity|]. exists "Z.". split; [reflexivity|vm_compute; reflexivity].
  - eexists. split; reflexivity.
Qed.

Lemma ixfr_replicates_witness :
  let answered adds removes serial :=
    let tp' := (Apply toy_primary "z." adds removes).1.1 in
    ∃ res s' c' t, IXFR (N := toy_net tp' toy_ixfr) Defaults "z." 7 toy_srv "" 1 2 = Ok res ∧
      tp_zones tp' !! "z." = Some s' ∧ st_serial s' = serial ∧
      ApplyChanges (built "z." toy_zone) (x_Adds res) (x_Removes res) = (c', t, None) ∧ zone_set c' = zone_set s' in
  answered toy_upd_adds toy_upd_removes 8%Z ∧ answered toy_bump_adds toy_bump_removes 9%Z.
Proof.
  cbv zeta. split.
  - destruct (ixfr_replicates (N := toy_net (Apply toy_primary "z." toy_upd_adds toy_upd_removes).1.1 toy_ixfr) Defaults toy_primary
      (Apply toy_primary "z." toy_upd_adds toy_upd_removes).1.1 "z." (built "z." toy_zone) (toy_SOA "z." 7)
      (bump_serial (toy_SOA "z." 7)) (mkSOA "ns.z." "mail.z." 7 900 300 86400 60) (mkSOA "ns.z." "mail.z." 8 900 300 86400 60)
      toy_upd_adds toy_upd_removes (built "z." toy_zone) toy_ixfr toy_soa_q toy_srv "" 1 2
      toy_updatable toy_update_ok)
      as (res & s' & c' & t & Hres & _ & Hz & _ & Hser & Ha & _ & _ & Hs);
      [reflexivity|reflexivity|apply built_wf|exact toy_ixfr_query|reflexivity|reflexivity|].
    exists res, s', c', t. split; [exact Hres|]. split; [exact Hz|]. split; [exact Hser|]. split; [exact Ha|exact (Hs eq_refl)].
  - destruct (ixfr_replicates (N := toy_net (Apply toy_primary "z." toy_bump_adds toy_bump_removes).1.1 toy_ixfr) Defaults toy_primary
      (Apply toy_primary "z." toy_bump_adds toy_bump_removes).1.1 "z." (built "z." toy_zone) (toy_SOA "z." 7)
      (toy_SOA "z." 9) (mkSOA "ns.z." "mail.z." 7 900 300 86400 60) (mkSOA "ns.z." "mail.z." 9 900 300 86400 60)
      toy_bump_adds toy_bump_removes (built "z." toy_zone) toy_ixfr toy_soa_q toy_srv "" 1 2
      toy_updatable toy_bump_ok)
      as (res & s' & c' & t & Hres & _ & Hz & _ & Hser & Ha & _ & _ & Hs);
      [reflexivity|reflexivity|apply built_wf|exact toy_ixfr_query|reflexivity|reflexivity|].
    exists res, s', c', t. split; [exact Hres|]. split; [exact Hz|]. split; [exact Hser|]. split; [exact Ha|exact (Hs eq_refl)].
Defined.

(** A zone with a signature of TTL 0 among others of TTL 300: the client
    gets it, but not the record the server has. *)
Definition toy_ttl_primary : Server := LoadZone New (built "z." toy_ttl_zone).

Lemma transfer_replicates_witness :
  ∃ res c, AXFR (N := toy_net toy_ttl_primary toy_axfr) Defaults "z." toy_srv "" 1 2 = Ok res ∧
    x_Store res = Some c ∧ zone_set c = shown (built "z." toy_ttl_zone) ∧ zone_set c ≠ zone_set (built "z." toy_ttl_zone).
Proof.
  assert (tp_zones toy_ttl_primary !! Canonical "z." = Some (built "z." toy_ttl_zone)) as Hz.
  { unfold toy_ttl_primary, LoadZone. cbn [tp_zones]. assert (st_origin (built "z." toy_ttl_zone) = Canonical "z.") as -> by (vm_compute; reflexivity).
    apply lookup_insert_eq. }
  assert (servable (built "z." toy_ttl_zone) (toy_SOA "z." 7)) as Hs by (apply toy_servable; vm_compute; reflexivity).
  destruct (proj1 (transfer_replicates (N := toy_net toy_ttl_primary toy_axfr) Defaults toy_ttl_primary "z." (built "z." toy_ttl_zone)
    (toy_SOA "z." 7) toy_axfr toy_srv "" 1 2 Hz Hs (λ _, eq_refl)))
    as (res & c & Hres & Hst & _ & Hc).
  - split; [reflexivity|]. exists "Z.". split; [reflexivity|vm_compute; reflexivity].
  - reflexivity.
  - exists res, c. split; [exact Hres|]. split; [exact Hst|]. split; [exact Hc|]. rewrite Hc. exact toy_ttl_differs.
Defined.
