(* ===== verification/Event.v ===== *)
(** * Events (internal/event/bus.go)

    The bus hands every event to the handlers, in the order they
    subscribed. A handler is a function from an event to whatever it does;
    the components that react to events are its handlers. *)

From S2P Require Import Prelude.

(** [Type] and its constants. *)
Abbreviation EventType := string (only parsing).
Definition ZoneStateChanged : EventType := "zone_state_changed".
Definition ZoneValid : EventType := "zone_valid".
Definition ZoneInvalid : EventType := "zone_invalid".
Definition ZoneStale : EventType := "zone_stale".
Definition ZoneExpiringSoon : EventType := "zone_expiring_soon".
Definition TransferCompleted : EventType := "transfer_completed".
Definition TransferFailed : EventType := "transfer_failed".
Definition VerificationCompleted : EventType := "verification_completed".
Definition NotifyReceived : EventType := "notify_received".
Definition EvSerialSkew : EventType := "serial_skew".
Definition ChainOfTrustFailed : EventType := "chain_of_trust_failed".
Definition CatalogMemberAdded : EventType := "catalog_member_added".
Definition CatalogMemberRemoved : EventType := "catalog_member_removed".

(** [Detail] holds numbers only. *)
Record Event := mkEvent {
  e_Type : EventType; e_Zone : string; e_At : Time; e_State : string; e_Method : string;
  e_Mode : string; e_Result : string; e_Transport : string; e_Catalog : string; e_Detail : gmap string Z
}.

#[export] Instance Event_eq_dec : EqDecision Event.
Proof. solve_decision. Defined.

(** An event with the fields most publishers set. *)
Definition zone_event (type zone state method mode result : string) : Event :=
  mkEvent type zone zeroTime state method mode result "" "" ∅.

Section bus.
Context {A : Type}.

Record Bus := mkBus { b_handlers : list (Event → A); b_buffer : Z }.

Definition New (buffer : Z) : Bus := mkBus [] (if bool_decide (buffer ≤ 0)%Z then 256 else buffer).
Definition Subscribe (b : Bus) (h : Event → A) : Bus := mkBus (b_handlers b ++ [h]) (b_buffer b).

(** [Publish]: what the handlers do, in order. *)
Definition Publish (now : Time) (b : Bus) (e : Event) : list A :=
  let e := if IsZero (e_At e)
    then mkEvent (e_Type e) (e_Zone e) now (e_State e) (e_Method e) (e_Mode e) (e_Result e) (e_Transport e) (e_Catalog e) (e_Detail e)
    else e in
  (λ h, h e) <$> b_handlers b.
End bus.
Arguments Bus A : clear implicits.
