(* ===== verification/Runtime.v ===== *)
(** * The state of a monitored zone (internal/monitor/runtime.go)

    [ZoneRuntime] is what the monitor knows about a zone: its state, the
    store of its records, the findings, when to look again. The lock of the
    runtime serialises its operations, so each is a function. The pointer to
    the findings is never nil ([NewZone] sets it and a pass returns one), so
    the tests for nil are left out. Times and the random number of
    [schedule] are arguments. Main results: the history is the last 64
    transitions, the delay of a refresh is what the configuration allows, and
    the last terminal state is what the history says. *)

From Stdlib Require Import SpecFloat.
From S2P Require Import Prelude GoStrings DnsLib BTree DnsName Node Store Config Findings Floats Toy.

(** [State]: the constants of the type. *)
Inductive State :=
| StateUnknown | StateTransferring | StateVerifying | StateValid | StateInvalid
| StateUnsigned | StateTransferFailed | StateStale.

#[export] Instance State_eq_dec : EqDecision State.
Proof. solve_decision. Defined.

Definition state_string (s : State) : string :=
  match s with
  | StateUnknown => "unknown" | StateTransferring => "transferring" | StateVerifying => "verifying"
  | StateValid => "valid" | StateInvalid => "invalid" | StateUnsigned => "unsigned"
  | StateTransferFailed => "transfer_failed" | StateStale => "stale"
  end.

(** [ServerStatus], without the round-trip time. *)
Record ServerStatus := mkServerStatus {
  ss_Name : string; ss_Serial : Z; ss_Reachable : bool; ss_Error : string; ss_At : Time
}.

Record HistoryEntry := mkHistoryEntry {
  hs_At : Time; hs_State : State; hs_Serial : Z; hs_Mode : string; hs_Method : string; hs_Detail : string
}.

(** ** Floating point: the IEEE 754 binary64 operations *)

Definition prec64 : Z := 53.
Definition emax64 : Z := 1024.
Definition f_add : float64 → float64 → float64 := SFadd prec64 emax64.
Definition f_sub : float64 → float64 → float64 := SFsub prec64 emax64.
Definition f_mul : float64 → float64 → float64 := SFmul prec64 emax64.
Definition f_of_Z (z : Z) : float64 := binary_normalize prec64 emax64 z 0 false.

(** [int64(f)]: truncation; the least integer for a value that is not a
    number or too large, as on amd64. *)
Definition f_to_int64 (f : float64) : Z :=
  let out := (- 2 ^ 63)%Z in
  match f with
  | S754_zero _ => 0%Z
  | S754_finite s m e =>
      let a := Z.shiftl (Zpos m) e in
      let z := if s then (- a)%Z else a in
      if bool_decide (- 2 ^ 63 ≤ z < 2 ^ 63)%Z then z else out
  | _ => out
  end.

Section runtime.
Context `{DL : !DnsLib, BT : !BTree, MR : !MapRange}.

Record ZoneRuntime := mkZoneRuntime {
  z_Name : string;
  z_Source : string;
  z_Servers : list Server;
  z_TSIGKey : string;
  z_State : State;
  z_Store : option Store;
  z_Findings : FSet;
  z_LastValidAt : Time;
  z_LastVerified : Time;
  z_LastFullVerified : Time;
  z_LastTransfer : Time;
  z_NextRefresh : Time;
  z_ExpireAt : Time;
  z_VerifyMode : string;
  z_LastMethod : string;
  z_ServersStat : list ServerStatus;
  z_History : list HistoryEntry;
  z_Refreshing : bool;
  z_RefreshFull : bool;
  z_ChainOK : option bool;
  z_ZONEMDOK : option bool;
  z_ZONEMDCheckedAt : Time;
  z_ZONEMDStale : bool;
  z_SkewSince : Time
}.

(** Assignments to fields. *)
Definition with_State (z : ZoneRuntime) (x0 : State) : ZoneRuntime :=
  mkZoneRuntime (z_Name z) (z_Source z) (z_Servers z) (z_TSIGKey z) x0 (z_Store z) (z_Findings z)
    (z_LastValidAt z) (z_LastVerified z) (z_LastFullVerified z) (z_LastTransfer z) (z_NextRefresh z)
    (z_ExpireAt z) (z_VerifyMode z) (z_LastMethod z) (z_ServersStat z) (z_History z) (z_Refreshing z)
    (z_RefreshFull z) (z_ChainOK z) (z_ZONEMDOK z) (z_ZONEMDCheckedAt z) (z_ZONEMDStale z) (z_SkewSince z).
Definition with_Store (z : ZoneRuntime) (x0 : option Store) : ZoneRuntime :=
  mkZoneRuntime (z_Name z) (z_Source z) (z_Servers z) (z_TSIGKey z) (z_State z) x0 (z_Findings z)
    (z_LastValidAt z) (z_LastVerified z) (z_LastFullVerified z) (z_LastTransfer z) (z_NextRefresh z)
    (z_ExpireAt z) (z_VerifyMode z) (z_LastMethod z) (z_ServersStat z) (z_History z) (z_Refreshing z)
    (z_RefreshFull z) (z_ChainOK z) (z_ZONEMDOK z) (z_ZONEMDCheckedAt z) (z_ZONEMDStale z) (z_SkewSince z).
Definition with_Findings (z : ZoneRuntime) (x0 : FSet) : ZoneRuntime :=
  mkZoneRuntime (z_Name z) (z_Source z) (z_Servers z) (z_TSIGKey z) (z_State z) (z_Store z) x0
    (z_LastValidAt z) (z_LastVerified z) (z_LastFullVerified z) (z_LastTransfer z) (z_NextRefresh z)
    (z_ExpireAt z) (z_VerifyMode z) (z_LastMethod z) (z_ServersStat z) (z_History z) (z_Refreshing z)
    (z_RefreshFull z) (z_ChainOK z) (z_ZONEMDOK z) (z_ZONEMDCheckedAt z) (z_ZONEMDStale z) (z_SkewSince z).
Definition with_LastValidAt (z : ZoneRuntime) (x0 : Time) : ZoneRuntime :=
  mkZoneRuntime (z_Name z) (z_Source z) (z_Servers z) (z_TSIGKey z) (z_State z) (z_Store z) (z_Findings z) x0
    (z_LastVerified z) (z_LastFullVerified z) (z_LastTransfer z) (z_NextRefresh z) (z_ExpireAt z)
    (z_VerifyMode z) (z_LastMethod z) (z_ServersStat z) (z_History z) (z_Refreshing z) (z_RefreshFull z)
    (z_ChainOK z) (z_ZONEMDOK z) (z_ZONEMDCheckedAt z) (z_ZONEMDStale z) (z_SkewSince z).
Definition with_LastTransfer (z : ZoneRuntime) (x0 : Time) : ZoneRuntime :=
  mkZoneRuntime (z_Name z) (z_Source z) (z_Servers z) (z_TSIGKey z) (z_State z) (z_Store z) (z_Findings z)
    (z_LastValidAt z) (z_LastVerified z) (z_LastFullVerified z) x0 (z_NextRefresh z) (z_ExpireAt z)
    (z_VerifyMode z) (z_LastMethod z) (z_ServersStat z) (z_History z) (z_Refreshing z) (z_RefreshFull z)
    (z_ChainOK z) (z_ZONEMDOK z) (z_ZONEMDCheckedAt z) (z_ZONEMDStale z) (z_SkewSince z).
Definition with_NextRefresh (z : ZoneRuntime) (x0 : Time) : ZoneRuntime :=
  mkZoneRuntime (z_Name z) (z_Source z) (z_Servers z) (z_TSIGKey z) (z_State z) (z_Store z) (z_Findings z)
    (z_LastValidAt z) (z_LastVerified z) (z_LastFullVerified z) (z_LastTransfer z) x0 (z_ExpireAt z)
    (z_VerifyMode z) (z_LastMethod z) (z_ServersStat z) (z_History z) (z_Refreshing z) (z_RefreshFull z)
    (z_ChainOK z) (z_ZONEMDOK z) (z_ZONEMDCheckedAt z) (z_ZONEMDStale z) (z_SkewSince z).
Definition with_ExpireAt (z : ZoneRuntime) (x0 : Time) : ZoneRuntime :=
  mkZoneRuntime (z_Name z) (z_Source z) (z_Servers z) (z_TSIGKey z) (z_State z) (z_Store z) (z_Findings z)
    (z_LastValidAt z) (z_LastVerified z) (z_LastFullVerified z) (z_LastTransfer z) (z_NextRefresh z) x0
    (z_VerifyMode z) (z_LastMethod z) (z_ServersStat z) (z_History z) (z_Refreshing z) (z_RefreshFull z)
    (z_ChainOK z) (z_ZONEMDOK z) (z_ZONEMDCheckedAt z) (z_ZONEMDStale z) (z_SkewSince z).
Definition with_LastMethod (z : ZoneRuntime) (x0 : string) : ZoneRuntime :=
  mkZoneRuntime (z_Name z) (z_Source z) (z_Servers z) (z_TSIGKey z) (z_State z) (z_Store z) (z_Findings z)
    (z_LastValidAt z) (z_LastVerified z) (z_LastFullVerified z) (z_LastTransfer z) (z_NextRefresh z)
    (z_ExpireAt z) (z_VerifyMode z) x0 (z_ServersStat z) (z_History z) (z_Refreshing z) (z_RefreshFull z)
    (z_ChainOK z) (z_ZONEMDOK z) (z_ZONEMDCheckedAt z) (z_ZONEMDStale z) (z_SkewSince z).
Definition with_ServersStat (z : ZoneRuntime) (x0 : list ServerStatus) : ZoneRuntime :=
  mkZoneRuntime (z_Name z) (z_Source z) (z_Servers z) (z_TSIGKey z) (z_State z) (z_Store z) (z_Findings z)
    (z_LastValidAt z) (z_LastVerified z) (z_LastFullVerified z) (z_LastTransfer z) (z_NextRefresh z)
    (z_ExpireAt z) (z_VerifyMode z) (z_LastMethod z) x0 (z_History z) (z_Refreshing z) (z_RefreshFull z)
    (z_ChainOK z) (z_ZONEMDOK z) (z_ZONEMDCheckedAt z) (z_ZONEMDStale z) (z_SkewSince z).
Definition with_History (z : ZoneRuntime) (x0 : list HistoryEntry) : ZoneRuntime :=
  mkZoneRuntime (z_Name z) (z_Source z) (z_Servers z) (z_TSIGKey z) (z_State z) (z_Store z) (z_Findings z)
    (z_LastValidAt z) (z_LastVerified z) (z_LastFullVerified z) (z_LastTransfer z) (z_NextRefresh z)
    (z_ExpireAt z) (z_VerifyMode z) (z_LastMethod z) (z_ServersStat z) x0 (z_Refreshing z) (z_RefreshFull z)
    (z_ChainOK z) (z_ZONEMDOK z) (z_ZONEMDCheckedAt z) (z_ZONEMDStale z) (z_SkewSince z).
Definition with_Refresh (z : ZoneRuntime) (x0 : bool) (x1 : bool) : ZoneRuntime :=
  mkZoneRuntime (z_Name z) (z_Source z) (z_Servers z) (z_TSIGKey z) (z_State z) (z_Store z) (z_Findings z)
    (z_LastValidAt z) (z_LastVerified z) (z_LastFullVerified z) (z_LastTransfer z) (z_NextRefresh z)
    (z_ExpireAt z) (z_VerifyMode z) (z_LastMethod z) (z_ServersStat z) (z_History z) x0 x1 (z_ChainOK z)
    (z_ZONEMDOK z) (z_ZONEMDCheckedAt z) (z_ZONEMDStale z) (z_SkewSince z).
Definition with_ChainOK (z : ZoneRuntime) (x0 : option bool) : ZoneRuntime :=
  mkZoneRuntime (z_Name z) (z_Source z) (z_Servers z) (z_TSIGKey z) (z_State z) (z_Store z) (z_Findings z)
    (z_LastValidAt z) (z_LastVerified z) (z_LastFullVerified z) (z_LastTransfer z) (z_NextRefresh z)
    (z_ExpireAt z) (z_VerifyMode z) (z_LastMethod z) (z_ServersStat z) (z_History z) (z_Refreshing z)
    (z_RefreshFull z) x0 (z_ZONEMDOK z) (z_ZONEMDCheckedAt z) (z_ZONEMDStale z) (z_SkewSince z).
Definition with_ZONEMD (z : ZoneRuntime) (x0 : option bool) (x1 : Time) (x2 : bool) : ZoneRuntime :=
  mkZoneRuntime (z_Name z) (z_Source z) (z_Servers z) (z_TSIGKey z) (z_State z) (z_Store z) (z_Findings z)
    (z_LastValidAt z) (z_LastVerified z) (z_LastFullVerified z) (z_LastTransfer z) (z_NextRefresh z)
    (z_ExpireAt z) (z_VerifyMode z) (z_LastMethod z) (z_ServersStat z) (z_History z) (z_Refreshing z)
    (z_RefreshFull z) (z_ChainOK z) x0 x1 x2 (z_SkewSince z).
Definition with_SkewSince (z : ZoneRuntime) (x0 : Time) : ZoneRuntime :=
  mkZoneRuntime (z_Name z) (z_Source z) (z_Servers z) (z_TSIGKey z) (z_State z) (z_Store z) (z_Findings z)
    (z_LastValidAt z) (z_LastVerified z) (z_LastFullVerified z) (z_LastTransfer z) (z_NextRefresh z)
    (z_ExpireAt z) (z_VerifyMode z) (z_LastMethod z) (z_ServersStat z) (z_History z) (z_Refreshing z)
    (z_RefreshFull z) (z_ChainOK z) (z_ZONEMDOK z) (z_ZONEMDCheckedAt z) (z_ZONEMDStale z) x0.
Definition with_Verified (z : ZoneRuntime) (x0 : string) (x1 : Time) (x2 : Time) : ZoneRuntime :=
  mkZoneRuntime (z_Name z) (z_Source z) (z_Servers z) (z_TSIGKey z) (z_State z) (z_Store z) (z_Findings z)
    (z_LastValidAt z) x1 x2 (z_LastTransfer z) (z_NextRefresh z) (z_ExpireAt z) x0 (z_LastMethod z)
    (z_ServersStat z) (z_History z) (z_Refreshing z) (z_RefreshFull z) (z_ChainOK z) (z_ZONEMDOK z)
    (z_ZONEMDCheckedAt z) (z_ZONEMDStale z) (z_SkewSince z).

Definition NewZone (name source : string) (servers : list Server) (tsig : string) : ZoneRuntime :=
  mkZoneRuntime name source servers tsig StateUnknown None NewSet zeroTime zeroTime zeroTime zeroTime zeroTime zeroTime
    "" "" [] [] false false None None zeroTime false zeroTime.

(** ** Operations *)

(** The last [n] elements. *)
Definition last_n {A} (n : nat) (l : list A) : list A := drop (length l - n) l.

Definition setState (now : Time) (z : ZoneRuntime) (s : State) (serial : Z) (mode method detail : string) : ZoneRuntime :=
  let z := with_State z s in
  let z := if bool_decide (s = StateValid) || bool_decide (s = StateUnsigned) then with_LastValidAt z now else z in
  let h := z_History z ++ [mkHistoryEntry now s serial mode method detail] in
  with_History z (if bool_decide (64 < length h) then last_n 64 h else h).

(** The delay of [schedule], before the jitter. *)
Definition schedule_base (cfg : RefreshConfig) (soaRefresh soaRetry : Z) (failed : bool) : Duration :=
  if failed then
    let base := (soaRetry * Second)%Z in
    let base := if bool_decide (base < rf_RetryMin cfg)%Z then rf_RetryMin cfg else base in
    if bool_decide (rf_RetryMax cfg < base)%Z then rf_RetryMax cfg else base
  else
    let base := if bool_decide (soaRefresh = 0%Z) then rf_MaxInterval cfg else (soaRefresh * Second)%Z in
    let base := if bool_decide (base < rf_MinInterval cfg)%Z then rf_MinInterval cfg else base in
    if bool_decide (rf_MaxInterval cfg < base)%Z then rf_MaxInterval cfg else base.

(** [rand] is the value of [rand.Float64()]. *)
Definition schedule (now : Time) (rand : float64) (z : ZoneRuntime) (cfg : RefreshConfig) (soaRefresh soaRetry : Z) (failed : bool) : ZoneRuntime :=
  let base := schedule_base cfg soaRefresh soaRetry failed in
  let j := rf_Jitter cfg in
  let j := if SFltb j float_0 then float_0 else j in
  let j := if SFltb float_1 j then float_1 else j in
  let mult := f_add (f_sub float_1 j) (f_mul rand j) in
  with_NextRefresh z (now + f_to_int64 (f_mul (f_of_Z base) mult)).

(** [TryLockRefresh]: whether the caller got the refresh. *)
Definition TryLockRefresh (z : ZoneRuntime) (full : bool) : ZoneRuntime * bool :=
  if z_Refreshing z then (z, false) else (with_Refresh z true full, true).

Definition UnlockRefresh (z : ZoneRuntime) : ZoneRuntime := with_Refresh z false false.

Definition isTerminalState (s : State) : bool :=
  match s with
  | StateValid | StateInvalid | StateUnsigned | StateTransferFailed | StateStale => true
  | _ => false
  end.

(** The backward loop of [lastTerminalState]. *)
Fixpoint last_terminal (h : list HistoryEntry) : option State :=
  match h with
  | [] => None
  | e :: h =>
      match last_terminal h with
      | Some s => Some s
      | None => if isTerminalState (hs_State e) then Some (hs_State e) else None
      end
  end.

Definition lastTerminalState (z : ZoneRuntime) : State :=
  if isTerminalState (z_State z) then z_State z
  else match last_terminal (z_History z) with Some s => s | None => StateUnknown end.

Definition Restore (now : Time) (z : ZoneRuntime) (lastValid : Time) (findings : list Finding) : ZoneRuntime :=
  let z := if negb (IsZero lastValid) then with_LastValidAt z lastValid else z in
  with_Findings z (foldl (Add now) (z_Findings z) findings).

Definition AttachStore (z : ZoneRuntime) (st : Store) : ZoneRuntime := with_Store z (Some st).

Definition StoreAndFindings (z : ZoneRuntime) : option Store * list Finding := (z_Store z, FSet_List (z_Findings z)).
Definition StoreAndChain (z : ZoneRuntime) : option Store * option bool := (z_Store z, z_ChainOK z).

Definition store_serial (st : option Store) : Z := match st with Some st => st_serial st | None => 0%Z end.

Definition ApplyFindings (now : Time) (z : ZoneRuntime) (findings : list Finding) (chainOK : option bool) (invalidate : bool) : ZoneRuntime :=
  let z := with_Findings z (foldl (Add now) (z_Findings z) findings) in
  let z := match chainOK with Some ok => with_ChainOK z (Some ok) | None => z end in
  if invalidate && bool_decide (z_State z = StateValid)
  then setState now z StateInvalid (store_serial (z_Store z)) "chain" "" "DS mismatch"
  else z.

(** ** The view *)

Record SOAInfo := mkSOAInfo {
  si_MName : string; si_RName : string; si_Serial : Z; si_Refresh : Z; si_Retry : Z; si_Expire : Z; si_Minimum : Z
}.

Record ZoneView := mkZoneView {
  v_Name : string; v_Source : string; v_State : string; v_Valid : bool; v_Unsigned : bool;
  v_Serial : Z; v_Records : Z; v_RRSIGs : nat; v_NSEC3 : nat; v_Signing : string;
  v_LastValidAt : Time; v_LastVerified : Time; v_LastFullVerified : option Time; v_LastTransfer : Time;
  v_NextRefresh : Time; v_VerifyMode : string; v_LastMethod : string; v_Refreshing : bool; v_RefreshFull : bool;
  v_ErrorCount : Z; v_WarningCount : Z; v_Findings : list Finding; v_Servers : list ServerStatus;
  v_History : list HistoryEntry; v_SOA : option SOAInfo; v_ChainOK : option bool; v_ZONEMDOK : option bool;
  v_ZONEMDCheckedAt : option Time; v_ZONEMDStale : bool
}.

Definition time_opt (t : Time) : option Time := if IsZero t then None else Some t.

Definition soa_info (st : Store) : option SOAInfo :=
  rr ← SOA st; soa ← as_SOA rr;
  Some (mkSOAInfo (soa_Ns soa) (soa_Mbox soa) (soa_Serial soa) (soa_Refresh soa) (soa_Retry soa) (soa_Expire soa) (soa_Minttl soa)).

Definition Snapshot (z : ZoneRuntime) : ZoneView :=
  let unsigned := bool_decide (z_State z = StateUnsigned) in
  let of_store {A} (f : Store → A) (d : A) : A := match z_Store z with Some st => f st | None => d end in
  mkZoneView (z_Name z) (z_Source z) (state_string (z_State z)) (bool_decide (z_State z = StateValid) || unsigned) unsigned
    (store_serial (z_Store z)) (of_store Store_RecordCount 0%Z) (of_store RRSIGCount 0) (of_store NSEC3Count 0)
    (of_store (λ st, if unsigned then SigningUnsigned else SigningMode st) SigningUnsigned)
    (z_LastValidAt z) (z_LastVerified z) (time_opt (z_LastFullVerified z)) (z_LastTransfer z)
    (z_NextRefresh z) (z_VerifyMode z) (z_LastMethod z) (z_Refreshing z) (z_RefreshFull z)
    (CountBySeverity (z_Findings z) Error) (CountBySeverity (z_Findings z) Warning) (FSet_List (z_Findings z)) (z_ServersStat z)
    (z_History z) (of_store soa_info None) (z_ChainOK z) (z_ZONEMDOK z) (time_opt (z_ZONEMDCheckedAt z)) (z_ZONEMDStale z).

(** ** Facts *)

Implicit Types z : ZoneRuntime.

Lemma last_n_length {A} n (l : list A) : n ≤ length l → length (last_n n l) = n.
Proof. intros Hn. unfold last_n. rewrite length_drop. lia. Qed.

Lemma last_n_suffix {A} n (l : list A) : ∃ p, l = p ++ last_n n l.
Proof. exists (take (length l - n) l). unfold last_n. by rewrite take_drop. Qed.

Lemma setState_State now z s serial mode method detail : z_State (setState now z s serial mode method detail) = s.
Proof. unfold setState. by destruct (_ || _). Qed.

(** The history after a transition: the last 64 entries, the transition last. *)
Lemma setState_History now z s serial mode method detail :
  let h := z_History z ++ [mkHistoryEntry now s serial mode method detail] in
  z_History (setState now z s serial mode method detail) = last_n 64 h.
Proof.
  cbv zeta. unfold setState. destruct (_ || _); cbn [z_History with_History with_LastValidAt with_State];
    (case_bool_decide as Hl; [done|]; unfold last_n;
     rewrite (proj2 (Nat.sub_0_le (length (z_History z ++ _)) 64)) by lia; done).
Qed.

Lemma last_terminal_app h1 h2 :
  last_terminal (h1 ++ h2) = match last_terminal h2 with Some s => Some s | None => last_terminal h1 end.
Proof.
  induction h1 as [|e h1 IH]; [cbn; by destruct (last_terminal h2)|]. cbn [app last_terminal]. rewrite IH.
  by destruct (last_terminal h2).
Qed.

(** The last terminal state of the history after a terminal transition. *)
Lemma last_terminal_setState now z s serial mode method detail :
  isTerminalState s = true → last_terminal (z_History (setState now z s serial mode method detail)) = Some s.
Proof.
  intros Hs. rewrite setState_History. cbv zeta.
  set (h := z_History z ++ _). destruct (last_n_suffix 64 h) as [p Hp].
  assert (∃ q, last_n 64 h = q ++ [mkHistoryEntry now s serial mode method detail]) as [q ->].
  { unfold last_n, h. rewrite length_app. cbn [length]. rewrite drop_app_le by lia. eauto. }
  rewrite last_terminal_app. cbn. by rewrite Hs.
Qed.

(** The delay before the jitter is within the limits of the configuration,
    and between the limits it is what the SOA asks for. *)
Lemma schedule_base_bounds (cfg : RefreshConfig) (soaRefresh soaRetry : Z) (failed : bool) :
  let lo : Duration := if failed then rf_RetryMin cfg else rf_MinInterval cfg in
  let hi : Duration := if failed then rf_RetryMax cfg else rf_MaxInterval cfg in
  let wish : Duration := if failed then (soaRetry * Second)%Z
    else if bool_decide (soaRefresh = 0%Z) then rf_MaxInterval cfg else (soaRefresh * Second)%Z in
  (lo ≤ hi)%Z → in_u32 soaRefresh → in_u32 soaRetry →
  (lo ≤ schedule_base cfg soaRefresh soaRetry failed ≤ hi)%Z ∧
  ((lo ≤ wish ≤ hi)%Z → schedule_base cfg soaRefresh soaRetry failed = wish).
Proof.
  cbv zeta. unfold schedule_base, in_u32, Second. intros Hlo Hr1 Hr2.
  destruct failed; cbv zeta; repeat case_bool_decide; (repeat split); intros; lia.
Qed.

(** A number from 0 to 1. *)
Definition unit_float (f : float64) : bool :=
  valid_binary prec64 emax64 f && SFleb float_0 f && SFleb f float_1.

Lemma unit_float_units f : unit_float f = true →
  representable f ∧ (f_units f ≤ one)%Z ∧ (SFltb f float_1 = true → f_units f < one)%Z.
Proof. intros [[Hv H0]%andb_true_iff H1]%andb_true_iff. by apply unit_units. Qed.

(** Such a jitter is not changed by the limits of [schedule]. *)
Lemma unit_float_clamped f : unit_float f = true → SFltb f float_0 = false ∧ SFltb float_1 f = false.
Proof.
  intros [[_ H0]%andb_true_iff H1]%andb_true_iff. revert H0 H1. unfold SFleb, SFltb, SFcompare, float_0, float_1.
  destruct f as [s|[|]| |[|] m e]; try (by intros; split); try done. intros _ H1. split; [done|].
  destruct (Z.compare_spec e (-52)) as [He|He|He]; [rewrite He, Z.compare_refl, !compare_cont_eq in *| |done].
  - rewrite Pos.compare_antisym. by destruct (m ?= 4503599627370496)%positive.
  - apply Z.compare_gt_iff in He. by rewrite He.
Qed.

(** The conversion to an integer drops the fraction. *)
Lemma f_to_int64_floor t base :
  representable t → (f_units t ≤ base * one)%Z → (base < 2 ^ 63)%Z → f_to_int64 t = (f_units t / one)%Z.
Proof.
  intros Ht Hle Hb. pose proof one_pos as Hone. pose proof (f_units_nonneg t Ht) as H0.
  assert (0 ≤ f_units t / one < 2 ^ 63)%Z as Hrange.
  { split; [by apply Z.div_pos|]. apply (Z.le_lt_trans _ base); [|done]. apply Z.div_le_upper_bound; [done|]. by rewrite Z.mul_comm. }
  destruct t as [s| | |s m e]; try done. destruct Ht as (-> & Hm & He). cbn [f_to_int64 f_units] in *.
  assert (Z.shiftl (Zpos m) e = Zpos m * pw e / one)%Z as ->; [|by rewrite bool_decide_eq_true_2 by lia].
  destruct (decide (0 ≤ e)%Z) as [Hp|Hn].
  - rewrite Z.shiftl_mul_pow2 by done. change e with (0 + e)%Z at 2. rewrite pw_add by lia. change (pw 0) with one.
    by rewrite Z.mul_assoc, Z.div_mul by lia.
  - rewrite Z.shiftl_div_pow2 by lia. rewrite (one_pow (- e)) by lia. rewrite Z.opp_involutive.
    assert (0 < pw e)%Z by (apply Z.pow_pos_nonneg; lia). assert (0 < 2 ^ (- e))%Z by (apply Z.pow_pos_nonneg; lia).
    by rewrite Z.div_mul_cancel_r by lia.
Qed.

(** C23: the time of the next look at a zone. The delay starts from a base
    that is within the limits of the configuration (after a success between
    the minimal and the maximal interval, the maximal one if the SOA asks for
    none, after a failure between the minimal and the maximal retry interval)
    and that between the limits is what the SOA asks for. For a jitter j and a
    random number r from 0 to 1, r below 1, and limits of at most 52 days, the
    delay is base * (1 - j + r * j) but for 3 nanoseconds, although it is
    computed in floating point; it is never negative and never longer than
    the base (below the minimal interval it can be, by the jitter). *)
Theorem schedule_bounds now (rand : float64) z (cfg : RefreshConfig) (soaRefresh soaRetry : Z) (failed : bool) :
  let lo : Duration := if failed then rf_RetryMin cfg else rf_MinInterval cfg in
  let hi : Duration := if failed then rf_RetryMax cfg else rf_MaxInterval cfg in
  let wish : Duration := if failed then (soaRetry * Second)%Z
    else if bool_decide (soaRefresh = 0%Z) then rf_MaxInterval cfg else (soaRefresh * Second)%Z in
  let base := schedule_base cfg soaRefresh soaRetry failed in
  let delay := (z_NextRefresh (schedule now rand z cfg soaRefresh soaRetry failed) - now)%Z in
  (0 ≤ lo ≤ hi)%Z → (hi ≤ 2 ^ 52)%Z → in_u32 soaRefresh → in_u32 soaRetry →
  unit_float (rf_Jitter cfg) = true → unit_float rand = true → SFltb rand float_1 = true →
  (lo ≤ base ≤ hi)%Z ∧ ((lo ≤ wish ≤ hi)%Z → base = wish) ∧
  (0 ≤ delay ≤ base)%Z ∧
  (let j := f_units (rf_Jitter cfg) in let r := f_units rand in
   Z.abs (delay * (one * one) - base * ((one - j) * one + r * j)) ≤ 3 * (one * one))%Z.
Proof.
  intros lo hi wish base delay Hlo Hhi Hr1 Hr2 Hj Hrand Hlt.
  destruct (schedule_base_bounds cfg soaRefresh soaRetry failed ltac:(apply Hlo) Hr1 Hr2) as [Hb Hw]. fold lo hi wish base in Hb, Hw.
  split; [done|]. split; [done|]. subst delay. unfold schedule. cbv zeta. fold base.
  destruct (unit_float_clamped _ Hj) as [C0 C1]. rewrite C0, C1. cbn [z_NextRefresh with_NextRefresh].
  destruct (unit_float_units _ Hj) as (Rj & Uj & _), (unit_float_units _ Hrand) as (Rr & _ & Ur). specialize (Ur Hlt).
  destruct (mult_units _ _ Rj Uj Rr Ur) as (Rm & Um & Lm). destruct (scaled_units base _ ltac:(lia) Rm Um) as (Rt & Ut & Lt).
  fold prec64 emax64 in Rm, Um, Lm, Rt, Ut, Lt. change (SFadd prec64 emax64) with f_add in *. change (SFsub prec64 emax64) with f_sub in *.
  change (SFmul prec64 emax64) with f_mul in *. change (binary_normalize prec64 emax64 base 0 false) with (f_of_Z base) in *. change f_one with float_1 in *.
  set (mult := f_add _ _) in *. set (t := f_mul (f_of_Z base) mult) in *.
  assert (base < 2 ^ 63)%Z as Hb63 by (apply (Z.le_lt_trans _ (2 ^ 52)); [lia|done]).
  rewrite (f_to_int64_floor t base Rt Ut Hb63). pose proof one_pos as Hone. pose proof (f_units_nonneg _ Rt) as Ht0.
  replace (now + f_units t / one - now)%Z with (f_units t / one)%Z by lia. split.
  - split; [by apply Z.div_pos|]. apply Z.div_le_upper_bound; [done|]. by rewrite Z.mul_comm.
  - cbv zeta. apply (jittered base (f_units mult)); [lia|done|done].
Qed.

(** A jitter that is not a number passes the check of the configuration, and
    every look is due at once. *)
Lemma schedule_nan now rand z cfg soaRefresh soaRetry failed :
  rf_Jitter cfg = S754_nan →
  SFltb (rf_Jitter cfg) float_0 || SFltb float_1 (rf_Jitter cfg) = false ∧
  z_NextRefresh (schedule now rand z cfg soaRefresh soaRetry failed) = (now - 2 ^ 63)%Z.
Proof.
  intros Hj. unfold schedule. rewrite Hj. split; [done|]. cbn [SFltb SFcompare z_NextRefresh with_NextRefresh].
  unfold f_mul, f_add, f_sub. cbn [SFsub float_1]. destruct rand; cbn [SFmul SFadd]; by destruct (f_of_Z _).
Qed.
End runtime.

(** ** Witness *)

(** A zone that asks for 900 seconds, with the default jitter of a tenth. *)
Lemma schedule_bounds_witness :
  let z := NewZone "example." "config" [] "" in
  let delay := (z_NextRefresh (schedule (timeUnix 1000) float_tenth z (c_Refresh Defaults) 900 300 false) - timeUnix 1000)%Z in
  (818 * Second ≤ delay ≤ 900 * Second)%Z.
Proof.
  intros z delay.
  destruct (schedule_bounds (timeUnix 1000) float_tenth z (c_Refresh Defaults) 900 300 false) as (_ & Hw & Hd & Hl).
  - vm_compute. split; discriminate.
  - vm_compute. discriminate.
  - unfold in_u32. lia.
  - unfold in_u32. lia.
  - reflexivity.
  - reflexivity.
  - reflexivity.
  - fold delay in Hd, Hl. assert (schedule_base (c_Refresh Defaults) 900 300 false = 900 * Second)%Z as E by (apply Hw; vm_compute; split; discriminate). rewrite E in Hd, Hl.
    split; [|exact (proj2 Hd)].
    cbv zeta in Hl. revert Hl. generalize delay. intros d Hl. apply Z.abs_le in Hl as [Hl _].
    change (rf_Jitter (c_Refresh Defaults)) with float_tenth in Hl.
    assert ((818 * Second + 3) * (one * one) ≤ 900 * Second * ((one - f_units float_tenth) * one + f_units float_tenth * f_units float_tenth))%Z as Hc
      by (vm_compute; discriminate).
    apply (Z.mul_le_mono_pos_r _ _ (one * one)); [reflexivity|]. revert Hc Hl.
    generalize (900 * Second * ((one - f_units float_tenth) * one + f_units float_tenth * f_units float_tenth))%Z, (one * one)%Z.
    intros y w Hc Hl. lia.
Defined.
