(* ===== verification/Manager.v ===== *)
(** * The zone monitor (internal/monitor/manager.go)

    The operations of the monitor: choosing a server by serial, detecting
    skew, sweeping, the tick, and the refresh of a zone. A refresh runs in a
    goroutine of its own and gives up the zone's lock while it talks to
    servers and verifies, so it is a machine whose steps are the regions
    between: [Pc] says where it is and what it carries, [refresh_step] is one
    region. Adjacent regions with nothing but local computation between them
    are one step. The store and the set of findings are shared objects: an
    incremental change is applied to the zone's own store, and an incremental
    pass merges into the zone's own set ([incr_shared]). Log lines and
    metrics are not modelled. The system of all goroutines is in the file
    [Monitor]. *)

From S2P Require Import Prelude GoStrings DnsLib BTree DnsName Node Store Config Findings Keys Verify Full Incremental Xfr Event Runtime Toy.

(** ** Serial arithmetic (RFC 1982) *)

Definition serialGreater (a b : Z) : bool := bool_decide (0 < i32 (a - b))%Z.

(** The loop of [detectSkew] over the serials. *)
Definition min_max (s : Z) (ss : list Z) : Z * Z :=
  foldl (λ '(mn, mx) s, (if serialGreater mn s then s else mn, if serialGreater s mx then s else mx)) (s, s) ss.

(** Go's [int(x)] of a [uint32], and the absolute value taken of it. *)
Definition skew_diff (s : Z) (ss : list Z) : Z :=
  let '(mn, mx) := min_max s ss in
  let diff := u32 (mx - mn) in
  if bool_decide (diff < 0)%Z then (- diff)%Z else diff.

(** What a region of a goroutine can read: the time, the random number of
    [schedule], the network, the number of processors and the schedule of
    the verification workers. *)
Record Env := mkEnv {
  e_now : Time; e_rand : float64; e_net : Net; e_cpus : Z; e_sched : list nat
}.

Section manager.
Context `{DL : !DnsLib, BT : !BTree, MR : !MapRange}.
Variable cfg : Config.
Implicit Types z : ZoneRuntime.

Definition verifier (env : Env) : Verifier := mkVerifier (c_Verification cfg) (e_now env) (e_now env) (e_cpus env).

(** ** ZONEMD *)

Definition storeHasZONEMD (st : option Store) : bool :=
  match st with
  | None => false
  | Some st => match Apex st with Some apex => Has apex TypeZONEMD | None => false end
  end.

Definition zonemdMaxAgeDue (now : Time) (z : ZoneRuntime) (st : Store) : bool :=
  let maxAge := vf_ZONEMDMaxAge (c_Verification cfg) in
  let mode := vf_ZONEMD (c_Verification cfg) in
  if bool_decide (maxAge ≤ 0)%Z then false
  else if EqualFold mode "off" then false
  else if negb (storeHasZONEMD (Some st)) && negb (EqualFold mode "on") then false
  else if IsZero (z_ZONEMDCheckedAt z) then storeHasZONEMD (Some st) || EqualFold mode "on"
  else bool_decide (maxAge < now - z_ZONEMDCheckedAt z)%Z.

Definition applyZONEMDResult (now : Time) (z : ZoneRuntime) (st : Store) (vres : Full.Result) : ZoneRuntime :=
  if r_ZONEMDChecked vres then with_ZONEMD z (Some (r_ZONEMDOK vres)) now false
  else if bool_decide (r_Mode vres = "incremental") && (negb (IsZero (z_ZONEMDCheckedAt z)) || storeHasZONEMD (Some st))
  then with_ZONEMD z (z_ZONEMDOK z) (z_ZONEMDCheckedAt z) true
  else z.

(** ** Skew, sweep, tick *)

(** [detectSkew] *)
Definition detectSkew (now : Time) (z : ZoneRuntime) (stats : list ServerStatus) : ZoneRuntime * list Event :=
  match ss_Serial <$> List.filter ss_Reachable stats with
  | s :: ((_ :: _) as ss) =>
      let diff := skew_diff s ss in
      if bool_decide (diff ≤ rf_SerialSkewWarning (c_Refresh cfg))%Z then (with_SkewSince z zeroTime, [])
      else
        let z := if IsZero (z_SkewSince z) then with_SkewSince z now else z in
        if bool_decide (rf_SerialSkewGrace (c_Refresh cfg) ≤ now - z_SkewSince z)%Z then
          let f := NewFinding now SerialSkew Warning (z_Name z) 0 ("server serials differ by " +:+ fmt_d diff) in
          (with_Findings z (Add now (z_Findings z) f),
           [mkEvent EvSerialSkew (z_Name z) zeroTime "" "" "" "" "" "" {[ "diff" := diff ]}])
        else (z, [])
  | _ => (z, [])
  end.

(** [sweep] *)
Definition sweep (env : Env) (z : ZoneRuntime) : ZoneRuntime * list Event :=
  match z_Store z with
  | None => (z, [])
  | Some st =>
      let '(fs, opened) := SweepExpiry (verifier env) st (z_Findings z) in
      let z := with_Findings z fs in
      let '(z, evs) :=
        if bool_decide (0 < opened)%Z && HasErrors fs && bool_decide (z_State z = StateValid)
        then (setState (e_now env) z StateInvalid (st_serial st) "expiry" "" "RRSIG expired",
              [zone_event ZoneInvalid (z_Name z) (state_string StateInvalid) "" "" "";
               zone_event ZoneStateChanged (z_Name z) (state_string StateInvalid) "" "" ""])
        else (z, []) in
      (z, evs ++ if bool_decide (0 < CountBySeverity fs Warning)%Z then [zone_event ZoneExpiringSoon (z_Name z) "" "" "" ""] else [])
  end.

(** The body of the loop of [Run] on a tick: the zone, the events, and
    whether a refresh is started. *)
Definition tick (now : Time) (z : ZoneRuntime) : ZoneRuntime * list Event * bool :=
  let z :=
    if negb (z_Refreshing z) && (bool_decide (z_State z = StateTransferring) || bool_decide (z_State z = StateVerifying))
    then let term := lastTerminalState z in if bool_decide (term ≠ z_State z) then with_State z term else z
    else z in
  let due := negb (IsZero (z_NextRefresh z)) && negb (bool_decide (now < z_NextRefresh z)%Z) in
  let expired := negb (IsZero (z_ExpireAt z)) && bool_decide (z_ExpireAt z < now)%Z && negb (bool_decide (z_State z = StateStale)) in
  let z := if expired then setState now z StateStale 0 "" "" "SOA EXPIRE elapsed" else z in
  (z, if expired then [zone_event ZoneStale (z_Name z) (state_string StateStale) "" "" ""] else [], due).

(** [time.NewTicker] panics on an interval that is not positive. *)
Definition NewTicker (d : Duration) : option Duration := if bool_decide (0 < d)%Z then Some d else None.

(** The start of [Run]: the tickers' intervals; [None] is a panic. *)
Definition Run_tickers : option (Duration * option Duration) :=
  let interval := vf_ExpiryCheckInterval (c_Verification cfg) in
  tick ← NewTicker Second;
  expTick ← NewTicker interval;
  Some (tick, if bool_decide (interval ≤ 0)%Z then None else Some expTick).

(** ** Refresh *)

(** The loop over the servers: their statuses, and the best answer. *)
Fixpoint probe_loop (env : Env) (zname tsig : string) (timeout : Duration) (servers : list Server)
    (best : option SOAResult) : list ServerStatus * option SOAResult :=
  match servers with
  | [] => ([], best)
  | s :: servers =>
      let r := ProbeSOA (N := e_net env) cfg zname s tsig timeout (e_now env) in
      let st := mkServerStatus (sv_Name s) (sr_Serial r) (sr_Reachable r) (default "" (sr_Err r)) (e_now env) in
      let best :=
        if sr_Reachable r && match best with None => true | Some b => serialGreater (sr_Serial r) (sr_Serial b) end
        then Some r else best in
      if negb (rf_ProbeAllServers (c_Refresh cfg)) && sr_Reachable r then ([st], best)
      else let '(stats, best) := probe_loop env zname tsig timeout servers best in (st :: stats, best)
  end.

(** The locals a refresh carries from its first regions. *)
Record Locals := mkLocals { l_servers : list Server; l_tsig : string; l_oldSerial : Z; l_stats : list ServerStatus; l_best : option SOAResult }.

Inductive Pc :=
| PcLock                                     (** before [TryLockRefresh] *)
| PcSem                                      (** before [m.sem <- struct{}{}] *)
| PcRead
| PcProbe (servers : list Server) (tsig : string) (oldSerial : Z)
| PcStats (l : Locals)
| PcDecide (l : Locals)
| PcCheck (best : SOAResult) (store : Store)                       (** unchanged, ZONEMD due *)
| PcChecked (best : SOAResult) (store : Store) (vres : Full.Result)
| PcTransfer (l : Locals) (best : SOAResult)
| PcReceived (l : Locals) (best : SOAResult) (method : string) (tres : result Xfr.Result)
| PcVerify (best : SOAResult) (tres : Xfr.Result) (store : Store) (touched : option Touched)
| PcVerified (best : SOAResult) (tres : Xfr.Result) (store : Store) (vres : Full.Result) (shared : bool)
| PcRelease                                  (** [<-m.sem] *)
| PcUnlock                                   (** [UnlockRefresh] *)
| PcDone.

Definition newState (vres : Full.Result) : State :=
  if r_Unsigned vres then StateUnsigned else if r_Valid vres then StateValid else StateInvalid.
Definition result_name (vres : Full.Result) : string :=
  if r_Unsigned vres then "unsigned" else if r_Valid vres then "valid" else "invalid".

(** Does an incremental pass merge into the set it is given? *)
Definition incr_shared (st : Store) (touched : option Touched) : bool :=
  if match touched with Some t => t_DNSKEY t || t_NSEC3PARAM t | None => false end then false
  else
    match DNSKEYs st with
    | Err _ | Ok [] => true
    | Ok keys => match cacheKeys keys with Err _ => false | Ok _ => bool_decide (is_Some touched) end
    end.

(** The assignments that follow a pass. *)
Definition record_verified (now : Time) (z : ZoneRuntime) (vres : Full.Result) : ZoneRuntime :=
  with_Verified z (r_Mode vres) now (if bool_decide (r_Mode vres = "full") then now else z_LastFullVerified z).

Definition soa_timeout : Duration :=
  if bool_decide (rf_SOATimeout (c_Refresh cfg) ≤ 0)%Z then 5 * Second else rf_SOATimeout (c_Refresh cfg).
Definition axfr_timeout : Duration :=
  if bool_decide (rf_AXFRTimeout (c_Refresh cfg) ≤ 0)%Z then 10 * Minute else rf_AXFRTimeout (c_Refresh cfg).

(** After the probes: give up, stay, verify again, or transfer. *)
Definition decide_step (env : Env) (z : ZoneRuntime) (full : bool) (l : Locals) : ZoneRuntime * Pc * list Event :=
  let now := e_now env in
  match l_best l with
  | None =>
      let z := setState now z StateTransferFailed (l_oldSerial l) "" "" "all servers unreachable" in
      (schedule now (e_rand env) z (c_Refresh cfg) 0 60 true, PcRelease,
       [zone_event TransferFailed (z_Name z) "" "" "" "error"])
  | Some best =>
      if negb (bool_decide (l_oldSerial l = 0%Z)) && bool_decide (sr_Serial best = l_oldSerial l) && negb full then
        let unchanged :=
          let z := with_LastTransfer z now in
          let term := lastTerminalState z in
          let z := if bool_decide (term ≠ z_State z) then with_State z term else z in
          (schedule now (e_rand env) z (c_Refresh cfg) (sr_Refresh best) (sr_Retry best) false, PcRelease, []) in
        match z_Store z with
        | Some store => if zonemdMaxAgeDue now z store then (z, PcCheck best store, []) else unchanged
        | None => unchanged
        end
      else (with_State z StateTransferring, PcTransfer l best, [])
  end.

(** The second part of the check of an unchanged zone. *)
Definition checked_step (env : Env) (z : ZoneRuntime) (best : SOAResult) (store : Store) (vres : Full.Result) : ZoneRuntime * Pc * list Event :=
  let now := e_now env in
  let z := record_verified now (with_Findings z (r_Findings vres)) vres in
  let z := applyZONEMDResult now (with_LastTransfer z now) store vres in
  let z := setState now z (newState vres) (st_serial store) (r_Mode vres) "soa" "zonemd_max_age" in
  let z := schedule now (e_rand env) z (c_Refresh cfg) (sr_Refresh best) (sr_Retry best) false in
  (z, PcRelease, [zone_event VerificationCompleted (z_Name z) (state_string (newState vres)) "" (r_Mode vres) (result_name vres)]).

(** The transfer: the method and its outcome. *)
Definition transfer (env : Env) (z : ZoneRuntime) (full : bool) (l : Locals) (best : SOAResult) : string * result Xfr.Result :=
  let srv := default (mkServer "" "" 0 "") (List.find (λ s, bool_decide (sv_Name s = sr_Server best)) (l_servers l)) in
  let axfr := AXFR (N := e_net env) cfg (z_Name z) srv (l_tsig l) axfr_timeout (e_now env) in
  if negb full && negb (bool_decide (l_oldSerial l = 0%Z)) && rf_PreferIXFR (c_Refresh cfg) then
    match IXFR (N := e_net env) cfg (z_Name z) (l_oldSerial l) srv (l_tsig l) axfr_timeout (e_now env) with
    | Err _ => ("axfr", axfr)
    | Ok tres => (x_Method tres, Ok tres)
    end
  else ("axfr", axfr).

(** What becomes of the zone's store: replaced, changed in place, or an
    error; [None] is a change without a store to apply it to. *)
Definition received_store (z : ZoneRuntime) (tres : Xfr.Result) : option (Store * option Touched * option string) :=
  match x_Store tres with
  | Some st => Some (st, None, None)
  | None =>
      st ← z_Store z;
      let '(st, touched, err) := ApplyChanges st (x_Adds tres) (x_Removes tres) in
      Some (st, if err then None else Some touched, err)
  end.

Definition received_step (env : Env) (z : ZoneRuntime) (l : Locals) (best : SOAResult) (method : string) (tres : result Xfr.Result) : ZoneRuntime * Pc * list Event :=
  let now := e_now env in
  match tres with
  | Err err =>
      let z := setState now z StateTransferFailed (l_oldSerial l) "" method err in
      (schedule now (e_rand env) z (c_Refresh cfg) (sr_Refresh best) (sr_Retry best) true, PcRelease,
       [zone_event TransferFailed (z_Name z) "" method "" "error"])
  | Ok tres =>
      let evs := [zone_event TransferCompleted (z_Name z) "" (x_Method tres) "" "ok"] in
      let z := with_LastMethod (with_LastTransfer (with_State z StateVerifying) now) (x_Method tres) in
      match received_store z tres with
      | None => (z, PcRelease, evs)
      | Some (st, _, Some err) =>
          let z := setState now (with_Store z (Some st)) StateInvalid (l_oldSerial l) "" "ixfr" "apply failed" in
          let f := NewFinding now IXFRApplyFailed Error (z_Name z) 0 err in
          (with_Findings z (Add now (z_Findings z) f), PcRelease, evs)
      | Some (st, touched, None) =>
          let z := with_Store z (Some st) in
          let z :=
            match SOA st ≫= as_SOA with
            | Some soa => with_ExpireAt z (now + soa_Expire soa * Second)%Z
            | None => z
            end in
          (z, PcVerify best tres st touched, evs)
      end
  end.

(** The pass: full, or incremental over what the change touched. *)
Definition verify_full (env : Env) (z : ZoneRuntime) (full : bool) (tres : Xfr.Result) (store : Store) (touched : option Touched) : bool :=
  full || bool_decide (x_Method tres = "axfr") || x_Fallback tres || bool_decide (touched = None) || zonemdMaxAgeDue (e_now env) z store.

Definition verify_step (env : Env) (z : ZoneRuntime) (full : bool) (best : SOAResult) (tres : Xfr.Result) (store : Store) (touched : option Touched) : option (ZoneRuntime * Pc * list Event) :=
  if verify_full env z full tres store touched then
    vres ← Full (verifier env) (e_sched env) store;
    Some (z, PcVerified best tres store vres false, [])
  else
    vres ← Incremental (verifier env) (e_sched env) store (Some (z_Findings z)) touched;
    let shared := incr_shared store touched in
    Some (if shared then with_Findings z (r_Findings vres) else z, PcVerified best tres store vres shared, []).

Definition verified_step (env : Env) (z : ZoneRuntime) (best : SOAResult) (tres : Xfr.Result) (store : Store) (vres : Full.Result) (shared : bool) : ZoneRuntime * Pc * list Event :=
  let now := e_now env in
  let z := if shared then z else with_Findings z (r_Findings vres) in
  let z := applyZONEMDResult now (record_verified now z vres) store vres in
  let z := setState now z (newState vres) (st_serial store) (r_Mode vres) (x_Method tres) "" in
  let z := schedule now (e_rand env) z (c_Refresh cfg) (sr_Refresh best) (sr_Retry best) false in
  let name := state_string (newState vres) in
  let good := bool_decide (newState vres = StateValid) || bool_decide (newState vres = StateUnsigned) in
  (z, PcRelease,
   [zone_event VerificationCompleted (z_Name z) name "" (r_Mode vres) (result_name vres);
    zone_event ZoneStateChanged (z_Name z) name "" "" "";
    zone_event (if good then ZoneValid else ZoneInvalid) (z_Name z) name "" "" ""]).

(** One region of [Refresh]; [None] if it cannot go on (the verification
    workers have not been scheduled to their end). The tokens of the
    semaphore are counted by the system. *)
Definition refresh_step (env : Env) (full : bool) (z : ZoneRuntime) (pc : Pc) : option (ZoneRuntime * Pc * list Event) :=
  match pc with
  | PcLock => let '(z, got) := TryLockRefresh z full in Some (z, if got then PcSem else PcDone, [])
  | PcSem => Some (z, PcRead, [])
  | PcRead => Some (z, PcProbe (z_Servers z) (z_TSIGKey z) (store_serial (z_Store z)), [])
  | PcProbe servers tsig old =>
      let '(stats, best) := probe_loop env (z_Name z) tsig soa_timeout servers None in
      Some (z, PcStats (mkLocals servers tsig old stats best), [])
  | PcStats l =>
      let '(z, evs) := detectSkew (e_now env) (with_ServersStat z (l_stats l)) (l_stats l) in Some (z, PcDecide l, evs)
  | PcDecide l => Some (decide_step env z full l)
  | PcCheck best store =>
      vres ← Full (verifier env) (e_sched env) store; Some (z, PcChecked best store vres, [])
  | PcChecked best store vres => Some (checked_step env z best store vres)
  | PcTransfer l best => let '(method, tres) := transfer env z full l best in Some (z, PcReceived l best method tres, [])
  | PcReceived l best method tres => Some (received_step env z l best method tres)
  | PcVerify best tres store touched => verify_step env z full best tres store touched
  | PcVerified best tres store vres shared => Some (verified_step env z best tres store vres shared)
  | PcRelease => Some (z, PcUnlock, [])
  | PcUnlock => Some (UnlockRefresh z, PcDone, [])
  | PcDone => None
  end.
End manager.

(** ** Serials within half of the space *)

Lemma i32_pos z : (0 < i32 z)%Z ↔ (0 < u32 z < 2 ^ 31)%Z.
Proof. unfold i32. cbv zeta. pose proof (u32_range z) as H. unfold in_u32 in H. case_bool_decide; lia. Qed.

(** How far a serial is ahead of [base]. *)
Definition ahead (base s : Z) : Z := u32 (s - base).
(** All serials are less than half of the number space ahead of [base]. *)
Definition window (base : Z) (ss : list Z) : Prop := Forall (λ s, (ahead base s < 2 ^ 31)%Z) ss.

Lemma ahead_range base s : (0 ≤ ahead base s < 2 ^ 32)%Z.
Proof. apply u32_range. Qed.

Lemma ahead_sub base a b : u32 (a - b) = u32 (ahead base a - ahead base b).
Proof.
  unfold ahead, u32, wrapN. rewrite <-Zminus_mod. f_equal. lia.
Qed.

Lemma serialGreater_window base a b :
  (ahead base a < 2 ^ 31)%Z → (ahead base b < 2 ^ 31)%Z → serialGreater a b = bool_decide (ahead base b < ahead base a)%Z.
Proof.
  intros Ha Hb. pose proof (ahead_range base a). pose proof (ahead_range base b).
  unfold serialGreater. apply bool_decide_ext. rewrite i32_pos, (ahead_sub base).
  destruct (decide (ahead base b ≤ ahead base a)%Z).
  - rewrite u32_small by (unfold in_u32; lia). lia.
  - assert (u32 (ahead base a - ahead base b) = ahead base a - ahead base b + 2 ^ 32)%Z as ->; [|lia].
    unfold u32, wrapN. symmetry. apply (Z.mod_unique_pos _ _ (-1)); lia.
Qed.

Lemma min_max_window base s ss :
  window base (s :: ss) →
  let '(mn, mx) := min_max s ss in
  mn ∈ s :: ss ∧ mx ∈ s :: ss ∧ ∀ x, x ∈ s :: ss → (ahead base mn ≤ ahead base x ≤ ahead base mx)%Z.
Proof.
  unfold min_max. intros Hw.
  cut (∀ mn mx, (ahead base mn < 2 ^ 31)%Z → (ahead base mx < 2 ^ 31)%Z → (ahead base mn ≤ ahead base mx)%Z →
    let '(mn', mx') := foldl (λ '(mn, mx) s, (if serialGreater mn s then s else mn, if serialGreater s mx then s else mx)) (mn, mx) ss in
    (mn' = mn ∨ mn' ∈ ss) ∧ (mx' = mx ∨ mx' ∈ ss) ∧ (ahead base mn' ≤ ahead base mn)%Z ∧ (ahead base mx ≤ ahead base mx')%Z ∧
    ∀ x, x ∈ ss → (ahead base mn' ≤ ahead base x ≤ ahead base mx')%Z).
  { intros Hc. apply Forall_cons in Hw as [Hs _]. specialize (Hc s s Hs Hs (Z.le_refl _)).
    destruct (foldl _ _ _) as [mn mx]. rewrite !elem_of_cons. destruct Hc as (? & ? & ? & ? & Hx).
    split_and!; [done..|]. intros x [->|Hin]%elem_of_cons; [lia|by apply Hx]. }
  apply Forall_cons in Hw as [_ Hw]. induction Hw as [|y ss Hy Hss IH]; intros mn mx Hmn Hmx Hle; cbn [foldl].
  { split_and!; [by left|by left|lia|lia|]. by intros x ?%elem_of_nil. }
  rewrite (serialGreater_window base mn y), (serialGreater_window base y mx) by done.
  set (mn1 := if bool_decide _ then y else mn). set (mx1 := if bool_decide (ahead base mx < _)%Z then y else mx).
  assert (mn1 = mn ∨ mn1 = y) as Hmn1 by (unfold mn1; case_bool_decide; auto).
  assert (mx1 = mx ∨ mx1 = y) as Hmx1 by (unfold mx1; case_bool_decide; auto).
  assert (ahead base mn1 ≤ ahead base mn ∧ ahead base mn1 ≤ ahead base y)%Z as [? ?] by (unfold mn1; case_bool_decide; lia).
  assert (ahead base mx ≤ ahead base mx1 ∧ ahead base y ≤ ahead base mx1)%Z as [? ?] by (unfold mx1; case_bool_decide; lia).
  assert (ahead base mx1 < 2 ^ 31)%Z as Hb by (destruct Hmx1 as [->| ->]; done).
  specialize (IH mn1 mx1 ltac:(lia) Hb ltac:(lia)). destruct (foldl _ _ _) as [mn' mx'].
  destruct IH as (K1 & K2 & K3 & K4 & K5). split_and!; [set_solver|set_solver|lia|lia|].
  intros x [->|Hin]%elem_of_cons; [lia|by apply K5].
Qed.

Lemma skew_diff_window base s ss :
  window base (s :: ss) →
  ∃ mn mx, mn ∈ s :: ss ∧ mx ∈ s :: ss ∧ (∀ x, x ∈ s :: ss → (ahead base mn ≤ ahead base x ≤ ahead base mx)%Z) ∧
    skew_diff s ss = (ahead base mx - ahead base mn)%Z.
Proof.
  intros Hw. pose proof (min_max_window base s ss Hw) as Hm. unfold skew_diff. destruct (min_max s ss) as [mn mx].
  destruct Hm as (H1 & H2 & H3). exists mn, mx. split_and!; [done..|]. cbv zeta.
  pose proof (ahead_range base mn). pose proof (ahead_range base mx). pose proof (H3 mn H1).
  rewrite (ahead_sub base), u32_small by (unfold in_u32; lia). by rewrite bool_decide_false by lia.
Qed.

Section choice.
Context `{DL : !DnsLib, BT : !BTree, MR : !MapRange}.
Variable cfg : Config.

(** The serials of the servers that answered. *)
Definition answered (stats : list ServerStatus) : list Z := ss_Serial <$> List.filter ss_Reachable stats.

Lemma answered_cons st stats :
  answered (st :: stats) = (if ss_Reachable st then [ss_Serial st] else []) ++ answered stats.
Proof. unfold answered. cbn [List.filter]. by destruct (ss_Reachable st). Qed.

(** The best answer is one of the answers, and the latest of them. *)
Lemma probe_loop_best env base zname tsig timeout servers best stats best' :
  probe_loop cfg env zname tsig timeout servers best = (stats, best') →
  window base (answered stats) → (∀ b, best = Some b → (ahead base (sr_Serial b) < 2 ^ 31)%Z) →
  match best' with
  | None => best = None ∧ answered stats = []
  | Some b' =>
      (best = Some b' ∨ sr_Reachable b' = true ∧ sr_Serial b' ∈ answered stats) ∧
      (∀ b, best = Some b → (ahead base (sr_Serial b) ≤ ahead base (sr_Serial b'))%Z) ∧
      ∀ s, s ∈ answered stats → (ahead base s ≤ ahead base (sr_Serial b'))%Z
  end.
Proof.
  revert best stats. induction servers as [|s servers IH]; intros best stats; cbn [probe_loop].
  { intros [= <- <-] _ _. destruct best as [b|]; [|done]. split_and!; [by left|by intros ? [= ->]|by intros ? ?%elem_of_nil]. }
  set (r := ProbeSOA _ _ _ _ _ _). set (st := mkServerStatus _ _ _ _ _). set (best1 := if _ && _ then Some r else best).
  intros Hp Hw Hb.
  assert (∃ stats1, stats = st :: stats1 ∧ (probe_loop cfg env zname tsig timeout servers best1 = (stats1, best') ∨ stats1 = [] ∧ best' = best1))
    as (stats1 & -> & Hrec).
  { destruct (_ && sr_Reachable r) eqn:E in Hp.
    - injection Hp as Hst Hbt. exists []. split; [exact (eq_sym Hst)|]. right. split; [done|exact (eq_sym Hbt)].
    - destruct (probe_loop _ _ _ _ _ servers best1) as [stats1 best1'] eqn:E1. injection Hp as Hst Hbt. exists stats1.
      split; [exact (eq_sym Hst)|]. left. by rewrite <-Hbt. }
  rewrite answered_cons in *. change (ss_Reachable st) with (sr_Reachable r) in *. change (ss_Serial st) with (sr_Serial r) in *.
  apply Forall_app in Hw as [Hw1 Hw2].
  assert (∀ b, best1 = Some b → (ahead base (sr_Serial b) < 2 ^ 31)%Z ∧ (best = Some b ∨ sr_Reachable r = true ∧ b = r)) as Hb1.
  { intros b. unfold best1. destruct (sr_Reachable r) eqn:Er; cbn [andb]; [|by eauto].
    rewrite Forall_singleton in Hw1. destruct (match best with None => _ | Some _ => _ end); [|by eauto].
    intros [= <-]. split; [exact Hw1|]. by right. }
  assert ((∀ b, best = Some b → ∃ b1, best1 = Some b1 ∧ (ahead base (sr_Serial b) ≤ ahead base (sr_Serial b1))%Z) ∧
    (sr_Reachable r = true → ∃ b1, best1 = Some b1 ∧ (ahead base (sr_Serial r) ≤ ahead base (sr_Serial b1))%Z)) as [Hm1 Hm2].
  { unfold best1. destruct (sr_Reachable r) eqn:Er; cbn [andb].
    - rewrite Forall_singleton in Hw1. destruct best as [b0|].
      + rewrite (serialGreater_window base); [|done|by apply Hb].
        case_bool_decide; (split; intros; simplify_eq; eexists; (split; [done|lia])).
      + split; [done|]. intros _. eexists. split; [done|lia].
    - split; [|done]. intros b ->. eexists. split; [done|lia]. }
  assert (∀ b', best1 = Some b' → (best = Some b' ∨ sr_Reachable b' = true ∧ sr_Serial b' ∈ (if sr_Reachable r then [sr_Serial r] else []) ++ answered stats1)) as Horig.
  { intros b' Hb'. destruct (Hb1 b' Hb') as [_ [?|[Hr ->]]]; [by left|]. right. rewrite Hr. split; [done|]. set_solver. }
  destruct Hrec as [Hrec|[-> ->]].
  - specialize (IH best1 stats1 Hrec Hw2 (λ b Hbb, proj1 (Hb1 b Hbb))). destruct best' as [b'|].
    + destruct IH as (H1 & H2 & H3). split_and!.
      * destruct H1 as [H1|[? ?]]; [by apply Horig|]. right. split; [done|]. set_solver.
      * intros b Hbb. destruct (Hm1 b Hbb) as (b1 & Hb1' & ?). specialize (H2 b1 Hb1'). lia.
      * intros s0 [Hs0|Hs0]%elem_of_app; [|by apply H3]. destruct (sr_Reachable r) eqn:Er; [|by apply elem_of_nil in Hs0].
        apply list_elem_of_singleton in Hs0 as ->. destruct (Hm2 eq_refl) as (b1 & Hb1' & ?). specialize (H2 b1 Hb1'). lia.
    + destruct IH as [H1 H2]. split.
      * destruct best as [b|]; [|done]. destruct (Hm1 b eq_refl) as (? & ? & _). congruence.
      * rewrite H2, app_nil_r. destruct (sr_Reachable r); [|done]. destruct (Hm2 eq_refl) as (? & ? & _). congruence.
  - destruct best1 as [b1|] eqn:Eb.
    + split_and!; [by apply Horig|intros b Hbb; destruct (Hm1 b Hbb) as (? & [= <-] & ?); done|].
      intros s0 [Hs0|?%elem_of_nil]%elem_of_app; [|done]. destruct (sr_Reachable r) eqn:Er; [|by apply elem_of_nil in Hs0].
      apply list_elem_of_singleton in Hs0 as ->. by destruct (Hm2 eq_refl) as (? & [= <-] & ?).
    + split.
      * destruct best as [b|]; [|done]. destruct (Hm1 b eq_refl) as (? & ? & _). congruence.
      * rewrite app_nil_r. destruct (sr_Reachable r); [|done]. destruct (Hm2 eq_refl) as (? & ? & _). congruence.
Qed.

(** C21: serials are compared as RFC 1982 says, around the wrap. If the
    serials of the servers that answer are less than half of the number
    space apart, a refresh goes by the server whose serial is the latest,
    and skew is reported exactly when the latest and the oldest serial are
    further apart than the configuration allows, for as long as it allows. *)
Theorem serial_choice env base z tsig timeout servers stats best :
  probe_loop cfg env (z_Name z) tsig timeout servers None = (stats, best) → window base (answered stats) →
  (∀ s, s ∈ answered stats → ∃ b, best = Some b ∧ sr_Serial b ∈ answered stats ∧ (ahead base s ≤ ahead base (sr_Serial b))%Z) ∧
  (best = None ↔ answered stats = []) ∧
  (2 ≤ length (answered stats) →
   ∃ mn mx, mn ∈ answered stats ∧ mx ∈ answered stats ∧ (∀ s, s ∈ answered stats → (ahead base mn ≤ ahead base s ≤ ahead base mx)%Z) ∧
     ((detectSkew cfg (e_now env) z stats).2 ≠ [] ↔
      (rf_SerialSkewWarning (c_Refresh cfg) < ahead base mx - ahead base mn)%Z ∧
      (rf_SerialSkewGrace (c_Refresh cfg) ≤ e_now env - (if IsZero (z_SkewSince z) then e_now env else z_SkewSince z))%Z)).
Proof.
  intros Hp Hw. pose proof (probe_loop_best env base _ _ _ _ _ _ _ Hp Hw ltac:(done)) as Hb. split_and!.
  - intros s Hs. destruct best as [b|]; [|destruct Hb as [_ Hb]; rewrite Hb in Hs; by apply elem_of_nil in Hs].
    destruct Hb as ([?|[_ Hin]] & _ & Hle); [done|]. exists b. auto.
  - destruct best as [b|]; [|by destruct Hb]. split; [done|]. intros Hnil. destruct Hb as ([?|[_ Hin]] & _); [done|].
    rewrite Hnil in Hin. by apply elem_of_nil in Hin.
  - intros Hlen. unfold detectSkew. fold (answered stats). destruct (answered stats) as [|s [|s2 rest]]; simpl in Hlen; [lia..|].
    destruct (skew_diff_window base s (s2 :: rest) Hw) as (mn & mx & H1 & H2 & H3 & Hd). exists mn, mx. split_and!; [done..|].
    rewrite Hd. cbv zeta. case_bool_decide as Hwn; cbn [snd].
    + split; [done|]. intros [? _]. lia.
    + destruct (IsZero (z_SkewSince z)) eqn:Ez; cbn [z_SkewSince with_SkewSince]; rewrite ?Ez; (case_bool_decide as Hg; cbn [snd];
        [split; [intros _; split; [lia|done]|done]|split; [done|intros [_ ?]; done]]).
Qed.
End choice.

(** ** Witness *)

(** Two servers on both sides of the wrap. *)
Definition toy_serial_net : Net := {|
  net_Exchange _ _ addr := Ok [Toy.toy_SOA "z." (if bool_decide (addr = "192.0.2.1:53") then 4294967295 else 3)];
  net_In _ _ := Err "unreachable";
  ctx_Err _ := None
|}.
Definition toy_env : Env := mkEnv (timeUnix 1000) Config.float_0 toy_serial_net 2 [].
Definition toy_two_servers : list Server := [mkServer "one" "192.0.2.1" 53 ""; mkServer "two" "192.0.2.2" 53 ""].
Definition toy_zone_runtime : ZoneRuntime := NewZone "z." "config" toy_two_servers "".

Lemma serial_choice_witness :
  ∃ b, (probe_loop Defaults toy_env "z." "" Second toy_two_servers None).2 = Some b ∧
    4294967295%Z ∈ answered (probe_loop Defaults toy_env "z." "" Second toy_two_servers None).1 ∧
    (ahead 4294967295 4294967295 ≤ ahead 4294967295 (sr_Serial b))%Z.
Proof.
  assert (4294967295%Z ∈ answered (probe_loop Defaults toy_env "z." "" Second toy_two_servers None).1) as Hin
    by (vm_compute; left).
  destruct (serial_choice Defaults toy_env 4294967295 toy_zone_runtime "" Second toy_two_servers
    (probe_loop Defaults toy_env "z." "" Second toy_two_servers None).1 (probe_loop Defaults toy_env "z." "" Second toy_two_servers None).2)
    as (H & _).
  - vm_compute. reflexivity.
  - repeat apply Forall_cons_2; [..|apply Forall_nil_2]; vm_compute; reflexivity.
  - destruct (H _ Hin) as (b & Hb & _ & Hle). exists b. split; [exact Hb|]. split; [exact Hin|exact Hle].
Defined.
