(* ===== verification/Monitor.v ===== *)
(** * The monitor as a concurrent system (internal/monitor/manager.go)

    All goroutines over the shared state: the runtimes of the zones live in
    a heap, the map of the manager names some of them (a replaced or removed
    runtime may still be in use by a refresh that started before), refreshes
    are jobs at some point of their code, and the semaphore is the number of
    tokens in use. [step] is one region of one goroutine: a refresh, the
    tick, a sweep, the chain of trust, a request, an addition or a removal
    of a zone. Main results, for every interleaving: at most one refresh
    works on a zone and at most as many as configured on all; a zone is only
    in a transient state while a refresh works on it, and its state is
    otherwise the last entry of its history; refreshes always end. *)

From S2P Require Import Prelude GoStrings DnsLib BTree DnsName Node Store Config Findings Keys Verify Full Incremental Xfr Event Runtime Manager.

(** ** Counting *)

Definition count {A} (P : A → bool) (l : list A) : nat := length (List.filter P l).

Lemma count_cons {A} (P : A → bool) x l : count P (x :: l) = (if P x then 1 else 0) + count P l.
Proof. unfold count. cbn [List.filter]. by destruct (P x). Qed.

Lemma count_app {A} (P : A → bool) l1 l2 : count P (l1 ++ l2) = count P l1 + count P l2.
Proof. unfold count. by rewrite List.filter_app, length_app. Qed.

Lemma count_insert {A} (P : A → bool) l i x y :
  l !! i = Some x → count P (<[i := y]> l) + (if P x then 1 else 0) = count P l + (if P y then 1 else 0).
Proof.
  revert i. induction l as [|z l IH]; intros [|i] Hi; simplify_eq/=.
  - rewrite !count_cons. lia.
  - rewrite !count_cons. specialize (IH i Hi). lia.
Qed.

Lemma count_pos {A} (P : A → bool) l : 0 < count P l ↔ ∃ i x, l !! i = Some x ∧ P x = true.
Proof.
  induction l as [|z l IH]; [split; [unfold count; simpl; lia|by intros ([|] & ? & ? & _)]|].
  rewrite count_cons. destruct (P z) eqn:E.
  - split; [intros _; by exists 0, z|intros; lia].
  - rewrite Nat.add_0_l, IH. split.
    + intros (i & x & ? & ?). by exists (S i), x.
    + intros ([|i] & x & Hi & Hx); simpl in Hi; [congruence|eauto].
Qed.

(** Two places counted. *)
Lemma count_two {A} (P : A → bool) l i j x y :
  i ≠ j → l !! i = Some x → l !! j = Some y → P x = true → P y = true → 2 ≤ count P l.
Proof.
  revert i j. induction l as [|z l IH]; intros [|i] [|j] Hij Hi Hj Hx Hy; simplify_eq/=; rewrite count_cons.
  - rewrite Hx. assert (0 < count P l) by (apply count_pos; eauto). lia.
  - rewrite Hy. assert (0 < count P l) by (apply count_pos; eauto). lia.
  - assert (2 ≤ count P l) by (eapply (IH i j); eauto). lia.
Qed.

Section monitor.
Context `{DL : !DnsLib, BT : !BTree, MR : !MapRange}.
Variable cfg : Config.

(** ** The state *)

(** A refresh: the runtime it works on, [forceFull], and where it is. *)
Record Job := mkJob { j_loc : nat; j_full : bool; j_pc : Pc }.

Record Sys := mkSys {
  s_heap : list ZoneRuntime;
  s_zones : gmap string nat;
  s_sem : nat;
  s_jobs : list Job;
  s_log : list Event
}.

(** The capacity of [m.sem]. *)
Definition sem_cap : nat :=
  Z.to_nat (if bool_decide (rf_ConcurrentTransfers (c_Refresh cfg) < 1)%Z then 1 else rf_ConcurrentTransfers (c_Refresh cfg)).

(** ** The manager's map *)

Definition AddZone (s : Sys) (name source : string) (servers : list Server) (tsig : string) : Sys :=
  let name := Canonical name in
  match loc ← s_zones s !! name; s_heap s !! loc with
  | Some existing =>
      if bool_decide (z_Source existing = "config") then s
      else mkSys (s_heap s ++ [NewZone name source servers tsig]) (<[name := length (s_heap s)]> (s_zones s)) (s_sem s) (s_jobs s) (s_log s)
  | None => mkSys (s_heap s ++ [NewZone name source servers tsig]) (<[name := length (s_heap s)]> (s_zones s)) (s_sem s) (s_jobs s) (s_log s)
  end.

Definition RemoveZone (s : Sys) (name : string) : Sys :=
  mkSys (s_heap s) (delete (Canonical name) (s_zones s)) (s_sem s) (s_jobs s) (s_log s).

Definition Get (s : Sys) (name : string) : option nat := s_zones s !! Canonical name.

(** The runtime a name is monitored by. *)
Definition zone_at (s : Sys) (name : string) : option ZoneRuntime := Get s name ≫= λ loc, s_heap s !! loc.

(** [List]: the runtimes the map names. *)
Definition List_zones (s : Sys) : list ZoneRuntime := omap (λ e, s_heap s !! e.2) (range (s_zones s)).
Definition Views (s : Sys) : list ZoneView := Snapshot <$> List_zones s.

Definition Counts (s : Sys) : gmap string nat :=
  foldl (λ c z, <[state_string (z_State z) := S (default 0 (c !! state_string (z_State z)))]> c) ∅ (List_zones s).

(** The sum of [EstimateBytes] as a [uint64]. *)
Definition StoreBytes (s : Sys) : Z :=
  foldl (λ n z, match z_Store z with Some st => u64 (n + u64 (EstimateBytes st)) | None => n end) 0%Z (List_zones s).

(** [New] *)
Definition NewManager : Sys :=
  let s := mkSys [] ∅ 0 [] [] in
  let s := foldl (λ s z, AddZone s (zn_Name z) "config" (ResolveServers cfg (zn_Servers z)) (zn_TSIGKey z)) s (c_Zones cfg) in
  foldl (λ s c, AddZone s (ct_Name c) "catalog" (ResolveServers cfg (ct_Servers c)) (ct_TSIGKey c)) s (c_Catalogs cfg).

(** [go m.Refresh(ctx, z, full)] *)
Definition spawn (s : Sys) (loc : nat) (full : bool) : Sys :=
  mkSys (s_heap s) (s_zones s) (s_sem s) (s_jobs s ++ [mkJob loc full PcLock]) (s_log s).

(** [m.bus.Publish] by another component. *)
Definition publish (s : Sys) (evs : list Event) : Sys :=
  mkSys (s_heap s) (s_zones s) (s_sem s) (s_jobs s) (s_log s ++ evs).

(** A region that changes one runtime and publishes. *)
Definition put (s : Sys) (loc : nat) (z : ZoneRuntime) (evs : list Event) : Sys :=
  mkSys (<[loc := z]> (s_heap s)) (s_zones s) (s_sem s) (s_jobs s) (s_log s ++ evs).

Definition RequestRefresh (s : Sys) (name : string) (full : bool) : result Sys :=
  match Get s name with
  | None => Err ("unknown zone " +:+ name)
  | Some loc =>
      match s_heap s !! loc with
      | None => Err ("unknown zone " +:+ name)
      | Some z => Ok (spawn (if full then put s loc (with_Refresh z (z_Refreshing z) true) [] else s) loc full)
      end
  end.

(** ** Steps of refreshes *)

(** Between which points a refresh holds the lock of its zone, and a token. *)
Definition locked (pc : Pc) : bool := match pc with PcLock | PcDone => false | _ => true end.
Definition has_token (pc : Pc) : bool := match pc with PcLock | PcSem | PcUnlock | PcDone => false | _ => true end.

Definition job_step (s : Sys) (i : nat) (env : Env) : option Sys :=
  job ← s_jobs s !! i;
  z ← s_heap s !! j_loc job;
  let go (sem : nat) :=
    '(z, pc, evs) ← refresh_step cfg env (j_full job) z (j_pc job);
    Some (mkSys (<[j_loc job := z]> (s_heap s)) (s_zones s) sem (<[i := mkJob (j_loc job) (j_full job) pc]> (s_jobs s)) (s_log s ++ evs)) in
  match j_pc job with
  | PcSem => if bool_decide (s_sem s < sem_cap) then go (S (s_sem s)) else None
  | PcRelease => go (pred (s_sem s))
  | _ => go (s_sem s)
  end.

(** ** All steps *)

Inductive step (s : Sys) : Sys → Prop :=
| step_job i env s' : job_step s i env = Some s' → step s s'
| step_spawn loc full : loc < length (s_heap s) → step s (spawn s loc full)
| step_tick loc z now z' evs due : s_heap s !! loc = Some z → tick now z = (z', evs, due) →
    step s (if due then spawn (put s loc z' evs) loc false else put s loc z' evs)
| step_sweep loc z env z' evs : s_heap s !! loc = Some z → sweep cfg env z = (z', evs) → step s (put s loc z' evs)
| step_apply loc z now findings chainOK invalidate evs : s_heap s !! loc = Some z →
    step s (put s loc (ApplyFindings now z findings chainOK invalidate) evs)
| step_request name full s' : RequestRefresh s name full = Ok s' → step s s'
| step_add name source servers tsig : step s (AddZone s name source servers tsig)
| step_remove name : step s (RemoveZone s name)
| step_publish evs : step s (publish s evs).

(** The states the program can be in: it starts with runtimes in their first
    state (a restored date, findings and store make no difference) and no
    refresh. *)
Definition fresh_zone (z : ZoneRuntime) : Prop :=
  z_State z = StateUnknown ∧ z_History z = [] ∧ z_Refreshing z = false.

Record initial (s : Sys) : Prop := {
  in_jobs : s_jobs s = [];
  in_sem : s_sem s = 0;
  in_zones : Forall fresh_zone (s_heap s);
  in_map : ∀ name loc, s_zones s !! name = Some loc → loc < length (s_heap s)
}.

Inductive reachable : Sys → Prop :=
| reach_init s : initial s → reachable s
| reach_step s s' : reachable s → step s s' → reachable s'.

(** ** What a step does to a runtime *)

Implicit Types z : ZoneRuntime.

Definition transient (s : State) : bool := match s with StateTransferring | StateVerifying => true | _ => false end.
Definition last_state (h : list HistoryEntry) : State := default StateUnknown (hs_State <$> last h).

(** The history is the last 64 transitions to terminal states. *)
Definition hist_ok (z : ZoneRuntime) : Prop :=
  length (z_History z) ≤ 64 ∧ Forall (λ e, isTerminalState (hs_State e) = true) (z_History z).
(** The state is the one of the last transition. *)
Definition settled (z : ZoneRuntime) : Prop := z_State z = last_state (z_History z).

Lemma last_terminal_ok h :
  Forall (λ e, isTerminalState (hs_State e) = true) h → default StateUnknown (last_terminal h) = last_state h.
Proof.
  induction h as [|e h _] using rev_ind; intros Hall; [done|]. apply Forall_app in Hall as [_ He]. rewrite Forall_singleton in He.
  rewrite last_terminal_app. cbn [last_terminal]. rewrite He. unfold last_state. by rewrite last_snoc.
Qed.

Lemma lastTerminalState_settled z : hist_ok z → z_State z ≠ StateUnknown → settled z ∨ transient (z_State z) = true →
  lastTerminalState z = last_state (z_History z).
Proof.
  intros [_ Hh] Hu Hs. unfold lastTerminalState. rewrite <-(last_terminal_ok _ Hh). destruct (isTerminalState (z_State z)) eqn:E.
  - destruct Hs as [Hs|Hs]; [by rewrite (last_terminal_ok _ Hh)|]. by destruct (z_State z).
  - by destruct (last_terminal (z_History z)).
Qed.

Lemma setState_ok now z s serial mode method detail :
  isTerminalState s = true → hist_ok z →
  hist_ok (setState now z s serial mode method detail) ∧ settled (setState now z s serial mode method detail).
Proof.
  intros Hs [Hl Hh]. set (e := mkHistoryEntry now s serial mode method detail).
  assert (z_History (setState now z s serial mode method detail) = last_n 64 (z_History z ++ [e])) as HH by apply setState_History.
  assert (∃ q, last_n 64 (z_History z ++ [e]) = q ++ [e]) as [q Hq].
  { unfold last_n. rewrite length_app. cbn [length]. rewrite drop_app_le by lia. eauto. }
  destruct (last_n_suffix 64 (z_History z ++ [e])) as [p Hp]. split; [split|].
  - rewrite HH. unfold last_n. rewrite length_drop. lia.
  - rewrite HH. assert (Forall (λ e, isTerminalState (hs_State e) = true) (z_History z ++ [e])) as Hall
      by (apply Forall_app; split; [done|by apply Forall_singleton]).
    rewrite Hp in Hall. by apply Forall_app in Hall as [_ ?].
  - unfold settled. rewrite setState_State, HH, Hq. unfold last_state. by rewrite last_snoc.
Qed.

(** What the other goroutines may do to a runtime. *)
Record quiet (z z' : ZoneRuntime) : Prop := {
  qu_lock : z_Refreshing z' = z_Refreshing z;
  qu_store : z_Store z' = z_Store z;
  qu_hist : hist_ok z → hist_ok z';
  qu_settled : hist_ok z → settled z → settled z';
  qu_transient : hist_ok z → transient (z_State z) = true → settled z' ∨ transient (z_State z') = true
}.

(** A runtime that differs in other fields only. *)
Record same_state (z z' : ZoneRuntime) : Prop := {
  sm_lock : z_Refreshing z' = z_Refreshing z;
  sm_store : z_Store z' = z_Store z;
  sm_hist : z_History z' = z_History z;
  sm_state : z_State z' = z_State z
}.

Lemma same_quiet z z' : same_state z z' → quiet z z'.
Proof.
  intros []. split; [done|done|..]; unfold hist_ok, settled; congruence || (intros; right; congruence).
Qed.

Lemma same_trans z1 z2 z3 : same_state z1 z2 → same_state z2 z3 → same_state z1 z3.
Proof. intros [] []. split; congruence. Qed.

Lemma setState_store now z s serial mode method detail :
  z_Store (setState now z s serial mode method detail) = z_Store z ∧
  z_Refreshing (setState now z s serial mode method detail) = z_Refreshing z.
Proof. unfold setState. by destruct (_ || _). Qed.

Lemma quiet_setState now z s serial mode method detail :
  isTerminalState s = true → quiet z (setState now z s serial mode method detail).
Proof.
  intros Hs. destruct (setState_store now z s serial mode method detail) as [H1 H2].
  split; [done|done|..]; intros Hh; intros; try left; by apply setState_ok.
Qed.

Lemma quiet_trans z1 z2 z3 : quiet z1 z2 → quiet z2 z3 → quiet z1 z3.
Proof.
  intros Q12 Q23. split.
  - rewrite (qu_lock _ _ Q23). apply Q12.
  - rewrite (qu_store _ _ Q23). apply Q12.
  - intros H. by apply Q23, Q12.
  - intros Hh Hs. apply Q23; [by apply Q12|]. by apply (qu_settled _ _ Q12).
  - intros Hh Ht. pose proof (qu_hist _ _ Q12 Hh) as Hh2. destruct (qu_transient _ _ Q12 Hh Ht) as [Hs|Ht2].
    + left. by apply Q23.
    + by apply Q23.
Qed.

Lemma quiet_tick now z z' evs due : tick now z = (z', evs, due) → quiet z z'.
Proof.
  unfold tick. cbv zeta. set (z1 := if _ && _ then _ else z).
  assert (quiet z z1) as Q1.
  { unfold z1. destruct (negb (z_Refreshing z) && _) eqn:E; [|apply same_quiet; by split].
    apply andb_true_iff in E as [_ E]. assert (transient (z_State z) = true) as Ht.
    { apply orb_true_iff in E as [E|E]; apply bool_decide_eq_true in E; by rewrite E. }
    clear E. case_bool_decide as Hn; [|apply same_quiet; by split]. split; [done|done|done|..].
    - intros Hh Hs. unfold settled. cbn [z_State z_History with_State]. apply lastTerminalState_settled; [done| |by left].
      by destruct (z_State z).
    - intros Hh _. left. unfold settled. cbn [z_State z_History with_State]. apply lastTerminalState_settled; [done| |by right].
      by destruct (z_State z). }
  intros [= <- _ _]. eapply quiet_trans; [exact Q1|].
  destruct (negb (IsZero (z_ExpireAt z1)) && _ && _); [by apply quiet_setState|apply same_quiet; by split].
Qed.

Lemma quiet_sweep env z z' evs : sweep cfg env z = (z', evs) → quiet z z'.
Proof.
  unfold sweep. destruct (z_Store z) as [st|] eqn:Est; [|intros [= <- _]; apply same_quiet; by split].
  destruct (SweepExpiry _ _ _) as [fs opened]. cbv zeta.
  assert (quiet z (with_Findings z fs)) as Q1 by (apply same_quiet; by split).
  destruct (bool_decide (0 < opened)%Z && HasErrors fs && _); intros [= <- _]; [|done].
  eapply quiet_trans; [exact Q1|]. by apply quiet_setState.
Qed.

Lemma quiet_apply now z findings chainOK invalidate : quiet z (ApplyFindings now z findings chainOK invalidate).
Proof.
  unfold ApplyFindings. set (z1 := with_Findings z _). set (z2 := match chainOK with Some ok => _ | None => _ end).
  assert (quiet z z2) as Q by (apply same_quiet; unfold z2, z1; destruct chainOK; by split).
  destruct (invalidate && _); [|done]. eapply quiet_trans; [exact Q|]. by apply quiet_setState.
Qed.

Lemma quiet_request z b : quiet z (with_Refresh z (z_Refreshing z) b).
Proof. apply same_quiet; by split. Qed.

(** ** What a refresh does to its runtime *)

(** Between which points the state is transient. *)
Definition pc_transient (pc : Pc) : bool :=
  match pc with PcTransfer _ _ | PcReceived _ _ _ _ | PcVerify _ _ _ _ | PcVerified _ _ _ _ _ => true | _ => false end.

(** A refresh that goes by an old serial, or that has changes to apply, has a
    store to apply them to. *)
Definition job_ok (z : ZoneRuntime) (pc : Pc) : Prop :=
  match pc with
  | PcProbe _ _ old => old ≠ 0%Z → is_Some (z_Store z)
  | PcStats l | PcDecide l | PcTransfer l _ => l_oldSerial l ≠ 0%Z → is_Some (z_Store z)
  | PcReceived _ _ _ (Ok tres) => x_Store tres = None → is_Some (z_Store z)
  | _ => True
  end.

Lemma job_ok_store z z' pc : (is_Some (z_Store z) → is_Some (z_Store z')) → job_ok z pc → job_ok z' pc.
Proof. intros Hs. destruct pc as [| | | | | | | | |? ? ? [|]| | | | |]; simpl; auto. Qed.

Lemma same_hist z z' : same_state z z' → hist_ok z → hist_ok z'.
Proof. intros [_ _ H _]. unfold hist_ok. by rewrite H. Qed.
Lemma same_settled z z' : same_state z z' → settled z → settled z'.
Proof. intros [_ _ H1 H2]. unfold settled. by rewrite H1, H2. Qed.

Lemma schedule_same now rand z c refresh retry failed : same_state z (schedule now rand z c refresh retry failed).
Proof. by split. Qed.
Lemma applyZONEMD_same now z st vres : same_state z (applyZONEMDResult now z st vres).
Proof. unfold applyZONEMDResult. destruct (r_ZONEMDChecked vres); [by split|]. destruct (_ && _); by split. Qed.
Lemma detectSkew_same now z stats : same_state z (detectSkew cfg now z stats).1.
Proof.
  unfold detectSkew. destruct (ss_Serial <$> _) as [|s [|s2 ss]]; try by split.
  destruct (bool_decide (_ ≤ _)%Z); [by split|]. cbv zeta.
  destruct (IsZero (z_SkewSince z)), (bool_decide (_ ≤ _)%Z); by split.
Qed.
Lemma newState_terminal vres : isTerminalState (newState vres) = true.
Proof. unfold newState. destruct (r_Unsigned vres); [done|]. by destruct (r_Valid vres). Qed.

(** A transition to a terminal state and a new date for the next look. *)
Lemma finish_ok now rand c refresh retry failed z s serial mode method detail :
  isTerminalState s = true → hist_ok z →
  let z' := schedule now rand (setState now z s serial mode method detail) c refresh retry failed in
  hist_ok z' ∧ settled z'.
Proof.
  intros Hs Hh. cbv zeta. destruct (setState_ok now z s serial mode method detail Hs Hh) as [H1 H2].
  split; [eapply same_hist|eapply same_settled]; try done; apply schedule_same.
Qed.

Lemma finish_store now rand c refresh retry failed z s serial mode method detail :
  let z' := schedule now rand (setState now z s serial mode method detail) c refresh retry failed in
  z_Store z' = z_Store z ∧ z_Refreshing z' = z_Refreshing z.
Proof. cbv zeta. cbn [schedule z_Store z_Refreshing with_NextRefresh]. apply setState_store. Qed.

Lemma AXFR_store (N : Net) zname srv tsig timeout now r : AXFR cfg zname srv tsig timeout now = Ok r → is_Some (x_Store r).
Proof.
  unfold AXFR. cbv zeta. destruct (net_In _ _) as [ch|]; [|done]. destruct (axfr_loop _ _ _ _ _) as [[st n]|]; [|done].
  cbn [mbind result_bind]. intros [= <-]. by eexists.
Qed.

Lemma transfer_store env z full l best method tres :
  transfer cfg env z full l best = (method, Ok tres) → x_Store tres = None → l_oldSerial l ≠ 0%Z.
Proof.
  unfold transfer. cbv zeta. destruct (negb full && _ && _) eqn:E.
  - apply andb_true_iff in E as [E _]. apply andb_true_iff in E as [_ E%negb_true_iff%bool_decide_eq_false]. done.
  - intros [= _ Ha] Hn. apply AXFR_store in Ha as [? Ha]. congruence.
Qed.

(** The outcome of a region, for the invariant. *)
Record region_ok (z z' : ZoneRuntime) (pc' : Pc) : Prop := {
  ro_hist : hist_ok z';
  ro_state : settled z' ∨ transient (z_State z') = true ∧ pc_transient pc' = true;
  ro_job : job_ok z' pc';
  ro_store : is_Some (z_Store z) → is_Some (z_Store z')
}.

Lemma decide_ok env z full l z' pc' evs :
  hist_ok z → settled z → job_ok z (PcDecide l) → decide_step cfg env z full l = (z', pc', evs) → region_ok z z' pc'.
Proof.
  intros Hh Hs Hj. unfold decide_step. destruct (l_best l) as [best|].
  2:{ intros [= <- <- _]. destruct (finish_ok (e_now env) (e_rand env) (c_Refresh cfg) 0 60 true z StateTransferFailed (l_oldSerial l) "" "" "all servers unreachable" eq_refl Hh).
      split; [done|by left|done|]. by rewrite (proj1 (finish_store _ _ _ _ _ _ z _ _ _ _ _)). }
  destruct (_ && negb full).
  - assert (region_ok z (schedule (e_now env) (e_rand env)
      (if bool_decide (lastTerminalState (with_LastTransfer z (e_now env)) ≠ z_State (with_LastTransfer z (e_now env)))
       then with_State (with_LastTransfer z (e_now env)) (lastTerminalState (with_LastTransfer z (e_now env)))
       else with_LastTransfer z (e_now env)) (c_Refresh cfg) (sr_Refresh best) (sr_Retry best) false) PcRelease) as Hun.
    { set (z1 := with_LastTransfer z (e_now env)). assert (same_state z z1) as S1 by by split.
      assert (hist_ok z1 ∧ settled z1) as [Hh1 Hs1] by (split; [by eapply same_hist|by eapply same_settled]).
      assert (hist_ok (with_State z1 (lastTerminalState z1)) ∧ (lastTerminalState z1 ≠ z_State z1 → settled (with_State z1 (lastTerminalState z1)))) as [Hh2 Hs2].
      { split; [done|]. intros Hn. unfold settled. cbn [z_State z_History with_State]. apply lastTerminalState_settled; [done| |by left].
        intros Hu. apply Hn. unfold lastTerminalState. destruct Hh1 as [_ Hh1]. unfold settled in Hs1. rewrite Hu in *. cbn [isTerminalState].
        pose proof (last_terminal_ok _ Hh1) as Hl. rewrite <-Hs1 in Hl. unfold default in Hl. by destruct (last_terminal _). }
      split.
      - eapply same_hist; [apply schedule_same|]. by destruct (bool_decide _).
      - left. eapply same_settled; [apply schedule_same|]. case_bool_decide; auto.
      - done.
      - cbn [schedule z_Store with_NextRefresh]. by destruct (bool_decide _). }
    destruct (z_Store z) as [store|] eqn:Est; [destruct (zonemdMaxAgeDue _ _ _ _)|]; intros [= <- <- _]; try exact Hun.
    split; [done|by left|done|]. by rewrite Est.
  - intros [= <- <- _]. split; [done|by right|done|done].
Qed.

Lemma checked_ok env z best store vres z' pc' evs :
  hist_ok z → checked_step cfg env z best store vres = (z', pc', evs) → region_ok z z' pc'.
Proof.
  intros Hh. unfold checked_step. cbv zeta. intros [= <- <- _].
  set (z1 := applyZONEMDResult _ _ _ _).
  assert (same_state z z1) as S1 by (eapply same_trans; [|apply applyZONEMD_same]; by split).
  destruct (finish_ok (e_now env) (e_rand env) (c_Refresh cfg) (sr_Refresh best) (sr_Retry best) false z1 (newState vres)
    (st_serial store) (r_Mode vres) "soa" "zonemd_max_age" (newState_terminal vres) (same_hist _ _ S1 Hh)) as [H1 H2].
  split; [done|by left|done|]. rewrite (proj1 (finish_store _ _ _ _ _ _ z1 _ _ _ _ _)). by rewrite (sm_store _ _ S1).
Qed.

Lemma verified_ok env z best tres store vres shared z' pc' evs :
  hist_ok z → verified_step cfg env z best tres store vres shared = (z', pc', evs) → region_ok z z' pc'.
Proof.
  intros Hh. unfold verified_step. cbv zeta. intros [= <- <- _].
  set (z0 := if shared then z else _). set (z1 := applyZONEMDResult _ _ _ _).
  assert (same_state z z1) as S1 by (eapply same_trans; [|apply applyZONEMD_same]; destruct shared; by split).
  destruct (finish_ok (e_now env) (e_rand env) (c_Refresh cfg) (sr_Refresh best) (sr_Retry best) false z1 (newState vres)
    (st_serial store) (r_Mode vres) (x_Method tres) "" (newState_terminal vres) (same_hist _ _ S1 Hh)) as [H1 H2].
  split; [done|by left|done|]. rewrite (proj1 (finish_store _ _ _ _ _ _ z1 _ _ _ _ _)). by rewrite (sm_store _ _ S1).
Qed.

Lemma received_ok env z l best method tres z' pc' evs :
  hist_ok z → job_ok z (PcReceived l best method tres) → received_step cfg env z l best method tres = (z', pc', evs) → region_ok z z' pc'.
Proof.
  intros Hh Hj. unfold received_step. destruct tres as [tres|err].
  2:{ intros [= <- <- _]. destruct (finish_ok (e_now env) (e_rand env) (c_Refresh cfg) (sr_Refresh best) (sr_Retry best) true z StateTransferFailed
        (l_oldSerial l) "" method err eq_refl Hh).
      split; [done|by left|done|]. by rewrite (proj1 (finish_store _ _ _ _ _ _ z _ _ _ _ _)). }
  cbv zeta. set (z1 := with_LastMethod _ _). assert (z_Store z1 = z_Store z) as Hst by done.
  assert (hist_ok z1) as Hh1 by done. destruct (received_store z1 tres) as [[[st touched] [err|]]|] eqn:Er.
  - intros [= <- <- _]. set (z2 := with_Store z1 (Some st)).
    destruct (setState_ok (e_now env) z2 StateInvalid (l_oldSerial l) "" "ixfr" "apply failed" eq_refl Hh1) as [H1 H2].
    split; [done|by left|done|]. intros _. cbn [z_Store with_Findings].
    rewrite (proj1 (setState_store (e_now env) z2 StateInvalid (l_oldSerial l) "" "ixfr" "apply failed")). by eexists.
  - intros [= <- <- _]. split; destruct (SOA st ≫= as_SOA); try done; by right.
  - exfalso. unfold received_store in Er. simpl in Hj. destruct (x_Store tres); [done|].
    destruct (Hj eq_refl) as [st Hs]. rewrite Hst, Hs in Er. cbn [mbind option_bind] in Er. by destruct (ApplyChanges _ _ _) as [[? ?] ?].
Qed.

Lemma verify_ok env z full best tres store touched z' pc' evs :
  hist_ok z → settled z ∨ transient (z_State z) = true →
  verify_step cfg env z full best tres store touched = Some (z', pc', evs) → region_ok z z' pc'.
Proof.
  intros Hh Hs. unfold verify_step. destruct (verify_full _ _ _ _ _ _ _).
  - destruct (Full _ _ _) as [vres|]; [|done]. intros [= <- <- _]. split; [done|naive_solver|done|done].
  - destruct (Incremental _ _ _ _ _) as [vres|]; [|done]. intros [= <- <- _].
    destruct (incr_shared store touched); (split; [done|naive_solver|done|done]).
Qed.

Lemma refresh_step_ok env full z pc z' pc' evs :
  hist_ok z → settled z ∨ transient (z_State z) = true ∧ pc_transient pc = true → job_ok z pc →
  refresh_step cfg env full z pc = Some (z', pc', evs) → region_ok z z' pc'.
Proof.
  intros Hh Hs Hj.
  assert (settled z → ∀ z1 pc1, same_state z z1 → job_ok z1 pc1 → region_ok z z1 pc1) as Hsame.
  { intros Hset z1 pc1 S1 J1. split; [by eapply same_hist|left; by eapply same_settled|done|]. by rewrite (sm_store _ _ S1). }
  destruct pc; cbn [refresh_step]; cbn [pc_transient] in Hs.
  - destruct Hs as [Hs|[_ ?]]; [|done]. unfold TryLockRefresh. destruct (z_Refreshing z); intros [= <- <- _]; (split; [done|by left|done|done]).
  - destruct Hs as [Hs|[_ ?]]; [|done]. intros [= <- <- _]. by apply Hsame.
  - destruct Hs as [Hs|[_ ?]]; [|done]. intros [= <- <- _]. apply Hsame; [done|by split|]. simpl. unfold store_serial.
    destruct (z_Store z); [by eexists|done].
  - destruct Hs as [Hs|[_ ?]]; [|done]. destruct (probe_loop _ _ _ _ _ _ _). intros [= <- <- _]. by apply Hsame.
  - destruct Hs as [Hs|[_ ?]]; [|done].
    pose proof (detectSkew_same (e_now env) (with_ServersStat z (l_stats l)) (l_stats l)) as Hd.
    destruct (detectSkew _ _ _ _) as [z1 evs1]. intros [= <- <- _]. cbn [fst] in Hd.
    assert (same_state z z1) as S1 by (destruct Hd; by split).
    apply Hsame; [done..|]. simpl in Hj |- *. by rewrite (sm_store _ _ S1).
  - destruct Hs as [Hs|[_ ?]]; [|done]. intros Hd%(inj Some). by eapply decide_ok.
  - destruct Hs as [Hs|[_ ?]]; [|done]. destruct (Full _ _ _); [|done]. intros [= <- <- _]. by apply Hsame.
  - intros Hd%(inj Some). by eapply checked_ok.
  - destruct (transfer _ _ _ _ _ _) as [method tres] eqn:Et. intros [= <- <- _]. split; [done|naive_solver| |done].
    simpl. destruct tres as [tres|]; [|done]. intros Hn. apply Hj. by eapply transfer_store.
  - intros Hd%(inj Some). by eapply received_ok.
  - intros Hd. eapply verify_ok; [done| |exact Hd]. naive_solver.
  - intros Hd%(inj Some). by eapply verified_ok.
  - destruct Hs as [Hs|[_ ?]]; [|done]. intros [= <- <- _]. by apply Hsame.
  - destruct Hs as [Hs|[_ ?]]; [|done]. intros [= <- <- _]. split; [done|by left|done|done].
  - done.
Qed.

(** The lock and the token of a refresh, region by region. *)
Lemma decide_lock env z full l z' pc' evs :
  decide_step cfg env z full l = (z', pc', evs) → z_Refreshing z' = z_Refreshing z ∧ locked pc' = true ∧ has_token pc' = true.
Proof.
  unfold decide_step. destruct (l_best l) as [best|].
  2:{ intros [= <- <- _]. by rewrite (proj2 (finish_store _ _ _ _ _ _ z _ _ _ _ _)). }
  destruct (_ && negb full); [|by intros [= <- <- _]].
  destruct (z_Store z) as [store|]; [destruct (zonemdMaxAgeDue _ _ _ _)|]; intros [= <- <- _]; try done;
    cbn [schedule z_Refreshing with_NextRefresh]; by destruct (bool_decide _).
Qed.

Lemma received_lock env z l best method tres z' pc' evs :
  received_step cfg env z l best method tres = (z', pc', evs) → z_Refreshing z' = z_Refreshing z ∧ locked pc' = true ∧ has_token pc' = true.
Proof.
  unfold received_step. destruct tres as [tres|err].
  2:{ intros [= <- <- _]. by rewrite (proj2 (finish_store _ _ _ _ _ _ z _ _ _ _ _)). }
  cbv zeta. destruct (received_store _ _) as [[[st touched] [err|]]|]; intros [= <- <- _]; [| |done].
  - cbn [z_Refreshing with_Findings]. by rewrite (proj2 (setState_store _ _ _ _ _ _ _)).
  - by destruct (SOA st ≫= as_SOA).
Qed.

Lemma checked_lock env z best store vres z' pc' evs :
  checked_step cfg env z best store vres = (z', pc', evs) → z_Refreshing z' = z_Refreshing z ∧ pc' = PcRelease.
Proof.
  unfold checked_step. cbv zeta. intros [= <- <- _]. rewrite (proj2 (finish_store _ _ _ _ _ _ _ _ _ _ _ _)). split; [|done].
  rewrite (sm_lock _ _ (applyZONEMD_same _ _ _ _)). done.
Qed.

Lemma verified_lock env z best tres store vres shared z' pc' evs :
  verified_step cfg env z best tres store vres shared = (z', pc', evs) → z_Refreshing z' = z_Refreshing z ∧ pc' = PcRelease.
Proof.
  unfold verified_step. cbv zeta. intros [= <- <- _]. rewrite (proj2 (finish_store _ _ _ _ _ _ _ _ _ _ _ _)). split; [|done].
  rewrite (sm_lock _ _ (applyZONEMD_same _ _ _ _)). by destruct shared.
Qed.

Lemma refresh_step_lock env full z pc z' pc' evs :
  refresh_step cfg env full z pc = Some (z', pc', evs) →
  match pc with
  | PcLock => if z_Refreshing z then z' = z ∧ pc' = PcDone else z_Refreshing z' = true ∧ pc' = PcSem
  | PcSem => z' = z ∧ pc' = PcRead
  | PcRelease => z' = z ∧ pc' = PcUnlock
  | PcUnlock => z_Refreshing z' = false ∧ pc' = PcDone
  | PcDone => False
  | _ => z_Refreshing z' = z_Refreshing z ∧ locked pc' = true ∧ has_token pc' = true
  end.
Proof.
  destruct pc; cbn [refresh_step].
  - unfold TryLockRefresh. destruct (z_Refreshing z); by intros [= <- <- _].
  - by intros [= <- <- _].
  - by intros [= <- <- _].
  - destruct (probe_loop _ _ _ _ _ _ _). by intros [= <- <- _].
  - pose proof (detectSkew_same (e_now env) (with_ServersStat z (l_stats l)) (l_stats l)) as Hd.
    destruct (detectSkew _ _ _ _) as [z1 evs1]. intros [= <- <- _]. cbn [fst] in Hd. by rewrite (sm_lock _ _ Hd).
  - intros Hd%(inj Some). by eapply decide_lock.
  - destruct (Full _ _ _); [|done]. by intros [= <- <- _].
  - intros Hd%(inj Some). apply checked_lock in Hd as [-> ->]. done.
  - destruct (transfer _ _ _ _ _ _). by intros [= <- <- _].
  - intros Hd%(inj Some). by eapply received_lock.
  - unfold verify_step. destruct (verify_full _ _ _ _ _ _ _).
    + destruct (Full _ _ _); [|done]. by intros [= <- <- _].
    + destruct (Incremental _ _ _ _ _); [|done]. intros [= <- <- _]. by destruct (incr_shared _ _).
  - intros Hd%(inj Some). apply verified_lock in Hd as [-> ->]. done.
  - by intros [= <- <- _].
  - by intros [= <- <- _].
  - done.
Qed.

(** ** The invariant *)

Definition holds_lock (loc : nat) (j : Job) : bool := bool_decide (j_loc j = loc) && locked (j_pc j).
Definition holds_token (j : Job) : bool := has_token (j_pc j).

Record inv (s : Sys) : Prop := {
  iv_map : ∀ name loc, s_zones s !! name = Some loc → loc < length (s_heap s);
  iv_jobs : ∀ i j, s_jobs s !! i = Some j → j_loc j < length (s_heap s);
  iv_lock : ∀ loc z, s_heap s !! loc = Some z → count (holds_lock loc) (s_jobs s) = if z_Refreshing z then 1 else 0;
  iv_sem : s_sem s = count holds_token (s_jobs s) ∧ s_sem s ≤ sem_cap;
  iv_hist : ∀ loc z, s_heap s !! loc = Some z → hist_ok z;
  iv_state : ∀ loc z, s_heap s !! loc = Some z →
    settled z ∨ transient (z_State z) = true ∧ ∃ i j, s_jobs s !! i = Some j ∧ j_loc j = loc ∧ pc_transient (j_pc j) = true;
  iv_job : ∀ i j z, s_jobs s !! i = Some j → s_heap s !! j_loc j = Some z → job_ok z (j_pc j)
}.

Lemma initial_inv s : initial s → inv s.
Proof.
  intros [Hj Hs Hz Hm]. rewrite Forall_lookup in Hz. split; try done.
  - intros i j. by rewrite Hj.
  - intros loc z Hl. destruct (Hz loc z Hl) as (_ & _ & ->). by rewrite Hj.
  - rewrite Hs, Hj. split; [done|]. lia.
  - intros loc z Hl. destruct (Hz loc z Hl) as (_ & Hh & _). unfold hist_ok. rewrite Hh. split; [simpl; lia|done].
  - intros loc z Hl. destruct (Hz loc z Hl) as (Hst & Hh & _). left. unfold settled. by rewrite Hst, Hh.
  - intros i j z. by rewrite Hj.
Qed.

(** A quiet region of another goroutine. *)
Lemma put_inv s loc z z' evs : inv s → s_heap s !! loc = Some z → quiet z z' → inv (put s loc z' evs).
Proof.
  intros [Im Ij Il Is Ih It Io] Hz Q. assert (loc < length (s_heap s)) as Hlt by by eapply lookup_lt_Some.
  assert (∀ l x, <[loc := z']> (s_heap s) !! l = Some x → (l = loc ∧ x = z') ∨ s_heap s !! l = Some x) as Hup.
  { intros l x Hl. destruct (decide (l = loc)) as [->|Hne].
    - rewrite list_lookup_insert_eq in Hl by done. injection Hl as <-. auto.
    - rewrite list_lookup_insert_ne in Hl by done. auto. }
  split; unfold put; cbn [s_heap s_zones s_sem s_jobs].
  - intros. rewrite length_insert. eauto.
  - intros. rewrite length_insert. eauto.
  - intros l x [[-> ->]|Hl]%Hup; [rewrite (qu_lock _ _ Q)|]; by apply Il.
  - done.
  - intros l x [[-> ->]|Hl]%Hup; [apply Q|]; by eapply Ih.
  - intros l x [[-> ->]|Hl]%Hup; [|by apply It].
    destruct (It loc z Hz) as [Hs|[Ht Hex]].
    + left. apply (qu_settled _ _ Q); [by eapply Ih|done].
    + destruct (qu_transient _ _ Q (Ih _ _ Hz) Ht); auto.
  - intros i j x Hi [[E ->]|Hl]%Hup; [|by eapply Io].
    apply (job_ok_store z); [by rewrite (qu_store _ _ Q)|]. apply (Io i j z Hi). by rewrite E.
Qed.

Lemma spawn_inv s loc full : inv s → loc < length (s_heap s) → inv (spawn s loc full).
Proof.
  intros [Im Ij Il Is Ih It Io] Hlt.
  assert (∀ i j, (s_jobs s ++ [mkJob loc full PcLock]) !! i = Some j → s_jobs s !! i = Some j ∨ j = mkJob loc full PcLock) as Hup.
  { intros i j [Hi|[_ Hi]]%lookup_app_Some; [by left|]. right. by apply list_lookup_singleton_Some in Hi as [_ <-]. }
  split; unfold spawn; cbn [s_heap s_zones s_sem s_jobs]; try done.
  - intros i j [Hi| ->]%Hup; [by eapply Ij|done].
  - intros l z Hz. rewrite count_app, (Il l z Hz). rewrite count_cons. unfold holds_lock, count at 1. cbn [j_loc j_pc locked].
    rewrite andb_false_r. simpl. lia.
  - rewrite count_app. rewrite (proj1 Is) at 1. unfold count at 3. simpl. split; [lia|apply Is].
  - intros l z Hz. destruct (It l z Hz) as [Hs|(Ht & i & j & Hi & Hj)]; [by left|]. right. split; [done|].
    exists i, j. split; [|done]. apply lookup_app_Some. by left.
  - intros i j z [Hi| ->]%Hup; [by eapply Io|done].
Qed.

Lemma add_inv s name source servers tsig : inv s → inv (AddZone s name source servers tsig).
Proof.
  intros Hinv. assert (inv (mkSys (s_heap s ++ [NewZone (Canonical name) source servers tsig])
    (<[Canonical name := length (s_heap s)]> (s_zones s)) (s_sem s) (s_jobs s) (s_log s))) as H.
  { destruct Hinv as [Im Ij Il Is Ih It Io].
    assert (∀ l x, (s_heap s ++ [NewZone (Canonical name) source servers tsig]) !! l = Some x →
      s_heap s !! l = Some x ∨ (l = length (s_heap s) ∧ x = NewZone (Canonical name) source servers tsig)) as Hup.
    { intros l x [Hl|[Hle Hl]]%lookup_app_Some; [by left|]. right. apply list_lookup_singleton_Some in Hl as [Hl <-]. split; [lia|done]. }
    split; cbn [s_heap s_zones s_sem s_jobs]; try done.
    - intros n l. rewrite length_app. simpl. destruct (decide (n = Canonical name)) as [->|Hne].
      + rewrite lookup_insert_eq. intros [= <-]. lia.
      + rewrite lookup_insert_ne by done. intros Hl%Im. lia.
    - intros i j Hi%Ij. rewrite length_app. lia.
    - intros l x [Hl|[-> ->]]%Hup; [by apply Il|]. cbn [z_Refreshing NewZone]. apply Nat.le_0_r, Nat.nlt_ge.
      intros (i & j & Hi & Hj)%count_pos. apply Ij in Hi. unfold holds_lock in Hj.
      apply andb_true_iff in Hj as [Hj%bool_decide_eq_true _]. lia.
    - intros l x [Hl|[-> ->]]%Hup; [by eapply Ih|]. split; [simpl; lia|done].
    - intros l x [Hl|[-> ->]]%Hup; [by eapply It|]. by left.
    - intros i j x Hi [Hl|[Hl _]]%Hup; [by eapply Io|]. apply Ij in Hi. lia. }
  unfold AddZone. destruct (_ ≫= _) as [existing|]; [destruct (bool_decide _)|]; done.
Qed.

Lemma remove_inv s name : inv s → inv (RemoveZone s name).
Proof.
  intros [Im Ij Il Is Ih It Io]. split; unfold RemoveZone; cbn [s_heap s_zones s_sem s_jobs]; try done.
  intros n l [_ Hl]%lookup_delete_Some. eauto.
Qed.

(** ** Steps of refreshes keep the invariant *)

(** What [job_step] does. *)
Lemma job_step_inv s i env s' :
  job_step s i env = Some s' →
  ∃ job z z' pc' evs, s_jobs s !! i = Some job ∧ s_heap s !! j_loc job = Some z ∧
    refresh_step cfg env (j_full job) z (j_pc job) = Some (z', pc', evs) ∧
    s_heap s' = <[j_loc job := z']> (s_heap s) ∧ s_zones s' = s_zones s ∧
    s_jobs s' = <[i := mkJob (j_loc job) (j_full job) pc']> (s_jobs s) ∧
    match j_pc job with
    | PcSem => s_sem s < sem_cap ∧ s_sem s' = S (s_sem s)
    | PcRelease => s_sem s' = pred (s_sem s)
    | _ => s_sem s' = s_sem s
    end.
Proof.
  unfold job_step. destruct (s_jobs s !! i) as [job|] eqn:Hi; [|done]. cbn [mbind option_bind].
  destruct (s_heap s !! j_loc job) as [z|] eqn:Hz; [|done]. cbn [mbind option_bind].
  destruct (j_pc job) eqn:Hpc;
    try (destruct (refresh_step _ _ _ _ _) as [[[z' pc'] evs]|] eqn:E; [|done]; intros [= <-];
         exists job, z, z', pc', evs; rewrite Hpc; split_and!; done).
  case_bool_decide as Hs; [|done]. destruct (refresh_step _ _ _ _ _) as [[[z' pc'] evs]|] eqn:E; [|done]; intros [= <-].
  exists job, z, z', pc', evs. rewrite Hpc. split_and!; done.
Qed.

Lemma transient_locked pc : pc_transient pc = true → locked pc = true.
Proof. by destruct pc. Qed.

(** At most one refresh is past the lock of a runtime. *)
Lemma one_locked s loc z i j ji jj :
  inv s → s_heap s !! loc = Some z → s_jobs s !! i = Some ji → s_jobs s !! j = Some jj →
  j_loc ji = loc → j_loc jj = loc → locked (j_pc ji) = true → locked (j_pc jj) = true → i = j ∧ z_Refreshing z = true.
Proof.
  intros Hinv Hz Hi Hj Li Lj Ki Kj. pose proof (iv_lock _ Hinv _ _ Hz) as Hc.
  assert (holds_lock loc ji = true) as Hhi by (unfold holds_lock; rewrite Ki, bool_decide_true; done).
  assert (holds_lock loc jj = true) as Hhj by (unfold holds_lock; rewrite Kj, bool_decide_true; done).
  assert (0 < count (holds_lock loc) (s_jobs s)) as Hpos by (apply count_pos; eauto).
  split; [|by destruct (z_Refreshing z); [|lia]].
  destruct (decide (i = j)) as [|Hne]; [done|]. pose proof (count_two _ _ i j ji jj Hne Hi Hj Hhi Hhj).
  destruct (z_Refreshing z); lia.
Qed.

(** The state a refresh finds. *)
Lemma job_state s i job z :
  inv s → s_jobs s !! i = Some job → s_heap s !! j_loc job = Some z →
  locked (j_pc job) = true ∨ z_Refreshing z = false →
  settled z ∨ transient (z_State z) = true ∧ pc_transient (j_pc job) = true.
Proof.
  intros Hinv Hi Hz Hl. destruct (iv_state _ Hinv _ _ Hz) as [?|(Ht & k & jk & Hk & Lk & Tk)]; [by left|]. right. split; [done|].
  destruct Hl as [Hl|Hl].
  - destruct (one_locked s _ z i k job jk Hinv Hz Hi Hk eq_refl Lk Hl (transient_locked _ Tk)) as [<- _]. congruence.
  - destruct (one_locked s _ z k k jk jk Hinv Hz Hk Hk Lk Lk (transient_locked _ Tk) (transient_locked _ Tk)) as [_ ?]. congruence.
Qed.

Lemma job_inv s i env s' : inv s → job_step s i env = Some s' → inv s'.
Proof.
  intros Hinv (job & z & z' & pc' & evs & Hi & Hz & Hstep & Eh & Ez & Ej & Es)%job_step_inv.
  set (loc := j_loc job) in *. set (job' := mkJob loc (j_full job) pc') in *.
  assert (loc < length (s_heap s)) as Hlt by by eapply lookup_lt_Some.
  pose proof (refresh_step_lock _ _ _ _ _ _ _ Hstep) as HL.
  pose proof (iv_hist _ Hinv _ _ Hz) as Hh. pose proof (iv_job _ Hinv _ _ _ Hi Hz) as Hj.
  pose proof (iv_lock _ Hinv _ _ Hz) as Hcnt.
  (* the region keeps the runtime in order, unless it fails to get the lock *)
  assert (region_ok z z' pc' ∨ (z' = z ∧ pc' = PcDone ∧ j_pc job = PcLock)) as Hreg.
  { destruct (decide (locked (j_pc job) = true ∨ z_Refreshing z = false)) as [Hl|Hl].
    - left. eapply refresh_step_ok; [done| |done|exact Hstep]. by eapply job_state.
    - right. destruct (j_pc job); try (destruct Hl; by left).
      destruct (z_Refreshing z); [|destruct Hl; by right]. by destruct HL as [-> ->]. }
  assert (is_Some (z_Store z) → is_Some (z_Store z')) as Hstore by (destruct Hreg as [[]|(-> & _)]; done).
  assert (∀ l x, s_heap s' !! l = Some x → (l = loc ∧ x = z') ∨ (l ≠ loc ∧ s_heap s !! l = Some x)) as Hup.
  { intros l x. rewrite Eh. destruct (decide (l = loc)) as [->|Hne].
    - rewrite list_lookup_insert_eq by done. intros [= <-]. by left.
    - rewrite list_lookup_insert_ne by done. by right. }
  assert (∀ k j, s_jobs s' !! k = Some j → (k = i ∧ j = job') ∨ (k ≠ i ∧ s_jobs s !! k = Some j)) as Hjup.
  { intros k j. rewrite Ej. destruct (decide (k = i)) as [->|Hne].
    - rewrite list_lookup_insert_eq by by eapply lookup_lt_Some. intros [= <-]. by left.
    - rewrite list_lookup_insert_ne by done. by right. }
  assert (∀ k j, k ≠ i → s_jobs s !! k = Some j → s_jobs s' !! k = Some j) as Hjkeep
    by (intros k j Hne Hk; rewrite Ej, list_lookup_insert_ne; done).
  split.
  - intros n l. rewrite Ez, Eh, length_insert. apply Hinv.
  - intros k j [[-> ->]|[_ Hk]]%Hjup; rewrite Eh, length_insert; [done|]. by eapply iv_jobs.
  - intros l x Hx. rewrite Ej. apply Hup in Hx as [[-> ->]|[Hne Hl]].
    + pose proof (count_insert (holds_lock loc) _ i job job' Hi) as Hci.
      assert (holds_lock loc job = locked (j_pc job)) as E1 by (unfold holds_lock; rewrite bool_decide_true; done).
      assert (holds_lock loc job' = locked pc') as E2 by (unfold holds_lock; rewrite bool_decide_true; done).
      rewrite E1, E2, Hcnt in Hci. destruct (j_pc job); cbn [locked] in *;
        try (destruct HL as (HR & HK & _); rewrite HK in Hci; rewrite HR; lia);
        try (destruct HL as [-> ->]; cbn [locked] in *; lia).
      * destruct (z_Refreshing z) eqn:ER; destruct HL as [HR ->]; [subst z'; rewrite ER|rewrite HR]; cbn [locked] in *; lia.
      * destruct HL as [HR ->]. rewrite HR. cbn [locked] in *. destruct (z_Refreshing z); lia.
      * done.
    + pose proof (count_insert (holds_lock l) _ i job job' Hi) as Hci.
      assert (holds_lock l job = false ∧ holds_lock l job' = false) as [E1 E2]
        by (unfold holds_lock, job'; cbn [j_loc]; rewrite !bool_decide_false by (intros <-; by apply Hne); done).
      rewrite E1, E2 in Hci. pose proof (iv_lock _ Hinv _ _ Hl). lia.
  - destruct (iv_sem _ Hinv) as [Hs Hcap]. rewrite Ej.
    pose proof (count_insert holds_token _ i job job' Hi) as Hci. unfold holds_token at 2 4 in Hci. cbn [j_pc job'] in Hci.
    destruct (j_pc job); cbn [has_token] in *;
      try (destruct HL as (_ & _ & HT); rewrite HT in Hci; rewrite Es; lia).
    + destruct (z_Refreshing z); destruct HL as [_ ->]; cbn [has_token] in *; rewrite Es; lia.
    + destruct HL as [_ ->]. cbn [has_token] in *. destruct Es as [? ->]. lia.
    + destruct HL as [_ ->]. cbn [has_token] in *. rewrite Es. lia.
    + destruct HL as [_ ->]. cbn [has_token] in *. rewrite Es. lia.
    + done.
  - intros l x [[-> ->]|[_ Hl]]%Hup; [|by eapply iv_hist]. by destruct Hreg as [[]|(-> & _)].
  - intros l x [[-> ->]|[Hne Hl]]%Hup.
    + destruct Hreg as [[_ [Hs|[Ht Hp]] _ _]|(-> & -> & Hpc)]; [by left| |].
      * right. split; [done|]. exists i, job'. split; [|done]. rewrite Ej. by apply list_lookup_insert_eq, (lookup_lt_Some _ _ job).
      * destruct (iv_state _ Hinv _ _ Hz) as [?|(Ht & k & jk & Hk & Lk & Tk)]; [by left|]. right. split; [done|].
        exists k, jk. split; [|done]. apply Hjkeep; [|done]. intros ->. rewrite Hi in Hk. injection Hk as <-. by rewrite Hpc in Tk.
    + destruct (iv_state _ Hinv _ _ Hl) as [?|(Ht & k & jk & Hk & Lk & Tk)]; [by left|]. right. split; [done|].
      exists k, jk. split; [|done]. apply Hjkeep; [|done]. intros ->. rewrite Hi in Hk. injection Hk as <-. done.
  - intros k j x [[-> ->]|[Hne Hk]]%Hjup Hx.
    + cbn [j_loc job' j_pc] in *. apply Hup in Hx as [[_ ->]|[? _]]; [|done]. by destruct Hreg as [[]|(_ & -> & _)].
    + apply Hup in Hx as [[El ->]|[_ Hx]]; [|by eapply iv_job]. apply (job_ok_store z); [done|].
      apply (iv_job _ Hinv _ _ _ Hk). by rewrite El.
Qed.

Lemma step_inv s s' : inv s → step s s' → inv s'.
Proof.
  intros Hinv Hstep. destruct Hstep as [i env s' Hj|loc full Hl|loc z now z' evs due Hz Ht|loc z env z' evs Hz Hs|loc z now fs ok b evs Hz|name full s' Hr|name src srv tsig|name|evs].
  - by eapply job_inv.
  - by apply spawn_inv.
  - assert (inv (put s loc z' evs)) as Hp by (eapply put_inv; [done..|]; by eapply quiet_tick).
    destruct due; [|done]. apply spawn_inv; [done|]. unfold put. cbn [s_heap]. rewrite length_insert. by eapply lookup_lt_Some.
  - eapply put_inv; [done..|]. by eapply quiet_sweep.
  - eapply put_inv; [done..|]. apply quiet_apply.
  - unfold RequestRefresh in Hr. destruct (Get s name) as [loc|]; [|done]. destruct (s_heap s !! loc) as [z|] eqn:Hz; [|done].
    injection Hr as <-. assert (loc < length (s_heap s)) as Hlt by by eapply lookup_lt_Some. destruct full.
    + apply spawn_inv; [by eapply put_inv; [done..|]; apply quiet_request|]. unfold put. cbn [s_heap]. by rewrite length_insert.
    + by apply spawn_inv.
  - by apply add_inv.
  - by apply remove_inv.
  - by destruct Hinv.
Qed.

Lemma reachable_inv s : reachable s → inv s.
Proof. induction 1; [by apply initial_inv|by eapply step_inv]. Qed.

(** C5: refreshes exclude each other. In every reachable state, whatever
    the interleaving of refreshes, ticks, sweeps, chain checks, requests,
    additions and removals: no two refreshes are past the lock of the same
    zone, a zone is marked as refreshing exactly while one is, and no more
    refreshes than configured hold a token to transfer and verify. *)
Theorem refresh_exclusive s :
  reachable s →
  (∀ i j ji jj, s_jobs s !! i = Some ji → s_jobs s !! j = Some jj → j_loc ji = j_loc jj →
     locked (j_pc ji) = true → locked (j_pc jj) = true → i = j) ∧
  (∀ loc z, s_heap s !! loc = Some z →
     z_Refreshing z = true ↔ ∃ i j, s_jobs s !! i = Some j ∧ j_loc j = loc ∧ locked (j_pc j) = true) ∧
  count holds_token (s_jobs s) ≤ sem_cap.
Proof.
  intros Hr. pose proof (reachable_inv s Hr) as Hinv. split_and!.
  - intros i j ji jj Hi Hj Hl Ki Kj. destruct (lookup_lt_is_Some_2 (s_heap s) (j_loc ji)) as [z Hz]; [by eapply iv_jobs|].
    by destruct (one_locked s _ z i j ji jj Hinv Hz Hi Hj eq_refl (eq_sym Hl) Ki Kj).
  - intros loc z Hz. pose proof (iv_lock _ Hinv _ _ Hz) as Hc. split.
    + intros HR. rewrite HR in Hc. assert (0 < count (holds_lock loc) (s_jobs s)) as Hp by lia.
      apply count_pos in Hp as (i & j & Hi & Hh). apply andb_true_iff in Hh as [Hl%bool_decide_eq_true Hk]. eauto.
    + intros (i & j & Hi & Hl & Hk). by destruct (one_locked s loc z i i j j Hinv Hz Hi Hi Hl Hl Hk Hk).
  - destruct (iv_sem _ Hinv). lia.
Qed.

(** C6: the states of a zone. In every reachable state the history of a zone
    is at most 64 transitions to terminal states, and its state is the last
    of them, or unknown before the first; the transient states, in
    which a zone is being transferred or verified, are left only to a refresh that
    is at that point. So a zone never stays in a transient state, the repair
    of such states on the tick has nothing to do, and a refresh never has
    changes to apply without a store. *)
Theorem zone_states s loc z :
  reachable s → s_heap s !! loc = Some z →
  length (z_History z) ≤ 64 ∧
  Forall (λ e, isTerminalState (hs_State e) = true) (z_History z) ∧
  (transient (z_State z) = false → z_State z = last_state (z_History z)) ∧
  (transient (z_State z) = true → z_Refreshing z = true ∧
     ∃ i j, s_jobs s !! i = Some j ∧ j_loc j = loc ∧ pc_transient (j_pc j) = true) ∧
  (∀ i j l best method tres, s_jobs s !! i = Some j → j_loc j = loc → j_pc j = PcReceived l best method (Ok tres) →
     is_Some (received_store z tres)).
Proof.
  intros Hr Hz. pose proof (reachable_inv s Hr) as Hinv. pose proof (iv_hist _ Hinv _ _ Hz) as [Hl Hf].
  assert (∀ h, Forall (λ e, isTerminalState (hs_State e) = true) h → transient (last_state h) = false) as Hlast.
  { intros h Hh. unfold last_state. destruct (last h) as [e|] eqn:E; [|done]. simpl. rewrite Forall_forall in Hh.
    apply last_Some_elem_of in E. specialize (Hh e E). by destruct (hs_State e). }
  split_and!; [done|done|..].
  - intros Ht. destruct (iv_state _ Hinv _ _ Hz) as [?|[Ht' _]]; [done|congruence].
  - intros Ht. destruct (iv_state _ Hinv _ _ Hz) as [Hs|(_ & i & j & Hi & Lj & Tj)].
    + unfold settled in Hs. rewrite Hs, (Hlast _ Hf) in Ht. done.
    + destruct (one_locked s loc z i i j j Hinv Hz Hi Hi Lj Lj (transient_locked _ Tj) (transient_locked _ Tj)) as [_ ?]. eauto 10.
  - intros i j l best method tres Hi Lj Hpc. rewrite <-Lj in Hz. pose proof (iv_job _ Hinv _ _ _ Hi Hz) as Hj. rewrite Hpc in Hj. simpl in Hj.
    unfold received_store. destruct (x_Store tres); [by eexists|]. destruct (Hj eq_refl) as [st Hst]. rewrite Hst. cbn [mbind option_bind].
    destruct (ApplyChanges _ _ _) as [[? ?] ?]. by eexists.
Qed.

(** ** Refreshes end *)

(** How many regions a refresh has left, at most. *)
Definition left (pc : Pc) : nat :=
  match pc with
  | PcLock => 12 | PcSem => 11 | PcRead => 10 | PcProbe _ _ _ => 9 | PcStats _ => 8 | PcDecide _ => 7
  | PcTransfer _ _ => 6 | PcReceived _ _ _ _ => 5 | PcVerify _ _ _ _ => 4 | PcCheck _ _ => 4
  | PcVerified _ _ _ _ _ => 3 | PcChecked _ _ _ => 3 | PcRelease => 2 | PcUnlock => 1 | PcDone => 0
  end.

Fixpoint total (js : list Job) : nat := match js with [] => 0 | j :: js => left (j_pc j) + total js end.

Lemma total_insert js i j j' : js !! i = Some j → total (<[i := j']> js) + left (j_pc j) = total js + left (j_pc j').
Proof.
  revert i. induction js as [|k js IH]; intros [|i] Hi; simplify_eq/=; [lia|]. specialize (IH i Hi). lia.
Qed.

Lemma total_0 js : total js = 0 ↔ ∀ i j, js !! i = Some j → j_pc j = PcDone.
Proof.
  induction js as [|k js IH]; [split; [by intros _ i j|done]|]. cbn [total]. split.
  - intros H [|i] j Hi; simplify_eq/=; [destruct (j_pc j); simpl in H; try lia; done|]. apply (proj1 IH) with i; [lia|done].
  - intros H. rewrite (H 0 k eq_refl). simpl. apply IH. intros i j Hi. by apply (H (S i)).
Qed.

Lemma refresh_step_left env full z pc z' pc' evs :
  refresh_step cfg env full z pc = Some (z', pc', evs) → left pc' < left pc.
Proof.
  destruct pc; cbn [refresh_step].
  - unfold TryLockRefresh. destruct (z_Refreshing z); intros [= <- <- _]; simpl; lia.
  - intros [= <- <- _]; simpl; lia.
  - intros [= <- <- _]; simpl; lia.
  - destruct (probe_loop _ _ _ _ _ _ _). intros [= <- <- _]; simpl; lia.
  - destruct (detectSkew _ _ _ _). intros [= <- <- _]; simpl; lia.
  - intros Hd%(inj Some). unfold decide_step in Hd. destruct (l_best l); [|injection Hd as _ <- _; simpl; lia].
    destruct (_ && negb full); [|injection Hd as _ <- _; simpl; lia].
    destruct (z_Store z); [destruct (zonemdMaxAgeDue _ _ _ _)|]; injection Hd as _ <- _; simpl; lia.
  - destruct (Full _ _ _); [|done]. intros [= <- <- _]; simpl; lia.
  - intros Hd%(inj Some). apply checked_lock in Hd as [_ ->]. simpl; lia.
  - destruct (transfer _ _ _ _ _ _). intros [= <- <- _]; simpl; lia.
  - intros Hd%(inj Some). unfold received_step in Hd. destruct tres; [|injection Hd as _ <- _; simpl; lia].
    destruct (received_store _ _) as [[[? ?] [?|]]|]; injection Hd as _ <- _; simpl; lia.
  - unfold verify_step. destruct (verify_full _ _ _ _ _ _ _).
    + destruct (Full _ _ _); [|done]. intros [= <- <- _]; simpl; lia.
    + destruct (Incremental _ _ _ _ _); [|done]. intros [= <- <- _]; simpl; lia.
  - intros Hd%(inj Some). apply verified_lock in Hd as [_ ->]. simpl; lia.
  - intros [= <- <- _]; simpl; lia.
  - intros [= <- <- _]; simpl; lia.
  - done.
Qed.

(** A region can always be run: the passes it may wait for end. *)
Definition with_sched (env : Env) (sched : list nat) : Env := mkEnv (e_now env) (e_rand env) (e_net env) (e_cpus env) sched.

Lemma refresh_step_total env full z pc :
  pc ≠ PcDone → ∃ sched, is_Some (refresh_step cfg (with_sched env sched) full z pc).
Proof.
  intros Hpc. destruct pc; try done; cbn [refresh_step]; try (exists []; by eexists).
  - exists []. destruct (TryLockRefresh z full). by eexists.
  - exists []. destruct (probe_loop _ _ _ _ _ _ _). by eexists.
  - exists []. destruct (detectSkew _ _ _ _). by eexists.
  - destruct (Full_total (verifier cfg env) store) as (sched & r & Hr). exists sched. cbn [e_sched with_sched].
    change (verifier cfg (with_sched env sched)) with (verifier cfg env). rewrite Hr. by eexists.
  - exists []. destruct (transfer _ _ _ _ _ _). by eexists.
  - unfold verify_step. destruct (verify_full cfg env z full tres store touched) eqn:E.
    + destruct (Full_total (verifier cfg env) store) as (sched & r & Hr). exists sched.
      change (verify_full cfg (with_sched env sched) z full tres store touched) with (verify_full cfg env z full tres store touched).
      rewrite E. cbn [e_sched with_sched]. change (verifier cfg (with_sched env sched)) with (verifier cfg env). rewrite Hr. by eexists.
    + destruct (Incremental_total (verifier cfg env) store (Some (z_Findings z)) touched) as (sched & r & Hr). exists sched.
      change (verify_full cfg (with_sched env sched) z full tres store touched) with (verify_full cfg env z full tres store touched).
      rewrite E. cbn [e_sched with_sched]. change (verifier cfg (with_sched env sched)) with (verifier cfg env). rewrite Hr. by eexists.
Qed.

Lemma job_step_total s i job env :
  inv s → s_jobs s !! i = Some job → j_pc job ≠ PcDone → (j_pc job = PcSem → s_sem s < sem_cap) →
  ∃ sched s', job_step s i (with_sched env sched) = Some s'.
Proof.
  intros Hinv Hi Hd Hs. destruct (lookup_lt_is_Some_2 (s_heap s) (j_loc job)) as [z Hz]; [by eapply iv_jobs|].
  destruct (refresh_step_total env (j_full job) z (j_pc job) Hd) as (sched & [[z' pc'] evs] & Hr).
  exists sched. unfold job_step. rewrite Hi. cbn [mbind option_bind]. rewrite Hz. cbn [mbind option_bind].
  destruct (j_pc job) eqn:Hpc; try (rewrite Hr; by eexists). rewrite bool_decide_true by auto. rewrite Hr. by eexists.
Qed.

(** There is always a refresh that can go on. *)
Lemma progress s env :
  inv s → 0 < total (s_jobs s) → ∃ i sched s', job_step s i (with_sched env sched) = Some s'.
Proof.
  intros Hinv Hpos. destruct (decide (0 < count holds_token (s_jobs s))) as [Ht|Ht].
  - apply count_pos in Ht as (i & j & Hi & Hj). exists i. eapply job_step_total; [done..| |].
    + intros Hp. unfold holds_token in Hj. by rewrite Hp in Hj.
    + intros Hp. unfold holds_token in Hj. by rewrite Hp in Hj.
  - assert (∃ i j, s_jobs s !! i = Some j ∧ j_pc j ≠ PcDone) as (i & j & Hi & Hj).
    { clear -Hpos. induction (s_jobs s) as [|k js IH]; simpl in Hpos; [lia|].
      destruct (decide (left (j_pc k) = 0)) as [E|E].
      - destruct IH as (i & j & Hi & Hj); [lia|]. by exists (S i), j.
      - exists 0, k. split; [done|]. intros Hp. by rewrite Hp in E. }
    exists i. eapply job_step_total; [done..|]. intros _. destruct (iv_sem _ Hinv) as [-> _].
    unfold sem_cap. case_bool_decide; lia.
Qed.

Lemma job_step_total_left s i env s' : job_step s i env = Some s' → total (s_jobs s') < total (s_jobs s).
Proof.
  intros (job & z & z' & pc' & evs & Hi & _ & Hr & _ & _ & Ej & _)%job_step_inv.
  apply refresh_step_left in Hr. pose proof (total_insert _ i job (mkJob (j_loc job) (j_full job) pc') Hi) as Ht.
  rewrite Ej. simpl in Ht. lia.
Qed.

(** Regions of refreshes only. *)
Inductive runs (s : Sys) : nat → Sys → Prop :=
| runs_nil : runs s 0 s
| runs_cons i env s1 n s2 : job_step s i env = Some s1 → runs s1 n s2 → runs s (S n) s2.

(** C7: refreshes always end. From every reachable state, in which any
    number of refreshes may be at any point: as long as one of them is not
    done some refresh can go on (no deadlock on zones or tokens); however they
    are scheduled they are all done after at most 12 regions each; and when
    they are done all tokens are returned and no zone is marked as
    refreshing or left in a transient state. *)
Theorem refreshes_end s env :
  reachable s →
  (∀ n s', runs s n s' → n + total (s_jobs s') ≤ total (s_jobs s)) ∧ total (s_jobs s) ≤ 12 * length (s_jobs s) ∧
  (∀ n s', runs s n s' → total (s_jobs s') = 0 ∨ ∃ i sched s2, job_step s' i (with_sched env sched) = Some s2) ∧
  ∃ n s', runs s n s' ∧ (∀ i j, s_jobs s' !! i = Some j → j_pc j = PcDone) ∧ s_sem s' = 0 ∧
    ∀ loc z, s_heap s' !! loc = Some z → z_Refreshing z = false ∧ transient (z_State z) = false.
Proof.
  intros Hr. pose proof (reachable_inv s Hr) as Hinv. clear Hr.
  assert (∀ n s s', inv s → runs s n s' → inv s' ∧ n + total (s_jobs s') ≤ total (s_jobs s)) as Hruns.
  { clear. intros n s s' Hinv H. revert Hinv. induction H as [s|s i e s1 n s2 H1 _ IH]; intros Hinv; [done|].
    destruct IH as [Hi2 Hle]; [by eapply job_inv|]. split; [done|]. apply job_step_total_left in H1. lia. }
  split_and!.
  - intros n s' H. by destruct (Hruns n s s' Hinv H).
  - clear. induction (s_jobs s) as [|j js IH]; simpl; [lia|]. assert (left (j_pc j) ≤ 12) by (destruct (j_pc j); simpl; lia). lia.
  - intros n s' H. destruct (Hruns n s s' Hinv H) as [Hinv' _]. destruct (decide (total (s_jobs s') = 0)); [by left|].
    right. apply progress; [done|lia].
  - assert (∃ n s', runs s n s' ∧ total (s_jobs s') = 0) as (n & s' & H & H0).
    { remember (total (s_jobs s)) as m eqn:Em. revert s Hinv Em. induction (lt_wf m) as [m _ IH]. intros s Hinv ->.
      destruct (decide (total (s_jobs s) = 0)) as [H0|H0]; [exists 0, s; split; [constructor|done]|].
      destruct (progress s env Hinv) as (i & sched & s1 & H1); [lia|].
      destruct (IH (total (s_jobs s1)) (job_step_total_left _ _ _ _ H1) s1 (job_inv _ _ _ _ Hinv H1) eq_refl) as (n & s2 & H2 & H02).
      exists (S n), s2. split; [by econstructor|done]. }
    destruct (Hruns n s s' Hinv H) as [Hinv' _]. rewrite total_0 in H0. exists n, s'. split_and!; [done|done| |].
    + destruct (iv_sem _ Hinv') as [-> _]. apply Nat.le_0_r, Nat.nlt_ge. intros (i & j & Hi & Hj)%count_pos.
      unfold holds_token in Hj. by rewrite (H0 i j Hi) in Hj.
    + intros loc z Hz. assert (z_Refreshing z = false) as HR.
      { pose proof (iv_lock _ Hinv' _ _ Hz) as Hc. destruct (z_Refreshing z); [|done].
        assert (0 < count (holds_lock loc) (s_jobs s')) as (i & j & Hi & Hj)%count_pos by lia.
        unfold holds_lock in Hj. by rewrite (H0 i j Hi), andb_false_r in Hj. }
      split; [done|]. destruct (transient (z_State z)) eqn:Ht; [|done].
      destruct (iv_state _ Hinv' _ _ Hz) as [Hs|(_ & i & j & Hi & _ & Hj)]; [|by rewrite (H0 i j Hi) in Hj].
      destruct (iv_hist _ Hinv' _ _ Hz) as [_ Hf]. unfold settled, last_state in Hs. rewrite Hs in Ht.
      destruct (last (z_History z)) as [e|] eqn:El; [|done]. simpl in Ht. rewrite Forall_forall in Hf.
      apply last_Some_elem_of in El. specialize (Hf e El). by destruct (hs_State e).
Qed.
End monitor.
