(* ===== verification/Refresh.v ===== *)
(** * One refresh, from start to end (internal/monitor/manager.go)

    The outcome of a refresh that is not disturbed: [solo] runs its regions,
    each with its own time, network and schedule. Main results: a refresh
    that transfers the whole zone ends with the verdict of the full
    verification of what was transferred; a refresh that finds the zone
    unchanged confirms its state but not its expiry, so that a zone goes
    stale although its primaries answer; after changes that cannot be applied the
    next look is not scheduled anew. *)

From S2P Require Import Prelude GoStrings DnsLib BTree DnsName Node Store StoreSpec Config Findings Keys Verify NsecChain Full Verdict Incremental Xfr Event Runtime Manager Monitor Toy.

Section refresh.
Context `{DL : !DnsLib, BT : !BTree, MR : !MapRange}.
Variable cfg : Config.
Implicit Types z : ZoneRuntime.

(** The regions of [Refresh], one environment for each. *)
Fixpoint solo (envs : list Env) (full : bool) (z : ZoneRuntime) (pc : Pc) : option (ZoneRuntime * Pc * list Event) :=
  match envs with
  | [] => Some (z, pc, [])
  | env :: envs =>
      '(z, pc, evs) ← refresh_step cfg env full z pc;
      '(z, pc, evs') ← solo envs full z pc;
      Some (z, pc, evs ++ evs')
  end.

Lemma solo_cons env envs full z pc z1 pc1 evs :
  refresh_step cfg env full z pc = Some (z1, pc1, evs) →
  solo (env :: envs) full z pc = ('(z, pc, evs') ← solo envs full z1 pc1; Some (z, pc, evs ++ evs')).
Proof. intros H. cbn [solo]. rewrite H. done. Qed.

Lemma detectSkew_frame now z stats :
  let z' := (detectSkew cfg now z stats).1 in
  z_Name z' = z_Name z ∧ z_Store z' = z_Store z ∧ z_History z' = z_History z ∧ z_State z' = z_State z ∧
  z_ExpireAt z' = z_ExpireAt z ∧ z_NextRefresh z' = z_NextRefresh z ∧ z_Refreshing z' = z_Refreshing z ∧
  z_LastValidAt z' = z_LastValidAt z.
Proof.
  cbv zeta. unfold detectSkew. destruct (ss_Serial <$> _) as [|s [|s2 ss]]; try done.
  destruct (bool_decide (_ ≤ _)%Z); [done|]. cbv zeta.
  by destruct (IsZero (z_SkewSince z)), (bool_decide (_ ≤ _)%Z).
Qed.

Lemma transfer_name env z z1 full l best : z_Name z1 = z_Name z → transfer cfg env z1 full l best = transfer cfg env z full l best.
Proof. unfold transfer. by intros ->. Qed.

Lemma setState_frame now z s serial mode method detail :
  let z' := setState now z s serial mode method detail in
  z_Name z' = z_Name z ∧ z_Store z' = z_Store z ∧ z_Findings z' = z_Findings z ∧ z_Refreshing z' = z_Refreshing z ∧
  z_ExpireAt z' = z_ExpireAt z ∧ z_NextRefresh z' = z_NextRefresh z ∧
  z_LastValidAt z' = if bool_decide (s = StateValid) || bool_decide (s = StateUnsigned) then now else z_LastValidAt z.
Proof. cbv zeta. unfold setState. by destruct (_ || _). Qed.

Lemma setState_last now z s serial mode method detail :
  last (z_History (setState now z s serial mode method detail)) = Some (mkHistoryEntry now s serial mode method detail).
Proof.
  rewrite setState_History. cbv zeta. set (e := mkHistoryEntry _ _ _ _ _ _).
  assert (∃ q, last_n 64 (z_History z ++ [e]) = q ++ [e]) as [q ->].
  { unfold last_n. rewrite length_app. cbn [length]. rewrite drop_app_le by lia. eauto. }
  apply last_snoc.
Qed.

Lemma applyZONEMD_frame now z st vres :
  let z' := applyZONEMDResult now z st vres in
  z_Name z' = z_Name z ∧ z_Store z' = z_Store z ∧ z_Findings z' = z_Findings z ∧ z_Refreshing z' = z_Refreshing z ∧
  z_ExpireAt z' = z_ExpireAt z ∧ z_LastValidAt z' = z_LastValidAt z.
Proof. cbv zeta. unfold applyZONEMDResult. destruct (r_ZONEMDChecked vres); [done|]. by destruct (_ && _). Qed.

Context `{BL : !BTreeLaws, NL : !DnsNameLaws}.

Lemma newState_good st v sched vres :
  Full v sched st = Some vres → store_wf st → hash_ok st →
  (newState vres = StateValid ∨ newState vres = StateUnsigned) ↔ verdict v st.
Proof.
  intros HF Hwf Hh. destruct (Full_verdict_iff v sched st vres Hwf Hh HF) as [Hv Hu]. rewrite <-Hv. unfold newState.
  destruct (r_Unsigned vres) eqn:EU.
  - split; [|by right]. intros _. apply Hv. unfold verdict. destruct (proj1 Hu eq_refl) as [HS HK]. split; [done|].
    destruct HK as [->|HK]; [done|]. by destruct (DNSKEYs st) as [[|]|].
  - destruct (r_Valid vres); [naive_solver|]. split; [by intros [?|?]|done].
Qed.

(** C8: what a refresh that transfers the zone ends with. Nobody else
    refreshes the zone, a server answers with a serial that calls for a
    transfer, and the transfer delivers the whole zone [st]. Then, whatever
    else the servers answer and however the workers are scheduled, the
    refresh ends; the zone then holds [st] and the findings of its full
    verification; it is valid or unsigned exactly if [st] passes all checks
    (the verdict of the full verification); the transition is recorded, and
    the zone can be refreshed again. *)
Theorem refresh_outcome z full stats best method tres st vres e1 e2 e3 e4 e5 e6 e7 e8 e9 e10 e11 e12 :
  z_Refreshing z = false →
  probe_loop cfg e4 (z_Name z) (z_TSIGKey z) (soa_timeout cfg) (z_Servers z) None = (stats, Some best) →
  full = true ∨ store_serial (z_Store z) = 0%Z ∨ sr_Serial best ≠ store_serial (z_Store z) →
  transfer cfg e7 z full (mkLocals (z_Servers z) (z_TSIGKey z) (store_serial (z_Store z)) stats (Some best)) best = (method, Ok tres) →
  x_Store tres = Some st → Full (verifier cfg e9) (e_sched e9) st = Some vres → store_wf st → hash_ok st →
  ∃ z' evs, solo [e1; e2; e3; e4; e5; e6; e7; e8; e9; e10; e11; e12] full z PcLock = Some (z', PcDone, evs) ∧
    z_Store z' = Some st ∧ z_Findings z' = r_Findings vres ∧ z_Refreshing z' = false ∧
    (z_State z' = StateValid ∨ z_State z' = StateUnsigned ↔ verdict (verifier cfg e9) st) ∧
    z_LastValidAt z' = (if bool_decide (z_State z' = StateValid ∨ z_State z' = StateUnsigned) then e_now e10 else z_LastValidAt z) ∧
    last (z_History z') = Some (mkHistoryEntry (e_now e10) (z_State z') (st_serial st) (r_Mode vres) (x_Method tres) "").
Proof.
  intros HR Hprobe Hgo Htr Hst HF Hwf Hh. set (l := mkLocals _ _ _ _ _) in Htr.
  rewrite (solo_cons _ _ _ _ _ (with_Refresh z true full) PcSem []).
  2:{ cbn [refresh_step]. unfold TryLockRefresh. by rewrite HR. }
  set (z1 := with_Refresh z true full).
  rewrite (solo_cons _ _ _ _ _ z1 PcRead []) by done.
  rewrite (solo_cons _ _ _ _ _ z1 (PcProbe (z_Servers z) (z_TSIGKey z) (store_serial (z_Store z))) []) by done.
  rewrite (solo_cons _ _ _ _ _ z1 (PcStats l) []).
  2:{ cbn [refresh_step]. change (z_Name z1) with (z_Name z). by rewrite Hprobe. }
  pose proof (detectSkew_frame (e_now e5) (with_ServersStat z1 stats) stats) as Hfr. cbv zeta in Hfr.
  destruct (detectSkew cfg (e_now e5) (with_ServersStat z1 stats) stats) as [z2 evs2] eqn:Ed. cbn [fst] in Hfr.
  destruct Hfr as (Fn & Fs & _ & _ & _ & _ & _ & Fv).
  rewrite (solo_cons _ _ _ _ _ z2 (PcDecide l) evs2).
  2:{ cbn [refresh_step]. change (l_stats l) with stats. by rewrite Ed. }
  rewrite (solo_cons _ _ _ _ _ (with_State z2 StateTransferring) (PcTransfer l best) []).
  2:{ cbn [refresh_step]. unfold decide_step. cbn [l_best l]. cbn [l_oldSerial l].
      assert (negb (bool_decide (store_serial (z_Store z) = 0%Z)) && bool_decide (sr_Serial best = store_serial (z_Store z)) && negb full = false) as ->; [|done].
      destruct Hgo as [->|[->|Hne]]; [by rewrite andb_false_r|done|]. rewrite (bool_decide_false _ Hne). by rewrite andb_false_r. }
  rewrite (solo_cons _ _ _ _ _ (with_State z2 StateTransferring) (PcReceived l best method (Ok tres)) []).
  2:{ cbn [refresh_step]. rewrite (transfer_name _ z), Htr; [done|]. exact Fn. }
  set (z3 := with_Store (with_LastMethod (with_LastTransfer (with_State (with_State z2 StateTransferring) StateVerifying) (e_now e8)) (x_Method tres)) (Some st)).
  set (z4 := match SOA st ≫= as_SOA with Some soa => with_ExpireAt z3 (e_now e8 + soa_Expire soa * Second)%Z | None => z3 end).
  rewrite (solo_cons _ _ _ _ _ z4 (PcVerify best tres st None) [zone_event TransferCompleted (z_Name z2) "" (x_Method tres) "" "ok"]).
  2:{ cbn [refresh_step]. unfold received_step, received_store. rewrite Hst. done. }
  assert (z_Store z4 = Some st ∧ z_LastValidAt z4 = z_LastValidAt z) as [Gs Gv].
  { assert (z_LastValidAt z3 = z_LastValidAt z) as Hv by exact Fv. unfold z4. by destruct (SOA st ≫= as_SOA). }
  rewrite (solo_cons _ _ _ _ _ z4 (PcVerified best tres st vres false) []).
  2:{ cbn [refresh_step]. unfold verify_step, verify_full. rewrite (bool_decide_true (None = None)) by done.
      rewrite orb_true_r, orb_true_l, HF. done. }
  destruct (verified_step cfg e10 z4 best tres st vres false) as [[z5 pc5] evs5] eqn:Ev.
  rewrite (solo_cons _ _ _ _ _ z5 pc5 evs5) by (cbn [refresh_step]; by rewrite Ev).
  unfold verified_step in Ev. cbv zeta in Ev. injection Ev as <- <- _.
  set (z5 := applyZONEMDResult _ _ _ _).
  pose proof (applyZONEMD_frame (e_now e10) (record_verified (e_now e10) (with_Findings z4 (r_Findings vres)) vres) st vres) as Hz5.
  cbv zeta in Hz5. fold z5 in Hz5. destruct Hz5 as (_ & Zs & Zf & _ & _ & Zv).
  set (z6 := setState (e_now e10) z5 _ _ _ _ _).
  pose proof (setState_frame (e_now e10) z5 (newState vres) (st_serial st) (r_Mode vres) (x_Method tres) "") as Hz6.
  cbv zeta in Hz6. fold z6 in Hz6. destruct Hz6 as (_ & Ss & Sf & _ & _ & _ & Sv).
  pose proof (setState_last (e_now e10) z5 (newState vres) (st_serial st) (r_Mode vres) (x_Method tres) "") as Sl. fold z6 in Sl.
  pose proof (setState_State (e_now e10) z5 (newState vres) (st_serial st) (r_Mode vres) (x_Method tres) "") as Sst. fold z6 in Sst.
  set (z7 := schedule _ _ _ _ _ _ _).
  rewrite (solo_cons _ _ _ _ _ z7 PcUnlock []) by done.
  rewrite (solo_cons _ _ _ _ _ (UnlockRefresh z7) PcDone []) by done.
  cbn [solo mbind option_bind]. eexists _, _. split; [reflexivity|].
  cbn [UnlockRefresh z_Store z_Findings z_Refreshing z_State z_LastValidAt z_History with_Refresh z7 schedule with_NextRefresh].
  split_and!.
  - rewrite Ss, Zs. exact Gs.
  - by rewrite Sf, Zf.
  - done.
  - rewrite Sst. by eapply newState_good.
  - rewrite Sv, Sst, Zv. rewrite <-bool_decide_or. cbn [z_LastValidAt record_verified with_Findings with_Verified]. by rewrite Gv.
  - rewrite Sl, Sst. done.
Qed.

(** C22: a refresh that finds the zone unchanged does not extend its life.
    The primary answered, with the serial the zone has; the zone keeps its
    state and its expiry date, and the first tick after that date makes it
    stale; a stale zone stays stale through every further such refresh. *)
Theorem unchanged_goes_stale env z l best :
  hist_ok z → settled z → z_State z ≠ StateUnknown →
  l_best l = Some best → l_oldSerial l ≠ 0%Z → sr_Serial best = l_oldSerial l →
  (∀ st, z_Store z = Some st → zonemdMaxAgeDue cfg (e_now env) z st = false) →
  ∃ z', decide_step cfg env z false l = (z', PcRelease, []) ∧
    z_State z' = z_State z ∧ z_ExpireAt z' = z_ExpireAt z ∧ z_LastTransfer z' = e_now env ∧
    ∀ now, z_ExpireAt z ≠ zeroTime → (z_ExpireAt z < now)%Z → z_State (tick now z').1.1 = StateStale.
Proof.
  intros Hh Hs Hu Hb Ho Hser Hdue. set (z1 := with_LastTransfer z (e_now env)).
  assert (lastTerminalState z1 = z_State z1) as Hterm.
  { rewrite lastTerminalState_settled; [exact (eq_sym Hs)|done|done|by left]. }
  set (z' := schedule (e_now env) (e_rand env) z1 (c_Refresh cfg) (sr_Refresh best) (sr_Retry best) false).
  assert (decide_step cfg env z false l = (z', PcRelease, [])) as Hd.
  { unfold decide_step. rewrite Hb. rewrite bool_decide_false, bool_decide_true by done. cbn [negb andb].
    fold z1. rewrite Hterm, bool_decide_false by (by intros []). destruct (z_Store z) as [st|] eqn:Es; [|done].
    by rewrite Hdue. }
  exists z'. split; [exact Hd|]. split_and!; [done..|]. intros now Hz Hlt.
  assert (transient (z_State z') = false) as Ht.
  { destruct Hh as [_ Hh]. change (z_State z') with (z_State z). rewrite Hs. unfold last_state.
    destruct (last (z_History z)) as [e|] eqn:El; [|done]. simpl. rewrite Forall_forall in Hh.
    apply last_Some_elem_of in El. specialize (Hh e El). by destruct (hs_State e). }
  unfold tick. cbv zeta.
  assert (bool_decide (z_State z' = StateTransferring) || bool_decide (z_State z' = StateVerifying) = false) as ->
    by (by destruct (z_State z')).
  rewrite andb_false_r. cbn [fst]. change (z_ExpireAt z') with (z_ExpireAt z).
  assert (IsZero (z_ExpireAt z) = false) as -> by (by apply bool_decide_eq_false). rewrite bool_decide_true by done. cbn [negb andb].
  case_bool_decide as Hst; cbn [negb]; [done|]. apply setState_State.
Qed.

(** Changes that cannot be applied: the next look stays where it was, in the
    past, so that the next tick starts another refresh. *)
Lemma apply_failed_not_scheduled env z l best method tres st touched err :
  received_store z tres = Some (st, touched, Some err) →
  z_NextRefresh (received_step cfg env z l best method (Ok tres)).1.1 = z_NextRefresh z.
Proof.
  intros Hr. unfold received_step. cbv zeta.
  change (received_store (with_LastMethod _ _) tres) with (received_store z tres). rewrite Hr. cbn [fst z_NextRefresh with_Findings].
  pose proof (setState_frame (e_now env) (with_Store (with_LastMethod (with_LastTransfer (with_State z StateVerifying) (e_now env)) (x_Method tres)) (Some st))
    StateInvalid (l_oldSerial l) "" "ixfr" "apply failed") as (_ & _ & _ & _ & _ & -> & _). done.
Qed.
End refresh.

(** ** Witnesses *)

(** A monitor with one zone and two refreshes of it, the first of which has
    got the lock. *)
Definition toy_sys : Sys := mkSys [toy_zone_runtime] {[ "z." := 0 ]} 0 [] [].
Definition toy_sys2 : Sys := spawn (spawn toy_sys 0 false) 0 true.
Definition toy_sys3 : Sys :=
  mkSys [with_Refresh toy_zone_runtime true false] {[ "z." := 0 ]} 0 [mkJob 0 false PcSem; mkJob 0 true PcLock] [].

Lemma toy_reachable : reachable Defaults toy_sys3.
Proof.
  apply (reach_step _ toy_sys2); [|by apply (step_job _ _ 0 toy_env)].
  apply (reach_step _ (spawn toy_sys 0 false)); [|by apply step_spawn; simpl; lia].
  apply (reach_step _ toy_sys); [|by apply step_spawn; simpl; lia].
  apply reach_init. split; [done|done| |].
  - by repeat constructor.
  - change (s_zones toy_sys) with ({[ "z." := 0 ]} : gmap string nat). intros name loc [<- <-]%lookup_singleton_Some. simpl. lia.
Qed.

Lemma refresh_exclusive_witness :
  count holds_token (s_jobs toy_sys3) ≤ sem_cap Defaults ∧
  (z_Refreshing (with_Refresh toy_zone_runtime true false) = true ↔
   ∃ i j, s_jobs toy_sys3 !! i = Some j ∧ j_loc j = 0 ∧ locked (j_pc j) = true).
Proof.
  destruct (refresh_exclusive Defaults toy_sys3 toy_reachable) as (_ & H & Hc). split; [exact Hc|]. by apply H.
Defined.

Lemma zone_states_witness : length (z_History (with_Refresh toy_zone_runtime true false)) ≤ 64.
Proof. apply (zone_states Defaults toy_sys3 0 _ toy_reachable eq_refl). Defined.

Lemma refreshes_end_witness :
  ∃ n s', runs Defaults toy_sys3 n s' ∧ (∀ i j, s_jobs s' !! i = Some j → j_pc j = PcDone).
Proof.
  destruct (refreshes_end Defaults toy_sys3 toy_env toy_reachable) as (_ & _ & _ & n & s' & Hr & Hd & _). eauto.
Defined.

(** A primary that answers with the toy zone. *)
Definition toy_zone_net : Net := {|
  net_Exchange _ _ _ := Ok [toy_SOA "z." 7];
  net_In _ _ := Ok [EnvRR (toy_signed ++ [toy_SOA "z." 7])];
  ctx_Err _ := None
|}.
Definition toy_zone_env (t : Z) : Env := mkEnv (timeUnix t) Config.float_0 toy_zone_net 2 [0; 1; 1; 0].

Definition toy_probe := probe_loop Defaults (toy_zone_env 1000) "z." "" (soa_timeout Defaults) toy_two_servers None.
Definition toy_best : SOAResult := mkSOAResult "one" 7 900 300 86400 None true.
Definition toy_locals : Locals := mkLocals toy_two_servers "" 0 toy_probe.1 (Some toy_best).

Lemma toy_transfer :
  ∃ method tres st, transfer Defaults (toy_zone_env 1000) toy_zone_runtime false toy_locals toy_best = (method, Ok tres) ∧
    x_Store tres = Some st ∧ FromAXFR "z." (toy_signed ++ [toy_SOA "z." 7]) = Ok st.
Proof.
  unfold transfer. cbn [negb andb bool_decide l_oldSerial toy_locals].
  assert (FromAXFR "z." (toy_signed ++ [toy_SOA "z." 7]) = Ok (built "z." (toy_signed ++ [toy_SOA "z." 7]))) as Hb
    by (apply built_Ok; vm_compute; reflexivity).
  rewrite bool_decide_true by done. cbn [negb andb].
  assert (List.filter not_TKEY (mjoin [toy_signed ++ [toy_SOA "z." 7]]) = toy_signed ++ [toy_SOA "z." 7]) as Hf
    by (vm_compute; reflexivity).
  match goal with |- context [AXFR _ _ ?srv ?tsig ?timeout ?now] =>
    destruct (AXFR_built (N := toy_zone_net) Defaults "z." srv tsig timeout now [toy_signed ++ [toy_SOA "z." 7]] (built "z." (toy_signed ++ [toy_SOA "z." 7])))
      as (r & Hr & Hst & _) end.
  - reflexivity.
  - intros n _. reflexivity.
  - rewrite Hf. exact Hb.
  - eexists "axfr", r, _. split; [|split; [exact Hst|exact Hb]]. f_equal. exact Hr.
Qed.

Lemma refresh_outcome_witness :
  ∃ z' evs, solo Defaults (replicate 12 (toy_zone_env 1000)) false toy_zone_runtime PcLock = Some (z', PcDone, evs) ∧
    z_Refreshing z' = false.
Proof.
  destruct toy_transfer as (method & tres & st & Ht & Hst & Hb).
  assert (st = built "z." (toy_signed ++ [toy_SOA "z." 7])) as -> by (unfold built; by rewrite Hb).
  destruct (is_some_eq (Full (verifier Defaults (toy_zone_env 1000)) [0; 1; 1; 0] (built "z." (toy_signed ++ [toy_SOA "z." 7])))) as [vres HF];
    [vm_compute; reflexivity|].
  destruct (refresh_outcome Defaults toy_zone_runtime false toy_probe.1 toy_best method tres (built "z." (toy_signed ++ [toy_SOA "z." 7])) vres (toy_zone_env 1000) (toy_zone_env 1000)
    (toy_zone_env 1000) (toy_zone_env 1000) (toy_zone_env 1000) (toy_zone_env 1000) (toy_zone_env 1000) (toy_zone_env 1000)
    (toy_zone_env 1000) (toy_zone_env 1000) (toy_zone_env 1000) (toy_zone_env 1000)) as (z' & evs & Hz & _ & _ & HR & _).
  - reflexivity.
  - vm_compute. reflexivity.
  - right; left. reflexivity.
  - exact Ht.
  - exact Hst.
  - exact HF.
  - apply built_wf.
  - apply built_hash_ok.
  - exists z', evs. split; [exact Hz|exact HR].
Defined.

(** A valid zone that expires at second 90000. *)
Definition toy_valid : ZoneRuntime :=
  with_ExpireAt (setState (timeUnix 1000) toy_zone_runtime StateValid 7 "full" "axfr" "") (timeUnix 90000).

Lemma unchanged_goes_stale_witness :
  ∃ z', decide_step Defaults (toy_zone_env 80000) toy_valid false (mkLocals toy_two_servers "" 7 toy_probe.1 (Some toy_best)) = (z', PcRelease, []) ∧
    z_State (tick (timeUnix 90001) z').1.1 = StateStale.
Proof.
  destruct (unchanged_goes_stale Defaults (toy_zone_env 80000) toy_valid (mkLocals toy_two_servers "" 7 toy_probe.1 (Some toy_best)) toy_best)
    as (z' & Hd & _ & _ & _ & Hz).
  - split; [simpl; lia|by repeat constructor].
  - reflexivity.
  - discriminate.
  - reflexivity.
  - discriminate.
  - reflexivity.
  - intros st H. discriminate H.
  - exists z'. split; [exact Hd|]. apply Hz; vm_compute; [discriminate|reflexivity].
Defined.
