(* ===== verification/Catalog.v ===== *)
(** * Catalog zones (internal/catalog/catalog.go, internal/app/app.go)

    A catalog zone (RFC 9432) lists zones to monitor. [Parse] reads the
    members out of a store, [Diff] compares two readings, and the watcher of
    the application applies the differences to the zone monitor on every
    tick. Main results: the members are exactly the PTR records below
    [zones]; the watcher is a run of the monitor, so that everything proved
    of the monitor holds with it; a tick adds and removes exactly what
    changed, and catalogs with different members stay in step with the
    monitor. A member that moves to a catalog listed earlier is lost. *)

From S2P Require Import Prelude GoStrings DnsLib BTree DnsName Node Store StoreSpec Toy Config Findings Full Event Runtime Manager Monitor.

Record Member := mkMember { mb_ID : string; mb_Zone : string; mb_Group : string; mb_COO : string }.

#[export] Instance Member_eq_dec : EqDecision Member.
Proof. solve_decision. Defined.

Section catalog.
Context `{DL : !DnsLib, BT : !BTree, MR : !MapRange}.

(** ** Parsing *)

(** The last text, or pointer, of an RRset, if it has any. *)
Definition last_TXT (x : string) (rrs : list RR) : string :=
  foldl (λ x rr, match as_TXT rr with Some (t :: _) => t | _ => x end) x rrs.
Definition last_PTR (x : string) (rrs : list RR) : string :=
  foldl (λ x rr, match as_PTR rr with Some p => Canonical p | None => x end) x rrs.

(** The labels of a name below [zones], the identifier last. *)
Definition member_parts (origin name : string) : option (list string) :=
  let suffix := ".zones." +:+ origin in
  if negb (HasSuffix name suffix) && negb (bool_decide (name = "zones." +:+ origin)) then None
  else if bool_decide (name = "zones." +:+ origin) then None
  else Some (SplitDomainName (TrimSuffix name suffix +:+ ".")).

Definition parse_node (origin : string) (byID : gmap string Member) (n : Node) : gmap string Member :=
  match member_parts origin (n_Name n) with
  | None => byID
  | Some parts =>
      match last parts with
      | None => byID
      | Some id =>
          let m := default (mkMember id "" "" "") (byID !! id) in
          if bool_decide (length parts = 1)
          then <[id := mkMember (mb_ID m) (last_PTR (mb_Zone m) (ok_or [] (UnpackType n TypePTR))) (mb_Group m) (mb_COO m)]> byID
          else
            let prop := ToLower (hd "" parts) in
            let m := if bool_decide (prop = "group")
              then mkMember (mb_ID m) (mb_Zone m) (last_TXT (mb_Group m) (ok_or [] (UnpackType n TypeTXT))) (mb_COO m) else m in
            let m := if bool_decide (prop = "coo")
              then mkMember (mb_ID m) (mb_Zone m) (mb_Group m) (last_PTR (mb_COO m) (ok_or [] (UnpackType n TypePTR))) else m in
            <[id := m]> byID
      end
  end.

(** [Parse] returns no error. *)
Definition Parse (st : Store) : string * list Member :=
  let version := match Lookup st ("version." +:+ st_origin st) with
    | Some n => last_TXT "" (ok_or [] (UnpackType n TypeTXT))
    | None => ""
    end in
  let byID := foldl (parse_node (st_origin st)) ∅ (ForEachNode st) in
  (version, List.filter (λ m, negb (bool_decide (mb_Zone m = ""))) (range byID).*2).

Definition by_zone (ms : list Member) : gmap string Member := foldl (λ pm m, <[mb_Zone m := m]> pm) ∅ ms.

Definition Diff (prev next : list Member) : list Member * list Member :=
  let pm := by_zone prev in
  let nm := by_zone next in
  (omap (λ '(z, m), if pm !! z is Some _ then None else Some m) (range nm),
   omap (λ '(z, m), if nm !! z is Some _ then None else Some m) (range pm)).

(** ** The watcher *)

Variable cfg : Config.

Definition catalog_source (c : Catalog) : string := "catalog:" +:+ ct_Name c.
Definition catalog_event (type zone : string) (c : Catalog) : Event :=
  mkEvent type zone zeroTime "" "" "" "" "" (ct_Name c) ∅.

Definition watch_add (c : Catalog) (s : Sys) (m : Member) : Sys :=
  match zone_at s (mb_Zone m) with
  | Some _ => s
  | None =>
      let s := AddZone s (mb_Zone m) (catalog_source c) (ResolveServers cfg (ct_MemberServers c)) (ct_MemberTSIGKey c) in
      let s := publish s [catalog_event CatalogMemberAdded (mb_Zone m) c] in
      match Get s (mb_Zone m) with Some loc => spawn s loc false | None => s end
  end.

Definition watch_remove (c : Catalog) (s : Sys) (m : Member) : Sys :=
  match zone_at s (mb_Zone m) with
  | Some z =>
      if bool_decide (z_Source z = catalog_source c)
      then publish (RemoveZone s (mb_Zone m)) [catalog_event CatalogMemberRemoved (mb_Zone m) c]
      else s
  | None => s
  end.

(** One catalog of a tick; [prev] has the members seen last. *)
Definition watch_one (w : Sys * gmap string (list Member)) (c : Catalog) : Sys * gmap string (list Member) :=
  let '(s, prev) := w in
  match zone_at s (ct_Name c) with
  | None => (AddZone s (ct_Name c) "config" (ResolveServers cfg (ct_Servers c)) (ct_TSIGKey c), prev)
  | Some z =>
      match z_Store z with
      | None => (s, prev)
      | Some st =>
          let members := (Parse st).2 in
          let '(added, removed) := Diff (default [] (prev !! ct_Name c)) members in
          (foldl (watch_remove c) (foldl (watch_add c) s added) removed, <[ct_Name c := members]> prev)
      end
  end.

(** A tick of [watchCatalogs]. *)
Definition watch (w : Sys * gmap string (list Member)) : Sys * gmap string (list Member) :=
  foldl watch_one w (c_Catalogs cfg).
End catalog.

(** ** What parsing finds *)

Section parse_facts.
Context `{DL : !DnsLib, BT : !BTree, MR : !MapRange, NL : !DnsNameLaws}.

Lemma last_PTR_app x rrs rr : last_PTR x (rrs ++ [rr]) = match as_PTR rr with Some p => Canonical p | None => last_PTR x rrs end.
Proof. unfold last_PTR. by rewrite foldl_app. Qed.

Lemma last_PTR_last x rrs : last_PTR x rrs = default x (Canonical <$> last (omap as_PTR rrs)).
Proof.
  induction rrs as [|rr rrs IH] using rev_ind; [done|]. rewrite last_PTR_app, omap_app. cbn [omap list_omap].
  destruct (as_PTR rr); [by rewrite last_snoc|]. by rewrite app_nil_r.
Qed.

(** The zone of an identifier. *)
Definition zone_of (byID : gmap string Member) (id : string) : string := default "" (mb_Zone <$> byID !! id).

Lemma parse_node_zone origin byID n id :
  zone_of (parse_node origin byID n) id =
    if bool_decide (member_parts origin (n_Name n) = Some [id])
    then last_PTR (zone_of byID id) (ok_or [] (UnpackType n TypePTR)) else zone_of byID id.
Proof.
  unfold parse_node. destruct (member_parts origin (n_Name n)) as [parts|]; [|done].
  destruct (last parts) as [id'|] eqn:El; [|rewrite bool_decide_false; [done|intros [= ->]; done]].
  destruct (decide (length parts = 1)) as [H1|H1]; [rewrite (bool_decide_true _ H1)|rewrite (bool_decide_false _ H1)].
  - destruct parts as [|p [|? ?]]; simplify_eq/=. unfold zone_of. destruct (decide (id' = id)) as [->|Hne].
    + rewrite lookup_insert_eq, bool_decide_true by done. simpl. by destruct (byID !! id).
    + rewrite lookup_insert_ne, bool_decide_false by congruence. done.
  - rewrite (bool_decide_false (Some parts = Some [id])) by (intros [= ->]; done). cbv zeta. unfold zone_of.
    destruct (decide (id' = id)) as [->|Hne]; [rewrite lookup_insert_eq|by rewrite lookup_insert_ne].
    repeat case_bool_decide; simpl; by destruct (byID !! id).
Qed.

Definition ids_ok (byID : gmap string Member) : Prop := ∀ id m, byID !! id = Some m → mb_ID m = id.

Lemma parse_node_ids origin byID n : ids_ok byID → ids_ok (parse_node origin byID n).
Proof.
  intros Hok. unfold parse_node. destruct (member_parts _ _) as [parts|]; [|done]. destruct (last parts) as [id'|]; [|done].
  assert (mb_ID (default (mkMember id' "" "" "") (byID !! id')) = id') as Hid
    by (destruct (byID !! id') as [m|] eqn:E; [by apply Hok|done]).
  repeat case_bool_decide; cbv zeta; intros id m [[<- <-]|[_ ?]]%lookup_insert_Some; try done; by apply Hok.
Qed.

Lemma parse_ids origin ns : ids_ok (foldl (parse_node origin) ∅ ns).
Proof. apply foldl_inv; [by intros id m|]. intros; by apply parse_node_ids. Qed.

(** The dot before [zones] ends a label: it is not an escaped one. *)
Definition separated (st : Store) : Prop :=
  ∀ name n, st_nodes st !! name = Some n → HasSuffix name (".zones." +:+ st_origin st) = true →
    IsFqdn (TrimSuffix name (".zones." +:+ st_origin st) +:+ ".") = true.

Lemma member_parts_one st n id :
  separated st → st_nodes st !! n_Name n = Some n →
  member_parts (st_origin st) (n_Name n) = Some [id] →
  n_Name n = id +:+ ".zones." +:+ st_origin st ∧ SplitDomainName (id +:+ ".") = [id].
Proof.
  intros Hsep Hn. unfold member_parts. destruct (HasSuffix (n_Name n) _) eqn:Hs; simpl.
  - case_bool_decide; [done|]. intros [= Hp]. specialize (Hsep _ _ Hn Hs). apply HasSuffix_spec in Hs as [p Hp'].
    rewrite Hp', TrimSuffix_app in *. assert (p +:+ "." ≠ ".") as Hr by (intros E; rewrite E, Split_root in Hp; done).
    destruct (Split_join _ Hsep Hr) as [_ Hj]. rewrite Hp in Hj. cbn in Hj.
    assert (p = id) as -> by (by apply str_app_inj_r in Hj). done.
  - case_bool_decide; [done|]. done.
Qed.

Lemma member_parts_intro origin id :
  SplitDomainName (id +:+ ".") = [id] → member_parts origin (id +:+ ".zones." +:+ origin) = Some [id].
Proof.
  intros Hs. unfold member_parts. rewrite (HasSuffix_app id (".zones." +:+ origin)). cbn [negb andb].
  rewrite bool_decide_false.
  - by rewrite TrimSuffix_app, Hs.
  - intros E. apply (f_equal String.length) in E. rewrite !str_length_app in E. simpl in E. lia.
Qed.

Lemma parse_zone_none origin byID ns id :
  (∀ n, n ∈ ns → member_parts origin (n_Name n) ≠ Some [id]) → zone_of (foldl (parse_node origin) byID ns) id = zone_of byID id.
Proof.
  intros Hn. apply (foldl_inv (λ b, zone_of b id = zone_of byID id)); [done|]. intros b n Hin Hb.
  rewrite parse_node_zone, bool_decide_false; [done|]. by apply Hn.
Qed.

Lemma parse_zone_one origin ns id n :
  NoDup ns → n ∈ ns → (∀ n', n' ∈ ns → member_parts origin (n_Name n') = Some [id] ↔ n' = n) →
  zone_of (foldl (parse_node origin) ∅ ns) id = last_PTR "" (ok_or [] (UnpackType n TypePTR)).
Proof.
  intros Hnd Hin Hu. apply list_elem_of_split in Hin as (l1 & l2 & ->).
  apply NoDup_app in Hnd as (_ & Hd & [Hn2 _]%NoDup_cons).
  rewrite foldl_app. cbn [foldl]. rewrite parse_zone_none, parse_node_zone, parse_zone_none.
  - rewrite bool_decide_true; [done|]. apply Hu; set_solver.
  - intros n' Hn'. rewrite Hu by set_solver. intros ->. apply (Hd n Hn'). set_solver.
  - intros n' Hn'. rewrite Hu by set_solver. by intros ->.
Qed.

Lemma members_of st m :
  m ∈ (Parse st).2 ↔ ∃ id, foldl (parse_node (st_origin st)) ∅ (ForEachNode st) !! id = Some m ∧ mb_Zone m ≠ "".
Proof.
  unfold Parse. cbn [snd]. rewrite list_elem_of_In, filter_In, <-list_elem_of_In, elem_of_range_snd, negb_true_iff, bool_decide_eq_false.
  naive_solver.
Qed.

Lemma Parse_NoDup st : NoDup (mb_ID <$> (Parse st).2).
Proof.
  unfold Parse. cbn [snd]. set (byID := foldl _ ∅ _). pose proof (parse_ids (st_origin st) (ForEachNode st)) as Hids.
  fold byID in Hids. pose proof (NoDup_fst_range byID) as Hnd.
  assert (∀ l, (∀ e, e ∈ l → byID !! e.1 = Some e.2) → NoDup l.*1 →
    NoDup (mb_ID <$> List.filter (λ m, negb (bool_decide (mb_Zone m = ""))) l.*2)) as H.
  { intros l. induction l as [|[id m] l IH]; intros Hl Hndl; [constructor|]. apply NoDup_cons in Hndl as [Hni Hndl].
    assert (NoDup (mb_ID <$> List.filter (λ m, negb (bool_decide (mb_Zone m = ""))) l.*2)) as HI by (apply IH; [set_solver|done]).
    cbn [fmap list_fmap snd List.filter]. destruct (negb _); [|done]. cbn [fmap list_fmap]. apply NoDup_cons. split; [|done].
    intros (m' & E & Hm')%list_elem_of_fmap. rewrite list_elem_of_In, filter_In, <-list_elem_of_In in Hm'. destruct Hm' as [Hm' _].
    apply list_elem_of_fmap in Hm' as ([id' m''] & -> & He). simpl in E. apply Hni.
    pose proof (Hids _ _ (Hl (id, m) ltac:(set_solver))) as E1. pose proof (Hids _ _ (Hl (id', m'') ltac:(set_solver))) as E2. simpl in E1, E2.
    apply list_elem_of_fmap. exists (id', m''). split; [simpl; congruence|done]. }
  apply H; [|done]. intros [id m] He. by apply elem_of_range.
Qed.

(** The zone a node names, if it has a pointer that unpacks. *)
Definition points_to (n : Node) (z : string) : Prop :=
  ∃ p, last (omap as_PTR (ok_or [] (UnpackType n TypePTR))) = Some p ∧ z = Canonical p.

Lemma points_to_last n z : points_to n z ↔ last_PTR "" (ok_or [] (UnpackType n TypePTR)) = z ∧ z ≠ "".
Proof.
  rewrite last_PTR_last. unfold points_to. destruct (last _) as [p|]; simpl.
  - split; [intros (? & [= ->] & ->); split; [done|apply Canonical_ne]|]. intros [<- _]. eauto.
  - split; [by intros (? & ? & _)|]. by intros [<- ?].
Qed.

(** C31: the members of a catalog are exactly the pointers directly below
    [zones], if no name of the catalog has an escaped dot before [zones]:
    identifier [id] names zone [z] exactly if there is a node
    [id.zones.<catalog>] whose (last) PTR record points to [z], whatever
    the order in which the nodes are walked; no identifier occurs twice. *)
Theorem Parse_members st id z :
  store_wf st → separated st →
  ((∃ m, m ∈ (Parse st).2 ∧ mb_ID m = id ∧ mb_Zone m = z) ↔
    ∃ n, st_nodes st !! (id +:+ ".zones." +:+ st_origin st) = Some n ∧ SplitDomainName (id +:+ ".") = [id] ∧ points_to n z) ∧
  NoDup (mb_ID <$> (Parse st).2).
Proof.
  intros Hwf Hsep. split; [|apply Parse_NoDup]. set (byID := foldl (parse_node (st_origin st)) ∅ (ForEachNode st)).
  assert ((∃ m, m ∈ (Parse st).2 ∧ mb_ID m = id ∧ mb_Zone m = z) ↔ zone_of byID id = z ∧ z ≠ "") as ->.
  { setoid_rewrite members_of. fold byID. pose proof (parse_ids (st_origin st) (ForEachNode st)) as Hids. fold byID in Hids.
    unfold zone_of. split.
    - intros (m & (id' & Hm & Hne) & Hid & Hz). rewrite (Hids _ _ Hm) in Hid. subst id'. rewrite Hm. by subst z.
    - destruct (byID !! id) as [m|] eqn:E; simpl; [|by intros [<- ?]]. intros [<- Hne]. exists m. split; [by exists id|]. split; [by apply Hids|done]. }
  assert (∀ n, n ∈ ForEachNode st → member_parts (st_origin st) (n_Name n) = Some [id] →
    n_Name n = id +:+ ".zones." +:+ st_origin st ∧ SplitDomainName (id +:+ ".") = [id]) as Hone
    by (intros n Hn%elem_of_nodes; [by apply member_parts_one|done]).
  split.
  - intros [Hz Hne]. destruct (existsb (λ n, bool_decide (member_parts (st_origin st) (n_Name n) = Some [id])) (ForEachNode st)) eqn:E.
    + apply existsb_elem_of in E as (n & Hn & Hp%bool_decide_eq_true). destruct (Hone n Hn Hp) as [Hname Hsplit]. exists n.
      split; [rewrite <-Hname; by apply elem_of_nodes|]. split; [done|]. apply points_to_last. split; [|done]. rewrite <-Hz. symmetry.
      apply parse_zone_one; [by apply nodes_NoDup|done|]. intros n' Hn'. split; [|by intros ->]. intros [Hname' _]%(Hone n' Hn').
      apply elem_of_nodes in Hn, Hn'; [|done..]. rewrite Hname in Hn. rewrite Hname' in Hn'. congruence.
    + unfold byID in Hz. rewrite parse_zone_none in Hz; [by unfold zone_of in Hz; rewrite lookup_empty in Hz; simpl in Hz|].
      intros n Hn Hp. assert (existsb (λ n, bool_decide (member_parts (st_origin st) (n_Name n) = Some [id])) (ForEachNode st) = true) as Ht
        by (apply existsb_elem_of; exists n; split; [done|by apply bool_decide_eq_true]). congruence.
  - intros (n & Hn & Hsplit & [Hp Hne]%points_to_last). split; [|done]. rewrite <-Hp.
    assert (n_Name n = id +:+ ".zones." +:+ st_origin st) as Hname by (by destruct (sw_nodes st Hwf _ _ Hn)).
    assert (n ∈ ForEachNode st) as Hin by (apply elem_of_nodes; [done|by rewrite Hname]).
    apply parse_zone_one; [by apply nodes_NoDup|done|]. intros n' Hn'. split.
    + intros [Hname' _]%(Hone n' Hn'). apply elem_of_nodes in Hn'; [|done]. rewrite Hname' in Hn'. congruence.
    + intros ->. rewrite Hname. by apply member_parts_intro.
Qed.
End parse_facts.

(** ** What changed *)

Section diff_facts.
Context `{MR : !MapRange}.

Definition zones (ms : list Member) : list string := mb_Zone <$> ms.

Lemma by_zone_snoc ms m : by_zone (ms ++ [m]) = <[mb_Zone m := m]> (by_zone ms).
Proof. unfold by_zone. by rewrite foldl_app. Qed.

Lemma by_zone_zone ms x m : by_zone ms !! x = Some m → mb_Zone m = x ∧ m ∈ ms.
Proof.
  induction ms as [|m' ms IH] using rev_ind; [by intros|]. rewrite by_zone_snoc.
  intros [[<- <-]|[_ [Hz Hin]%IH]]%lookup_insert_Some; set_solver.
Qed.

Lemma by_zone_dom ms x : is_Some (by_zone ms !! x) ↔ x ∈ zones ms.
Proof.
  induction ms as [|m ms IH] using rev_ind; [split; [by intros []|set_solver]|].
  unfold zones in *. rewrite by_zone_snoc, fmap_app, elem_of_app, <-IH. cbn [fmap list_fmap]. rewrite list_elem_of_singleton.
  rewrite lookup_insert_is_Some'. naive_solver.
Qed.

(** [Diff] compares by zone. *)
Lemma Diff_added prev next m :
  m ∈ (Diff prev next).1 ↔ by_zone next !! mb_Zone m = Some m ∧ mb_Zone m ∉ zones prev.
Proof.
  unfold Diff. cbn [fst]. rewrite list_elem_of_omap. rewrite <-by_zone_dom. split.
  - intros ([x m'] & Hin%elem_of_range & E). destruct (by_zone prev !! x) eqn:Ep; [done|]. injection E as ->.
    destruct (by_zone_zone _ _ _ Hin) as [-> _]. split; [done|]. rewrite Ep. by intros [].
  - intros [Hn Hp]. exists (mb_Zone m, m). split; [by apply elem_of_range|].
    destruct (by_zone prev !! mb_Zone m) eqn:Ep; [|done]. destruct Hp. eauto.
Qed.

Lemma Diff_removed prev next : (Diff prev next).2 = (Diff next prev).1.
Proof. done. Qed.

Lemma Diff_added_zones prev next x :
  x ∈ zones (Diff prev next).1 ↔ x ∈ zones next ∧ x ∉ zones prev.
Proof.
  unfold zones at 1. rewrite list_elem_of_fmap. split.
  - intros (m & -> & [Hm Hp]%Diff_added). split; [|done]. apply by_zone_dom. eauto.
  - intros [[m Hm]%by_zone_dom Hp]. destruct (by_zone_zone _ _ _ Hm) as [<- _]. exists m. split; [done|]. by apply Diff_added.
Qed.

Lemma Diff_NoDup prev next : NoDup (zones (Diff prev next).1).
Proof.
  unfold Diff, zones. cbn [fst]. pose proof (NoDup_fst_range (by_zone next)) as Hnd.
  assert (∀ l, (∀ e, e ∈ l → mb_Zone e.2 = e.1) → NoDup l.*1 →
    NoDup (mb_Zone <$> omap (λ '(z, m), if by_zone prev !! z is Some _ then None else Some m) l)) as H.
  { induction l as [|[x m] l IH]; intros Hl Hndl; [constructor|]. apply NoDup_cons in Hndl as [Hni Hndl].
    cbn [omap list_omap]. destruct (by_zone prev !! x); [apply IH; [set_solver|done]|]. cbn [fmap list_fmap].
    apply NoDup_cons. split; [|apply IH; [set_solver|done]]. intros (m' & E & ([x' m''] & Hin & Hm'')%list_elem_of_omap)%list_elem_of_fmap.
    destruct (by_zone prev !! x'); [done|]. injection Hm'' as ->. pose proof (Hl (x, m) ltac:(set_solver)) as E1.
    pose proof (Hl (x', m') ltac:(set_solver)) as E2. simpl in E1, E2. apply Hni, list_elem_of_fmap. exists (x', m'). simpl. split; [congruence|done]. }
  apply H; [|done]. intros [x m] He%elem_of_range. by apply by_zone_zone in He as [? _].
Qed.
End diff_facts.

(** ** The watcher and the monitor *)

Section watch_facts.
Context `{DL : !DnsLib, BT : !BTree, MR : !MapRange, NL : !DnsNameLaws}.
Variable cfg : Config.

(** Every name the manager knows has a runtime. *)
Definition map_ok (s : Sys) : Prop := ∀ name loc, s_zones s !! name = Some loc → loc < length (s_heap s).

Lemma zone_at_Get s x : map_ok s → is_Some (Get s x) ↔ is_Some (zone_at s x).
Proof.
  intros Hok. unfold zone_at, Get. destruct (s_zones s !! Canonical x) as [loc|] eqn:E; cbn [mbind option_bind]; [|done].
  split; [|eauto]. intros _. apply lookup_lt_is_Some. by eapply Hok.
Qed.

Lemma add_zone_at s name source servers tsig x :
  map_ok s → zone_at s name = None →
  map_ok (AddZone s name source servers tsig) ∧
  zone_at (AddZone s name source servers tsig) x =
    if bool_decide (Canonical x = Canonical name) then Some (NewZone (Canonical name) source servers tsig) else zone_at s x.
Proof.
  intros Hok Hn. unfold zone_at, Get in Hn. unfold AddZone.
  destruct (s_zones s !! Canonical name ≫= λ loc, s_heap s !! loc) as [z|] eqn:E; [done|]. split.
  - intros n l. cbn [s_zones s_heap]. rewrite length_app. simpl. intros [[_ <-]|[_ Hl%Hok]]%lookup_insert_Some; lia.
  - unfold zone_at, Get. cbn [s_zones s_heap]. case_bool_decide as Hx.
    + rewrite Hx, lookup_insert_eq. cbn [mbind option_bind]. by rewrite lookup_app_r, Nat.sub_diag.
    + rewrite lookup_insert_ne by congruence. destruct (s_zones s !! Canonical x) as [loc|] eqn:El; [|done].
      cbn [mbind option_bind]. apply lookup_app_l. by eapply Hok.
Qed.

Lemma remove_zone_at s name x :
  zone_at (RemoveZone s name) x = if bool_decide (Canonical x = Canonical name) then None else zone_at s x.
Proof.
  unfold zone_at, Get, RemoveZone. cbn [s_zones s_heap]. case_bool_decide as Hx.
  - by rewrite Hx, lookup_delete_eq.
  - by rewrite lookup_delete_ne by congruence.
Qed.

Lemma remove_map_ok s name : map_ok s → map_ok (RemoveZone s name).
Proof. intros Hok n l. unfold RemoveZone. cbn [s_zones s_heap]. intros [_ Hl]%lookup_delete_Some. by eapply Hok. Qed.

(** The runtime the watcher makes for a member. *)
Definition member_zone (c : Catalog) (x : string) : ZoneRuntime :=
  NewZone (Canonical x) (catalog_source c) (ResolveServers cfg (ct_MemberServers c)) (ct_MemberTSIGKey c).

Lemma watch_add_at c s m :
  map_ok s → map_ok (watch_add cfg c s m) ∧ ∀ x,
  zone_at (watch_add cfg c s m) x = match zone_at s x with
    | Some z => Some z
    | None => if bool_decide (Canonical x = Canonical (mb_Zone m)) then Some (member_zone c (mb_Zone m)) else None
    end.
Proof.
  intros Hok. unfold watch_add. destruct (zone_at s (mb_Zone m)) as [z|] eqn:E.
  - split; [done|]. intros x. destruct (zone_at s x) as [|] eqn:Ex; [done|]. rewrite bool_decide_false; [done|].
    intros Hx. unfold zone_at, Get in E, Ex. rewrite Hx in Ex. congruence.
  - set (s1 := AddZone s _ _ _ _). cbv zeta. pose proof (λ x, add_zone_at s (mb_Zone m) (catalog_source c) (ResolveServers cfg (ct_MemberServers c)) (ct_MemberTSIGKey c) x Hok E) as H.
    fold s1 in H. assert (map_ok s1) as Hok1 by by destruct (H "").
    set (s2 := publish s1 _). assert (∀ s3, s_heap s3 = s_heap s1 → s_zones s3 = s_zones s1 → map_ok s3 ∧ ∀ x, zone_at s3 x = zone_at s1 x) as Hsame.
    { intros s3 E1 E2. unfold map_ok, zone_at, Get. by rewrite E1, E2. }
    assert (map_ok (match Get s2 (mb_Zone m) with Some loc => spawn s2 loc false | None => s2 end) ∧
      ∀ x, zone_at (match Get s2 (mb_Zone m) with Some loc => spawn s2 loc false | None => s2 end) x = zone_at s1 x) as [HA HB]
      by (apply Hsame; by destruct (Get s2 (mb_Zone m))).
    split; [done|]. intros x. rewrite HB. destruct (H x) as [_ ->]. case_bool_decide as Hx.
    + assert (zone_at s x = None) as -> by (unfold zone_at, Get in *; by rewrite Hx). done.
    + by destruct (zone_at s x).
Qed.

Definition canon_members (ms : list Member) : Prop := ∀ x, x ∈ zones ms → canonical x.

Lemma watch_adds_at c ms s :
  map_ok s → canon_members ms → map_ok (foldl (watch_add cfg c) s ms) ∧ ∀ x, canonical x →
  zone_at (foldl (watch_add cfg c) s ms) x = match zone_at s x with
    | Some z => Some z
    | None => if bool_decide (x ∈ zones ms) then Some (member_zone c x) else None
    end.
Proof.
  revert s. induction ms as [|m ms IH]; intros s Hok Hcm; cbn [foldl].
  - split; [done|]. intros x _. destruct (zone_at s x); [done|]. rewrite bool_decide_false; [done|]. set_solver.
  - destruct (watch_add_at c s m Hok) as [Hok1 H1]. assert (canon_members ms) as Hcm' by (intros x Hx; apply Hcm; set_solver).
    destruct (IH _ Hok1 Hcm') as [Hok2 H2]. split; [done|].
    intros x Hc. rewrite (H2 x Hc), H1. destruct (zone_at s x); [done|].
    assert (canonical (mb_Zone m)) as Hm by (apply Hcm; set_solver). rewrite Hc, Hm. case_bool_decide as Hx.
    + subst x. rewrite bool_decide_true; [done|]. set_solver.
    + apply (f_equal (λ b : bool, if b then Some (member_zone c x) else None)), bool_decide_ext. set_solver.
Qed.

Lemma watch_removes_at c ms s :
  map_ok s → canon_members ms → map_ok (foldl (watch_remove c) s ms) ∧ ∀ x, canonical x →
  zone_at (foldl (watch_remove c) s ms) x = match zone_at s x with
    | Some z => if bool_decide (z_Source z = catalog_source c) && bool_decide (x ∈ zones ms) then None else Some z
    | None => None
    end.
Proof.
  revert s. induction ms as [|m ms IH]; intros s Hok Hcm; cbn [foldl].
  - split; [done|]. intros x _. destruct (zone_at s x); [|done]. rewrite andb_comm, bool_decide_false; [done|]. set_solver.
  - assert (canon_members ms) as Hcm' by (intros x Hx; apply Hcm; set_solver).
    assert (canonical (mb_Zone m)) as Hm by (apply Hcm; set_solver).
    assert (map_ok (watch_remove c s m) ∧ ∀ x, canonical x → zone_at (watch_remove c s m) x = match zone_at s x with
      | Some z => if bool_decide (z_Source z = catalog_source c) && bool_decide (x = mb_Zone m) then None else Some z
      | None => None end) as [Hok1 H1].
    { unfold watch_remove. destruct (zone_at s (mb_Zone m)) as [z|] eqn:E.
      - destruct (bool_decide (z_Source z = catalog_source c)) eqn:Ez.
        + split; [by apply (remove_map_ok s)|]. intros x Hc.
          change (zone_at (publish ?s ?e) x) with (zone_at s x). rewrite remove_zone_at, Hc, Hm.
          destruct (decide (x = mb_Zone m)) as [->|Hx]; [rewrite !bool_decide_true by done|rewrite !(bool_decide_false _ Hx)].
          * by rewrite E, Ez.
          * destruct (zone_at s x); [|done]. by rewrite andb_false_r.
        + split; [done|]. intros x Hc. destruct (zone_at s x) as [z'|] eqn:Ex; [|done].
          destruct (decide (x = mb_Zone m)) as [->|Hne]; [|by rewrite (bool_decide_false _ Hne), andb_false_r].
          rewrite E in Ex. injection Ex as <-. by rewrite Ez.
      - split; [done|]. intros x Hc. destruct (zone_at s x) as [z'|] eqn:Ex; [|done].
        rewrite (bool_decide_false (x = mb_Zone m)) by congruence. by rewrite andb_false_r. }
    destruct (IH _ Hok1 Hcm') as [Hok2 H2]. split; [done|]. intros x Hc. rewrite (H2 x Hc), (H1 x Hc).
    destruct (zone_at s x) as [z|]; [|done]. destruct (bool_decide (z_Source z = catalog_source c)) eqn:Ez; simpl; [|by rewrite ?Ez].
    destruct (decide (x = mb_Zone m)) as [Hx|Hx]; [rewrite (bool_decide_true _ Hx)|rewrite (bool_decide_false _ Hx)].
    + rewrite bool_decide_true; [done|]. set_solver.
    + rewrite Ez. cbn [andb]. apply (f_equal (λ b : bool, if b then None else Some z)), bool_decide_ext. set_solver.
Qed.

Lemma Parse_canonical st : canon_members (Parse st).2.
Proof.
  intros x (m & -> & (id & Hm & Hne)%members_of)%list_elem_of_fmap.
  assert (∀ rrs z, z = "" ∨ canonical z → last_PTR z rrs = "" ∨ canonical (last_PTR z rrs)) as HP.
  { intros rrs z Hz. unfold last_PTR. apply (foldl_inv (λ z, z = "" ∨ canonical z)); [done|]. intros y rr _ Hy.
    destruct (as_PTR rr); [right; apply canonical_Canonical|done]. }
  assert (zone_of (foldl (parse_node (st_origin st)) ∅ (ForEachNode st)) id = "" ∨
    canonical (zone_of (foldl (parse_node (st_origin st)) ∅ (ForEachNode st)) id)) as H.
  { apply (foldl_inv (λ b, zone_of b id = "" ∨ canonical (zone_of b id))); [by left|]. intros b n _ Hb. rewrite parse_node_zone.
    case_bool_decide; [by apply HP|done]. }
  unfold zone_of in H. rewrite Hm in H. by destruct H.
Qed.

Lemma Diff_canonical prev next : canon_members next → canon_members (Diff prev next).1.
Proof. intros Hc x [Hx _]%Diff_added_zones. by apply Hc. Qed.

(** What one catalog does to the monitor: it adds what is new in it, and
    removes what is gone from it if it had added it. *)
Definition watch_spec (c : Catalog) (before now : list Member) (x : string) (z : option ZoneRuntime) : option ZoneRuntime :=
  match z with
  | Some z => if bool_decide (z_Source z = catalog_source c) && bool_decide (x ∈ zones before ∧ x ∉ zones now) then None else Some z
  | None => if bool_decide (x ∈ zones now ∧ x ∉ zones before) then Some (member_zone c x) else None
  end.

Lemma watch_one_at c s prev z st :
  map_ok s → canon_members (default [] (prev !! ct_Name c)) → zone_at s (ct_Name c) = Some z → z_Store z = Some st →
  ∃ s', watch_one cfg (s, prev) c = (s', <[ct_Name c := (Parse st).2]> prev) ∧ map_ok s' ∧
    ∀ x, canonical x → zone_at s' x = watch_spec c (default [] (prev !! ct_Name c)) (Parse st).2 x (zone_at s x).
Proof.
  intros Hok Hcp Hz Hst. unfold watch_one. rewrite Hz, Hst. set (before := default [] _) in *. set (now := (Parse st).2).
  rewrite (surjective_pairing (Diff before now)), (Diff_removed before now).
  destruct (watch_adds_at c (Diff before now).1 s Hok (Diff_canonical _ _ (Parse_canonical st))) as [Hok1 H1].
  destruct (watch_removes_at c (Diff now before).1 _ Hok1 (Diff_canonical _ _ Hcp)) as [Hok2 H2].
  eexists. split; [done|]. split; [done|]. intros x Hc. rewrite (H2 x Hc), (H1 x Hc). unfold watch_spec.
  rewrite !(bool_decide_ext _ _ (Diff_added_zones _ _ x)).
  destruct (zone_at s x) as [z'|]; [done|]. destruct (decide (x ∈ zones now ∧ x ∉ zones before)) as [Hx|Hx].
  - rewrite !(bool_decide_true _ Hx), andb_comm, bool_decide_false by (intros [_ ?]; naive_solver). done.
  - by rewrite !(bool_decide_false _ Hx).
Qed.

(** The catalog is monitored itself, and has been transferred. *)
Definition catalog_at (s : Sys) (c : Catalog) (ms : list Member) : Prop :=
  ∃ z st, zone_at s (ct_Name c) = Some z ∧ z_Store z = Some st ∧ (Parse st).2 = ms ∧ ∀ c', z_Source z ≠ catalog_source c'.

(** The members of the catalog are monitored, and nothing else on its behalf. *)
Definition in_step (s : Sys) (c : Catalog) (ms : list Member) : Prop :=
  (∀ x, x ∈ zones ms → is_Some (zone_at s x)) ∧
  (∀ x z, canonical x → zone_at s x = Some z → z_Source z = catalog_source c → x ∈ zones ms).

Lemma catalog_source_inj c c' : catalog_source c = catalog_source c' → ct_Name c = ct_Name c'.
Proof. unfold catalog_source. by intros [= ?]. Qed.

Lemma watch_one_catalog c s prev s' prev' c' ms ms' :
  map_ok s → canon_members (default [] (prev !! ct_Name c)) → catalog_at s c ms → canonical (ct_Name c') →
  watch_one cfg (s, prev) c = (s', prev') → catalog_at s c' ms' → catalog_at s' c' ms'.
Proof.
  intros Hok Hcp (z & st & Hz & Hst & _ & _) Hc' Hw (z' & st' & Hz' & Hst' & Hms' & Hsrc).
  destruct (watch_one_at c s prev z st Hok Hcp Hz Hst) as (s2 & E & _ & H). rewrite Hw in E. injection E as -> _.
  exists z', st'. split; [|done]. rewrite (H _ Hc'), Hz'. unfold watch_spec. by rewrite bool_decide_false by done.
Qed.

(** The catalog that is read is in step afterwards. *)
Lemma watch_one_in_step c s prev s' prev' ms :
  map_ok s → canon_members (default [] (prev !! ct_Name c)) → catalog_at s c ms → watch_one cfg (s, prev) c = (s', prev') →
  in_step s c (default [] (prev !! ct_Name c)) → in_step s' c ms.
Proof.
  intros Hok Hcp (z & st & Hz & Hst & Hms & Hsrc) Hw [Hi1 Hi2].
  destruct (watch_one_at c s prev z st Hok Hcp Hz Hst) as (s2 & E & _ & H). rewrite Hw in E. injection E as -> _.
  rewrite Hms in H. set (before := default [] _) in *. split.
  - intros x Hx. assert (canonical x) as Hc by (apply (Parse_canonical st); by rewrite Hms). rewrite (H x Hc). unfold watch_spec.
    destruct (zone_at s x) as [z'|] eqn:Ez.
    + rewrite andb_comm, bool_decide_false by (intros [_ ?]; done). eauto.
    + rewrite bool_decide_true; [eauto|]. split; [done|]. intros [z'' Hb]%Hi1. congruence.
  - intros x z' Hc. rewrite (H x Hc). unfold watch_spec. destruct (zone_at s x) as [z''|] eqn:Ez.
    + destruct (bool_decide (z_Source z'' = catalog_source c)) eqn:Es; simpl.
      * apply bool_decide_eq_true in Es. destruct (decide (x ∈ zones before ∧ x ∉ zones ms)) as [Hx|Hx]; [by rewrite (bool_decide_true _ Hx)|].
        intros _ _. destruct (decide (x ∈ zones ms)); [done|]. destruct Hx. split; [by eapply Hi2|done].
      * intros [= <-] Es'. by apply bool_decide_eq_false in Es.
    + destruct (decide (x ∈ zones ms ∧ x ∉ zones before)) as [Hx|Hx]; [|by rewrite (bool_decide_false _ Hx)].
      intros _ _. by destruct Hx.
Qed.

(** Another catalog that has no member in common stays in step. *)
Lemma watch_one_other c c' s prev s' prev' ms ms' :
  map_ok s → canon_members (default [] (prev !! ct_Name c)) → catalog_at s c ms → watch_one cfg (s, prev) c = (s', prev') →
  ct_Name c ≠ ct_Name c' → canon_members ms' →
  (∀ x, x ∈ zones (default [] (prev !! ct_Name c)) ∨ x ∈ zones ms → x ∉ zones ms') → in_step s c' ms' → in_step s' c' ms'.
Proof.
  intros Hok Hcp (z & st & Hz & Hst & Hms & Hsrc) Hw Hne Hcm Hd [Hi1 Hi2].
  destruct (watch_one_at c s prev z st Hok Hcp Hz Hst) as (s2 & E & _ & H). rewrite Hw in E. injection E as -> _.
  rewrite Hms in H. set (before := default [] _) in *. split.
  - intros x Hx. rewrite (H x (Hcm x Hx)). destruct (Hi1 x Hx) as [z' ->]. unfold watch_spec.
    rewrite andb_comm, bool_decide_false; [eauto|]. intros [Hb _]. by apply (Hd x); [left|].
  - intros x z' Hc. rewrite (H x Hc). unfold watch_spec. destruct (zone_at s x) as [z''|] eqn:Ez.
    + destruct (_ && _); [done|]. intros [= <-]. by apply Hi2.
    + destruct (bool_decide _); [|done]. intros [= <-] Hs. cbn [z_Source member_zone NewZone] in Hs. by apply catalog_source_inj in Hs.
Qed.

Definition seen (prev : gmap string (list Member)) (c : Catalog) : list Member := default [] (prev !! ct_Name c).

(** What holds of a catalog between ticks. *)
Record tracked (s : Sys) (prev : gmap string (list Member)) (mem : Catalog → list Member) (c : Catalog) : Prop := {
  tr_name : canonical (ct_Name c);
  tr_at : catalog_at s c (mem c);
  tr_canon : canon_members (seen prev c);
  tr_step : in_step s c (seen prev c)
}.

Definition disjoint_members (b : Catalog → list Member) (mem : Catalog → list Member) (c c' : Catalog) : Prop :=
  ∀ x, (x ∈ zones (b c) ∨ x ∈ zones (mem c)) → ¬ (x ∈ zones (b c') ∨ x ∈ zones (mem c')).

Lemma catalog_at_canonical s c ms : catalog_at s c ms → canon_members ms.
Proof. intros (z & st & _ & _ & <- & _). apply Parse_canonical. Qed.

Lemma watch_one_tracked (cats : list Catalog) s prev mem b c s' prev' :
  map_ok s → c ∈ cats → (∀ c', c' ∈ cats → tracked s prev mem c') →
  (∀ c', c' ∈ cats → seen prev c' = b c' ∨ seen prev c' = mem c') →
  (∀ c c', c ∈ cats → c' ∈ cats → ct_Name c ≠ ct_Name c' → disjoint_members b mem c c') →
  watch_one cfg (s, prev) c = (s', prev') →
  map_ok s' ∧ seen prev' c = mem c ∧
  ∀ c', c' ∈ cats → tracked s' prev' mem c' ∧ (seen prev' c' = mem c' ∨ seen prev' c' = seen prev c').
Proof.
  intros Hok Hin Ht Hb Hd Hw. destruct (Ht c Hin) as [Hn Ha Hc Hs].
  pose proof Ha as (z & st & Hz & Hst & Hms & Hsrc).
  destruct (watch_one_at c s prev z st Hok Hc Hz Hst) as (s2 & E & Hok' & _). rewrite Hw, Hms in E. injection E as -> Hp.
  assert (seen prev' c = mem c) as Hsc by (unfold seen; by rewrite Hp, lookup_insert_eq).
  split; [done|]. split; [done|]. intros c' Hin'. destruct (Ht c' Hin') as [Hn' Ha' Hc' Hs'].
  assert (catalog_at s2 c' (mem c')) as Ha2 by (by apply (watch_one_catalog c s prev s2 prev' c' (mem c) (mem c'))).
  destruct (decide (ct_Name c = ct_Name c')) as [Heq|Hne].
  - assert (mem c' = mem c) as Hm.
    { destruct Ha' as (z' & st' & Hz' & Hst' & <- & _). rewrite <-Heq in Hz'. congruence. }
    assert (seen prev' c' = mem c) as Hs2 by (unfold seen in *; by rewrite <-Heq).
    assert (in_step s2 c (mem c)) as HI by (by apply (watch_one_in_step c s prev s2 prev')).
    split; [|left; congruence]. split; [done|done|..]; rewrite Hs2; [by eapply catalog_at_canonical|].
    unfold in_step, catalog_source in *. by rewrite <-Heq.
  - assert (seen prev' c' = seen prev c') as Hs2 by (unfold seen; by rewrite Hp, lookup_insert_ne).
    split; [|by right]. split; [done|done|by rewrite Hs2|]. rewrite Hs2.
    eapply (watch_one_other c c' s prev); [done|done|done|exact Hw|done|done| |done].
    intros x Hx Hx'. apply (Hd c c' Hin Hin' Hne x).
    + change (default [] (prev !! ct_Name c)) with (seen prev c) in Hx. destruct (Hb c Hin) as [Eb|Eb]; rewrite Eb in Hx; tauto.
    + destruct (Hb c' Hin') as [Eb|Eb]; rewrite Eb in Hx'; tauto.
Qed.

Lemma watch_tracked (cats : list Catalog) mem b (cs : list Catalog) s prev :
  (∀ c, c ∈ cs → c ∈ cats) → map_ok s → (∀ c', c' ∈ cats → tracked s prev mem c') →
  (∀ c', c' ∈ cats → seen prev c' = b c' ∨ seen prev c' = mem c') →
  (∀ c c', c ∈ cats → c' ∈ cats → ct_Name c ≠ ct_Name c' → disjoint_members b mem c c') →
  let '(s', prev') := foldl (watch_one cfg) (s, prev) cs in
  map_ok s' ∧ ∀ c, c ∈ cats → tracked s' prev' mem c ∧ (c ∈ cs ∨ seen prev c = mem c → seen prev' c = mem c).
Proof.
  revert s prev. induction cs as [|c cs IH]; intros s prev Hsub Hok Ht Hb Hd; cbn [foldl].
  - split; [done|]. intros c Hc. split; [by apply Ht|]. intros [?|?]; [set_solver|done].
  - destruct (watch_one cfg (s, prev) c) as [s1 prev1] eqn:Ew.
    destruct (watch_one_tracked cats s prev mem b c s1 prev1 Hok (Hsub c ltac:(set_solver)) Ht Hb Hd Ew) as (Hok1 & Hc1 & H1).
    assert (∀ c', c' ∈ cats → seen prev1 c' = b c' ∨ seen prev1 c' = mem c') as Hb1.
    { intros c' Hc'. destruct (H1 c' Hc') as [_ [E|E]]; [by right|]. rewrite E. by apply Hb. }
    specialize (IH s1 prev1 ltac:(set_solver) Hok1 (λ c' Hc', proj1 (H1 c' Hc')) Hb1 Hd).
    destruct (foldl _ _ cs) as [s' prev']. destruct IH as [Hok' IH]. split; [done|]. intros c' Hc'. destruct (IH c' Hc') as [Ht' Hm'].
    split; [done|]. intros [[->|Hcs]%elem_of_cons|Hm]; apply Hm'; [by right|by left|right].
    destruct (H1 c' Hc') as [_ [E|E]]; congruence.
Qed.

(** ** The watcher is part of the monitor *)

Lemma reach_map_ok s : reachable cfg s → map_ok s.
Proof. intros Hr%reachable_inv. by destruct Hr. Qed.

Lemma watch_add_reach c s m : reachable cfg s → reachable cfg (watch_add cfg c s m).
Proof.
  intros Hr. unfold watch_add. destruct (zone_at s (mb_Zone m)); [done|]. cbv zeta.
  set (s1 := AddZone _ _ _ _ _). assert (reachable cfg s1) as Hr1 by (eapply reach_step; [exact Hr|constructor]).
  set (s2 := publish _ _). assert (reachable cfg s2) as Hr2 by (eapply reach_step; [exact Hr1|constructor]).
  destruct (Get s2 (mb_Zone m)) as [loc|] eqn:E; [|done]. eapply reach_step; [exact Hr2|]. constructor.
  by apply (reach_map_ok _ Hr2) in E.
Qed.

Lemma watch_remove_reach c s m : reachable cfg s → reachable cfg (watch_remove c s m).
Proof.
  intros Hr. unfold watch_remove. destruct (zone_at s (mb_Zone m)) as [z|]; [|done]. destruct (bool_decide _); [|done].
  eapply reach_step; [|constructor]. eapply reach_step; [exact Hr|constructor].
Qed.

(** A tick is a sequence of steps of the monitor: what holds in its
    reachable states holds with the watcher running. *)
Lemma watch_reach s prev : reachable cfg s → reachable cfg (watch cfg (s, prev)).1.
Proof.
  intros Hr. unfold watch. apply (foldl_inv (λ w, reachable cfg w.1)); [done|]. intros [s1 prev1] c _ Hr1. simpl in Hr1.
  unfold watch_one. destruct (zone_at s1 (ct_Name c)) as [z|]; [|cbn [fst]; eapply reach_step; [exact Hr1|constructor]].
  destruct (z_Store z) as [st|]; [|done]. rewrite (surjective_pairing (Diff _ _)). cbn [fst].
  apply foldl_inv; [|intros; by apply watch_remove_reach]. apply foldl_inv; [done|]. intros; by apply watch_add_reach.
Qed.

(** What becomes of the zone [x] when the catalogs [cs] are read. *)
Definition followed (mem : Catalog → list Member) (cs : list Catalog) (x : string) (before after : option ZoneRuntime) : Prop :=
  match before with
  | Some z =>
      ((∃ c, c ∈ cs ∧ z_Source z = catalog_source c ∧ x ∉ zones (mem c)) ∧ after = None) ∨
      ((∀ c, c ∈ cs → z_Source z = catalog_source c → x ∈ zones (mem c)) ∧ after = Some z)
  | None =>
      (∃ c, c ∈ cs ∧ x ∈ zones (mem c) ∧ after = Some (member_zone c x)) ∨
      ((∀ c, c ∈ cs → x ∉ zones (mem c)) ∧ after = None)
  end.

Lemma same_members s prev mem c c' :
  tracked s prev mem c → tracked s prev mem c' → ct_Name c = ct_Name c' → mem c = mem c'.
Proof. intros [_ (z & st & Hz & Hst & <- & _) _ _] [_ (z' & st' & Hz' & Hst' & <- & _) _ _] Hn. rewrite Hn in Hz. congruence. Qed.

Lemma watch_pointwise (cats : list Catalog) mem b (cs : list Catalog) s prev x :
  (∀ c, c ∈ cs → c ∈ cats) → map_ok s → (∀ c', c' ∈ cats → tracked s prev mem c') →
  (∀ c', c' ∈ cats → seen prev c' = b c' ∨ seen prev c' = mem c') →
  (∀ c c', c ∈ cats → c' ∈ cats → ct_Name c ≠ ct_Name c' → disjoint_members b mem c c') →
  canonical x → followed mem cs x (zone_at s x) (zone_at (foldl (watch_one cfg) (s, prev) cs).1 x).
Proof.
  intros Hsub Hok Ht Hb Hd Hx. revert s prev Hsub Hok Ht Hb. induction cs as [|c cs IH]; intros s prev Hsub Hok Ht Hb; cbn [foldl fst].
  { unfold followed. destruct (zone_at s x); right; (split; [intros c Hc; by apply elem_of_nil in Hc|done]). }
  destruct (watch_one cfg (s, prev) c) as [s1 prev1] eqn:Ew. pose proof (Hsub c ltac:(left)) as Hc.
  destruct (watch_one_tracked cats s prev mem b c s1 prev1 Hok Hc Ht Hb Hd Ew) as (Hok1 & _ & H1).
  assert (zone_at s1 x = watch_spec c (seen prev c) (mem c) x (zone_at s x)) as Hone.
  { destruct (Ht c Hc) as [_ (z & st & Hz & Hst & Hms & _) Hcan _]. destruct (watch_one_at c s prev z st Hok Hcan Hz Hst) as (s2 & E & _ & Hs).
    rewrite Ew in E. injection E as -> _. rewrite <-Hms. by apply Hs. }
  specialize (IH s1 prev1 ltac:(intros ? ?; apply Hsub; by right) Hok1 (λ c' Hc', proj1 (H1 c' Hc'))).
  assert (∀ c', c' ∈ cats → seen prev1 c' = b c' ∨ seen prev1 c' = mem c') as Hb1.
  { intros c' Hc'. destruct (H1 c' Hc') as [_ [E|E]]; [by right|]. rewrite E. by apply Hb. }
  specialize (IH Hb1). rewrite Hone in IH. clear Hone Ew H1 Hb1. destruct (tr_step _ _ _ _ (Ht c Hc)) as [HI1 HI2].
  assert (∀ c', c' ∈ cs → ct_Name c = ct_Name c' → mem c' = mem c) as Hsame.
  { intros c' Hc' Hn. symmetry. apply (same_members s prev mem c c'); [by apply Ht|apply Ht, Hsub; by right|done]. }
  unfold watch_spec in IH. destruct (zone_at s x) as [z|] eqn:Ez.
  - destruct (decide (z_Source z = catalog_source c ∧ x ∈ zones (seen prev c) ∧ x ∉ zones (mem c))) as [(Hs & Hin & Hout)|Hno].
    + rewrite (bool_decide_true _ Hs), (bool_decide_true _ (conj Hin Hout)) in IH. left. split; [exists c; split; [by left|done]|].
      destruct IH as [(c' & Hc' & Hm & _)|[_ ->]]; [exfalso|done].
      destruct (decide (ct_Name c = ct_Name c')) as [Hn|Hn]; [by rewrite (Hsame c' Hc' Hn) in Hm|].
      apply (Hd c c' Hc (Hsub c' ltac:(by right)) Hn x); [|by right]. destruct (Hb c Hc) as [E|E]; rewrite E in Hin; tauto.
    + assert (bool_decide (z_Source z = catalog_source c) && bool_decide (x ∈ zones (seen prev c) ∧ x ∉ zones (mem c)) = false) as E.
      { apply andb_false_iff. rewrite !bool_decide_eq_false. destruct (decide (z_Source z = catalog_source c)); tauto. }
      rewrite E in IH. destruct IH as [[(c' & Hc' & ?) ->]|[Hall ->]]; [left|right]; (split; [|done]).
      * exists c'. split; [by right|done].
      * intros c' [->|Hc']%elem_of_cons Hs; [|by apply Hall]. pose proof (HI2 x z Hx Ez Hs). destruct (decide (x ∈ zones (mem c))); tauto.
  - destruct (decide (x ∈ zones (mem c))) as [Hin|Hout].
    + rewrite bool_decide_true in IH by (split; [done|]; intros Hse; destruct (HI1 x Hse); congruence). left. exists c. split; [by left|]. split; [done|].
      destruct IH as [[(c' & Hc' & Hs & Hout) _]|[_ ->]]; [exfalso|done]. apply catalog_source_inj in Hs. by rewrite (Hsame c' Hc' Hs) in Hout.
    + rewrite bool_decide_false in IH by (by intros [? _]). destruct IH as [(c' & Hc' & ?)|[Hall ->]]; [left|right].
      * exists c'. split; [by right|done].
      * split; [|done]. intros c' [->|Hc']%elem_of_cons; [done|by apply Hall].
Qed.

(** C30: the monitor follows the catalogs. If the catalogs are monitored and
    transferred, and no zone is a member of two of them (before or now), a
    tick does to every zone exactly this: one that is monitored on behalf of
    a catalog that does not list it any more is gone; a member that was not
    monitored is, as a new zone with that catalog as its source; everything
    else, a member that is monitored for another reason included, is as it
    was. The members seen are the ones the catalogs list now, and what was
    assumed of the catalogs holds again, so that it is the same with every
    further tick. A tick is a run of the monitor. *)
Theorem watch_follows s prev mem s' prev' :
  reachable cfg s → (∀ c, c ∈ c_Catalogs cfg → tracked s prev mem c) →
  (∀ c c', c ∈ c_Catalogs cfg → c' ∈ c_Catalogs cfg → ct_Name c ≠ ct_Name c' → disjoint_members (seen prev) mem c c') →
  watch cfg (s, prev) = (s', prev') →
  reachable cfg s' ∧ (∀ c, c ∈ c_Catalogs cfg → tracked s' prev' mem c ∧ seen prev' c = mem c) ∧
  (∀ x c z, c ∈ c_Catalogs cfg → canonical x → zone_at s x = Some z → z_Source z = catalog_source c → x ∉ zones (mem c) →
     zone_at s' x = None) ∧
  (∀ x c, c ∈ c_Catalogs cfg → x ∈ zones (mem c) → zone_at s x = None →
     ∃ c', c' ∈ c_Catalogs cfg ∧ ct_Name c' = ct_Name c ∧ zone_at s' x = Some (member_zone c' x)) ∧
  (∀ x z, canonical x → zone_at s x = Some z → (∀ c, c ∈ c_Catalogs cfg → z_Source z = catalog_source c → x ∈ zones (mem c)) →
     zone_at s' x = Some z) ∧
  (∀ x, canonical x → zone_at s x = None → (∀ c, c ∈ c_Catalogs cfg → x ∉ zones (mem c)) → zone_at s' x = None).
Proof.
  intros Hr Ht Hd Hw. pose proof (watch_reach s prev Hr) as Hr'. rewrite Hw in Hr'. pose proof (reach_map_ok _ Hr) as Hok.
  pose proof (watch_tracked (c_Catalogs cfg) mem (seen prev) (c_Catalogs cfg) s prev) as H.
  pose proof (λ x, watch_pointwise (c_Catalogs cfg) mem (seen prev) (c_Catalogs cfg) s prev x (λ c Hc, Hc) Hok Ht (λ c _, or_introl eq_refl) Hd) as HP.
  unfold watch in Hw. rewrite Hw in H, HP. cbn [fst] in HP. destruct H as [_ H]; [done..|by left|done|]. split; [done|].
  assert (∀ c x, c ∈ c_Catalogs cfg → x ∈ zones (mem c) → canonical x) as Hcan.
  { intros c x Hc. destruct (Ht c Hc) as [_ Ha _ _]. by apply (catalog_at_canonical _ _ _ Ha). }
  split_and!.
  - intros c Hc. destruct (H c Hc) as [Ht' Hm']. split; [done|]. by apply Hm'; left.
  - intros x c z Hc Hx Hz Hs Hout. specialize (HP x Hx). rewrite Hz in HP. destruct HP as [[_ ?]|[Hall _]]; [done|]. by destruct Hout; apply Hall.
  - intros x c Hc Hin Hz. specialize (HP x (Hcan c x Hc Hin)). rewrite Hz in HP. destruct HP as [(c' & Hc' & Hin' & Hz')|[Hall _]].
    + exists c'. split; [done|]. split; [|done]. destruct (decide (ct_Name c' = ct_Name c)) as [|Hn]; [done|]. exfalso.
      apply (Hd c' c Hc' Hc Hn x); by right.
    + by destruct (Hall c Hc).
  - intros x z Hx Hz Hall. specialize (HP x Hx). rewrite Hz in HP. destruct HP as [[(c & Hc & Hs & Hout) _]|[_ ?]]; [|done]. by destruct Hout; apply Hall.
  - intros x Hx Hz Hall. specialize (HP x Hx). rewrite Hz in HP. destruct HP as [(c & Hc & Hin & _)|[_ ?]]; [|done]. by destruct (Hall c Hc).
Qed.

(** ** A member that moves *)

Record two_read (mem : Catalog → list Member) (c1 c2 : Catalog) (w : Sys * gmap string (list Member)) : Prop := {
  lo_map : map_ok w.1;
  lo_at1 : catalog_at w.1 c1 (mem c1);
  lo_at2 : catalog_at w.1 c2 (mem c2);
  lo_canon1 : canon_members (seen w.2 c1);
  lo_canon2 : canon_members (seen w.2 c2)
}.

(** One catalog of the two is read. *)
Lemma two_read_one mem c1 c2 x w c :
  (c = c1 ∨ c = c2) → ct_Name c1 ≠ ct_Name c2 → canonical (ct_Name c1) → canonical (ct_Name c2) → canonical x →
  map_ok w.1 → catalog_at w.1 c1 (mem c1) → catalog_at w.1 c2 (mem c2) → canon_members (seen w.2 c1) → canon_members (seen w.2 c2) →
  let w' := watch_one cfg w c in
  map_ok w'.1 ∧ catalog_at w'.1 c1 (mem c1) ∧ catalog_at w'.1 c2 (mem c2) ∧ canon_members (seen w'.2 c1) ∧ canon_members (seen w'.2 c2) ∧
  seen w'.2 c = mem c ∧ (∀ c', ct_Name c' ≠ ct_Name c → seen w'.2 c' = seen w.2 c') ∧
  zone_at w'.1 x = watch_spec c (seen w.2 c) (mem c) x (zone_at w.1 x).
Proof.
  intros Hc Hne Hn1 Hn2 Hx Hok A1 A2 C1 C2. destruct w as [s prev]. cbn [fst snd] in *.
  assert (catalog_at s c (mem c)) as A by by destruct Hc as [-> | ->].
  assert (canon_members (default [] (prev !! ct_Name c))) as C by by destruct Hc as [-> | ->].
  pose proof A as (z & st & Hz & Hst & Hms & _).
  destruct (watch_one_at c s prev z st Hok C Hz Hst) as (s' & E & Hok' & Hspec). rewrite Hms in E, Hspec.
  set (prev' := <[ct_Name c := mem c]> prev) in E. cbv zeta. rewrite E. cbn [fst snd].
  assert (seen prev' c = mem c) as Hsc by (unfold seen, prev'; by rewrite lookup_insert_eq).
  assert (∀ c', ct_Name c' ≠ ct_Name c → seen prev' c' = seen prev c') as Hso
    by (intros c' Hc'; unfold seen, prev'; by rewrite lookup_insert_ne).
  assert (canon_members (mem c)) as Hcm by by eapply catalog_at_canonical.
  split_and!; [done|by apply (watch_one_catalog c s prev s' prev' c1 (mem c) (mem c1))|
    by apply (watch_one_catalog c s prev s' prev' c2 (mem c) (mem c2))|..|done|done|by apply Hspec].
  - destruct Hc as [-> | ->]; [by rewrite Hsc|by rewrite Hso].
  - destruct Hc as [-> | ->]; [rewrite Hso by done; done|by rewrite Hsc].
Qed.

Lemma two_read_spec mem c1 c2 x w :
  c_Catalogs cfg = [c1; c2] → ct_Name c1 ≠ ct_Name c2 → canonical (ct_Name c1) → canonical (ct_Name c2) → canonical x →
  two_read mem c1 c2 w →
  two_read mem c1 c2 (watch cfg w) ∧ seen (watch cfg w).2 c1 = mem c1 ∧
  zone_at (watch cfg w).1 x = watch_spec c2 (seen w.2 c2) (mem c2) x (watch_spec c1 (seen w.2 c1) (mem c1) x (zone_at w.1 x)).
Proof.
  intros Hcfg Hne Hn1 Hn2 Hx [Hok A1 A2 C1 C2]. unfold watch. rewrite Hcfg. cbn [foldl].
  destruct (two_read_one mem c1 c2 x w c1 (or_introl eq_refl) Hne Hn1 Hn2 Hx Hok A1 A2 C1 C2) as (Hok1 & A11 & A12 & C11 & C12 & S1 & O1 & Z1).
  set (w1 := watch_one cfg w c1) in *.
  destruct (two_read_one mem c1 c2 x w1 c2 (or_intror eq_refl) Hne Hn1 Hn2 Hx Hok1 A11 A12 C11 C12) as (Hok2 & A21 & A22 & C21 & C22 & S2 & O2 & Z2).
  split; [done|]. split; [by rewrite O2|]. by rewrite Z2, Z1, O1 by congruence.
Qed.

(** A member that moves to a catalog listed earlier is lost. If a zone
    monitored on behalf of the second of two catalogs is, at the next tick, a
    member of the first one and no longer of the second, then it is not
    monitored after that tick nor after any later one, although it is a
    member of a catalog all along: the first catalog leaves the zone alone
    because it is monitored, and the second one then removes it. *)
Theorem moved_member_lost mem s prev c1 c2 x z n :
  c_Catalogs cfg = [c1; c2] → ct_Name c1 ≠ ct_Name c2 → reachable cfg s →
  tracked s prev mem c1 → tracked s prev mem c2 →
  zone_at s x = Some z → z_Source z = catalog_source c2 → x ∈ zones (mem c1) → x ∉ zones (mem c2) →
  zone_at (iter_n (watch cfg) (S n) (s, prev)).1 x = None.
Proof.
  intros Hcfg Hne Hr [Hn1 A1 C1 _] [Hn2 A2 C2 I2] Hz Hsrc Hm1 Hm2.
  assert (canonical x) as Hx by by apply (catalog_at_canonical _ _ _ A1).
  assert (map_ok s) as Hok by by apply reach_map_ok.
  assert (x ∈ zones (seen prev c2)) as Hseen by (by apply (proj2 I2 x z)).
  assert (∀ k, let w := iter_n (watch cfg) (S k) (s, prev) in
    two_read mem c1 c2 w ∧ seen w.2 c1 = mem c1 ∧ zone_at w.1 x = None) as H; [|by destruct (H n) as (_ & _ & ?)].
  intros k. cbv zeta. induction k as [|k (HL & HS & HZ)].
  - destruct (two_read_spec mem c1 c2 x (s, prev) Hcfg Hne Hn1 Hn2 Hx) as (HL & HS & HZ); [by split|]. split; [done|]. split; [done|].
    cbn [iter_n]. rewrite HZ. cbn [fst snd]. rewrite Hz. unfold watch_spec at 2.
    rewrite bool_decide_false by (rewrite Hsrc; by intros E%catalog_source_inj). cbn [andb watch_spec].
    by rewrite !bool_decide_true by done.
  - rewrite iter_n_S. destruct (two_read_spec mem c1 c2 x _ Hcfg Hne Hn1 Hn2 Hx HL) as (HL' & HS' & ->). split; [done|]. split; [done|].
    rewrite HZ, HS. unfold watch_spec. rewrite bool_decide_false by (by intros [_ ?]). by rewrite bool_decide_false by (by intros [? _]).
Qed.
End watch_facts.

(** ** Witnesses *)

Definition toy_PTR (name target : string) : RR := mkRR (hdr name TypePTR) (RD_PTR target).
Definition toy_member_rr (catalog : string) : RR := toy_PTR ("m1.zones." +:+ catalog) "X.".
Definition toy_cat (c : string) : Catalog := mkCatalog c ["one"] "" ["one"] "" false.
Definition toy_cat_store (c : string) (rrs : list RR) : Store := built c (toy_SOA c 1 :: rrs).
Definition toy_catalogs (cs : list string) : Config := {|
  c_TSIGKeys := []; c_Servers := [Config.mkServer "one" "192.0.2.1" 53 ""]; c_Zones := []; c_Catalogs := toy_cat <$> cs;
  c_Refresh := c_Refresh Defaults; c_Notify := c_Notify Defaults; c_Verification := c_Verification Defaults;
  c_ChainOfTrust := c_ChainOfTrust Defaults; c_Webhooks := c_Webhooks Defaults; c_State := c_State Defaults;
  c_APIListen := ""; c_Logging := c_Logging Defaults; c_Theme := c_Theme Defaults |}.

(** Two catalogs; the zone [x.] is monitored for the second and listed by the first. *)
Definition toy_watched : Sys := mkSys
  [with_Store (NewZone "a." "catalog" [] "") (Some (toy_cat_store "a." [toy_member_rr "a."]));
   with_Store (NewZone "b." "catalog" [] "") (Some (toy_cat_store "b." []));
   NewZone "x." "catalog:b." [] ""]
  (<["a." := 0]> (<["b." := 1]> {["x." := 2]})) 0 [] [].
Definition toy_x : Member := mkMember "m1" "x." "" "".
Definition toy_prev : gmap string (list Member) := {["b." := [toy_x]]}.
Definition toy_mem (c : Catalog) : list Member := if bool_decide (ct_Name c = "a.") then [toy_x] else [].

Lemma toy_watched_reachable cfg : reachable cfg toy_watched.
Proof.
  apply reach_init. split; [done|done|by repeat constructor|].
  intros name loc. unfold toy_watched. cbn [s_zones s_heap length].
  intros [[_ <-]|[_ [[_ <-]|[_ [_ <-]%lookup_singleton_Some]]%lookup_insert_Some]]%lookup_insert_Some; lia.
Qed.

Lemma toy_catalog_at c st z :
  zone_at toy_watched c = Some z → z_Store z = Some st → z_Source z = "catalog" →
  bool_decide ((Parse st).2 = toy_mem (toy_cat c)) = true → catalog_at toy_watched (toy_cat c) (toy_mem (toy_cat c)).
Proof. intros Hz Hst Hs Hm%bool_decide_eq_true. exists z, st. split_and!; [done..|]. intros c'. rewrite Hs. by unfold catalog_source. Qed.

(** The zones monitored for a catalog in the example. *)
Lemma toy_sources c x z :
  canonical x → zone_at toy_watched x = Some z → z_Source z = catalog_source (toy_cat c) → x = "x." ∧ c = "b.".
Proof.
  intros Hx. unfold zone_at, Get. rewrite Hx. unfold toy_watched. cbn [s_zones s_heap].
  destruct (decide (x = "a.")) as [->|Ha]; [rewrite lookup_insert_eq; by intros [= <-]|rewrite lookup_insert_ne by done].
  destruct (decide (x = "b.")) as [->|Hb]; [rewrite lookup_insert_eq; by intros [= <-]|rewrite lookup_insert_ne by done].
  destruct (decide (x = "x.")) as [->|Hc]; [rewrite lookup_singleton_eq|by rewrite lookup_singleton_ne].
  intros [= <-]. unfold catalog_source. cbn [z_Source NewZone ct_Name toy_cat]. intros [= ->]. done.
Qed.

Lemma toy_tracked prev c :
  (c = "a." ∧ (prev = toy_prev ∨ prev = ∅)) ∨ (c = "b." ∧ prev = toy_prev) →
  tracked toy_watched prev toy_mem (toy_cat c).
Proof.
  intros Hc. split.
  - destruct Hc as [[-> _]|[-> _]]; vm_compute; reflexivity.
  - destruct Hc as [[-> _]|[-> _]]; (eapply toy_catalog_at; [reflexivity|reflexivity|reflexivity|vm_compute; reflexivity]).
  - intros x. destruct Hc as [[-> [-> | ->]]|[-> ->]]; unfold seen, toy_prev; cbn [ct_Name toy_cat].
    + rewrite lookup_singleton_ne by done. set_solver.
    + rewrite lookup_empty. set_solver.
    + rewrite lookup_singleton_eq. cbn. rewrite list_elem_of_singleton. intros ->. vm_compute. reflexivity.
  - split.
    + intros x. destruct Hc as [[-> [-> | ->]]|[-> ->]]; unfold seen, toy_prev; cbn [ct_Name toy_cat].
      * rewrite lookup_singleton_ne by done. set_solver.
      * rewrite lookup_empty. set_solver.
      * rewrite lookup_singleton_eq. cbn. rewrite list_elem_of_singleton. intros ->. by exists (NewZone "x." "catalog:b." [] "").
    + intros x z Hx Hz [-> ->]%(toy_sources c x z Hx Hz). destruct Hc as [[? _]|[_ ->]]; [done|].
      unfold seen, toy_prev. cbn [ct_Name toy_cat]. rewrite lookup_singleton_eq. cbn. set_solver.
Qed.

Lemma moved_member_lost_witness :
  zone_at (iter_n (watch (toy_catalogs ["a."; "b."])) 3 (toy_watched, toy_prev)).1 "x." = None ∧
  "x." ∈ zones (toy_mem (toy_cat "a.")).
Proof.
  assert ("x." ∈ zones (toy_mem (toy_cat "a."))) as Hx by (vm_compute; left).
  split; [|exact Hx].
  apply (moved_member_lost (toy_catalogs ["a."; "b."]) toy_mem toy_watched toy_prev (toy_cat "a.") (toy_cat "b.") "x."
    (NewZone "x." "catalog:b." [] "") 2); [done|done|apply toy_watched_reachable| | |reflexivity|reflexivity|exact Hx|].
  - apply toy_tracked. left. split; [done|by left].
  - apply toy_tracked. by right.
  - vm_compute. intros H. inversion H.
Defined.

(** The same before [x.] is monitored. *)
Definition toy_unwatched : Sys := RemoveZone toy_watched "x.".

Lemma toy_unwatched_tracked : tracked toy_unwatched ∅ toy_mem (toy_cat "a.").
Proof.
  split.
  - vm_compute. reflexivity.
  - destruct (tr_at _ _ _ _ (toy_tracked ∅ "a." (or_introl (conj eq_refl (or_intror eq_refl))))) as (z & st & Hz & H).
    exists z, st. split; [|exact H]. unfold toy_unwatched. rewrite remove_zone_at, bool_decide_false; [exact Hz|]. vm_compute. discriminate.
  - intros x. unfold seen. rewrite lookup_empty. intros H. by apply elem_of_nil in H.
  - split.
    + intros x. unfold seen. rewrite lookup_empty. intros H. by apply elem_of_nil in H.
    + intros x z Hx. unfold toy_unwatched. rewrite remove_zone_at. case_bool_decide; [done|]. intros Hz Hs.
      by destruct (toy_sources "a." x z Hx Hz Hs).
Qed.

Lemma watch_follows_witness :
  let cfg := toy_catalogs ["a."] in
  let w := watch cfg (toy_unwatched, ∅) in
  zone_at toy_unwatched "x." = None ∧ seen w.2 (toy_cat "a.") = [toy_x] ∧ zone_at w.1 "x." = Some (member_zone cfg (toy_cat "a.") "x.").
Proof.
  cbv zeta. set (cfg := toy_catalogs ["a."]).
  assert (zone_at toy_unwatched "x." = None) as Hx by (unfold toy_unwatched; by rewrite remove_zone_at, bool_decide_true).
  assert (∀ c, c ∈ c_Catalogs cfg → c = toy_cat "a.") as Hone by (intros c Hc; by apply list_elem_of_singleton in Hc).
  assert (toy_cat "a." ∈ c_Catalogs cfg) as Hin by by apply list_elem_of_singleton.
  destruct (watch_follows cfg toy_unwatched ∅ toy_mem (watch cfg (toy_unwatched, ∅)).1 (watch cfg (toy_unwatched, ∅)).2) as (_ & Hs & _ & Ha & _).
  - eapply reach_step; [apply toy_watched_reachable|constructor].
  - intros c ->%Hone. exact toy_unwatched_tracked.
  - intros c c' ->%Hone ->%Hone Hne. by exfalso.
  - apply surjective_pairing.
  - split; [exact Hx|]. split; [exact (proj2 (Hs _ Hin))|].
    destruct (Ha "x." (toy_cat "a.") Hin) as (c' & ->%Hone & _ & Hz); [by apply list_elem_of_singleton|exact Hx|exact Hz].
Defined.

Lemma Parse_members_witness :
  let st := toy_cat_store "a." [toy_member_rr "a."] in
  ∃ m, m ∈ (Parse st).2 ∧ mb_ID m = "m1" ∧ mb_Zone m = "x.".
Proof.
  cbv zeta. set (st := toy_cat_store "a." [toy_member_rr "a."]).
  assert (store_wf st) as Hwf by apply built_wf.
  assert (separated st) as Hsep.
  { assert (forallb (λ e, negb (HasSuffix e.1 (".zones." +:+ st_origin st)) || IsFqdn (TrimSuffix e.1 (".zones." +:+ st_origin st) +:+ "."))
      (map_to_list (st_nodes st)) = true) as H by (vm_compute; reflexivity).
    intros name n Hn Hs. rewrite forallb_elem_of in H. specialize (H (name, n) (proj2 (elem_of_map_to_list _ _ _) Hn)).
    cbn [fst] in H. by rewrite Hs in H. }
  apply (Parse_members st "m1" "x." Hwf Hsep).
  assert (bool_decide ((λ n, last_PTR "" (ok_or [] (UnpackType n TypePTR))) <$> st_nodes st !! "m1.zones.a." = Some "x.") = true) as H
    by (vm_compute; reflexivity).
  apply bool_decide_eq_true, fmap_Some in H as (n & Hn & Hx).
  exists n. split; [exact Hn|]. split; [vm_compute; reflexivity|]. by apply points_to_last.
Defined.
