(* ===== verification/Notify.v ===== *)
(** * NOTIFY (internal/notify/listener.go)

    The listener that primaries tell about changes. A message passes the
    access list, must parse, be a NOTIFY and, if so configured, carry a TSIG;
    it is then published and, unless the zone was notified less than half a
    second ago, a refresh of the zone is requested. Main results: exactly
    which messages request a refresh; requests for a zone are at least half
    a second apart; with TSIG required and a key configured nothing without
    a valid TSIG gets through, but with TSIG required and no key any TSIG
    record does; a message that does not arrive in one piece over TCP is
    read with zeros in place of its end. *)

From S2P Require Import Prelude GoStrings DnsLib DnsName NetAddr Bytes Config Event Xfr Toy.

(** The parts of a [dns.Msg] the listener reads. *)
Record NMsg := mkNMsg { nm_Opcode : Z; nm_Question : list string; nm_IsTsig : bool }.

(** The message functions of the DNS library: [TsigVerify wire secret] is
    [dns.TsigVerify(wire, secret, "", false) == nil]; [PackReply m rcode aa]
    packs the reply [SetReply] makes of [m], with the response code and the
    authoritative flag. *)
Class NotifyLib : Type := {
  UnpackMsg : bytes → option NMsg;
  TsigVerify : bytes → string → bool;
  PackReply : NMsg → Z → bool → option bytes
}.

Definition OpcodeNotify : Z := 4.
Definition RcodeSuccess : Z := 0.
Definition RcodeRefused : Z := 5.
Definition RcodeNotAuth : Z := 9.
Definition debounce_interval : Duration := 500000000%Z.

(** What handling a message does besides answering. *)
Inductive NEffect :=
| NPublish (e : Event)
| NRefresh (zone : string)
| NCount (transport result : string).

Section notify.
Context `{DL : !DnsLib, NB : !NotifyLib}.

(** [keys] is [nil] unless a key with a secret is configured. *)
Record Listener := mkListener {
  ln_cfg : NotifyConfig; ln_keys : option (gmap string string); ln_keyName : string; ln_keyAlg : string;
  ln_nets : list IPNet; ln_last : gmap string Time
}.

Fixpoint parse_sources (nets : list IPNet) (sources : list string) : result (list IPNet) :=
  match sources with
  | [] => Ok nets
  | cidr :: sources =>
      match ParseCIDR cidr with
      | Some n => parse_sources (nets ++ [n]) sources
      | None =>
          match ParseIP cidr with
          | None => Err ("notify allowed_sources " +:+ cidr)
          | Some ip => parse_sources (nets ++ [host_net ip]) sources
          end
      end
  end.

Definition New (cfg : NotifyConfig) (tsig : TSIGKey) : result Listener :=
  let '(keys, keyName, keyAlg) :=
    if negb (bool_decide (tk_Name tsig = "")) && negb (bool_decide (tk_Secret tsig = ""))
    then (Some {[Canonical (tk_Name tsig) := tk_Secret tsig]}, Canonical (tk_Name tsig),
          if bool_decide (tk_Algorithm tsig = "") then HmacSHA256 else tk_Algorithm tsig)
    else (None, "", "") in
  nets ← parse_sources [] (nt_AllowedSources cfg);
  Ok (mkListener cfg keys keyName keyAlg nets ∅).

Definition TSIGFromConfig (cfg : Config) : TSIGKey :=
  if bool_decide (nt_TSIGKey (c_Notify cfg) = "") then mkTSIGKey "" "" ""
  else
    match TSIGByName cfg (nt_TSIGKey (c_Notify cfg)) with
    | None => mkTSIGKey "" "" ""
    | Some k =>
        if negb (Contains (tk_Algorithm k) "hmac") && negb (bool_decide (tk_Algorithm k = ""))
        then mkTSIGKey (tk_Name k) HmacSHA256 (tk_Secret k) else k
    end.

Definition allowed (l : Listener) (ip : option (list Z)) : bool :=
  if bool_decide (ln_nets l = []) then true
  else match ip with
    | None => false
    | Some ip => existsb (λ n, IPNet_Contains n ip) (ln_nets l)
    end.

Definition with_last (l : Listener) (last : gmap string Time) : Listener :=
  mkListener (ln_cfg l) (ln_keys l) (ln_keyName l) (ln_keyAlg l) (ln_nets l) last.

(** [debounce]: the clock is read for the comparison, and again. *)
Definition debounce (since now : Time) (l : Listener) (zone : string) : Listener * bool :=
  match ln_last l !! zone with
  | Some t =>
      if bool_decide (since - t < debounce_interval)%Z then (l, false)
      else (with_last l (<[zone := now]> (ln_last l)), true)
  | None => (with_last l (<[zone := now]> (ln_last l)), true)
  end.

Definition refused (m : NMsg) : option bytes := PackReply m RcodeRefused false.
Definition notauth (m : NMsg) : option bytes := PackReply m RcodeNotAuth false.

(** Whether a message passes the TSIG test. *)
Definition tsig_ok (l : Listener) (wire : bytes) (m : NMsg) : bool :=
  if nt_RequireTSIG (ln_cfg l) then
    if negb (nm_IsTsig m) then false
    else match ln_keys l with
      | Some keys => TsigVerify wire (default "" (keys !! ln_keyName l))
      | None => true
      end
  else true.

Definition notify_event (zone transport : string) : Event :=
  mkEvent NotifyReceived zone zeroTime "" "" "" "ok" transport "" ∅.

(** [handle]: the listener after, the answer, and what is done. *)
Definition handle (since now : Time) (l : Listener) (wire : bytes) (ip : option (list Z)) (transport : string)
  : Listener * option bytes * list NEffect :=
  if negb (allowed l ip) then (l, None, [NCount transport "acl"])
  else
    match UnpackMsg wire with
    | None => (l, None, [NCount transport "parse"])
    | Some msg =>
        if negb (bool_decide (nm_Opcode msg = OpcodeNotify)) then (l, refused msg, [NCount transport "opcode"])
        else if negb (tsig_ok l wire msg) then (l, notauth msg, [NCount transport "notauth"])
        else
          match nm_Question msg with
          | [] => (l, refused msg, [NCount transport "question"])
          | q :: _ =>
              let zname := Canonical q in
              let '(l, fresh) := debounce since now l zname in
              (l, PackReply msg RcodeSuccess true,
               NPublish (notify_event zname transport) :: (if fresh then [NRefresh zname] else []) ++ [NCount transport "ok"])
          end
    end.

(** ** TCP *)

(** A connection as the pieces its reads return; a read fills at most the
    buffer, and fails at the end. *)
Definition conn_Read (n : nat) (conn : list bytes) : option (bytes * list bytes) :=
  match conn with
  | [] => None
  | c :: conn =>
      if bool_decide (String.length c ≤ n) then Some (c, conn)
      else Some (str_take n c, str_drop n c :: conn)
  end.

(** [make([]byte, n)] with the first bytes overwritten. *)
Definition into_buffer (n : nat) (s : bytes) : bytes := s +:+ Repeat (String "000" "") (n - String.length s).

(** The message [serveTCP] reads: two bytes of length, and the body, by one
    read each. *)
Definition tcp_message (conn : list bytes) : option bytes :=
  '(hdr, conn) ← conn_Read 2 conn;
  let ln := Z.to_nat (be_dec (into_buffer 2 hdr)) in
  '(body, _) ← (if bool_decide (ln = 0) then Some ("", conn) else conn_Read ln conn);
  Some (into_buffer ln body).

(** What [serveTCP] writes. *)
Definition tcp_reply (resp : option bytes) : option bytes :=
  (λ r, be 2 (wrapN 16 (Z.of_nat (String.length r))) +:+ r) <$> resp.
End notify.

(** ** Which messages request a refresh *)

Section facts.
Context `{DL : !DnsLib, NB : !NotifyLib}.

Definition requests (es : list NEffect) : list string := omap (λ e, if e is NRefresh z then Some z else None) es.

(** When a zone may be refreshed again. *)
Definition due (since : Time) (l : Listener) (zone : string) : Prop :=
  match ln_last l !! zone with Some t => (debounce_interval ≤ since - t)%Z | None => True end.

Lemma debounce_spec since now l zone :
  (due since l zone ∧ debounce since now l zone = (with_last l (<[zone := now]> (ln_last l)), true)) ∨
  (¬ due since l zone ∧ debounce since now l zone = (l, false)).
Proof.
  unfold debounce, due. destruct (ln_last l !! zone) as [t|]; [|by left].
  case_bool_decide; [right|left]; (split; [lia|done]).
Qed.

(** The test of the access list, the message and its signature. *)
Record accepted (l : Listener) (wire : bytes) (ip : option (list Z)) (zone : string) : Prop := {
  ac_source : ln_nets l = [] ∨ ∃ a n, ip = Some a ∧ n ∈ ln_nets l ∧ IPNet_Contains n a = true;
  ac_message : ∃ m q qs, UnpackMsg wire = Some m ∧ nm_Opcode m = OpcodeNotify ∧ nm_Question m = q :: qs ∧ zone = Canonical q ∧
    (nt_RequireTSIG (ln_cfg l) = true → nm_IsTsig m = true ∧
      ∀ keys, ln_keys l = Some keys → TsigVerify wire (default "" (keys !! ln_keyName l)) = true)
}.

Lemma allowed_spec l ip :
  allowed l ip = true ↔ ln_nets l = [] ∨ ∃ a n, ip = Some a ∧ n ∈ ln_nets l ∧ IPNet_Contains n a = true.
Proof.
  unfold allowed. case_bool_decide as Hn; [split; [by left|done]|]. destruct ip as [a|].
  - rewrite existsb_elem_of. split; [intros (n & ? & ?); right; by exists a, n|]. intros [?|(? & n & [= <-] & ? & ?)]; [done|]. by exists n.
  - split; [done|]. by intros [?|(? & ? & ? & _)].
Qed.

Lemma tsig_ok_spec l wire m :
  tsig_ok l wire m = true ↔ (nt_RequireTSIG (ln_cfg l) = true → nm_IsTsig m = true ∧
    ∀ keys, ln_keys l = Some keys → TsigVerify wire (default "" (keys !! ln_keyName l)) = true).
Proof.
  unfold tsig_ok. destruct (nt_RequireTSIG (ln_cfg l)); [|done]. destruct (nm_IsTsig m); simpl; [|naive_solver].
  destruct (ln_keys l) as [keys|]; [|naive_solver]. split; [by intros ? _; split; [done|]; intros ? [= <-]|naive_solver].
Qed.

(** What [handle] does, in one case distinction. *)
Lemma handle_cases since now l wire ip transport :
  let '(l', resp, es) := handle since now l wire ip transport in
  (∃ zone, accepted l wire ip zone ∧ due since l zone ∧ requests es = [zone] ∧
    l' = with_last l (<[zone := now]> (ln_last l)) ∧ NPublish (notify_event zone transport) ∈ es) ∨
  (∃ zone, accepted l wire ip zone ∧ ¬ due since l zone ∧ requests es = [] ∧ l' = l ∧ NPublish (notify_event zone transport) ∈ es) ∨
  ((∀ zone, ¬ accepted l wire ip zone) ∧ requests es = [] ∧ l' = l ∧ ∀ e, NPublish e ∉ es).
Proof.
  unfold handle. destruct (allowed l ip) eqn:Ea; simpl.
  2:{ right; right. split_and!; [|done|done|intros e; set_solver]. intros zone [Hs _]. apply allowed_spec in Hs. congruence. }
  destruct (UnpackMsg wire) as [m|] eqn:Em; [|right; right; split_and!; [|done|done|intros e; set_solver]].
  2:{ intros zone [_ (m & q & qs & Hm & _)]. congruence. }
  destruct (bool_decide (nm_Opcode m = OpcodeNotify)) eqn:Eo; simpl.
  2:{ right; right. split_and!; [|done|done|intros e; set_solver]. intros zone [_ (m' & q & qs & Hm & Ho & _)].
      apply bool_decide_eq_false in Eo. congruence. }
  destruct (tsig_ok l wire m) eqn:Et; simpl.
  2:{ right; right. split_and!; [|done|done|intros e; set_solver]. intros zone [_ (m' & q & qs & Hm & _ & _ & _ & Ht)].
      rewrite Em in Hm. injection Hm as <-. apply tsig_ok_spec in Ht. congruence. }
  destruct (nm_Question m) as [|q qs] eqn:Eq.
  { right; right. split_and!; [|done|done|intros e; set_solver]. intros zone [_ (m' & q & qs & Hm & _ & Hq & _)]. congruence. }
  assert (accepted l wire ip (Canonical q)) as Hacc.
  { split; [by apply allowed_spec|]. apply bool_decide_eq_true in Eo. exists m, q, qs. split_and!; [done..|by apply tsig_ok_spec]. }
  destruct (debounce_spec since now l (Canonical q)) as [[Hd ->]|[Hd ->]].
  - left. exists (Canonical q). split_and!; [done|done|done|done|set_solver].
  - right; left. exists (Canonical q). split_and!; [done|done|done|done|set_solver].
Qed.

(** C32: a message requests the refresh of a zone exactly if it comes from an
    allowed source, is a NOTIFY for the zone, carries a TSIG that verifies
    with the configured key when one is required, and the zone has not been
    notified in the last half second; it then requests that one zone. A
    message that is not accepted changes nothing and is not published. *)
Theorem notify_requests since now l wire ip transport zone :
  let '(l', resp, es) := handle since now l wire ip transport in
  (zone ∈ requests es ↔ accepted l wire ip zone ∧ due since l zone) ∧ length (requests es) ≤ 1 ∧
  ((∃ e, NPublish e ∈ es) ↔ ∃ z, accepted l wire ip z) ∧ (requests es = [] → l' = l).
Proof.
  assert (∀ z1 z2, accepted l wire ip z1 → accepted l wire ip z2 → z1 = z2) as Hu.
  { intros z1 z2 [_ (m & q & qs & Hm & _ & Hq & -> & _)] [_ (m' & q' & qs' & Hm' & _ & Hq' & -> & _)]. congruence. }
  pose proof (handle_cases since now l wire ip transport) as H. destruct (handle _ _ _ _ _ _) as [[l' resp] es].
  destruct H as [(z & Ha & Hd & Hr & -> & Hp)|[(z & Ha & Hd & Hr & -> & Hp)|(Hn & Hr & -> & Hp)]]; rewrite Hr; simpl.
  - split_and!; [|lia|split; eauto|done]. rewrite list_elem_of_singleton. split; [by intros ->|]. intros [Ha' _]. by apply Hu.
  - split_and!; [|lia|split; eauto|done]. split; [set_solver|]. intros [Ha' Hd']. by rewrite (Hu _ _ Ha Ha') in Hd.
  - split_and!; [|lia| |done].
    + split; [set_solver|]. intros [Ha' _]. by destruct (Hn zone).
    + split; [intros [e He]; by destruct (Hp e)|]. intros [z Hz]. by destruct (Hn z).
Qed.

(** ** Spacing *)

(** A message with the two readings of the clock its handling takes. *)
Record Arrival := mkArrival { ar_since : Time; ar_now : Time; ar_wire : bytes; ar_ip : option (list Z); ar_transport : string }.

(** The refreshes requested by a sequence of messages. *)
Fixpoint run (l : Listener) (msgs : list Arrival) : list (Arrival * string) :=
  match msgs with
  | [] => []
  | a :: msgs =>
      let '(l', _, es) := handle (ar_since a) (ar_now a) l (ar_wire a) (ar_ip a) (ar_transport a) in
      ((a,.) <$> requests es) ++ run l' msgs
  end.

(** The mutex of [debounce] puts the readings of the clock in an order. *)
Definition in_order (msgs : list Arrival) : Prop :=
  Forall (λ a, (ar_since a ≤ ar_now a)%Z) msgs ∧ StronglySorted (λ a b, (ar_now a ≤ ar_since b)%Z) msgs.

Lemma run_after l msgs r t :
  in_order msgs → r ∈ run l msgs → ln_last l !! r.2 = Some t → (t + debounce_interval ≤ ar_since r.1)%Z.
Proof.
  revert l t. induction msgs as [|a msgs IH]; intros l t [Hf Hs] Hr Hl; [by apply elem_of_nil in Hr|].
  apply Forall_cons in Hf as [Ha Hf]. apply StronglySorted_inv in Hs as [Hs Hall]. cbn [run] in Hr.
  pose proof (handle_cases (ar_since a) (ar_now a) l (ar_wire a) (ar_ip a) (ar_transport a)) as H.
  destruct (handle _ _ _ _ _ _) as [[l' resp] es]. apply elem_of_app in Hr.
  destruct H as [(z & _ & Hd & Hq & -> & _)|[(z & _ & _ & Hq & -> & _)|(_ & Hq & -> & _)]]; rewrite Hq in Hr; cbn [fmap list_fmap] in Hr;
    [|destruct Hr as [Hr|Hr]; [by apply elem_of_nil in Hr|by eapply IH]..].
  destruct Hr as [Hr|Hr].
  - apply list_elem_of_singleton in Hr. subst r. cbn [fst snd] in *. unfold due in Hd. rewrite Hl in Hd. lia.
  - destruct (decide (r.2 = z)) as [Hz|Hz].
    + assert (ar_now a + debounce_interval ≤ ar_since r.1)%Z as H1.
      { eapply IH; [done|exact Hr|]. cbn [with_last ln_last]. by rewrite Hz, lookup_insert_eq. }
      unfold due in Hd. rewrite <-Hz, Hl in Hd. assert (0 ≤ debounce_interval)%Z by done. lia.
    + eapply IH; [done|exact Hr|]. cbn [with_last ln_last]. by rewrite lookup_insert_ne.
Qed.

(** C33: refreshes requested for a zone are at least half a second apart,
    whatever messages arrive from whomever, over both transports: among the
    requests of a run, each request for a zone is made half a second after
    the ones before it or later. *)
Theorem notify_spacing l msgs :
  in_order msgs →
  StronglySorted (λ r1 r2, r1.2 = r2.2 → (ar_now r1.1 + debounce_interval ≤ ar_since r2.1)%Z) (run l msgs).
Proof.
  revert l. induction msgs as [|a msgs IH]; intros l [Hf Hs]; [constructor|].
  apply Forall_cons in Hf as [Ha Hf]. apply StronglySorted_inv in Hs as [Hs Hall]. cbn [run].
  pose proof (handle_cases (ar_since a) (ar_now a) l (ar_wire a) (ar_ip a) (ar_transport a)) as H.
  destruct (handle _ _ _ _ _ _) as [[l' resp] es].
  destruct H as [(z & _ & Hd & Hq & -> & _)|[(z & _ & _ & Hq & -> & _)|(_ & Hq & -> & _)]]; rewrite Hq; [|by apply IH..].
  cbn [fmap list_fmap app]. constructor; [by apply IH|]. apply Forall_forall. intros r Hr Hz. cbn [fst snd] in *.
  eapply run_after; [done|exact Hr|]. cbn [with_last ln_last]. by rewrite <-Hz, lookup_insert_eq.
Qed.

(** With a key configured and TSIG required, nothing gets through whose
    signature does not verify. *)
Lemma notify_signed cfg tsig l since now wire ip transport zone :
  New cfg tsig = Ok l → nt_RequireTSIG cfg = true → tk_Name tsig ≠ "" → tk_Secret tsig ≠ "" →
  zone ∈ requests (handle since now l wire ip transport).2 → TsigVerify wire (tk_Secret tsig) = true.
Proof.
  intros HN HR Hn Hs. unfold New in HN. rewrite (bool_decide_false _ Hn), (bool_decide_false _ Hs) in HN. simpl in HN.
  destruct (parse_sources _ _) as [nets|]; [|done]. injection HN as <-. set (l := mkListener _ _ _ _ _ _).
  pose proof (handle_cases since now l wire ip transport) as H. destruct (handle _ _ _ _ _ _) as [[l' resp] es]. cbn [snd].
  assert (∀ z, accepted l wire ip z → TsigVerify wire (tk_Secret tsig) = true) as Hv.
  { intros z [_ (m & q & qs & _ & _ & _ & _ & Ht)]. destruct (Ht HR) as [_ Hk]. specialize (Hk _ eq_refl).
    cbn [ln_keyName l] in Hk. rewrite lookup_singleton_eq in Hk. exact Hk. }
  destruct H as [(z & Ha & _)|[(z & Ha & _)|(_ & -> & _)]]; [intros _; by eapply Hv..|by intros ?%elem_of_nil].
Qed.

(** with TSIG required and no key configured, which a configuration may
    have, signatures are not checked: any NOTIFY with some TSIG record on it
    requests a refresh. *)
Theorem notify_unverified cfg tsig l since now wire m q qs transport :
  New cfg tsig = Ok l → tk_Name tsig = "" → nt_RequireTSIG cfg = true → nt_AllowedSources cfg = [] →
  UnpackMsg wire = Some m → nm_Opcode m = OpcodeNotify → nm_Question m = q :: qs → nm_IsTsig m = true →
  requests (handle since now l wire None transport).2 = [Canonical q].
Proof.
  intros HN Hn HR Hs Hm Ho Hq Ht. unfold New in HN. rewrite (bool_decide_true _ Hn) in HN. simpl in HN. rewrite Hs in HN.
  cbn in HN. injection HN as <-. set (l := mkListener _ _ _ _ _ _).
  pose proof (handle_cases since now l wire None transport) as H. destruct (handle _ _ _ _ _ _) as [[l' resp] es]. cbn [snd].
  assert (accepted l wire None (Canonical q)) as Ha.
  { split; [by left|]. exists m, q, qs. split_and!; [done..|]. intros _. by split. }
  assert (∀ z, accepted l wire None z → z = Canonical q) as Hu.
  { intros z [_ (m' & q' & qs' & Hm' & _ & Hq' & -> & _)]. congruence. }
  destruct H as [(z & Hz & _ & -> & _)|[(z & _ & Hd & _)|(Hno & _)]]; [by rewrite (Hu z Hz)|by destruct Hd|by destruct (Hno _ Ha)].
Qed.

(** ** Messages over TCP *)

Lemma str_take_ge n (s : string) : String.length s ≤ n → str_take n s = s.
Proof. revert s. induction n as [|n IH]; intros [|c s]; simpl; try done; [lia|]. intros. by rewrite IH by lia. Qed.

Lemma into_buffer_full (s : bytes) : into_buffer (String.length s) s = s.
Proof. unfold into_buffer. rewrite Nat.sub_diag. apply str_app_nil_r. Qed.

(** A message that arrives behind its length, in one piece, is read. *)
Lemma tcp_message_whole (body : bytes) rest :
  0 < String.length body → (Z.of_nat (String.length body) < 65536)%Z → tcp_message (be 2 (Z.of_nat (String.length body)) :: body :: rest) = Some body.
Proof.
  intros Hpos Hlt. unfold tcp_message. cbn [conn_Read]. rewrite be_length, bool_decide_true by done. cbn [mbind option_bind].
  set (ln := String.length body) in *.
  assert (into_buffer 2 (be 2 (Z.of_nat ln)) = be 2 (Z.of_nat ln)) as ->.
  { unfold into_buffer. rewrite be_length. apply str_app_nil_r. }
  rewrite be_dec_be, Z.mod_small by (change (256 ^ Z.of_nat 2)%Z with 65536%Z; lia). rewrite Nat2Z.id, bool_decide_false by lia. cbn [conn_Read]. fold ln.
  rewrite bool_decide_true by done. cbn [mbind option_bind]. f_equal. apply into_buffer_full.
Qed.

(** One that arrives in two is not: its second part is replaced by zeros. *)
Lemma tcp_message_split (b1 b2 : bytes) rest :
  0 < String.length b1 → (Z.of_nat (String.length b1 + String.length b2) < 65536)%Z →
  tcp_message (be 2 (Z.of_nat (String.length b1 + String.length b2)) :: b1 :: b2 :: rest) =
    Some (b1 +:+ Repeat (String "000" "") (String.length b2)).
Proof.
  intros Hpos Hlt. unfold tcp_message. cbn [conn_Read]. rewrite be_length, bool_decide_true by done. cbn [mbind option_bind].
  set (ln := String.length b1 + String.length b2) in *.
  assert (into_buffer 2 (be 2 (Z.of_nat ln)) = be 2 (Z.of_nat ln)) as ->.
  { unfold into_buffer. rewrite be_length. apply str_app_nil_r. }
  rewrite be_dec_be, Z.mod_small by (change (256 ^ Z.of_nat 2)%Z with 65536%Z; lia). rewrite Nat2Z.id, bool_decide_false by lia. cbn [conn_Read].
  rewrite bool_decide_true by lia. cbn [mbind option_bind]. f_equal. unfold into_buffer. do 2 f_equal. lia.
Qed.
End facts.

(** ** Witnesses *)

(** Messages as text: a letter for the operation and the signature, the zone. *)
Definition toy_notify : NotifyLib := {|
  UnpackMsg := λ w,
    match w with
    | String "N" z => Some (mkNMsg OpcodeNotify [z] false)
    | String "T" z => Some (mkNMsg OpcodeNotify [z] true)
    | String "Q" z => Some (mkNMsg 0 [z] false)
    | _ => None
    end;
  TsigVerify := λ w secret, HasSuffix w secret;
  PackReply := λ m rcode aa, Some "reply"
|}.
Definition toy_ncfg (tsig : bool) (sources : list string) : NotifyConfig := mkNotify true "" 53 53 tsig "" sources.
Definition toy_listener : Listener :=
  mkListener (toy_ncfg false ["192.0.2.0/24"]) None "" "" (ok_or [] (parse_sources [] ["192.0.2.0/24"])) ∅.
Definition toy_arrival (t : Z) (ip : string) : Arrival := mkArrival t t "NZ." (ParseIP ip) "udp".

(** Of three messages the second comes too early, and a fourth from elsewhere. *)
Definition toy_arrivals : list Arrival :=
  [toy_arrival 0 "192.0.2.1"; toy_arrival 400000000 "192.0.2.2"; toy_arrival 600000000 "198.51.100.1"; toy_arrival 700000000 "192.0.2.1"].

Lemma notify_spacing_witness :
  (λ r, (ar_now r.1, r.2)) <$> run (NB := toy_notify) toy_listener toy_arrivals = [(0%Z, "z."); (700000000%Z, "z.")] ∧
  StronglySorted (λ r1 r2, r1.2 = r2.2 → (ar_now r1.1 + debounce_interval ≤ ar_since r2.1)%Z) (run (NB := toy_notify) toy_listener toy_arrivals).
Proof.
  split; [vm_compute; reflexivity|]. apply (notify_spacing (NB := toy_notify)). split.
  - repeat constructor; simpl; lia.
  - repeat constructor; simpl; lia.
Defined.

Lemma notify_unverified_witness :
  requests (handle (NB := toy_notify) 0 0 (mkListener (toy_ncfg true []) None "" "" [] ∅) "TZ." None "tcp").2 = ["z."].
Proof.
  assert (["z."] = [Canonical "Z."]) as -> by (vm_compute; reflexivity).
  apply (notify_unverified (NB := toy_notify) (toy_ncfg true []) (mkTSIGKey "" "" "") (mkListener (toy_ncfg true []) None "" "" [] ∅)
    0 0 "TZ." (mkNMsg OpcodeNotify ["Z."] true) "Z." [] "tcp"); reflexivity.
Defined.
