(* ===== verification/Chain.v ===== *)
(** * The chain of trust (internal/chain/chain.go)

    Whether the DS records at the parent of a zone match one of its keys.
    The check reads the store, asks a resolver, and applies what it found to
    the runtime; the network is the class [ChainNet]. Main results: when a
    chain is in order, and what a check does to the zone; an answer without
    DS records makes a zone insecure also when it is a failure; and a check
    never takes anything back, so that a zone is invalid, and reports a
    mismatch, after the parent has been put right. *)

From S2P Require Import Prelude GoStrings DnsLib BTree DnsName NetAddr Node Store StoreSpec Config Findings Full Event Xfr Toy Runtime Manager Monitor.

(** What is asked: name and type; [cq_Dnssec] for EDNS0 with the DO bit and
    CD set. *)
Record CQuery := mkCQuery { cq_Name : string; cq_Type : Z; cq_Dnssec : bool }.

(** [chain_Exchange q target]: the response code and the answer section. *)
Class ChainNet : Type := { chain_Exchange : CQuery → string → result (Z * list RR) }.

(** The letters [A-F] in lower case. *)
Definition fold_hex (c : ascii) : ascii := if in_range "A" "F" c then lower_byte c else c.

Fixpoint equalFold_loop (a b : string) : bool :=
  match a, b with
  | String ca a, String cb b => if bool_decide (fold_hex ca = fold_hex cb) then equalFold_loop a b else false
  | _, _ => true
  end.
Definition equalFold (a b : string) : bool :=
  if bool_decide (String.length a = String.length b) then equalFold_loop a b else false.

Section chain.
Context `{DL : !DnsLib, BT : !BTree, MR : !MapRange, CN : !ChainNet}.
Variable cfg : ChainConfig.

Record Result := mkChainResult {
  cr_OK : bool; cr_Insecure : bool; cr_Matched : list Z; cr_ParentDS : list DS_rdata; cr_Err : option string
}.

Definition lookupNS (zone : string) : result (list string) :=
  match chain_Exchange (mkCQuery (Canonical zone) TypeNS false) "1.1.1.1:53" with
  | Err err => Err err
  | Ok (_, answer) => Ok (omap (λ rr, match rr_Data rr with RD_NS ns => Some (ns +:+ ":53") | _ => None end) answer)
  end.

(** The loop over the targets; [last] is the error of the one before. *)
Fixpoint lookup_loop (q : CQuery) (last : string) (targets : list string) : result (list DS_rdata) :=
  match targets with
  | [] => Err last
  | t :: targets =>
      let t := match SplitHostPort t with Some _ => t | None => JoinHostPort t "53" end in
      match chain_Exchange q t with
      | Err err => lookup_loop q err targets
      | Ok (_, answer) => Ok (omap as_DS answer)
      end
  end.

Definition lookupDS (zone : string) : result (list DS_rdata) :=
  match (if bool_decide (ch_Mode cfg = "authoritative") then lookupNS (Parent zone) else Ok (ch_Resolvers cfg)) with
  | Err err => Err err
  | Ok targets => lookup_loop (mkCQuery (Canonical zone) TypeDS true) "no resolvers" targets
  end.

Definition chain_digests : list Z := [SHA256; SHA1; SHA384].

Definition ds_matches (p ds : DS_rdata) : bool :=
  bool_decide (ds_KeyTag p = ds_KeyTag ds) && bool_decide (ds_Algorithm p = ds_Algorithm ds)
    && bool_decide (ds_DigestType p = ds_DigestType ds) && equalFold (ds_Digest p) (ds_Digest ds).

(** The tags of the keys that match, one for every DS record they match. *)
Definition matched_of (keys : list DNSKEY_RR) (dsset : list DS_rdata) : list Z :=
  k ← keys;
  if bool_decide (Z.land (key_Flags k.2) SEP = 0%Z) then []
  else
    digest ← chain_digests;
    match ToDS k digest with
    | None => []
    | Some ds => p ← dsset; if ds_matches p ds then [KeyTag k.2] else []
    end.

(** What is applied to the runtime: findings, [chainOK], [invalidate]. *)
Definition Outcome : Type := list Finding * bool * bool.

(** The part of [Check] before the runtime is changed. *)
Definition decide_chain (now : Time) (origin : string) (st : option Store) : Result * option Outcome * list Event :=
  if negb (ch_Enabled cfg) then (mkChainResult true false [] [] None, None, [])
  else
    match st with
    | None => (mkChainResult false false [] [] (Some "no store"), None, [])
    | Some st =>
        match DNSKEYs st with
        | Err _ | Ok [] => (mkChainResult true true [] [] None, None, [])
        | Ok keys =>
            match lookupDS origin with
            | Err err => (mkChainResult false false [] [] (Some err), None, [])
            | Ok [] =>
                let f := NewFinding now InsecureDelegation Warning origin TypeDS "parent has no DS" in
                (mkChainResult true true [] [] None, Some ([f], true, false), [])
            | Ok dsset =>
                let matched := matched_of keys dsset in
                let ok := bool_decide (0 < length matched) in
                let sev := if ch_RequireMatch cfg then Error else Warning in
                let findings := if ok then [] else [NewFinding now DSMismatch sev origin TypeDS "no DNSKEY matches parent DS"] in
                (mkChainResult ok false matched dsset None, Some (findings, ok, negb ok && ch_RequireMatch cfg),
                 if ok then [] else [zone_event ChainOfTrustFailed origin "" "" "" ""])
            end
        end
    end.

Definition apply_outcome (now : Time) (z : ZoneRuntime) (o : option Outcome) : ZoneRuntime :=
  match o with
  | Some (findings, ok, invalidate) => ApplyFindings now z findings (Some ok) invalidate
  | None => z
  end.

Definition Check (now : Time) (z : ZoneRuntime) : ZoneRuntime * Result * list Event :=
  let '(res, o, evs) := decide_chain now (z_Name z) (StoreAndChain z).1 in
  (apply_outcome now z o, res, evs).

(** A tick of [Run]: every zone is checked. The ticker panics on an
    interval that is not positive ([Manager.NewTicker]), before the test for one. *)
Definition Run_ticker : option (option Duration) :=
  if negb (ch_Enabled cfg) then Some None else Some <$> NewTicker (ch_Interval cfg).
End chain.

(** ** When the chain is in order *)

Section facts.
Context `{DL : !DnsLib, BT : !BTree, MR : !MapRange, CN : !ChainNet}.
Variable cfg : ChainConfig.

Lemma equalFold_loop_spec a b :
  String.length a = String.length b → equalFold_loop a b = true ↔ str_map fold_hex a = str_map fold_hex b.
Proof.
  revert b. induction a as [|c a IH]; intros [|d b] Hl; try done. injection Hl as Hl. cbn [equalFold_loop str_map].
  case_bool_decide as Hc.
  - rewrite (IH b Hl), Hc. split; [by intros ->|by intros [= ?]].
  - split; [done|by intros [= ? _]].
Qed.

(** Digests compare up to the case of their digits. *)
Lemma equalFold_spec a b : equalFold a b = true ↔ str_map fold_hex a = str_map fold_hex b.
Proof.
  unfold equalFold. case_bool_decide as Hl; [by apply equalFold_loop_spec|]. split; [done|].
  intros E. apply (f_equal String.length) in E. exfalso. apply Hl.
  assert (∀ s, String.length (str_map fold_hex s) = String.length s) as Hm by (induction s; simpl; congruence). by rewrite !Hm in E.
Qed.

(** A key signing key of the zone is authenticated by a DS record. *)
Definition authenticates (keys : list DNSKEY_RR) (dsset : list DS_rdata) : Prop :=
  ∃ k p digest ds, k ∈ keys ∧ p ∈ dsset ∧ Z.land (key_Flags k.2) SEP ≠ 0%Z ∧ digest ∈ chain_digests ∧ ToDS k digest = Some ds ∧
    ds_KeyTag p = ds_KeyTag ds ∧ ds_Algorithm p = ds_Algorithm ds ∧ ds_DigestType p = ds_DigestType ds ∧
    str_map fold_hex (ds_Digest p) = str_map fold_hex (ds_Digest ds).

Lemma ds_matches_spec p ds :
  ds_matches p ds = true ↔ ds_KeyTag p = ds_KeyTag ds ∧ ds_Algorithm p = ds_Algorithm ds ∧ ds_DigestType p = ds_DigestType ds ∧
    str_map fold_hex (ds_Digest p) = str_map fold_hex (ds_Digest ds).
Proof. unfold ds_matches. rewrite !andb_true_iff, !bool_decide_eq_true, equalFold_spec. tauto. Qed.

Lemma elem_of_matched keys dsset t :
  t ∈ matched_of keys dsset ↔ ∃ k p digest ds, k ∈ keys ∧ p ∈ dsset ∧ Z.land (key_Flags k.2) SEP ≠ 0%Z ∧ digest ∈ chain_digests ∧
    ToDS k digest = Some ds ∧ ds_matches p ds = true ∧ t = KeyTag k.2.
Proof.
  unfold matched_of. rewrite list_elem_of_bind. split.
  - intros (k & Ht & Hk). case_bool_decide as Hs; [by apply elem_of_nil in Ht|]. apply list_elem_of_bind in Ht as (d & Ht & Hd).
    destruct (ToDS k d) as [ds|] eqn:Eds; [|by apply elem_of_nil in Ht]. apply list_elem_of_bind in Ht as (p & Ht & Hp).
    destruct (ds_matches p ds) eqn:Em; [|by apply elem_of_nil in Ht]. apply list_elem_of_singleton in Ht as ->.
    by exists k, p, d, ds.
  - intros (k & p & d & ds & Hk & Hp & Hs & Hd & Eds & Em & ->). exists k. split; [|done]. rewrite bool_decide_false by done.
    apply list_elem_of_bind. exists d. split; [|done]. rewrite Eds. apply list_elem_of_bind. exists p. split; [|done].
    rewrite Em. by apply list_elem_of_singleton.
Qed.

Lemma matched_ok keys dsset : 0 < length (matched_of keys dsset) ↔ authenticates keys dsset.
Proof.
  split.
  - intros Hl. destruct (matched_of keys dsset) as [|t ts] eqn:E; [simpl in Hl; lia|].
    assert (t ∈ matched_of keys dsset) as Ht by (rewrite E; set_solver).
    apply elem_of_matched in Ht as (k & p & d & ds & ? & ? & ? & ? & ? & Hm & _). apply ds_matches_spec in Hm. by exists k, p, d, ds.
  - intros (k & p & d & ds & Hk & Hp & Hs & Hd & Eds & Hm). assert (KeyTag k.2 ∈ matched_of keys dsset) as Ht.
    { apply elem_of_matched. exists k, p, d, ds. split_and!; try done. by apply ds_matches_spec. }
    destruct (matched_of keys dsset); [by apply elem_of_nil in Ht|simpl; lia].
Qed.

(** ** What a check does to a zone *)

(** C34: for a signed zone whose parent has DS records, the chain of trust is
    in order exactly if one of them matches a key signing key of the zone, by
    tag, algorithm, digest type and digest (up to the case of its digits);
    the zone is marked accordingly. If it is not in order, an error is added
    if a match is required, or else a warning; if a match is required and the
    zone is valid, it becomes invalid, and in every other case it keeps its
    state (a zone that is stale, for one, is not made invalid). If it is in
    order, state and findings stay as they are. *)
Theorem chain_exact now z st k ks p ps :
  ch_Enabled cfg = true → z_Store z = Some st → DNSKEYs st = Ok (k :: ks) → lookupDS cfg (z_Name z) = Ok (p :: ps) →
  let '(z', res, evs) := Check cfg now z in
  (cr_OK res = true ↔ authenticates (k :: ks) (p :: ps)) ∧ z_ChainOK z' = Some (cr_OK res) ∧
  (cr_OK res = true → z_State z' = z_State z ∧ z_Findings z' = z_Findings z ∧ evs = []) ∧
  (cr_OK res = false → z_State z' = (if ch_RequireMatch cfg && bool_decide (z_State z = StateValid) then StateInvalid else z_State z) ∧
    z_Findings z' = Add now (z_Findings z) (NewFinding now DSMismatch (if ch_RequireMatch cfg then Error else Warning) (z_Name z) TypeDS
      "no DNSKEY matches parent DS")).
Proof.
  intros Hen Hst Hk Hds. unfold Check, decide_chain, StoreAndChain. cbn [fst]. rewrite Hen, Hst, Hk, Hds. cbn [negb].
  set (matched := matched_of (k :: ks) (p :: ps)). destruct (decide (0 < length matched)) as [Hm|Hm].
  - rewrite (bool_decide_true _ Hm). cbn [apply_outcome cr_OK negb andb].
    split; [split; [intros _; by apply matched_ok|done]|]. split_and!; done.
  - rewrite (bool_decide_false _ Hm). cbn [apply_outcome cr_OK negb andb].
    split; [split; [done|by intros ?%matched_ok]|]. unfold ApplyFindings. cbn [foldl]. split_and!.
    + destruct (ch_RequireMatch cfg && _); [|done]. unfold setState. by destruct (_ || _).
    + done.
    + intros _. cbn [z_State with_ChainOK with_Findings]. destruct (ch_RequireMatch cfg && bool_decide (z_State z = StateValid)).
      * rewrite setState_State. split; [done|]. unfold setState. by destruct (_ || _).
      * done.
Qed.

(** an answer without DS records makes the zone insecure and its chain
    of trust in order, whatever the response code: a resolver that fails to
    resolve the name at the first target gives the same result as a parent
    that says there is no DS record. *)
Theorem chain_failure_insecure now z st k ks t ts rcode answer :
  ch_Enabled cfg = true → ch_Mode cfg ≠ "authoritative" → ch_Resolvers cfg = t :: ts → is_Some (SplitHostPort t) →
  z_Store z = Some st → DNSKEYs st = Ok (k :: ks) →
  chain_Exchange (mkCQuery (Canonical (z_Name z)) TypeDS true) t = Ok (rcode, answer) → omap as_DS answer = [] →
  let '(z', res, evs) := Check cfg now z in
  cr_OK res = true ∧ cr_Insecure res = true ∧ cr_Err res = None ∧ z_ChainOK z' = Some true ∧ z_State z' = z_State z ∧ evs = [].
Proof.
  intros Hen Hmode Hres Ht Hst Hk Hex Ha. unfold Check, decide_chain, StoreAndChain. cbn [fst].
  assert (lookupDS cfg (z_Name z) = Ok []) as Hl.
  { unfold lookupDS. rewrite (bool_decide_false _ Hmode), Hres. cbn [lookup_loop].
    destruct Ht as [hp Ht]. rewrite Ht, Hex. by rewrite Ha. }
  rewrite Hen, Hst, Hk, Hl. by split_and!.
Qed.

(** a check takes nothing back. Whatever it finds, every finding stays,
    a zone that is invalid stays invalid, and no zone becomes valid: after
    the parent's DS records are put right the mismatch is still reported,
    until the zone is verified again. *)
Theorem chain_sticks now z k f :
  z_Findings z !! k = Some f →
  let '(z', res, evs) := Check cfg now z in
  (∃ f', z_Findings z' !! k = Some f' ∧ f_FirstSeen f' = f_FirstSeen f) ∧ (z_State z = StateInvalid → z_State z' = StateInvalid) ∧
  (z_State z' = z_State z ∨ z_State z' = StateInvalid).
Proof.
  intros Hf. unfold Check. destruct (decide_chain _ _ _ _) as [[res o] evs]. destruct o as [[[fs ok] inv]|]; cbn [apply_outcome].
  2:{ split; [eauto|]. split; [done|by left]. }
  assert (∃ f', foldl (Add now) (z_Findings z) fs !! k = Some f' ∧ f_FirstSeen f' = f_FirstSeen f) as HF.
  { apply (foldl_inv (λ s, ∃ f', s !! k = Some f' ∧ f_FirstSeen f' = f_FirstSeen f)); [eauto|]. intros s g _ (f' & Hs & Hfs).
    rewrite Add_dated. destruct (decide (Key g = k)) as [<-|Hne].
    - rewrite Hs, lookup_insert_eq. eexists. split; [done|]. unfold dated. by destruct (IsZero _).
    - rewrite lookup_insert_ne by done; eauto. }
  unfold ApplyFindings. destruct (inv && _) eqn:E.
  - rewrite setState_State. split; [|split; [done|by right]].
    assert (∀ now z s a b c d, z_Findings (setState now z s a b c d) = z_Findings z) as -> by (intros; unfold setState; by destruct (_ || _)). done.
  - split; [done|]. split; [done|by left].
Qed.

(** What a check does is a step of the monitor, also when the zone has
    changed since the check read its store. *)
Lemma chain_step c s loc z now origin st evs :
  s_heap s !! loc = Some z → ∃ s', step c s s' ∧ s_heap s' = <[loc := apply_outcome now z (decide_chain cfg now origin st).1.2]> (s_heap s) ∧ s_log s' = s_log s ++ evs.
Proof.
  intros Hz. destruct (decide_chain _ _ _ _) as [[res o] evs']. destruct o as [[[fs ok] inv]|]; cbn [fst snd apply_outcome].
  - eexists. split; [by apply (step_apply c s loc z now fs (Some ok) inv evs)|]. done.
  - eexists. split; [apply (step_publish c s evs)|]. cbn. split; [|done]. by rewrite list_insert_id.
Qed.
End facts.

(** ** Witnesses *)

(** A resolver that has the DS record of one key. *)
Definition toy_ds (digest : string) : RR := mkRR (hdr "z." TypeDS) (RD_DS (mkDS 4 ED25519 SHA256 digest)).
Definition toy_chain_net (rcode : Z) (answer : list RR) : ChainNet := {| chain_Exchange := λ q t, Ok (rcode, answer) |}.
Definition toy_chain_cfg : ChainConfig := mkChain true "resolver" ["192.0.2.53:53"] Hour true.
Definition toy_chain_store : Store := built "z." [toy_SOA "z." 7; toy_DNSKEY "z." 257 "ksk1"].
Definition toy_chain_zone : ZoneRuntime :=
  with_Findings (with_State (with_Store (NewZone "z." "config" [] "") (Some toy_chain_store)) StateValid)
    (AddAll 0 NewSet [NewFinding 0 DSMismatch Error "z." TypeDS "no DNSKEY matches parent DS"]).
Definition toy_chain_key : DNSKEY_RR := (hdr "z." TypeDNSKEY, mkDNSKEY 257 3 ED25519 "ksk1").

Lemma toy_chain_keys : DNSKEYs toy_chain_store = Ok [toy_chain_key].
Proof. vm_compute. reflexivity. Qed.

(** With the digest of another key a valid zone becomes invalid. *)
Lemma chain_exact_witness :
  let c := Check (CN := toy_chain_net 0 [toy_ds "other"]) toy_chain_cfg 0 toy_chain_zone in
  cr_OK c.1.2 = false ∧ z_State c.1.1 = StateInvalid.
Proof.
  cbv zeta. set (CN := toy_chain_net 0 [toy_ds "other"]).
  pose proof (chain_exact (CN := CN) toy_chain_cfg 0 toy_chain_zone toy_chain_store toy_chain_key []
    (mkDS 4 ED25519 SHA256 "other") [] eq_refl eq_refl toy_chain_keys eq_refl) as H.
  assert (cr_OK (Check (CN := CN) toy_chain_cfg 0 toy_chain_zone).1.2 = false) as HF by (vm_compute; reflexivity).
  destruct (Check (CN := CN) toy_chain_cfg 0 toy_chain_zone) as [[z' res] evs]. cbn [fst snd] in *.
  destruct H as (_ & _ & _ & H). split; [exact HF|]. by destruct (H HF) as [-> _].
Defined.

(** SERVFAIL. *)
Lemma chain_failure_insecure_witness :
  let c := Check (CN := toy_chain_net 2 []) toy_chain_cfg 0 toy_chain_zone in
  cr_OK c.1.2 = true ∧ cr_Insecure c.1.2 = true.
Proof.
  cbv zeta. set (CN := toy_chain_net 2 []).
  pose proof (chain_failure_insecure (CN := CN) toy_chain_cfg 0 toy_chain_zone toy_chain_store toy_chain_key [] "192.0.2.53:53" [] 2 []
    eq_refl ltac:(done) eq_refl ltac:(by eexists) eq_refl toy_chain_keys eq_refl eq_refl) as H.
  destruct (Check (CN := CN) toy_chain_cfg 0 toy_chain_zone) as [[z' res] evs]. cbn [fst snd]. by destruct H as (? & ? & _).
Defined.

(** The mismatch is still there after a check that finds the chain in order. *)
Lemma chain_sticks_witness :
  let c := Check (CN := toy_chain_net 0 [toy_ds "ksk1"]) toy_chain_cfg 5 (with_State toy_chain_zone StateInvalid) in
  cr_OK c.1.2 = true ∧ is_Some (z_Findings c.1.1 !! "DS_MISMATCH|z.|43") ∧ z_State c.1.1 = StateInvalid.
Proof.
  cbv zeta. set (CN := toy_chain_net 0 [toy_ds "ksk1"]).
  assert (z_Findings (with_State toy_chain_zone StateInvalid) !! "DS_MISMATCH|z.|43" =
    Some (NewFinding 0 DSMismatch Error "z." TypeDS "no DNSKEY matches parent DS")) as Hf by (vm_compute; reflexivity).
  pose proof (chain_sticks (CN := CN) toy_chain_cfg 5 (with_State toy_chain_zone StateInvalid) _ _ Hf) as H.
  assert (cr_OK (Check (CN := CN) toy_chain_cfg 5 (with_State toy_chain_zone StateInvalid)).1.2 = true) as HT by (vm_compute; reflexivity).
  destruct (Check (CN := CN) toy_chain_cfg 5 (with_State toy_chain_zone StateInvalid)) as [[z' res] evs]. cbn [fst snd] in *.
  destruct H as ((f' & Hf' & _) & Hs & _). split; [exact HT|]. split; [by exists f'|]. by apply Hs.
Defined.
