(* ===== verification/State.v ===== *)
(** * What survives a restart (internal/state/state.go)

    The state file with what is known about every zone, and a snapshot of
    the records of each zone. The disk is a map from paths to contents; a
    JSON file written by [encoding/json] is the value it encodes. Every
    operation of the operating system can fail, and what a write leaves
    half-way is arbitrary ([Os]). An operation on files is the list of the
    disks it goes through, so that a crash at any point is covered. Main
    results: the state file is replaced atomically; saving, loading and
    applying restores the findings and the date of the last valid state of
    every zone; a snapshot read after a restart has the records the zone's
    store showed when it was written, unless another zone's name gives the
    same file name, which replaces one zone's snapshot by another's. *)

From S2P Require Import Prelude GoStrings DnsLib BTree DnsName Node Store StoreSpec Snapshot Config Findings Full Toy Runtime Manager Monitor.

(** ** Paths *)

Fixpoint split_slash (s : string) : list string :=
  match s with
  | "" => [""]
  | String c s =>
      if bool_decide (c = "/"%char) then "" :: split_slash s
      else match split_slash s with [] => [String c ""] | p :: ps => String c p :: ps end
  end.

(** [filepath.Clean] on the elements of a path; the stack is reversed. *)
Definition clean_step (rooted : bool) (stack : list string) (p : string) : list string :=
  if bool_decide (p = "") || bool_decide (p = ".") then stack
  else if bool_decide (p = "..") then
    match stack with
    | top :: rest => if bool_decide (top = "..") then p :: stack else rest
    | [] => if rooted then [] else [p]
    end
  else p :: stack.

Definition path_render (rooted : bool) (stack : list string) : string :=
  let s := Join (reverse stack) "/" in
  if rooted then "/" +:+ s else if bool_decide (s = "") then "." else s.

Definition Clean (path : string) : string :=
  let rooted := HasPrefix path "/" in
  path_render rooted (foldl (clean_step rooted) [] (split_slash path)).

(** [filepath.Join], of a directory that is not empty. *)
Definition filepath_Join (dir base : string) : string := Clean (dir +:+ "/" +:+ base).

(** [filepath.Dir] *)
Definition filepath_Dir (path : string) : string :=
  let ps := split_slash path in
  Clean (if bool_decide (length ps ≤ 1) then "" else Join (removelast ps) "/" +:+ "/").

Definition snapFile (dir name : string) : string :=
  let safe := TrimSuffix name "." in
  let safe := str_map (λ c, if bool_decide (c = "/"%char) then "_"%char else c) safe in
  let safe := if bool_decide (safe = "") then "zone" else safe in
  filepath_Join dir (safe +:+ ".snap").

Record ZoneSnap := mkZoneSnap {
  zs_LastValidAt : Time; zs_LastSerial : Z; zs_State : string; zs_Findings : list Finding; zs_Source : string
}.
Record File := mkFile { fi_SavedAt : Time; fi_Zones : gmap string ZoneSnap }.

(** ** The disk *)

Inductive Content := Json (f : File) | Raw (b : bytes).
Record DiskFile := mkDiskFile { df_data : Content; df_mtime : Time }.
Abbreviation Disk := (gmap string DiskFile) (only parsing).

(** The operating system: whether an operation on a path fails, and what a
    file being written holds. [json_decode] reads a file this program has not
    written. *)
Class Os : Type := {
  os_fail : string → string → option string;
  os_partial : string → DiskFile;
  json_decode : bytes → result File
}.

Section state.
Context `{DL : !DnsLib, BT : !BTree, MR : !MapRange, OS : !Os}.

Definition Load (disk : Disk) (path : string) : result File :=
  if bool_decide (path = "") then Ok (mkFile zeroTime ∅)
  else
    match os_fail "read" path with
    | Some err => Err err
    | None =>
        match disk !! path with
        | None => Ok (mkFile zeroTime ∅)
        | Some df => match df_data df with Json f => Ok f | Raw b => json_decode b end
        end
    end.

(** The value [Save] writes. *)
Definition zone_snap (v : ZoneView) : ZoneSnap :=
  mkZoneSnap (v_LastValidAt v) (v_Serial v) (v_State v) (v_Findings v) (v_Source v).
Definition state_file (now : Time) (views : list ZoneView) : File :=
  mkFile now (foldl (λ m v, <[v_Name v := zone_snap v]> m) ∅ views).

(** A temporary file that is written, and renamed: the disks on the way, and
    the error. [os.WriteFile] creates, writes and closes the file, and gives
    the first error of the three. *)
Definition replace_file (disk : Disk) (path : string) (data : DiskFile) : list Disk * option string :=
  let tmp := path +:+ ".tmp" in
  match os_fail "create" tmp with
  | Some err => ([], Some err)
  | None =>
      let d0 := <[tmp := os_partial tmp]> disk in
      match os_fail "write" tmp, os_fail "close" tmp with
      | Some err, _ | None, Some err => ([d0], Some err)
      | None, None =>
          let d1 := <[tmp := data]> disk in
          match os_fail "rename" tmp with
          | Some err => ([d0; d1], Some err)
          | None => ([d0; d1; <[path := data]> (delete tmp disk)], None)
          end
      end
  end.

Definition Save (now : Time) (disk : Disk) (path : string) (s : Sys) : list Disk * option string :=
  if bool_decide (path = "") then ([], None)
  else
    let f := state_file now (Views s) in
    match os_fail "mkdir" (filepath_Dir path) with
    | Some err => if negb (bool_decide (filepath_Dir path = ".")) then ([], Some err) else replace_file disk path (mkDiskFile (Json f) now)
    | None => replace_file disk path (mkDiskFile (Json f) now)
    end.

(** [Apply]: the runtimes are changed one by one. *)
Definition apply_one (now : Time) (s : Sys) (e : string * ZoneSnap) : Sys :=
  match Get s e.1 with
  | None => s
  | Some loc =>
      match s_heap s !! loc with
      | None => s
      | Some z => put s loc (Restore now z (zs_LastValidAt e.2) (zs_Findings e.2)) []
      end
  end.
Definition Apply (now : Time) (f : File) (s : Sys) : Sys := foldl (apply_one now) s (range (fi_Zones f)).

(** [st.WriteSnapshot(f); f.Close()]: what the file holds afterwards, and the
    error. That of [Close] is not looked at. *)
Definition write_snapshot_file (now : Time) (tmp : string) (content : result bytes) : DiskFile * option string :=
  match content with
  | Err err => (os_partial tmp, Some err)
  | Ok b =>
      match os_fail "write" tmp with
      | Some err => (os_partial tmp, Some err)
      | None =>
          (match os_fail "close" tmp with Some _ => os_partial tmp | None => mkDiskFile (Raw b) now end, None)
      end
  end.

Definition WriteSnapshot (now : Time) (cfg : SnapshotConfig) (disk : Disk) (z : ZoneRuntime) : list Disk * option string :=
  if negb (sn_Enabled cfg) || bool_decide (sn_Dir cfg = "") then ([], None)
  else
    match z_Store z with
    | None => ([], None)
    | Some st =>
        match os_fail "mkdir" (sn_Dir cfg) with
        | Some err => ([], Some err)
        | None =>
            let path := snapFile (sn_Dir cfg) (z_Name z) in
            let recent := bool_decide (0 < sn_MinInterval cfg)%Z &&
              match os_fail "stat" path, disk !! path with
              | None, Some df => bool_decide (now - df_mtime df < sn_MinInterval cfg)%Z
              | _, _ => false
              end in
            if recent then ([], None)
            else
              let tmp := path +:+ ".tmp" in
              match os_fail "create" tmp with
              | Some err => ([], Some err)
              | None =>
                  let d0 := <[tmp := os_partial tmp]> disk in
                  let '(written, werr) := write_snapshot_file now tmp (Snapshot.WriteSnapshot st now) in
                  let d1 := <[tmp := written]> disk in
                  match werr with
                  | Some err =>
                      match os_fail "remove" tmp with
                      | Some _ => ([d0; d1], Some err)
                      | None => ([d0; d1; delete tmp disk], Some err)
                      end
                  | None =>
                      match os_fail "rename" tmp with
                      | Some err => ([d0; d1], Some err)
                      | None => ([d0; d1; <[path := written]> (delete tmp disk)], None)
                      end
                  end
              end
        end
    end.

Definition ReadSnapshot (cfg : SnapshotConfig) (disk : Disk) (name : string) : result (Store * Time) :=
  if negb (sn_Enabled cfg) || bool_decide (sn_Dir cfg = "") then Err "file does not exist"
  else
    let path := snapFile (sn_Dir cfg) name in
    match os_fail "open" path, disk !! path with
    | Some err, _ => Err err
    | None, None => Err "file does not exist"
    | None, Some df => match df_data df with Raw b => Snapshot.ReadSnapshot b | Json _ => Err "bad snapshot magic" end
    end.

(** What [App.Run] does at the start, before anything runs. *)
Definition attach_one (cfg : SnapshotConfig) (disk : Disk) (s : Sys) (z : ZoneRuntime) : Sys :=
  match ReadSnapshot cfg disk (z_Name z) with
  | Err _ => s
  | Ok (st, _) =>
      match Get s (z_Name z) with
      | Some loc => match s_heap s !! loc with Some z => put s loc (AttachStore z st) [] | None => s end
      | None => s
      end
  end.
Definition restart (now : Time) (cfg : Config) (disk : Disk) (s : Sys) : Sys :=
  let s := match Load disk (sc_File (c_State cfg)) with Ok f => Apply now f s | Err _ => s end in
  let sn := sc_ZoneSnapshots (c_State cfg) in
  if sn_Enabled sn then foldl (attach_one sn disk) s (List_zones s) else s.
End state.

(** ** Paths of snapshots *)

Lemma split_slash_ne s : split_slash s ≠ [].
Proof. induction s as [|c s IH]; [done|]. simpl. destruct (bool_decide _); [done|]. by destruct (split_slash s). Qed.

Lemma split_slash_app a b : split_slash (a +:+ String "/" b) = split_slash a ++ split_slash b.
Proof.
  induction a as [|c a IH]; [done|]. rewrite str_app_cons. cbn [split_slash]. rewrite IH.
  case_bool_decide; [done|]. pose proof (split_slash_ne a). by destruct (split_slash a).
Qed.

Fixpoint no_slash (s : string) : bool :=
  match s with "" => true | String c s => negb (bool_decide (c = "/"%char)) && no_slash s end.

Lemma split_slash_one s : no_slash s = true → split_slash s = [s].
Proof.
  induction s as [|c s IH]; [done|]. simpl. rewrite andb_true_iff, negb_true_iff. intros [-> Hs]. by rewrite (IH Hs).
Qed.

Lemma no_slash_app a b : no_slash (a +:+ b) = no_slash a && no_slash b.
Proof. induction a as [|c a IH]; [done|]. rewrite str_app_cons. simpl. by rewrite IH, andb_assoc. Qed.

(** Joining a plain file name appends it to the cleaned directory. *)
Lemma filepath_Join_base dir : ∃ rooted stack, ∀ base, no_slash base = true → base ≠ "" → base ≠ "." → base ≠ ".." →
  filepath_Join dir base = path_render rooted (base :: stack).
Proof.
  exists (HasPrefix (dir +:+ "/") "/"), (foldl (clean_step (HasPrefix (dir +:+ "/") "/")) [] (split_slash dir)).
  intros base Hs H0 H1 H2. unfold filepath_Join, Clean. change ("/" +:+ base) with (String "/" base).
  rewrite split_slash_app, (split_slash_one _ Hs), foldl_app. cbn [foldl].
  assert (HasPrefix (dir +:+ String "/" base) "/" = HasPrefix (dir +:+ "/") "/") as ->.
  { assert (∀ s, HasPrefix s "" = true) as HP by (by intros []).
    destruct dir as [|c dir]; [by destruct base|]. rewrite !str_app_cons. simpl. by rewrite !HP. }
  f_equal. unfold clean_step at 1. by rewrite !bool_decide_false by done.
Qed.

Lemma Join_snoc (l : list string) x : Join (l ++ [x]) "/" = (if bool_decide (l = []) then "" else Join l "/" +:+ "/") +:+ x.
Proof.
  induction l as [|a l IH]; [done|]. rewrite (bool_decide_false (a :: l = [])) by done. destruct l as [|b l]; [cbn; by rewrite <-str_app_assoc|].
  change (Join ((a :: b :: l) ++ [x]) "/") with (a +:+ "/" +:+ Join ((b :: l) ++ [x]) "/").
  rewrite IH, bool_decide_false by done. change (Join (a :: b :: l) "/") with (a +:+ "/" +:+ Join (b :: l) "/").
  by rewrite !str_app_assoc.
Qed.

Lemma str_app_inj_l (a b1 b2 : string) : a +:+ b1 = a +:+ b2 → b1 = b2.
Proof. induction a as [|c a IH]; [done|]. rewrite !str_app_cons. intros [= ?]. by apply IH. Qed.

Lemma path_render_inj rooted stack b1 b2 : b1 ≠ "" → b2 ≠ "" →
  path_render rooted (b1 :: stack) = path_render rooted (b2 :: stack) → b1 = b2.
Proof.
  intros H1 H2. unfold path_render. rewrite !reverse_cons, !Join_snoc. set (p := if bool_decide _ then "" else _).
  destruct rooted.
  - intros E%str_app_inj_l. by apply str_app_inj_l in E.
  - rewrite !bool_decide_false; [by intros ?%str_app_inj_l|..]; (destruct p; [done|by rewrite str_app_cons]).
Qed.

(** The name a snapshot file has. *)
Definition safe_name (name : string) : string :=
  let safe := str_map (λ c, if bool_decide (c = "/"%char) then "_"%char else c) (TrimSuffix name ".") in
  if bool_decide (safe = "") then "zone" else safe.

Lemma safe_no_slash name : no_slash (safe_name name) = true.
Proof.
  unfold safe_name. case_bool_decide; [done|]. generalize (TrimSuffix name "."). intros s.
  induction s as [|c s IH]; [done|]. simpl. rewrite IH, andb_true_r, negb_true_iff, bool_decide_eq_false.
  by case_bool_decide.
Qed.

Lemma safe_ne name : safe_name name ≠ "".
Proof. unfold safe_name. by case_bool_decide. Qed.

Lemma snap_base n :
  no_slash (safe_name n +:+ ".snap") = true ∧ safe_name n +:+ ".snap" ≠ "" ∧ safe_name n +:+ ".snap" ≠ "." ∧ safe_name n +:+ ".snap" ≠ "..".
Proof.
  rewrite no_slash_app, safe_no_slash. split; [done|].
  assert (6 ≤ String.length (safe_name n +:+ ".snap")) as Hl
    by (rewrite str_length_app; pose proof (safe_ne n); destruct (safe_name n); simpl; [done|lia]).
  split_and!; intros E; rewrite E in Hl; simpl in Hl; lia.
Qed.

(** Two zones have the same file exactly if their names are the same but for
    [/] and [_], or are the root and [zone]. *)
Lemma snapFile_inj dir n1 n2 : snapFile dir n1 = snapFile dir n2 ↔ safe_name n1 = safe_name n2.
Proof.
  unfold snapFile. fold (safe_name n1). fold (safe_name n2). split; [|by intros ->].
  destruct (filepath_Join_base dir) as (rooted & stack & HJ).
  destruct (snap_base n1) as (A1 & A2 & A3 & A4), (snap_base n2) as (B1 & B2 & B3 & B4). rewrite (HJ _ A1 A2 A3 A4), (HJ _ B1 B2 B3 B4).
  intros E%path_render_inj; [|done..]. by apply str_app_inj_r in E.
Qed.

(** ** Files are replaced atomically *)

Section atomic.
Context `{DL : !DnsLib, BT : !BTree, MR : !MapRange, OS : !Os}.

Lemma tmp_ne path : path +:+ ".tmp" ≠ path.
Proof. intros E. apply (f_equal String.length) in E. rewrite str_length_app in E. simpl in E. lia. Qed.

(** What can be seen of a disk while a file is replaced. *)
Record replaced (disk : Disk) (path : string) (new : DiskFile) (trace : list Disk) (err : option string) : Prop := {
  rp_old_or_new : ∀ d, d ∈ trace → d !! path = disk !! path ∨ d !! path = Some new;
  rp_others : ∀ d p, d ∈ trace → p ≠ path → p ≠ path +:+ ".tmp" → d !! p = disk !! p;
  rp_error : is_Some err → ∀ d, d ∈ trace → d !! path = disk !! path;
  rp_done : err = None → trace ≠ [] → ∃ d, last trace = Some d ∧ d !! path = Some new
}.

Lemma replaced_nil disk path new err : replaced disk path new [] err.
Proof. split; try done; by intros ? ?%elem_of_nil || by intros ? ? ?%elem_of_nil || by intros _ ? ?%elem_of_nil. Qed.

(** Only the temporary file is written. *)
Definition tmp_only (disk : Disk) (path : string) (trace : list Disk) : Prop :=
  Forall (λ d, ∀ p, p ≠ path +:+ ".tmp" → d !! p = disk !! p) trace.

Lemma tmp_only_insert (disk : Disk) path df : ∀ p, p ≠ path +:+ ".tmp" → <[path +:+ ".tmp" := df]> disk !! p = disk !! p.
Proof. intros p Hne. by apply lookup_insert_ne. Qed.
Lemma tmp_only_delete (disk : Disk) path : ∀ p, p ≠ path +:+ ".tmp" → delete (path +:+ ".tmp") disk !! p = disk !! p.
Proof. intros p Hne. by apply lookup_delete_ne. Qed.

#[local] Ltac tmp_trace :=
  repeat apply Forall_cons_2;
  solve [apply Forall_nil_2 | intros p Hp; by apply tmp_only_insert | intros p Hp; by apply tmp_only_delete].

Lemma tmp_only_replaced disk path new trace err : tmp_only disk path trace → replaced disk path new trace (Some err).
Proof.
  intros H. unfold tmp_only in H. rewrite Forall_forall in H. pose proof (tmp_ne path) as Ht. split; try done.
  - intros d Hd. left. by apply H.
  - intros d p Hd _ Hp. by apply H.
  - intros _ d Hd. by apply H.
Qed.

Lemma renamed_replaced disk path new trace :
  tmp_only disk path trace → replaced disk path new (trace ++ [<[path := new]> (delete (path +:+ ".tmp") disk)]) None.
Proof.
  intros H. unfold tmp_only in H. rewrite Forall_forall in H. pose proof (tmp_ne path) as Ht. split.
  - intros d [Hd| ->%list_elem_of_singleton]%elem_of_app; [left; by apply H|right]. apply lookup_insert_eq.
  - intros d p [Hd| ->%list_elem_of_singleton]%elem_of_app Hp Hpt; [by apply H|].
    by rewrite lookup_insert_ne, lookup_delete_ne.
  - by intros [? [=]].
  - intros _ _. rewrite last_snoc. eexists. split; [done|]. apply lookup_insert_eq.
Qed.

Lemma replace_file_spec disk path new :
  replaced disk path new (replace_file disk path new).1 (replace_file disk path new).2.
Proof.
  unfold replace_file. destruct (os_fail "create" _); [apply replaced_nil|].
  destruct (os_fail "write" _); [|destruct (os_fail "close" _); [|destruct (os_fail "rename" _)]]; cbn [fst snd].
  - apply tmp_only_replaced. tmp_trace.
  - apply tmp_only_replaced. tmp_trace.
  - apply tmp_only_replaced. tmp_trace.
  - apply (renamed_replaced disk path new [_; _]). tmp_trace.
Qed.

(** What a snapshot file holds once it is written: the snapshot, if closing
    the file does not fail. *)
Definition snapshot_content (now : Time) (tmp : string) (b : bytes) : DiskFile :=
  match os_fail "close" tmp with Some _ => os_partial tmp | None => mkDiskFile (Raw b) now end.

Lemma WriteSnapshot_replaced now cfg disk z new :
  let path := snapFile (sn_Dir cfg) (z_Name z) in
  (∀ st b, z_Store z = Some st → Snapshot.WriteSnapshot st now = Ok b → new = snapshot_content now (path +:+ ".tmp") b) →
  replaced disk path new (WriteSnapshot now cfg disk z).1 (WriteSnapshot now cfg disk z).2 ∧
  ((WriteSnapshot now cfg disk z).2 = None → (WriteSnapshot now cfg disk z).1 ≠ [] →
    ∃ st b, z_Store z = Some st ∧ Snapshot.WriteSnapshot st now = Ok b).
Proof.
  cbv zeta. intros Hnew. unfold WriteSnapshot. set (path := snapFile _ _) in *.
  destruct (_ || _); [split; [apply replaced_nil|done]|].
  destruct (z_Store z) as [st|]; [|split; [apply replaced_nil|done]].
  destruct (os_fail "mkdir" _); [split; [apply replaced_nil|done]|]. cbv zeta.
  destruct (_ && _); [split; [apply replaced_nil|done]|].
  destruct (os_fail "create" _); [split; [apply replaced_nil|done]|].
  destruct (write_snapshot_file now _ _) as [written werr] eqn:Ew.
  destruct werr as [err|].
  { split; [|by destruct (os_fail "remove" _)]. destruct (os_fail "remove" _); apply tmp_only_replaced; tmp_trace. }
  unfold write_snapshot_file in Ew. destruct (Snapshot.WriteSnapshot st now) as [b|err] eqn:Eb; [|done].
  destruct (os_fail "write" _); [done|]. injection Ew as Ew. fold (snapshot_content now (path +:+ ".tmp") b) in Ew.
  rewrite <-(Hnew st b eq_refl Eb) in Ew. subst written. split; [|eauto].
  destruct (os_fail "rename" _); [apply tmp_only_replaced|apply (renamed_replaced disk path new [_; _])]; tmp_trace.
Qed.

(** C35: files are replaced atomically. At every moment of saving the state,
    and of writing a snapshot, the file holds what it held before or the
    whole of what is written, whatever fails and wherever the process dies;
    after an error it holds what it held before; and no other file but the
    temporary one is touched. What is written is the state, and for a zone
    the bytes of the snapshot of its store; if closing the snapshot file
    fails it is whatever that leaves. Without a store, or if it cannot be
    encoded, the snapshot stays as it was. *)
Theorem files_atomic now disk path s cfg z :
  replaced disk path (mkDiskFile (Json (state_file now (Views s))) now) (Save now disk path s).1 (Save now disk path s).2 ∧
  let snap := snapFile (sn_Dir cfg) (z_Name z) in
  let trace := (WriteSnapshot now cfg disk z).1 in
  let err := (WriteSnapshot now cfg disk z).2 in
  (∀ st b, z_Store z = Some st → Snapshot.WriteSnapshot st now = Ok b →
    replaced disk snap (match os_fail "close" (snap +:+ ".tmp") with
      | None => mkDiskFile (Raw b) now
      | Some _ => os_partial (snap +:+ ".tmp")
      end) trace err) ∧
  ((∀ st, z_Store z = Some st → is_ok (Snapshot.WriteSnapshot st now) = false) →
    ∀ d, d ∈ trace → d !! snap = disk !! snap ∧ ∀ p, p ≠ snap → p ≠ snap +:+ ".tmp" → d !! p = disk !! p).
Proof.
  split; [|cbv zeta; split].
  - unfold Save. case_bool_decide; [apply replaced_nil|]. cbv zeta.
    destruct (os_fail "mkdir" _); [destruct (negb _)|]; [apply replaced_nil|apply replace_file_spec..].
  - intros st b Hst Hb. apply WriteSnapshot_replaced. intros st' b' Hst' Hb'. unfold snapshot_content.
    destruct (os_fail "close" _); congruence.
  - intros Hno d Hd. destruct (WriteSnapshot_replaced now cfg disk z (os_partial "")) as [[Hold Hoth Herr _] Hdone].
    { intros st b Hst Hb. specialize (Hno st Hst). by rewrite Hb in Hno. }
    split; [|intros p; by apply Hoth]. destruct (WriteSnapshot now cfg disk z).2 as [e|] eqn:Ee; [by apply Herr|].
    destruct (Hdone eq_refl) as (st & b & Hst & Hb); [intros E; rewrite E in Hd; by apply elem_of_nil in Hd|].
    specialize (Hno st Hst). by rewrite Hb in Hno.
Qed.
End atomic.

(** ** Saving and restoring *)

Section restore.
Context `{DL : !DnsLib, BT : !BTree, MR : !MapRange, NL : !DnsNameLaws, OS : !Os}.

(** A map built entry by entry. *)
Lemma build_map_lookup {A B} (key : A → string) (val : A → B) l v :
  (∀ v1 v2, v1 ∈ l → v2 ∈ l → key v1 = key v2 → v1 = v2) → v ∈ l →
  foldl (λ (m : gmap string B) v, <[key v := val v]> m) ∅ l !! key v = Some (val v).
Proof.
  induction l as [|w l IH] using rev_ind; intros Hu Hv; [by apply elem_of_nil in Hv|]. rewrite foldl_app. cbn [foldl].
  destruct (decide (key w = key v)) as [E|E].
  - assert (w = v) as -> by (apply Hu; set_solver). by rewrite lookup_insert_eq.
  - rewrite lookup_insert_ne by done. apply IH; [intros; apply Hu; set_solver|]. apply elem_of_app in Hv. set_solver.
Qed.

Lemma build_map_dom {A B} (key : A → string) (val : A → B) l k :
  is_Some (foldl (λ (m : gmap string B) v, <[key v := val v]> m) ∅ l !! k) → ∃ v, v ∈ l ∧ key v = k.
Proof.
  induction l as [|w l IH] using rev_ind; [by intros []|]. rewrite foldl_app. cbn [foldl].
  destruct (decide (key w = k)) as [E|E]; [intros _; exists w; set_solver|]. rewrite lookup_insert_ne by done.
  intros (v & Hv & Hk)%IH. exists v. set_solver.
Qed.

(** The runtimes go by their canonical names. *)
Definition named (s : Sys) : Prop :=
  ∀ name loc, s_zones s !! name = Some loc → canonical name ∧ ∃ z, s_heap s !! loc = Some z ∧ z_Name z = name.

Lemma AddZone_named s name source servers tsig : named s → named (AddZone s name source servers tsig).
Proof.
  intros Hn. assert (named (mkSys (s_heap s ++ [NewZone (Canonical name) source servers tsig])
    (<[Canonical name := length (s_heap s)]> (s_zones s)) (s_sem s) (s_jobs s) (s_log s))) as H.
  { intros n l. cbn [s_zones s_heap]. intros [[<- <-]|[_ (Hc & z & Hz & Hnm)%Hn]]%lookup_insert_Some.
    - split; [apply canonical_Canonical|]. eexists. split; [by rewrite lookup_app_r, Nat.sub_diag|done].
    - split; [done|]. exists z. split; [|done]. apply lookup_app_Some. by left. }
  unfold AddZone. destruct (_ ≫= _); [destruct (bool_decide _)|]; done.
Qed.

(** A manager made from a configuration. *)
Lemma NewManager_named cfg : named (NewManager cfg).
Proof.
  unfold NewManager. apply (foldl_inv named); [|intros; by apply AddZone_named].
  apply (foldl_inv named); [by intros n l|]. intros; by apply AddZone_named.
Qed.

Lemma named_zone_at s name z : named s → canonical name → zone_at s name = Some z → z_Name z = name.
Proof.
  intros Hn Hc. unfold zone_at, Get. rewrite Hc. destruct (s_zones s !! name) as [loc|] eqn:E; [|done].
  destruct (Hn _ _ E) as (_ & z' & Hz & Hnm). cbn [mbind option_bind]. congruence.
Qed.

Lemma elem_of_List_zones s z : named s → z ∈ List_zones s ↔ zone_at s (z_Name z) = Some z ∧ canonical (z_Name z).
Proof.
  intros Hn. unfold List_zones. rewrite list_elem_of_omap. split.
  - intros ([name loc] & He%elem_of_range & Hz). cbn [snd] in Hz. destruct (Hn _ _ He) as (Hc & z' & Hz' & Hnm).
    assert (z' = z) as -> by congruence. unfold zone_at, Get. rewrite Hnm, Hc, He. done.
  - unfold zone_at, Get. intros [Hz Hc]. rewrite Hc in Hz. destruct (s_zones s !! z_Name z) as [loc|] eqn:E; [|done].
    exists (z_Name z, loc). split; [by apply elem_of_range|done].
Qed.

(** What the state file says of a zone. *)
Definition snap_of (z : ZoneRuntime) : ZoneSnap :=
  mkZoneSnap (z_LastValidAt z) (store_serial (z_Store z)) (state_string (z_State z)) (FSet_List (z_Findings z)) (z_Source z).

Lemma state_file_lookup now s name z :
  named s → canonical name → zone_at s name = Some z → fi_Zones (state_file now (Views s)) !! name = Some (snap_of z).
Proof.
  intros Hn Hc Hz. pose proof (named_zone_at s name z Hn Hc Hz) as Hname. unfold state_file. cbn [fi_Zones].
  change (snap_of z) with (zone_snap (Snapshot z)). replace name with (v_Name (Snapshot z)) by done.
  apply (build_map_lookup v_Name zone_snap (Views s) (Snapshot z)).
  - intros v1 v2 (z1 & -> & H1)%list_elem_of_fmap (z2 & -> & H2)%list_elem_of_fmap E. f_equal.
    apply elem_of_List_zones in H1 as [H1 _], H2 as [H2 _]; [|done..]. change (z_Name z1 = z_Name z2) in E. congruence.
  - apply list_elem_of_fmap. exists z. split; [done|]. apply elem_of_List_zones; [done|]. by rewrite Hname.
Qed.

Lemma state_file_canonical now s name sn :
  named s → fi_Zones (state_file now (Views s)) !! name = Some sn → canonical name.
Proof.
  intros Hn Hs. assert (is_Some (fi_Zones (state_file now (Views s)) !! name)) as (v & Hv & <-)%(build_map_dom v_Name zone_snap) by eauto.
  apply list_elem_of_fmap in Hv as (z & -> & [_ Hc]%elem_of_List_zones); done.
Qed.

Lemma apply_one_spec now s e : named s → canonical e.1 →
  named (apply_one now s e) ∧ ∀ name, canonical name →
  zone_at (apply_one now s e) name =
    if bool_decide (name = e.1) then (λ z, Restore now z (zs_LastValidAt e.2) (zs_Findings e.2)) <$> zone_at s name else zone_at s name.
Proof.
  intros Hn Hc. unfold apply_one. assert (Get s e.1 = s_zones s !! e.1) as HG by (unfold Get; by rewrite Hc).
  destruct (s_zones s !! e.1) as [loc|] eqn:E; rewrite !HG.
  2:{ split; [done|]. intros name Hcn. case_bool_decide as Hne; [|done]. subst name. unfold zone_at. by rewrite HG. }
  destruct (Hn _ _ E) as (_ & z & Hz & Hname). rewrite !Hz. set (z' := Restore _ _ _ _).
  assert (z_Name z' = z_Name z) as Hz' by (unfold z', Restore; by destruct (negb _)).
  assert (loc < length (s_heap s)) as Hlt by by eapply lookup_lt_Some. split.
  - intros name l Hl. destruct (Hn _ _ Hl) as (Hcl & zl & Hzl & Hnl). split; [done|]. cbn [put s_heap].
    destruct (decide (loc = l)) as [<-|Hne].
    + exists z'. rewrite list_lookup_insert_eq by done. split; [done|]. congruence.
    + exists zl. by rewrite list_lookup_insert_ne.
  - intros name Hcn. unfold zone_at, Get. rewrite !Hcn. cbn [put s_heap s_zones].
    destruct (s_zones s !! name) as [l|] eqn:El; cbn [mbind option_bind]; [|by case_bool_decide].
    destruct (Hn _ _ El) as (_ & zl & Hzl & Hnl). case_bool_decide as Hne.
    + subst name. assert (l = loc) as -> by congruence. by rewrite list_lookup_insert_eq, Hz by done.
    + rewrite list_lookup_insert_ne; [done|]. intros ->. congruence.
Qed.

Lemma Apply_spec now l s :
  named s → NoDup l.*1 → (∀ e, e ∈ l → canonical e.1) →
  named (foldl (apply_one now) s l) ∧ ∀ name, canonical name →
  zone_at (foldl (apply_one now) s l) name = match list_to_map (M := gmap string ZoneSnap) l !! name with
    | Some sn => (λ z, Restore now z (zs_LastValidAt sn) (zs_Findings sn)) <$> zone_at s name
    | None => zone_at s name
    end.
Proof.
  revert s. induction l as [|e l IH]; intros s Hn Hnd Hc; cbn [foldl]; [split; [done|]; intros; by cbn|].
  apply NoDup_cons in Hnd as [Hni Hnd]. destruct (apply_one_spec now s e Hn (Hc e ltac:(set_solver))) as [Hn1 H1].
  destruct (IH _ Hn1 Hnd ltac:(set_solver)) as [Hn2 H2]. split; [done|]. intros name Hcn. rewrite (H2 name Hcn), (H1 name Hcn).
  destruct e as [k sn]. cbn [list_to_map foldr fst snd] in *. unfold uncurry. destruct (decide (name = k)) as [->|Hne].
  - rewrite bool_decide_true, lookup_insert_eq by done. by rewrite (proj1 (not_elem_of_list_to_map _ _) Hni).
  - by rewrite bool_decide_false, lookup_insert_ne by done.
Qed.

(** A set of findings is rebuilt from its list. *)
Lemma AddAll_List now fs : fset_wf fs → foldl (Add now) NewSet (FSet_List fs) = fs.
Proof.
  intros Hwf. assert (∀ l s, (∀ f, f ∈ l → s !! Key f = None) → NoDup (Key <$> l) →
    foldl (Add now) s l = list_to_map (M := gmap string Finding) ((λ f, (Key f, f)) <$> l) ∪ s) as H.
  { induction l as [|f l IH]; intros s Hs Hnd; cbn [foldl]; [symmetry; apply (left_id_L ∅ (∪))|].
    cbn [fmap list_fmap] in Hnd. apply NoDup_cons in Hnd as [Hni Hnd].
    assert (Add now s f = <[Key f := f]> s) as -> by (unfold Add; by rewrite (Hs f) by set_solver).
    rewrite IH; [|intros g Hg; rewrite lookup_insert_ne; [apply Hs; set_solver|]|done].
    - cbn [fmap list_fmap list_to_map foldr uncurry]. rewrite <-insert_union_l, insert_union_r; [done|].
      apply not_elem_of_list_to_map. by rewrite <-list_fmap_compose.
    - intros E. apply Hni. rewrite E. apply list_elem_of_fmap. by exists g. }
  assert ((λ f, (Key f, f)) <$> FSet_List fs = range fs) as Hr.
  { unfold FSet_List. rewrite <-list_fmap_compose. rewrite <-(list_fmap_id (range fs)) at 2. apply list_fmap_ext.
    intros i [k f] Hi%list_elem_of_lookup_2%elem_of_range. simpl. by rewrite (Hwf _ _ Hi). }
  rewrite H.
  - rewrite Hr. unfold NewSet. rewrite (right_id_L ∅ (∪)). apply map_eq. intros k. apply option_eq. intros f.
    rewrite <-elem_of_list_to_map by apply NoDup_fst_range. apply elem_of_range.
  - intros f _. apply lookup_empty.
  - assert (Key <$> FSet_List fs = (range fs).*1) as ->; [|apply NoDup_fst_range].
    rewrite <-Hr, <-list_fmap_compose. done.
Qed.

(** A state that was saved without an error is what is loaded. *)
Lemma Save_loads now disk disk' path s :
  path ≠ "" → os_fail "read" path = None → (Save now disk path s).2 = None → last (Save now disk path s).1 = Some disk' →
  Load disk' path = Ok (state_file now (Views s)) ∧
  (∀ q, q ≠ path → q ≠ path +:+ ".tmp" → disk' !! q = disk !! q).
Proof.
  intros Hp Hread Herr Hlast. set (f := state_file now (Views s)).
  assert (replaced disk path (mkDiskFile (Json f) now) (Save now disk path s).1 (Save now disk path s).2) as [_ Hoth _ Hdone].
  { unfold Save. rewrite (bool_decide_false _ Hp). cbv zeta.
    destruct (os_fail "mkdir" _); [destruct (negb _)|]; [apply replaced_nil|apply replace_file_spec..]. }
  destruct (Hdone Herr) as (d & Hd & Hf); [by intros E; rewrite E in Hlast|].
  assert (d = disk') as -> by congruence. split.
  - unfold Load. rewrite (bool_decide_false _ Hp), Hread, Hf. done.
  - intros q Hq Ht. apply Hoth; [by apply last_Some_elem_of|done..].
Qed.

(** What a saved state gives a manager that knows nothing yet. *)
Lemma Apply_saved now now' s s0 :
  named s → named s0 → named (Apply now' (state_file now (Views s)) s0) ∧ ∀ name z0, canonical name → zone_at s0 name = Some z0 →
    ∃ z1, zone_at (Apply now' (state_file now (Views s)) s0) name = Some z1 ∧
    (zone_at s name = None → z1 = z0) ∧
    (∀ z, zone_at s name = Some z → fset_wf (z_Findings z) → z_Findings z0 = NewSet → z_LastValidAt z0 = zeroTime →
      z_Findings z1 = z_Findings z ∧ z_LastValidAt z1 = z_LastValidAt z).
Proof.
  intros Hn Hn0. set (f := state_file now (Views s)). unfold Apply. destruct (Apply_spec now' (range (fi_Zones f)) s0 Hn0) as [Hn1 H].
  { apply NoDup_fst_range. }
  { intros [k sn] Hin%elem_of_range. by apply (state_file_canonical now s k sn). }
  split; [done|]. intros name z0 Hc Hz0. rewrite (H name Hc), Hz0.
  assert (list_to_map (M := gmap string ZoneSnap) (range (fi_Zones f)) = fi_Zones f) as ->.
  { apply map_eq. intros k. apply option_eq. intros sn. rewrite <-elem_of_list_to_map by apply NoDup_fst_range. apply elem_of_range. }
  destruct (zone_at s name) as [z|] eqn:Ez.
  - unfold f. rewrite (state_file_lookup now s name z Hn Hc Ez). eexists. split; [done|]. split; [done|].
    intros z' [= <-] Hwf HF HL. unfold Restore. cbn [zs_LastValidAt zs_Findings snap_of].
    assert (z_Findings (with_Findings (if negb (IsZero (z_LastValidAt z)) then with_LastValidAt z0 (z_LastValidAt z) else z0)
      (foldl (Add now') (z_Findings (if negb (IsZero (z_LastValidAt z)) then with_LastValidAt z0 (z_LastValidAt z) else z0)) (FSet_List (z_Findings z))))
      = z_Findings z) as ->.
    { cbn [z_Findings with_Findings]. destruct (negb _); cbn [z_Findings with_LastValidAt]; rewrite HF; by apply AddAll_List. }
    split; [done|]. unfold IsZero. case_bool_decide as Hzero; cbn [negb z_LastValidAt with_Findings with_LastValidAt]; congruence.
  - destruct (fi_Zones f !! name) as [sn|] eqn:Ef; [|eexists; split; [done|done]].
    assert (is_Some (fi_Zones f !! name)) as (v & Hv & <-)%(build_map_dom v_Name zone_snap) by eauto.
    apply list_elem_of_fmap in Hv as (z & -> & [Hz _]%elem_of_List_zones); [|done]. change (v_Name (Snapshot z)) with (z_Name z) in Ez. congruence.
Qed.

(** A restart loses neither the findings nor the date a zone was last
    valid. If the state is saved without an error, then loading the file and
    applying it to a manager that knows nothing yet about a zone gives the
    zone the findings and the date it had; a zone the file does not mention
    is left alone. *)
Theorem state_roundtrip now now' disk disk' path s s0 :
  path ≠ "" → named s → named s0 → os_fail "read" path = None →
  (Save now disk path s).2 = None → last (Save now disk path s).1 = Some disk' →
  ∃ f, Load disk' path = Ok f ∧ ∀ name z0, canonical name → zone_at s0 name = Some z0 →
    ∃ z1, zone_at (Apply now' f s0) name = Some z1 ∧
    (zone_at s name = None → z1 = z0) ∧
    (∀ z, zone_at s name = Some z → fset_wf (z_Findings z) → z_Findings z0 = NewSet → z_LastValidAt z0 = zeroTime →
      z_Findings z1 = z_Findings z ∧ z_LastValidAt z1 = z_LastValidAt z).
Proof.
  intros Hp Hn Hn0 Hread Herr Hlast. exists (state_file now (Views s)). split.
  - by apply (Save_loads now disk).
  - apply Apply_saved; done.
Qed.

Lemma snapFile_suffix dir n : ∃ p, snapFile dir n = p +:+ ".snap".
Proof.
  unfold snapFile. fold (safe_name n). destruct (filepath_Join_base dir) as (rooted & stack & HJ).
  destruct (snap_base n) as (A1 & A2 & A3 & A4). rewrite (HJ _ A1 A2 A3 A4).
  unfold path_render. rewrite reverse_cons, Join_snoc. set (p := if bool_decide _ then "" else _). rewrite (str_app_assoc p).
  destruct rooted; [exists ("/" +:+ (p +:+ safe_name n)); by rewrite !str_app_assoc|].
  rewrite bool_decide_false; [by eexists|]. destruct p; [pose proof (safe_ne n); by destruct (safe_name n)|by rewrite !str_app_cons].
Qed.

(** A snapshot's path is never the temporary one of another. *)
Lemma snapFile_not_tmp dir n1 n2 : snapFile dir n1 ≠ snapFile dir n2 +:+ ".tmp".
Proof.
  destruct (snapFile_suffix dir n1) as [p ->], (snapFile_suffix dir n2) as [q ->]. intros E.
  assert (p +:+ ".snap" = (p +:+ ".") +:+ "snap") as E1 by (by rewrite <-str_app_assoc). rewrite E1 in E.
  apply str_app_inj_length in E as [_ E]; [done|]. apply (f_equal String.length) in E. rewrite !str_length_app in E. rewrite !str_length_app. simpl in *. lia.
Qed.

(** The snapshot that was written is read for every zone of that file name;
    the others are as before. *)
Lemma snapshot_read `{WL : !DnsWireLaws, TL : !DnsTtlLaws} now cfg disk disk' z st :
  sn_Enabled cfg = true → sn_Dir cfg ≠ "" → z_Store z = Some st → storable st now →
  (WriteSnapshot now cfg disk z).2 = None → last (WriteSnapshot now cfg disk z).1 = Some disk' →
  (∀ path, os_fail "open" path = None ∧ os_fail "close" path = None) →
  (∃ st', (∀ n, safe_name n = safe_name (z_Name z) → ReadSnapshot cfg disk' n = Ok (st', timeUnix (Unix now))) ∧
    store_wf st' ∧ st_origin st' = st_origin st ∧ zone_set st' = shown st) ∧
  (∀ n, safe_name n ≠ safe_name (z_Name z) → ReadSnapshot cfg disk' n = ReadSnapshot cfg disk n).
Proof.
  intros Hen Hdir Hst Hs Herr Hlast Hos.
  destruct (snapshot_back st now Hs) as (b & st' & Hb & Hr & Hwf' & Hor & Hz).
  destruct (WriteSnapshot_replaced now cfg disk z (mkDiskFile (Raw b) now)) as [[_ Hoth _ Hdone] _].
  { intros st1 b1 Hst1 Hb1. unfold snapshot_content. rewrite (proj2 (Hos _)). congruence. }
  assert ((WriteSnapshot now cfg disk z).1 ≠ []) as Hne by (intros E; by rewrite E in Hlast).
  destruct (Hdone Herr Hne) as (d & Hd & Hdp). assert (d = disk') as -> by congruence. split.
  - exists st'. split; [|done]. intros n Hsafe. unfold ReadSnapshot. rewrite Hen, (bool_decide_false _ Hdir). cbn [negb orb].
    rewrite (proj1 (Hos _)), (proj2 (snapFile_inj (sn_Dir cfg) n (z_Name z)) Hsafe), Hdp. done.
  - intros n Hsafe. unfold ReadSnapshot. destruct (_ || _); [done|]. rewrite !(proj1 (Hos _)).
    rewrite (Hoth disk' (snapFile (sn_Dir cfg) n)); [done|..].
    + by apply last_Some_elem_of.
    + by intros ?%snapFile_inj.
    + apply snapFile_not_tmp.
Qed.

(** C38: snapshots survive a restart. After a snapshot of a zone is written
    without an error (that of closing the file, which is not looked at,
    included), reading it gives a well-formed store of the same origin and
    exactly the records the zone's store shows, which are its records unless
    one of TTL 0 is in an RRset with another TTL; and the snapshots of all
    other zones are as before, except those of the zones with the same file
    name: for them, too, the records of this zone are read. *)
Theorem snapshot_files `{WL : !DnsWireLaws, TL : !DnsTtlLaws} now cfg disk disk' z st :
  sn_Enabled cfg = true → sn_Dir cfg ≠ "" → z_Store z = Some st → storable st now →
  (WriteSnapshot now cfg disk z).2 = None → last (WriteSnapshot now cfg disk z).1 = Some disk' →
  (∀ path, os_fail "open" path = None ∧ os_fail "close" path = None) →
  (∃ st', (∀ n, safe_name n = safe_name (z_Name z) → ReadSnapshot cfg disk' n = Ok (st', timeUnix (Unix now))) ∧
    store_wf st' ∧ st_origin st' = st_origin st ∧ zone_set st' = shown st ∧ (zone_set st' = zone_set st ↔ ttl_kept st)) ∧
  (∀ n, safe_name n ≠ safe_name (z_Name z) → ReadSnapshot cfg disk' n = ReadSnapshot cfg disk n).
Proof.
  intros Hen Hdir Hst Hs Herr Hlast Hos.
  destruct (snapshot_read now cfg disk disk' z st Hen Hdir Hst Hs Herr Hlast Hos) as [(st' & H1 & H2 & H3 & H4) H5].
  split; [|done]. exists st'. split_and!; try done. rewrite H4. apply shown_kept; apply Hs.
Qed.
End restore.

(** ** Witnesses *)

(** An operating system that does not fail. *)
Definition toy_os : Os := {| os_fail := λ op path, None; os_partial := λ path, mkDiskFile (Raw "") 0; json_decode := λ b, Err "no json" |}.
Definition toy_finding : Finding := NewFinding 5 DSMismatch Error "z." TypeDS "no DNSKEY matches parent DS".
Definition toy_zone_before : ZoneRuntime :=
  with_LastValidAt (with_Findings (NewZone "z." "config" [] "") {[ "DS_MISMATCH|z.|43" := toy_finding ]}) 77.
Definition toy_sys_of (z : ZoneRuntime) : Sys := mkSys [z] {[ "z." := 0 ]} 0 [] [].

Lemma toy_named z : z_Name z = "z." → named (toy_sys_of z).
Proof. intros Hz n l. cbn [toy_sys_of s_zones s_heap]. intros [<- <-]%lookup_singleton_Some. split; [vm_compute; reflexivity|]. by exists z. Qed.

Lemma state_roundtrip_witness :
  ∃ disk' f z1, last (Save (OS := toy_os) 9 ∅ "state/zones.json" (toy_sys_of toy_zone_before)).1 = Some disk' ∧
    Load (OS := toy_os) disk' "state/zones.json" = Ok f ∧
    zone_at (Apply 10 f (toy_sys_of (NewZone "z." "config" [] ""))) "z." = Some z1 ∧
    z_Findings z1 = {[ "DS_MISMATCH|z.|43" := toy_finding ]} ∧ z_LastValidAt z1 = 77%Z.
Proof.
  set (s := toy_sys_of toy_zone_before). set (s0 := toy_sys_of (NewZone "z." "config" [] "")).
  assert (∃ disk', last (Save (OS := toy_os) 9 ∅ "state/zones.json" s).1 = Some disk') as [disk' Hlast] by (eexists; reflexivity).
  assert (canonical "z.") as Hc by (vm_compute; reflexivity).
  assert (zone_at s "z." = Some toy_zone_before) as Hz by reflexivity.
  assert (zone_at s0 "z." = Some (NewZone "z." "config" [] "")) as Hz0 by reflexivity.
  assert (fset_wf (z_Findings toy_zone_before)) as Hwf by (intros k f; cbn [toy_zone_before z_Findings with_Findings with_LastValidAt]; intros [<- <-]%lookup_singleton_Some; vm_compute; reflexivity).
  destruct (state_roundtrip (OS := toy_os) 9 10 ∅ disk' "state/zones.json" s s0 ltac:(done) (toy_named toy_zone_before eq_refl)
    (toy_named (NewZone "z." "config" [] "") eq_refl)
    eq_refl eq_refl Hlast) as (f & Hf & H).
  destruct (H "z." _ Hc Hz0) as (z1 & Hz1 & _ & H1). destruct (H1 _ Hz Hwf eq_refl eq_refl) as [HF HL].
  exists disk', f, z1. split; [exact Hlast|]. split; [exact Hf|]. split; [exact Hz1|]. split; [exact HF|exact HL].
Defined.

(** A snapshot of the zone [a/b.] is read for the zone [a_b.]. *)
Definition toy_sn_cfg : SnapshotConfig := mkSnapshotConfig true "/var/lib/auditor" 0.
Definition toy_slash_zone : ZoneRuntime := with_Store (NewZone "a/b." "config" [] "") (Some (built "z." toy_zone)).

(** Writing goes through when nothing fails. *)
Lemma toy_WriteSnapshot dir z st now :
  dir ≠ "" → z_Store z = Some st → storable st now →
  ∃ disk', let sn := mkSnapshotConfig true dir 0 in
    (WriteSnapshot (OS := toy_os) now sn ∅ z).2 = None ∧ last (WriteSnapshot (OS := toy_os) now sn ∅ z).1 = Some disk'.
Proof.
  intros Hdir Hst Hs. cbv zeta. unfold WriteSnapshot. cbn [sn_Enabled sn_Dir negb orb]. rewrite bool_decide_false by done. rewrite Hst.
  destruct (snapshot_back st now Hs) as (b & s' & Hw & _). cbn [os_fail toy_os]. rewrite Hw. cbv zeta.
  rewrite bool_decide_false by done. cbn [andb write_snapshot_file os_fail toy_os fst snd]. by eexists.
Qed.

Lemma snapshot_files_witness :
  ∃ disk' st', last (WriteSnapshot (OS := toy_os) (timeUnix 1700000000) toy_sn_cfg ∅ toy_slash_zone).1 = Some disk' ∧
    ReadSnapshot (OS := toy_os) toy_sn_cfg disk' "a_b." = Ok (st', timeUnix (Unix (timeUnix 1700000000))) ∧ st_origin st' = "z.".
Proof.
  assert (z_Store toy_slash_zone = Some (built "z." toy_zone)) as Hst by reflexivity.
  assert (∀ path, os_fail (Os := toy_os) "open" path = None ∧ os_fail (Os := toy_os) "close" path = None) as Hos by (intros; split; reflexivity).
  assert (sn_Dir toy_sn_cfg ≠ "") as Hdir by discriminate.
  destruct (toy_WriteSnapshot "/var/lib/auditor" toy_slash_zone _ _ Hdir Hst toy_zone_storable) as (disk' & Herr & Hlast).
  destruct (snapshot_files (OS := toy_os) _ toy_sn_cfg ∅ disk' toy_slash_zone _ eq_refl Hdir Hst toy_zone_storable Herr Hlast Hos)
    as [(st' & Hr & _ & Hor' & _) _].
  exists disk', st'. split; [exact Hlast|]. split; [|rewrite Hor'; vm_compute; reflexivity]. apply Hr. vm_compute. reflexivity.
Defined.
