(* ===== verification/Webhooks.v ===== *)
(** * Webhooks (internal/webhooks/webhooks.go)

    A subscriber of the event bus that posts events to configured targets.
    The queue is a buffered channel: publishing never waits, and drops an
    event when the queue is full. Delivery of an event tries every matching
    target in turn. The answers of targets are the class [Http]; what is
    delivered is the event, in JSON. Main results: which targets get an
    event and how often it is posted to each; whatever the order of
    publishing and taking, the events taken are a prefix of those that were
    accepted, in their order, and an event is dropped exactly when the queue
    is full. *)

From S2P Require Import Prelude GoStrings Config Event.

(** An answer: the request cannot be made, the connection fails, or there is
    a status code. *)
Inductive HttpResult := BadRequest | Unreachable | Status (code : Z).

(** What the [i]-th request for an event to a URL gives. *)
Class Http : Type := { http_Do : string → Event → Z → HttpResult }.

Record Sender := mkSender { sd_cfg : WebhookConfig; sd_timeout : Duration; sd_ch : list Event }.

Definition New (cfg : WebhookConfig) : Sender :=
  let cfg := if bool_decide (wh_QueueSize cfg ≤ 0)%Z
    then mkWebhooks (wh_Enabled cfg) (wh_Timeout cfg) (wh_MaxRetries cfg) (wh_RetryBackoff cfg) 1000 (wh_Targets cfg) else cfg in
  mkSender cfg (if bool_decide (wh_Timeout cfg ≤ 0)%Z then 10 * Second else wh_Timeout cfg)%Z [].

Definition with_ch (s : Sender) (ch : list Event) : Sender := mkSender (sd_cfg s) (sd_timeout s) ch.

(** The handler [Subscribe] registers: whether the event is queued. *)
Definition on_event (s : Sender) (e : Event) : Sender * bool :=
  if bool_decide (Z.of_nat (length (sd_ch s)) < wh_QueueSize (sd_cfg s))%Z
  then (with_ch s (sd_ch s ++ [e]), true) else (s, false).

(** [Subscribe] to a bus whose handlers change the sender. *)
Definition Subscribe (s : Sender) (bus : Bus (Sender → Sender)) : Bus (Sender → Sender) :=
  if negb (wh_Enabled (sd_cfg s)) then bus else Event.Subscribe bus (λ e s, (on_event s e).1).

Definition matchEvent (t : WebhookTarget) (e : Event) : bool :=
  (if bool_decide (0 < length (wt_Events t)) then existsb (λ ev, bool_decide (ev = e_Type e)) (wt_Events t) else true)
  && (if bool_decide (0 < length (wt_Zones t)) then existsb (λ z, bool_decide (z = e_Zone e)) (wt_Zones t) else true).

Section deliver.
Context `{H : !Http}.

(** The attempts at a target, from the [i]-th on; [n] are left. The number
    of requests made, and whether one of them was accepted. *)
Fixpoint attempts (t : WebhookTarget) (e : Event) (i : Z) (n : nat) : nat * bool :=
  match n with
  | 0 => (0, false)
  | S n =>
      match http_Do (wt_URL t) e i with
      | BadRequest => (0, false)
      | Status code => if bool_decide (code < 300)%Z then (1, true) else let '(k, ok) := attempts t e (i + 1) n in (S k, ok)
      | Unreachable => let '(k, ok) := attempts t e (i + 1) n in (S k, ok)
      end
  end.

(** What is recorded of a delivery. *)
Record Delivery := mkDelivery { dl_URL : string; dl_posts : nat; dl_ok : bool }.

Definition deliver (s : Sender) (e : Event) : list Delivery :=
  omap (λ t,
    if negb (matchEvent t e) then None
    else let '(k, ok) := attempts t e 0 (Z.to_nat (wh_MaxRetries (sd_cfg s) + 1)) in Some (mkDelivery (wt_URL t) k ok))
    (wh_Targets (sd_cfg s)).

(** [Run]: an event is taken from the queue and delivered. *)
Definition Run_step (s : Sender) : option (Sender * Event * list Delivery) :=
  if negb (wh_Enabled (sd_cfg s)) then None
  else match sd_ch s with [] => None | e :: ch => Some (with_ch s ch, e, deliver s e) end.
End deliver.

(** ** Delivery *)

Section facts.
Context `{H : !Http}.

Definition accepts (t : WebhookTarget) (e : Event) (i : Z) : Prop := ∃ code, http_Do (wt_URL t) e i = Status code ∧ (code < 300)%Z.

Lemma attempts_spec t e i n k ok :
  attempts t e i n = (k, ok) → k ≤ n ∧
  (ok = true ↔ ∃ j, (i ≤ j < i + Z.of_nat n)%Z ∧ accepts t e j ∧ ∀ j', (i ≤ j' < j)%Z → http_Do (wt_URL t) e j' ≠ BadRequest ∧ ¬ accepts t e j').
Proof.
  revert i k ok. induction n as [|n IH]; intros i k ok; cbn [attempts].
  { intros [= <- <-]. split; [done|]. split; [done|]. intros (j & Hj & _). lia. }
  assert (∀ k ok, http_Do (wt_URL t) e i ≠ BadRequest → ¬ accepts t e i →
    (let '(k, ok) := attempts t e (i + 1) n in (S k, ok)) = (k, ok) → k ≤ S n ∧
    (ok = true ↔ ∃ j, (i ≤ j < i + Z.of_nat (S n))%Z ∧ accepts t e j ∧ ∀ j', (i ≤ j' < j)%Z → http_Do (wt_URL t) e j' ≠ BadRequest ∧ ¬ accepts t e j')) as Hnext.
  { intros k' ok' Hb Hna. destruct (attempts t e (i + 1) n) as [k1 ok1] eqn:E. intros [= <- <-].
    destruct (IH _ _ _ E) as [Hle Hok]. split; [lia|]. rewrite Hok. split.
    - intros (j & Hj & Ha & Hp). exists j. split; [lia|]. split; [done|]. intros j' Hj'. destruct (decide (j' = i)) as [->|]; [done|]. apply Hp. lia.
    - intros (j & Hj & Ha & Hp). assert (j ≠ i) by (by intros ->). exists j. split; [lia|]. split; [done|]. intros j' Hj'. apply Hp. lia. }
  destruct (http_Do (wt_URL t) e i) as [| |code] eqn:E.
  - intros [= <- <-]. split; [lia|]. split; [done|]. intros (j & Hj & Ha & Hp). destruct (decide (j = i)) as [->|].
    + destruct Ha as (c & Hc & _). congruence.
    + by destruct (Hp i ltac:(lia)).
  - apply Hnext; [done|]. intros (c & Hc & _). congruence.
  - case_bool_decide as Hc.
    + intros [= <- <-]. split; [lia|]. split; [|done]. intros _. exists i. split; [lia|]. split; [by exists code|]. intros; lia.
    + apply Hnext; [done|]. intros (c & Hc' & ?). assert (c = code) as -> by congruence. done.
Qed.

(** an event is delivered to exactly the targets that select its type
    and zone, in their order; to each it is posted until one request is
    accepted, at most one time more than the number of retries, and the
    delivery counts as made exactly if a request within that number was
    accepted before one could not be made. *)
Theorem deliver_exact s e :
  dl_URL <$> deliver s e = wt_URL <$> List.filter (λ t, matchEvent t e) (wh_Targets (sd_cfg s)) ∧
  ∀ d, d ∈ deliver s e → ∃ t, t ∈ wh_Targets (sd_cfg s) ∧ matchEvent t e = true ∧ dl_URL d = wt_URL t ∧
    (Z.of_nat (dl_posts d) ≤ Z.max 0 (wh_MaxRetries (sd_cfg s) + 1))%Z ∧
    (dl_ok d = true ↔ ∃ j, (0 ≤ j ≤ wh_MaxRetries (sd_cfg s))%Z ∧ accepts t e j ∧
      ∀ j', (0 ≤ j' < j)%Z → http_Do (wt_URL t) e j' ≠ BadRequest ∧ ¬ accepts t e j').
Proof.
  unfold deliver. split.
  - induction (wh_Targets (sd_cfg s)) as [|t ts IH]; [done|]. cbn [omap list_omap List.filter].
    destruct (matchEvent t e); cbn [negb]; [|done]. destruct (attempts _ _ _ _) as [k ok]. cbn [fmap list_fmap dl_URL]. by f_equal.
  - intros d (t & Ht & Hd)%list_elem_of_omap. exists t. split; [done|]. destruct (matchEvent t e); cbn [negb] in Hd; [|done].
    destruct (attempts _ _ _ _) as [k ok] eqn:E. injection Hd as <-. cbn [dl_URL dl_posts dl_ok].
    apply attempts_spec in E as [Hle Hok]. split; [done|]. split; [done|]. split; [lia|]. rewrite Hok. split.
    + intros (j & Hj & ?). exists j. split; [lia|done].
    + intros (j & Hj & ?). exists j. split; [lia|done].
Qed.

(** ** The queue *)

(** Publishing by any goroutine, and taking by the sender's. *)
Inductive QStep := QPublish (e : Event) | QTake.

(** A run: the sender, the events accepted and taken, and the ones dropped. *)
Fixpoint qrun (s : Sender) (steps : list QStep) : Sender * list Event * list Event * list Event :=
  match steps with
  | [] => (s, [], [], [])
  | QPublish e :: steps =>
      let '(s, queued) := on_event s e in
      let '(s, acc, taken, dropped) := qrun s steps in
      if queued then (s, e :: acc, taken, dropped) else (s, acc, taken, e :: dropped)
  | QTake :: steps =>
      match Run_step s with
      | None => qrun s steps
      | Some (s, e, _) => let '(s, acc, taken, dropped) := qrun s steps in (s, acc, e :: taken, dropped)
      end
  end.

Definition published (steps : list QStep) : list Event := omap (λ q, if q is QPublish e then Some e else None) steps.

(** The queue is first in, first out, and bounded. *)
Lemma qrun_fifo s steps s' acc taken dropped :
  qrun s steps = (s', acc, taken, dropped) → (Z.of_nat (length (sd_ch s)) ≤ wh_QueueSize (sd_cfg s))%Z →
  sd_ch s ++ acc = taken ++ sd_ch s' ∧ acc ++ dropped ≡ₚ published steps ∧ sublist acc (published steps) ∧
  sd_cfg s' = sd_cfg s ∧ (Z.of_nat (length (sd_ch s')) ≤ wh_QueueSize (sd_cfg s))%Z.
Proof.
  revert s s' acc taken dropped. induction steps as [|[e|] steps IH]; intros s s' acc taken dropped; cbn [qrun].
  - intros [= <- <- <- <-] Hl. by rewrite app_nil_r.
  - unfold on_event. destruct (decide (Z.of_nat (length (sd_ch s)) < wh_QueueSize (sd_cfg s))%Z) as [Hc|Hc].
    + rewrite (bool_decide_true _ Hc). destruct (qrun _ _) as [[[s1 a] t] d] eqn:E. intros [= <- <- <- <-] Hl.
      destruct (IH _ _ _ _ _ E) as (H1 & H2 & H3 & H4 & H5); [cbn [sd_ch with_ch sd_cfg]; rewrite length_app; simpl; lia|].
      cbn [sd_ch with_ch sd_cfg] in *. rewrite <-app_assoc in H1. split_and!; [done| |by constructor|done|done].
      cbn [app published omap list_omap]. by apply Permutation_skip.
    + rewrite (bool_decide_false _ Hc). destruct (qrun _ _) as [[[s1 a] t] d] eqn:E. intros [= <- <- <- <-] Hl.
      destruct (IH _ _ _ _ _ E Hl) as (H1 & H2 & H3 & H4 & H5). split_and!; [done| |by constructor|done|done].
      rewrite <-Permutation_middle. cbn [published omap list_omap]. by apply Permutation_skip.
  - destruct (Run_step s) as [[[s1 e] dl]|] eqn:Er; [|intros E Hl; by apply IH].
    destruct (qrun s1 steps) as [[[s2 a] t] d] eqn:E. intros [= <- <- <- <-] Hl.
    unfold Run_step in Er. destruct (negb _); [done|]. destruct (sd_ch s) as [|e' ch] eqn:Ech; [done|]. injection Er as <- <- <-.
    destruct (IH _ _ _ _ _ E) as (H1 & H2 & H3 & H4 & H5); [cbn [sd_ch with_ch sd_cfg]; simpl in Hl; lia|].
    cbn [sd_ch with_ch sd_cfg] in *. split_and!; [cbn; by f_equal|done|done|done|done].
Qed.
End facts.

Section queue.
Context `{H : !Http}.

(** The run of a sequence after another. *)
Lemma qrun_app s l1 l2 :
  qrun s (l1 ++ l2) =
    let '(s1, acc1, taken1, dropped1) := qrun s l1 in
    let '(s2, acc2, taken2, dropped2) := qrun s1 l2 in (s2, acc1 ++ acc2, taken1 ++ taken2, dropped1 ++ dropped2).
Proof.
  revert s. induction l1 as [|[e|] l1 IH]; intros s; cbn [app qrun].
  - by destruct (qrun s l2) as [[[s2 a2] t2] d2].
  - destruct (on_event s e) as [s0 q]. rewrite IH. destruct (qrun s0 l1) as [[[s1 a1] t1] d1].
    destruct q; destruct (qrun s1 l2) as [[[s2 a2] t2] d2]; done.
  - destruct (Run_step s) as [[[s0 e] dl]|]; [|apply IH]. rewrite IH. destruct (qrun s0 l1) as [[[s1 a1] t1] d1].
    by destruct (qrun s1 l2) as [[[s2 a2] t2] d2].
Qed.

(** The size of the queue. *)
Definition queue_size (cfg : WebhookConfig) : Z := if bool_decide (wh_QueueSize cfg ≤ 0)%Z then 1000 else wh_QueueSize cfg.

(** C39: the queue keeps the order and loses only what it has no room for.
    However publishing and taking interleave, what is taken and what is
    still queued are together the accepted events, in the order they were
    published; every published event is accepted or dropped; and the queue
    never holds more than its size. After any such run the next event is
    accepted if fewer events than that are accepted and not yet taken, and
    dropped otherwise; and the next take takes the oldest of them. *)
Theorem webhook_queue cfg steps :
  let '(s, acc, taken, dropped) := qrun (New cfg) steps in
  acc = taken ++ sd_ch s ∧ sublist acc (published steps) ∧ acc ++ dropped ≡ₚ published steps ∧
  (Z.of_nat (length (sd_ch s)) ≤ queue_size cfg)%Z ∧
  (∀ e, let '(_, acc', taken', dropped') := qrun (New cfg) (steps ++ [QPublish e]) in
    taken' = taken ∧
    if bool_decide (Z.of_nat (length acc) - Z.of_nat (length taken) < queue_size cfg)%Z
    then acc' = acc ++ [e] ∧ dropped' = dropped else acc' = acc ∧ dropped' = dropped ++ [e]) ∧
  (let '(_, acc', taken', dropped') := qrun (New cfg) (steps ++ [QTake]) in
    acc' = acc ∧ dropped' = dropped ∧ taken' = if wh_Enabled cfg then take (S (length taken)) acc else taken).
Proof.
  destruct (qrun (New cfg) steps) as [[[s acc] taken] dropped] eqn:E.
  assert (sd_ch (New cfg) = [] ∧ wh_QueueSize (sd_cfg (New cfg)) = queue_size cfg ∧ wh_Enabled (sd_cfg (New cfg)) = wh_Enabled cfg) as (Hch & Hq & Hen)
    by (unfold New, queue_size; by case_bool_decide).
  pose proof E as (H1 & H2 & H3 & Hcfg & H5)%qrun_fifo.
  2:{ rewrite Hch, Hq. unfold queue_size. simpl. case_bool_decide; lia. }
  rewrite Hch in H1. cbn [app] in H1. rewrite Hq in H5. split_and!; [done..| |].
  - intros e. rewrite qrun_app, E. cbn [qrun]. unfold on_event. rewrite Hcfg, Hq.
    replace (Z.of_nat (length acc) - Z.of_nat (length taken))%Z with (Z.of_nat (length (sd_ch s))) by (rewrite H1, length_app; lia).
    case_bool_decide; by rewrite !app_nil_r.
  - rewrite qrun_app, E. cbn [qrun]. unfold Run_step. rewrite Hcfg, Hen. destruct (wh_Enabled cfg); cbn [negb]; [|by rewrite !app_nil_r].
    rewrite H1. destruct (sd_ch s) as [|e ch] eqn:Ec.
    + rewrite !app_nil_r. rewrite firstn_all2 by lia. done.
    + rewrite !app_nil_r. split_and!; [done|done|]. change (e :: ch) with ([e] ++ ch). rewrite (app_assoc taken [e] ch).
      rewrite firstn_app. rewrite firstn_all2 by (rewrite length_app; simpl; lia).
      replace (S (length taken) - length (taken ++ [e])) with 0 by (rewrite length_app; simpl; lia). by rewrite app_nil_r.
Qed.
End queue.

(** ** Example *)

(** A target that answers the second attempt. *)
Definition toy_http : Http := {| http_Do := λ url e i, if bool_decide (i = 1%Z) then Status 204 else Status 503 |}.
Definition toy_sender (retries : Z) : Sender :=
  New (mkWebhooks true 0 retries 0 2 [mkTarget "https://a.example/" ["zone_invalid"] [] ∅; mkTarget "https://b.example/" [] ["other."] ∅]).
Example toy_deliver :
  deliver (H := toy_http) (toy_sender 3) (zone_event ZoneInvalid "z." "" "" "" "") = [mkDelivery "https://a.example/" 2 true] ∧
  deliver (H := toy_http) (toy_sender 0) (zone_event ZoneInvalid "z." "" "" "" "") = [mkDelivery "https://a.example/" 1 false].
Proof. split; vm_compute; reflexivity. Qed.
