(* ===== verification/Check.v ===== *)
(** * The one-shot check (internal/check/check.go)

    The [check] command loads a zone from a file or by AXFR, verifies it
    once, and reports by its exit code. Parsing zone files is the DNS
    library's and reading them the operating system's ([ZoneFiles]); the
    report is its numbers, without their layout. Main results: what each
    exit code says about the zone; the parsing of [name:alg:secret]; and
    the address of an IPv6 server, which is read as a host and a port. *)

From Stdlib Require Import Ascii.
From S2P Require Import Prelude GoStrings Decimal DnsLib BTree DnsName Node Store StoreSpec NsecChain Config Findings Keys Verify Pool Full Verdict Xfr Toy.

Record Options := mkOptions {
  op_Zone : string; op_File : string; op_AXFR : string; op_TSIG : string; op_Time : Time; op_ZONEMD : string; op_JSON : bool
}.

(** A zone file as the parser delivers it: its records, and the error it
    ends with; or the error of opening it. *)
Class ZoneFiles : Type := { zone_file : string → string → result (list RR * option string) }.

(** What is printed: the zone's state, and the numbers of findings. *)
Record Report := mkReport { rt_Zone : string; rt_State : string; rt_Findings : list Finding; rt_Errors : Z; rt_Warnings : Z }.

(** [fmt.Sscanf(s, "%d", &p)]: spaces, a sign, digits; the rest is not looked
    at. A number that does not fit is an error. *)
Fixpoint take_digits (s : string) : string :=
  match s with String c s => if is_digit c || bool_decide (c = "_"%char) then String c (take_digits s) else "" | "" => "" end.
Fixpoint digits_val (s : string) (n : Z) : option Z :=
  match s with
  | "" => Some n
  | String c s => if is_digit c then digits_val s (n * 10 + (Z.of_nat (nat_of_ascii c) - 48))%Z else None
  end.
Definition Sscanf_d (s : string) : option Z :=
  let s := trim_left isSpace s in
  let '(neg, s) := match s with String "-" s => (true, s) | String "+" s => (false, s) | _ => (false, s) end in
  let t := take_digits s in
  if bool_decide (t = "") then None
  else
    n ← digits_val t 0;
    let n := if neg : bool then (- n)%Z else n in
    if bool_decide (- 2 ^ 63 ≤ n < 2 ^ 63)%Z then Some n else None.

(** [splitHostPort]: the loop from the end, and the number. *)
Fixpoint split_last (s : string) (c : ascii) : option (string * string) :=
  match s with
  | "" => None
  | String d s' =>
      match split_last s' c with
      | Some (h, p) => Some (String d h, p)
      | None => if bool_decide (d = c) then Some ("", s') else None
      end
  end.
Definition splitHostPort (s : string) : option (string * Z) :=
  match split_last s ":" with
  | None | Some (_, "") => None
  | Some (host, portS) => (host,.) <$> Sscanf_d portS
  end.

(** [split3]: two cuts at most; [n] is the number of cuts made, [cur] what
    was read since the last. *)
Fixpoint split3_loop (s cur : string) (n : nat) (out : list string) : list string * string :=
  match s with
  | "" => (out, cur)
  | String c s' =>
      if bool_decide (n < 2) then
        if bool_decide (c = ":"%char) then split3_loop s' "" (S n) (out ++ [cur])
        else split3_loop s' (cur +:+ String c "") n out
      else (out, cur +:+ s)
  end.
Definition parseTSIG (s : string) : string * string * string :=
  let '(out, rest) := split3_loop s "" 0 [] in
  (default "" (out !! 0), default "" (out !! 1), rest).

Section check.
Context `{DL : !DnsLib, BT : !BTree, MR : !MapRange, ZF : !ZoneFiles, N : !Net}.

(** [AddRR] for every record, stopping at the first error. *)
Definition fromFile (origin path : string) : result Store :=
  match zone_file path origin with
  | Err err => Err err
  | Ok (rrs, err) =>
      st ← add_all (NewStore origin) rrs;
      match err with Some err => Err err | None => Ok st end
  end.

Definition cli_config (keys : list TSIGKey) : Config := {|
  c_TSIGKeys := keys; c_Servers := c_Servers Defaults; c_Zones := c_Zones Defaults; c_Catalogs := c_Catalogs Defaults;
  c_Refresh := c_Refresh Defaults; c_Notify := c_Notify Defaults; c_Verification := c_Verification Defaults;
  c_ChainOfTrust := c_ChainOfTrust Defaults; c_Webhooks := c_Webhooks Defaults; c_State := c_State Defaults;
  c_APIListen := c_APIListen Defaults; c_Logging := c_Logging Defaults; c_Theme := c_Theme Defaults |}.

Definition fromAXFR (now : Time) (origin addr tsig : string) : result Store :=
  let '(host, port) := default (addr, 53%Z) (splitHostPort addr) in
  let '(keys, key) := if bool_decide (tsig = "") then (c_TSIGKeys Defaults, "")
    else let '(name, alg, secret) := parseTSIG tsig in ([mkTSIGKey name secret alg], name) in
  match AXFR (cli_config keys) origin (mkServer "cli" host port key) key (2 * Minute)%Z now with
  | Err err => Err err
  | Ok res => match x_Store res with Some st => Ok st | None => Err "" end
  end.

(** The zone that is checked. *)
Definition load (now : Time) (opt : Options) : result Store :=
  let zone := Canonical (op_Zone opt) in
  if bool_decide (op_Zone opt = "") then Err "--zone is required"
  else if negb (bool_decide (op_File opt = "")) then fromFile zone (op_File opt)
  else if negb (bool_decide (op_AXFR opt = "")) then fromAXFR now zone (op_AXFR opt) (op_TSIG opt)
  else Err "--file or --axfr is required".

Definition with_vf_ZONEMD (c : VerificationConfig) (mode : string) : VerificationConfig :=
  mkVerification (vf_Workers c) (vf_ClockSkew c) (vf_ExpiryWarning c) (vf_ExpiryCheckInterval c) (vf_FullReverifyInterval c)
    (vf_FullReverifyWhenInvalid c) mode (vf_ZONEMDMaxAge c) (vf_Hygiene c).

(** The settings it is verified with; [now] is the time of the run. *)
Definition check_verifier (now : Time) (cpus : Z) (opt : Options) : Verifier :=
  let cfg := c_Verification Defaults in
  let cfg := if bool_decide (op_ZONEMD opt = "") then cfg else with_vf_ZONEMD cfg (op_ZONEMD opt) in
  mkVerifier cfg (if IsZero (op_Time opt) then now else op_Time opt) now cpus.

Definition report (opt : Options) (res : Full.Result) : Report :=
  let state := if r_Unsigned res then "UNSIGNED" else if negb (r_Valid res) then "INVALID" else "VALID" in
  mkReport (Canonical (op_Zone opt)) state (FSet_List (r_Findings res)) (CountBySeverity (r_Findings res) Error)
    (CountBySeverity (r_Findings res) Warning).

Definition exit_code (res : Full.Result) : Z :=
  if HasErrors (r_Findings res) then 1
  else if bool_decide (0 < CountBySeverity (r_Findings res) Warning)%Z then 2 else 0.

(** [Run]: the exit code and what is printed; [sched] is the schedule of the
    verification. *)
Definition Run (now : Time) (cpus : Z) (sched : list nat) (opt : Options) : option (Z * result Report) :=
  match load now opt with
  | Err err => Some (1%Z, Err err)
  | Ok st => res ← Full (check_verifier now cpus opt) sched st; Some (exit_code res, Ok (report opt res))
  end.
End check.

(** ** What the exit code says *)

Section facts.
Context `{DL : !DnsLib, BT : !BTree, MR : !MapRange, NL : !DnsNameLaws, BL : !BTreeLaws, ZF : !ZoneFiles, N : !Net}.

Lemma axfr_add_ok st n rrs st' n' : store_wf st ∧ hash_ok st → axfr_add st n rrs = Ok (st', n') → store_wf st' ∧ hash_ok st'.
Proof.
  revert st n. induction rrs as [|rr rrs IH]; intros st n [Hwf Hh]; cbn [axfr_add]; [by intros [= <- <-]|].
  case_bool_decide; [by apply IH|]. unfold AddRR. destruct (addRRLocked st rr) as [st1 [err|]] eqn:E; [done|].
  apply IH. split; [by apply (addRRLocked_set _ _ _ _ Hwf) in E as [? _]|by eapply addRRLocked_hash_ok].
Qed.

Lemma axfr_loop_ok fail i st n ch st' n' : store_wf st ∧ hash_ok st → axfr_loop fail i st n ch = Ok (st', n') → store_wf st' ∧ hash_ok st'.
Proof.
  revert i st n. induction ch as [|[err|rrs] ch IH]; intros i st n Hok; cbn [axfr_loop]; [by intros [= <- <-]|done|].
  destruct (axfr_add st n rrs) as [[st1 n1]|] eqn:E; [|done]. cbn [mbind result_bind].
  destruct (ctx_Err (S i)); [done|]. apply IH. by eapply axfr_add_ok.
Qed.

(** A zone file that parses is loaded as a transfer of its records. *)
Lemma load_file now opt rrs :
  op_Zone opt ≠ "" → op_File opt ≠ "" → zone_file (op_File opt) (Canonical (op_Zone opt)) = Ok (rrs, None) →
  load now opt = FromAXFR (Canonical (op_Zone opt)) rrs.
Proof.
  intros Hz Hf E. unfold load, fromFile. rewrite (bool_decide_false _ Hz), (bool_decide_false _ Hf), E. cbn [negb].
  unfold FromAXFR. by destruct (add_all _ _).
Qed.

(** A zone that loads is well formed. *)
Lemma load_ok now opt st : load now opt = Ok st → store_wf st ∧ hash_ok st.
Proof.
  unfold load. case_bool_decide; [done|]. set (zone := Canonical _).
  assert (store_wf (NewStore zone) ∧ hash_ok (NewStore zone)) as H0 by (split; [apply NewStore_wf|apply NewStore_hash_ok]).
  destruct (negb (bool_decide (op_File opt = ""))); [|destruct (negb _); [|done]].
  - unfold fromFile. destruct (zone_file _ _) as [[rrs err]|]; [|done].
    destruct (add_all (NewStore zone) rrs) as [st1|] eqn:E; [|done]. cbn [mbind result_bind]. destruct err; [done|]. intros [= <-].
    pose proof (add_all_spec rrs (NewStore zone) (proj1 H0)) as Hs. rewrite E in Hs. split; [apply Hs|]. by eapply add_all_hash_ok; [apply H0|].
  - unfold fromAXFR. destruct (default _ _) as [host port]. destruct (if bool_decide (op_TSIG opt = "") then _ else _) as [keys key].
    unfold AXFR. destruct (net_In _ _) as [ch|]; [|done].
    match goal with |- context [axfr_loop ?fail 0 ?s 0 ch] => destruct (axfr_loop fail 0 s 0 ch) as [[st1 n1]|] eqn:E end; [|done].
    cbn. intros [= <-]. eapply axfr_loop_ok; [|exact E]. split; [apply NewStore_wf|apply NewStore_hash_ok].
Qed.

Lemma Full_errors v sched st r : Full v sched st = Some r → HasErrors (r_Findings r) = negb (r_Valid r).
Proof.
  assert (∀ f, f_Severity f = Error → HasErrors (AddAll (v_wall v) NewSet [f]) = true) as HE.
  { intros f Hf. apply HasErrors_spec. exists (Key f), f. split; [|done]. cbn. unfold Add, NewSet. rewrite lookup_empty. apply lookup_insert_eq. }
  unfold Full. destruct (negb (has_SOA st)); [intros [= <-]; by apply HE|].
  destruct (DNSKEYs st) as [[|k ks]|]; [intros [= <-]; apply HasErrors_NewSet| |intros [= <-]; apply HasErrors_NewSet].
  destruct (cacheKeys (k :: ks)); [|intros [= <-]; by apply HE].
  destruct (full_run v sched st _); [|done]. cbn [mbind option_bind]. destruct (wg_done _); [|done]. intros [= <-].
  unfold full_finish. cbn. by rewrite negb_involutive.
Qed.

(** C40: the exit code is the verdict. A zone that cannot be loaded gives 1.
    One that can gives 1 exactly if it does not pass all checks, 2 if it
    passes with warnings, 0 if it passes without; the state printed is
    INVALID exactly in the first case, and a run can always be finished. *)
Theorem check_exit now cpus opt :
  (∃ sched, is_Some (Run now cpus sched opt)) ∧ ∀ sched code out, Run now cpus sched opt = Some (code, out) →
  match load now opt with
  | Err err => code = 1%Z ∧ out = Err err
  | Ok st => ∃ rep, out = Ok rep ∧
      (code = 1%Z ↔ ¬ verdict (check_verifier now cpus opt) st) ∧
      (code = 2%Z ↔ verdict (check_verifier now cpus opt) st ∧ (0 < rt_Warnings rep)%Z) ∧
      (code = 0%Z ↔ verdict (check_verifier now cpus opt) st ∧ (rt_Warnings rep ≤ 0)%Z) ∧
      (rt_State rep = "INVALID" ↔ code = 1%Z)
  end.
Proof.
  unfold Run. destruct (load now opt) as [st|err] eqn:El.
  2:{ split; [exists []; eauto|]. by intros sched code out [= <- <-]. }
  destruct (load_ok _ _ _ El) as [Hwf Hh]. set (v := check_verifier now cpus opt). split.
  - destruct (Full_total v st) as [sched [r Hr]]. exists sched. rewrite Hr. cbn. eauto.
  - intros sched code out. destruct (Full v sched st) as [r|] eqn:EF; [|done]. cbn [mbind option_bind]. intros [= <- <-].
    exists (report opt r). split; [done|]. destruct (Full_verdict_iff v sched st r Hwf Hh EF) as [Hv Hu].
    pose proof (Full_errors v sched st r EF) as He. rewrite <-Hv. unfold exit_code, report. cbn [rt_Warnings rt_State]. rewrite He.
    assert (r_Unsigned r = true → r_Valid r = true) as Huv.
    { intros [Hs Hk]%Hu. apply Hv. split; [done|]. destruct (DNSKEYs st) as [[|? ?]|]; [done| |done]. by destruct Hk. }
    destruct (r_Valid r); cbn [negb].
    + destruct (decide (0 < CountBySeverity (r_Findings r) Warning)%Z) as [Hw|Hw];
        [rewrite (bool_decide_true _ Hw)|rewrite (bool_decide_false _ Hw)]; 
        (split_and!; [| | |by destruct (r_Unsigned r)]); clear -Hw; intuition (done || lia).
    + destruct (r_Unsigned r); [by specialize (Huv eq_refl)|]. clear. intuition done.
Qed.

(** ** Arguments *)

Lemma split3_loop_colon p s cur n out :
  no_byte ":" p → n < 2 → split3_loop (p +:+ String ":" s) cur n out = split3_loop s "" (S n) (out ++ [cur +:+ p]).
Proof.
  intros Hp Hn. revert cur Hp. induction p as [|c p IH]; intros cur Hp; cbn [split3_loop].
  - change ("" +:+ String ":" s) with (String ":" s). cbn [split3_loop]. by rewrite bool_decide_true, bool_decide_true, str_app_nil_r by done.
  - rewrite str_app_cons. cbn [split3_loop]. destruct Hp as [Hc Hp]. rewrite bool_decide_true, bool_decide_false by done.
    rewrite (IH _ Hp). do 3 f_equal. by rewrite <-str_app_assoc.
Qed.

(** [name:alg:secret] is cut at its first two colons; the secret may have
    more of them. *)
Lemma parseTSIG_spec name alg secret :
  no_byte ":" name → no_byte ":" alg → parseTSIG (name +:+ String ":" (alg +:+ String ":" secret)) = (name, alg, secret).
Proof.
  intros Hn Ha. unfold parseTSIG. rewrite (split3_loop_colon name _ "" 0 []), (split3_loop_colon alg) by (done || lia).
  assert (split3_loop secret "" 2 (([] ++ ["" +:+ name]) ++ ["" +:+ alg]) = ([name; alg], secret)) as ->; [|done].
  by destruct secret.
Qed.

(** An IPv6 address without a port is read as a host and a port; one in
    brackets keeps them, and gets a second pair when it is used. *)
Example ipv6_misread : splitHostPort "2001:db8::53" = Some ("2001:db8:", 53%Z).
Proof. vm_compute. reflexivity. Qed.
Example ipv6_brackets : splitHostPort "[2001:db8::1]:5353" = Some ("[2001:db8::1]", 5353%Z) ∧
  Xfr.addr (mkServer "cli" "[2001:db8::1]" 5353 "") = "[[2001:db8::1]]:5353".
Proof. split; vm_compute; reflexivity. Qed.
End facts.

(** ** A run *)

#[export] Instance toy_files : ZoneFiles := {| zone_file := λ path origin, Ok (toy_signed, None) |}.
Definition toy_offline : Net := {|
  net_Exchange := λ srv q tsig, Err "offline"; net_In := λ srv q, Err "offline"; ctx_Err := λ i, None |}.
Definition toy_options : Options := mkOptions "Z" "db.z" "" "" (timeUnix 1000) "" false.

Lemma check_exit_witness :
  ∃ out, Run (N := toy_offline) 0 2 [0; 1; 1; 0] toy_options = Some (2%Z, out) ∧
    verdict (check_verifier 0 2 toy_options) (built "z." toy_signed).
Proof.
  destruct (is_some_eq (Run (N := toy_offline) 0 2 [0; 1; 1; 0] toy_options)) as [[code out] E]; [vm_compute; reflexivity|].
  assert (code = 2%Z) as ->.
  { assert (fst <$> Run (N := toy_offline) 0 2 [0; 1; 1; 0] toy_options = Some 2%Z) as H by (vm_compute; reflexivity).
    rewrite E in H. by injection H. }
  exists out. split; [exact E|].
  pose proof (proj2 (check_exit (N := toy_offline) 0 2 toy_options) [0; 1; 1; 0] 2%Z out E) as H.
  assert (FromAXFR "z." toy_signed = Ok (built "z." toy_signed)) as Hb by (apply built_Ok; vm_compute; reflexivity).
  assert (load (N := toy_offline) 0 toy_options = Ok (built "z." toy_signed)) as El.
  { assert (Canonical (op_Zone toy_options) = "z.") as Hz by (vm_compute; reflexivity).
    assert (zone_file (op_File toy_options) (Canonical (op_Zone toy_options)) = Ok (toy_signed, None)) as Hf by reflexivity.
    rewrite (load_file (N := toy_offline) 0 toy_options toy_signed ltac:(discriminate) ltac:(discriminate) Hf), Hz. exact Hb. }
  rewrite El in H. destruct H as (rep & Ho & H1 & H2 & _). by apply H2.
Defined.
