(* ===== verification/Loaded.v ===== *)
(** * What a loaded store holds

    A store built from a list of records, seen through its nodes: which
    nodes there are, which RRsets they have, and what the RRsets unpack to.
    The theorems about generated zones read the store with these lemmas. *)

From S2P Require Import Prelude GoStrings DnsLib BTree DnsName Base32 Node Store StoreSpec Snapshot TestPrimary.

Section loaded.
Context `{DL : !DnsLib, BT : !BTree, NL : !DnsNameLaws, WL : !DnsWireLaws}.
Implicit Types st : Store.

(** Records the store takes and the wire format carries: of class IN, with
    canonical names that decoding leaves alone. *)
Record carried (rrs : list RR) : Prop := {
  ca_class : ∀ rr, rr ∈ rrs → class_ok rr = true;
  ca_name : ∀ rr, rr ∈ rrs → canonical (rr_Name rr);
  ca_hdr : ∀ rr, rr ∈ rrs → rr_Hdr (wire_norm rr) = rr_Hdr rr
}.

(** The records of an RRset. *)
Definition at_rrset (rrs : list RR) (k : string) (t : Z) (rr : RR) : Prop := rr ∈ rrs ∧ rr_Name rr = k ∧ rr_Type rr = t.

(** They all have the same TTL. *)
Definition same_ttl (rrs : list RR) (k : string) (t : Z) : Prop :=
  ∀ rr rr', at_rrset rrs k t rr → at_rrset rrs k t rr' → rr_Ttl rr = rr_Ttl rr'.

Lemma add_all_packs rrs st st' : add_all st rrs = Ok st' → ∀ rr, rr ∈ rrs → class_ok rr = true → is_ok (PackRR rr) = true.
Proof.
  revert st. induction rrs as [|r rrs IH]; intros st Ha rr Hrr Hc; [by apply elem_of_nil in Hrr|].
  cbn [add_all] in Ha. destruct (addRRLocked st r) as [st1 [err|]] eqn:E; [done|].
  apply elem_of_cons in Hrr as [->|Hrr]; [|by eapply IH].
  unfold addRRLocked in E. unfold class_ok, rr_Class in Hc. rewrite <-negb_orb, Hc in E. cbn [negb] in E. by destruct (PackRR r).
Qed.

(** The TTL of a set is that of one of its records. *)
Definition ttl_from (rrs : list RR) (st : Store) : Prop :=
  ∀ k n s, st_nodes st !! k = Some n → s ∈ n_Sets n →
    ∃ rr, rr ∈ rrs ∧ Canonical (rr_Name rr) = k ∧ rr_Type rr = rs_Type s ∧ rr_Ttl rr = rs_TTL s.

Lemma addPacked_ttl ss t ttl w s :
  s ∈ addPacked_sets ss t ttl w → (rs_Type s = t ∧ rs_TTL s = ttl) ∨ ∃ s', s' ∈ ss ∧ rs_Type s' = rs_Type s ∧ rs_TTL s' = rs_TTL s.
Proof.
  induction ss as [|s0 ss IH]; cbn [addPacked_sets].
  - intros ->%list_elem_of_singleton. by left.
  - case_bool_decide as Ht.
    + destruct (existsb _ _); intros [->|Hs]%elem_of_cons;
        try (right; exists s; split; [by right|done]); cbn [rs_Type rs_TTL];
        (case_bool_decide; [by left|right; exists s0; split; [by left|done]]).
    + intros [->|Hs]%elem_of_cons; [right; exists s0; split; [by left|done]|].
      destruct (IH Hs) as [?|(s' & ? & ?)]; [by left|right; exists s'; split; [by right|done]].
Qed.

Lemma add_ttl_from pre st rr st' :
  ttl_from pre st → addRRLocked st rr = (st', None) → ttl_from (pre ++ [rr]) st'.
Proof.
  intros Hp Ha. assert (∀ k n s, st_nodes st !! k = Some n → s ∈ n_Sets n →
    ∃ r, r ∈ pre ++ [rr] ∧ Canonical (rr_Name r) = k ∧ rr_Type r = rs_Type s ∧ rr_Ttl r = rs_TTL s) as Hold.
  { intros k n s Hn Hs. destruct (Hp k n s Hn Hs) as (r & Hr & ?). exists r. split; [|done]. apply elem_of_app. by left. }
  destruct (class_ok rr) eqn:Hc.
  2:{ unfold addRRLocked, class_ok, rr_Class in *. rewrite <-negb_orb, Hc in Ha. injection Ha as <-. exact Hold. }
  destruct (PackRR rr) as [w|err] eqn:Hw.
  2:{ unfold addRRLocked, class_ok, rr_Class in *. by rewrite <-negb_orb, Hc, Hw in Ha. }
  destruct (add_nodes st rr w Hw Hc) as (st2 & Ha2 & _ & Hn & _). rewrite Ha in Ha2. injection Ha2 as <-.
  cbv zeta in Hn. intros k n s. rewrite Hn. intros [[<- <-]|[Hne Hk]]%lookup_insert_Some; [|by apply Hold].
  cbn [recomputeFlags n_Sets]. unfold addPacked. cbn [set_Sets n_Sets].
  intros [[Ht Httl]|(s' & Hs' & <- & <-)]%addPacked_ttl.
  - exists rr. split_and!; [apply elem_of_app; right; by apply list_elem_of_singleton|done..].
  - destruct (st_nodes st !! Canonical (rr_Name rr)) as [n0|] eqn:E; cbn in Hs'; [|by apply elem_of_nil in Hs'].
    by apply (Hold _ n0).
Qed.

Lemma add_all_ttl rrs pre st st' : ttl_from pre st → add_all st rrs = Ok st' → ttl_from (pre ++ rrs) st'.
Proof.
  revert pre st. induction rrs as [|rr rrs IH]; intros pre st Hp Ha; cbn [add_all] in Ha.
  { injection Ha as <-. by rewrite app_nil_r. }
  destruct (addRRLocked st rr) as [st1 [err|]] eqn:E; [done|].
  rewrite (cons_middle rr), app_assoc. eapply IH; [|exact Ha]. by eapply add_ttl_from.
Qed.

(** A record as decoded has the encoding of the record. *)
Lemma PackRR_norm rr w : PackRR rr = Ok w → PackRR (wire_norm rr) = Ok w.
Proof. intros Hp%PackRR_Ok%Pack_norm. unfold PackRR. by rewrite Hp. Qed.

(** ** One loaded store *)

Variables (origin : string) (rrs : list RR) (st : Store).
Hypotheses (Hload : FromAXFR origin rrs = Ok st) (Hc : carried rrs).

Lemma loaded_wf : store_wf st ∧ st_origin st = Canonical origin.
Proof. pose proof (FromAXFR_exact origin rrs) as H. rewrite Hload in H. by destruct H as (? & ? & _). Qed.

Lemma loaded_packs rr : rr ∈ rrs → ∃ w, PackRR rr = Ok w.
Proof.
  intros Hrr. pose proof (add_all_packs rrs _ _ Hload rr Hrr (ca_class _ Hc _ Hrr)) as Hp.
  destruct (PackRR rr) as [w|]; [by exists w|done].
Qed.

Lemma loaded_recs k t w : (k, (t, w)) ∈ zone_set st ↔ ∃ rr, at_rrset rrs k t rr ∧ PackRR rr = Ok w.
Proof.
  pose proof (FromAXFR_exact origin rrs) as H. rewrite Hload in H. destruct H as (_ & _ & -> & _).
  rewrite forallb_filter_id by (apply forallb_elem_of; intros; by apply (ca_class _ Hc)).
  rewrite elem_of_keys. unfold at_rrset. split.
  - intros (rr & Hrr & (<- & <- & Hp)%rr_key_inv). exists rr. split_and!; [done| |done..]. symmetry. by apply (ca_name _ Hc).
  - intros (rr & (Hrr & <- & <-) & Hp). exists rr. split; [done|]. unfold rr_key. rewrite Hp. by rewrite (ca_name _ Hc rr Hrr).
Qed.

Lemma loaded_node_recs k n t w :
  st_nodes st !! k = Some n → (t, w) ∈ node_recs n ↔ ∃ rr, at_rrset rrs k t rr ∧ PackRR rr = Ok w.
Proof. intros Hn. rewrite <-loaded_recs, elem_of_zone_set. naive_solver. Qed.

Lemma loaded_node_wf k n : st_nodes st !! k = Some n → node_wf (st_origin st) k n.
Proof. apply loaded_wf. Qed.

Lemma loaded_node k : is_Some (st_nodes st !! k) ↔ ∃ rr, rr ∈ rrs ∧ rr_Name rr = k.
Proof.
  split.
  - intros [n Hn]. pose proof (nw_nonempty _ _ _ (loaded_node_wf k n Hn)) as Hne.
    destruct (node_recs n) as [|[t w] l] eqn:E; [done|]. assert ((t, w) ∈ node_recs n) as Hin by (rewrite E; by left).
    apply (loaded_node_recs k n t w Hn) in Hin as (rr & (Hrr & Hk & _) & _). by exists rr.
  - intros (rr & Hrr & <-). destruct (loaded_packs rr Hrr) as [w Hw].
    assert ((rr_Name rr, (rr_Type rr, w)) ∈ zone_set st) as (n & -> & _)%elem_of_zone_set; [|by eexists].
    apply loaded_recs. by exists rr.
Qed.

Lemma loaded_Has k n t : st_nodes st !! k = Some n → Has n t = true ↔ ∃ rr, at_rrset rrs k t rr.
Proof.
  intros Hn. rewrite (Has_spec n t (nw_sets _ _ _ (loaded_node_wf k n Hn))). setoid_rewrite (loaded_node_recs k n t _ Hn). split.
  - intros (w & rr & ? & _). by exists rr.
  - intros (rr & Hrr). destruct (loaded_packs rr (proj1 Hrr)) as [w Hw]. by exists w, rr.
Qed.

Lemma loaded_Set k n t : st_nodes st !! k = Some n → is_Some (Node_Set n t) ↔ ∃ rr, at_rrset rrs k t rr.
Proof. intros Hn. rewrite <-(loaded_Has k n t Hn). unfold Has. by rewrite bool_decide_eq_true. Qed.

(** A set of the node is what [Node_Set] finds. *)
Lemma loaded_find k n set : st_nodes st !! k = Some n → set ∈ n_Sets n → Node_Set n (rs_Type set) = Some set.
Proof.
  intros Hn Hset. pose proof (nw_sets _ _ _ (loaded_node_wf k n Hn)) as [Hnd _].
  assert (is_Some (Node_Set n (rs_Type set))) as [s Hs].
  { apply not_eq_None_Some. unfold Node_Set. rewrite find_None_elem. intros H. specialize (H set Hset). by rewrite bool_decide_true in H. }
  pose proof (Node_Set_elem _ _ _ Hs) as [Hin Ht]. rewrite Hs. f_equal. clear Hs.
  apply list_elem_of_lookup in Hin as [i Hi], Hset as [j Hj]. assert (i = j) as ->; [|congruence].
  apply (NoDup_lookup (rs_Type <$> n_Sets n) _ _ (rs_Type set) Hnd); rewrite list_lookup_fmap; by rewrite ?Hi, ?Hj; cbn; rewrite ?Ht.
Qed.

(** The record an entry unpacks to. *)
Definition refit (k : string) (ttl : Z) (rr : RR) : RR := mkRR (fix_header k ttl (rr_Hdr rr)) (rr_Data (wire_norm rr)).

Lemma unpackOne_loaded k t ttl rr w : rr ∈ rrs → PackRR rr = Ok w → unpackOne k t ttl w = Ok (refit k ttl rr).
Proof.
  intros Hrr Hp. unfold unpackOne, refit. rewrite (Unpack_norm _ _ _ (PackRR_Ok _ _ Hp)). by rewrite (ca_hdr _ Hc rr Hrr).
Qed.

(** What a set unpacks to. *)
Lemma loaded_Unpack k n t set :
  st_nodes st !! k = Some n → Node_Set n t = Some set →
  ∃ l, Unpack set (n_Name n) = Ok l ∧ ∀ x, x ∈ l ↔ ∃ rr, at_rrset rrs k t rr ∧ x = refit k (rs_TTL set) rr.
Proof.
  intros Hn Hset. pose proof (loaded_node_wf k n Hn) as Hwf. rewrite (nw_name _ _ _ Hwf).
  pose proof (λ w, Node_Set_recs n t set w (nw_sets _ _ _ Hwf) Hset) as Hrecs.
  unfold Unpack. destruct (mapM_result_fmap (unpackOne k (rs_Type set) (rs_TTL set)) (λ _, tt) (λ _, tt) (rs_Rdata set)) as (l & Hl & _).
  { intros w Hw. apply Hrecs, (loaded_node_recs k n t w Hn) in Hw as (rr & (Hrr & _) & Hp).
    exists (refit k (rs_TTL set) rr). split; [|done]. by apply unpackOne_loaded. }
  exists l. split; [done|]. intros x. rewrite (mapM_result_elem _ _ _ Hl x). split.
  - intros (w & Hw & Hx). apply Hrecs, (loaded_node_recs k n t w Hn) in Hw as (rr & Hat & Hp).
    exists rr. split; [done|]. rewrite (unpackOne_loaded _ _ _ _ _ (proj1 Hat) Hp) in Hx. by injection Hx.
  - intros (rr & Hat & ->). destruct (loaded_packs rr (proj1 Hat)) as [w Hw]. exists w. split.
    + apply Hrecs, (loaded_node_recs k n t w Hn). by exists rr.
    + apply unpackOne_loaded; [apply Hat|done].
Qed.

Lemma loaded_ttl k n set : st_nodes st !! k = Some n → set ∈ n_Sets n → ∃ rr, at_rrset rrs k (rs_Type set) rr ∧ rr_Ttl rr = rs_TTL set.
Proof.
  intros Hn Hs. assert (ttl_from ([] ++ rrs) st) as H.
  { apply (add_all_ttl rrs [] (NewStore origin)); [|exact Hload]. intros k' n' s' Hn'. cbn in Hn'. by rewrite lookup_empty in Hn'. }
  destruct (H k n set Hn Hs) as (rr & Hrr & Hk & Ht & Httl). exists rr. split; [|done]. split_and!; [done| |done].
  rewrite <-Hk. symmetry. by apply (ca_name _ Hc).
Qed.

Lemma refit_norm k t rr : at_rrset rrs k t rr → ∀ ttl, rr_Ttl rr = ttl → refit k ttl rr = wire_norm rr.
Proof.
  intros (Hrr & Hk & _) ttl <-. unfold refit. rewrite <-(ca_hdr _ Hc rr Hrr). destruct (wire_norm rr) as [h d] eqn:En. cbn. f_equal.
  assert (h = rr_Hdr rr) as -> by (rewrite <-(ca_hdr _ Hc rr Hrr), En; done).
  assert (rr_Name rr ≠ "") as Hne by (rewrite <-(ca_name _ Hc rr Hrr); apply Canonical_ne).
  unfold fix_header, rr_Name, rr_Ttl in *. destruct (rr_Hdr rr) as [nm ty cl tt]. cbn in *.
  rewrite (bool_decide_false (nm = "")) by done. f_equal. by destruct (bool_decide (tt = 0%Z)).
Qed.

(** A set whose records have one TTL unpacks to the records, as decoded. *)
Lemma loaded_Unpack_same k n t set :
  st_nodes st !! k = Some n → Node_Set n t = Some set → same_ttl rrs k t →
  ∃ l, Unpack set (n_Name n) = Ok l ∧ ∀ x, x ∈ l ↔ ∃ rr, at_rrset rrs k t rr ∧ x = wire_norm rr.
Proof.
  intros Hn Hset Hsame. destruct (loaded_Unpack k n t set Hn Hset) as (l & Hl & Hx). exists l. split; [done|].
  apply Node_Set_elem in Hset as [Hin Ht]. destruct (loaded_ttl k n set Hn Hin) as (r0 & Hr0 & Httl). rewrite Ht in Hr0.
  intros x. rewrite Hx. split; intros (rr & Hat & ->); exists rr; (split; [done|]); [|symmetry];
    (eapply refit_norm; [exact Hat|]); by rewrite <-Httl, (Hsame rr r0 Hat Hr0).
Qed.
End loaded.
