(* ===== verification/Zonegen.v ===== *)
(** * The zone generator (internal/zonegen/generate.go, sign.go)

    Synthetic signed zones for the tests and the examples: the records of a
    zone with delegations, the NSEC or NSEC3 records for its names, and the
    signatures. Key generation, signing and the random number generator are
    the class [Crypto]. A Go run ends with a value, an error, or a panic
    ([outcome]). [Signed], [Denial] and [Sealed] hold the theorems. *)

From S2P Require Import Prelude GoStrings DnsLib BTree DnsName Base32 CanonOrder Node Store Zonemd.

(** ** Outcomes *)

Inductive outcome (A : Type) : Type :=
| Done (a : A)
| Failed (msg : string)
| Panics.
Arguments Done {A} a.
Arguments Failed {A} msg.
Arguments Panics {A}.

#[export] Instance outcome_ret : MRet outcome := @Done.
#[export] Instance outcome_bind : MBind outcome := λ A B f o,
  match o with Done a => f a | Failed e => Failed e | Panics => Panics end.

Definition of_result {A} (r : result A) : outcome A :=
  match r with Ok a => Done a | Err e => Failed e end.
(** A nil pointer that is used, or a type assertion that does not hold. *)
Definition or_panic {A} (o : option A) : outcome A :=
  match o with Some a => Done a | None => Panics end.
Definition wrap_outcome {A} (f : string → string) (o : outcome A) : outcome A :=
  match o with Failed e => Failed (f e) | o => o end.

Fixpoint foldM_outcome {A S} (f : S → A → outcome S) (s : S) (l : list A) : outcome S :=
  match l with
  | [] => Done s
  | x :: l => s ← f s x; foldM_outcome f s l
  end.

(** ** Keys, signatures, random numbers *)

(** A [*dns.RRSIG]: the header and the signature. *)
Definition RRSIG_RR : Type := RR_Header * RRSIG_rdata.
Definition sig_rr (s : RRSIG_RR) : RR := mkRR s.1 (RD_RRSIG s.2).
Definition key_rr (k : DNSKEY_RR) : RR := mkRR k.1 (RD_DNSKEY k.2).

(** [dns_Generate i k bits]: the [i]th call of [DNSKEY.Generate] of a run;
    the public key it fills in, and the private key if that is a
    [crypto.Signer]. [dns_Sign sig priv rrset]: [RRSIG.Sign], which fills
    in the signature and the fields that follow from the RRset.
    [rand_Intn seed i n]: the [i]th number drawn from the source of that seed. *)
Class Crypto : Type := {
  Signer : Type;
  dns_Generate : nat → DNSKEY_rdata → Z → result (string * option Signer);
  dns_Sign : RRSIG_RR → Signer → list RR → result RRSIG_RR;
  rand_Intn : Z → nat → Z → Z
}.

Definition with_PublicKey (k : DNSKEY_rdata) (pub : string) : DNSKEY_rdata :=
  mkDNSKEY (key_Flags k) (key_Protocol k) (key_Algorithm k) pub.

(** ** Options *)

Definition DenialNSEC : string := "nsec".
Definition DenialNSEC3 : string := "nsec3".
Definition DenialNSEC3OptOut : string := "nsec3-optout".
Definition DenialNone : string := "none".

Record Options := mkOptions {
  g_Origin : string; g_Serial : Z; g_Delegations : Z; g_SecurePct : Z; g_Denial : string; g_Algorithm : Z;
  g_NSEC3Iters : Z; g_NSEC3Salt : string; g_TTL : Z; g_Inception : Z; g_Expiration : Z; g_Seed : Z;
  g_AddWildcard : bool; g_AddDNAME : bool; g_ZONEMD : bool; g_DualAlg : bool; g_ExtraUnused : bool
}.

(** The zero value of a Go struct literal, and one with the fields most
    literals set. *)
Definition mkGen (origin : string) (delegations pct : Z) (denial : string) (seed : Z) : Options :=
  mkOptions origin 0 delegations pct denial 0 0 "" 0 0 0 seed false false false false false.

(** [if x == 0 { x = d }]. *)
Definition or_Z (x d : Z) : Z := if bool_decide (x = 0%Z) then d else x.
Definition or_str (x d : string) : string := if bool_decide (x = "") then d else x.

Record Counts := mkCounts { n_Records : Z; n_RRSIGs : Z; n_NSEC3 : Z; n_DNSKEYs : Z; n_Deleg : Z; n_Secure : Z }.

Definition keyBits (alg : Z) : Z :=
  if bool_decide (alg ∈ [RSAMD5; RSASHA1; RSASHA1NSEC3SHA1; RSASHA256; RSASHA512]) then 2048
  else if bool_decide (alg = ECDSAP384SHA384) then 384 else 256.

Definition saltOrDash (s : string) : string := if bool_decide (s = "") then "-" else s.

(** The salt length both record types carry. *)
Definition salt_len (salt : string) : Z :=
  if negb (bool_decide (salt = "-")) && negb (bool_decide (salt = ""))
  then u8 (Z.of_nat (String.length salt) / 2) else 0.

(** ** The sort of the package

    [for i { for j > i { if a[j] is less than a[i] { swap } } }]: [exchange]
    is the inner loop, with [a[i]] and the elements after it. *)
Section exchange.
Context {A : Type} (less : A → A → bool).

Fixpoint exchange (x : A) (l : list A) : A * list A :=
  match l with
  | [] => (x, [])
  | y :: l =>
      if less y x then let '(m, r) := exchange y l in (m, x :: r)
      else let '(m, r) := exchange x l in (m, y :: r)
  end.

Fixpoint exchange_loop (fuel : nat) (l : list A) : list A :=
  match fuel, l with
  | S fuel, x :: l => let '(m, r) := exchange x l in m :: exchange_loop fuel r
  | _, l => l
  end.

(** One round for every element. *)
Definition exchange_sort (l : list A) : list A := exchange_loop (length l) l.
End exchange.

Definition sortU16 (a : list Z) : list Z := exchange_sort Z.ltb a.

Section generate.
Context `{DL : !DnsLib}.

Definition defaults (o : Options) : Options := {|
  g_Origin := Canonical (or_str (g_Origin o) "example.com.");
  g_Serial := or_Z (g_Serial o) 1;
  g_Delegations := g_Delegations o;
  g_SecurePct := if bool_decide (g_SecurePct o = 0%Z) && (0 <? g_Delegations o)%Z then 5 else g_SecurePct o;
  g_Denial := or_str (g_Denial o) DenialNSEC3OptOut;
  g_Algorithm := or_Z (g_Algorithm o) ECDSAP256SHA256;
  g_NSEC3Iters := g_NSEC3Iters o; g_NSEC3Salt := g_NSEC3Salt o;
  g_TTL := or_Z (g_TTL o) 3600;
  g_Inception := or_Z (g_Inception o) 1;
  g_Expiration := or_Z (g_Expiration o) 2147483647;
  g_Seed := g_Seed o; g_AddWildcard := g_AddWildcard o; g_AddDNAME := g_AddDNAME o; g_ZONEMD := g_ZONEMD o;
  g_DualAlg := g_DualAlg o; g_ExtraUnused := g_ExtraUnused o |}.

(** ** Names and types *)

Definition sortCanon (names : list string) : list string :=
  exchange_sort (λ a b, (0 <? CanonicalCmp b a)%Z) names.

Definition namesFrom (rrs : list RR) : gmap string (gset Z) :=
  foldl (λ m rr, let n := Canonical (rr_Name rr) in <[n := {[ rr_Type rr ]} ∪ default ∅ (m !! n)]> m) ∅ rrs.

Definition isDelegation (types : gset Z) (origin name : string) : bool :=
  if bool_decide (name = origin) then false else bool_decide (TypeNS ∈ types).

(** The loop of [underDelegation]. *)
Fixpoint under_loop (fuel : nat) (byName : gmap string (gset Z)) (origin p : string) : bool :=
  match fuel with
  | 0 => false
  | S fuel =>
      if negb (bool_decide (p = origin)) && negb (bool_decide (p = ".")) && negb (bool_decide (p = "")) then
        if match byName !! p with Some types => bool_decide (TypeNS ∈ types) | None => false end then true
        else
          let next := Parent p in
          if bool_decide (next = p) then false else under_loop fuel byName origin next
      else false
  end.

Definition underDelegation (byName : gmap string (gset Z)) (origin name : string) : bool :=
  under_loop (S (String.length name)) byName origin (Parent name).

(** The inner loop of [addENTs]: the names seen, and those added. *)
Fixpoint ent_loop (fuel : nat) (origin p : string) (s : gset string * list string) : gset string * list string :=
  match fuel with
  | 0 => s
  | S fuel =>
      if negb (bool_decide (p = origin)) && negb (bool_decide (p = ".")) then
        let s := if bool_decide (p ∈ s.1) then s else ({[ p ]} ∪ s.1, s.2 ++ [p]) in
        let next := Parent p in
        if bool_decide (next = p) then s else ent_loop fuel origin next s
      else s
  end.

Definition addENTs (names : list string) (origin : string) : list string :=
  names ++ (foldl (λ s n, if bool_decide (n = origin) then s else ent_loop (S (String.length n)) origin (Parent n) s)
              (list_to_set names, []) names).2.

Section ranged.
Context `{MR : !MapRange}.

Definition bitmapOf (types : gset Z) : list Z := sortU16 (range_set types).

(** ** Denial of existence *)

Definition nsec_record (opt : Options) (name next : string) (types : gset Z) : RR :=
  mkRR (mkHdr name TypeNSEC ClassINET (g_TTL opt)) (RD_NSEC (mkNSEC next (bitmapOf ({[ TypeNSEC; TypeRRSIG ]} ∪ types)))).

Definition buildNSEC (opt : Options) (rrs : list RR) : list RR :=
  let byName := namesFrom rrs in
  let names := sortCanon (addENTs (range byName).*1 (g_Origin opt)) in
  imap (λ i name, nsec_record opt name (default "" (names !! ((i + 1) mod length names)))
                    (default ∅ (byName !! name))) names.

Record Hashed := mkHashed { it_hash : string; it_name : string; it_types : gset Z }.

(** The names that get an NSEC3 record, with their hashes. *)
Definition hashed_item (opt : Options) (flags : Z) (byName : gmap string (gset Z)) (name : string) : option Hashed :=
  let types := default ∅ (byName !! name) in
  if underDelegation byName (g_Origin opt) name then None
  else if isDelegation types (g_Origin opt) name && negb (bool_decide (TypeDS ∈ types)) && bool_decide (Z.land flags 1 = 1%Z)
  then None
  else Some (mkHashed (ToLower (dns_HashName name SHA1 (g_NSEC3Iters opt) (g_NSEC3Salt opt))) name types).

Definition nsec3_types (opt : Options) (it : Hashed) : gset Z :=
  {[ TypeRRSIG ]} ∪ filter (λ t, ¬ (t = TypeNSEC3 ∨ t = TypeNSEC3PARAM ∧ it_name it ≠ g_Origin opt)) (it_types it).

Definition nsec3_record (opt : Options) (flags : Z) (next : string) (it : Hashed) : RR :=
  let salt := saltOrDash (g_NSEC3Salt opt) in
  mkRR (mkHdr (ToLower (it_hash it) +:+ "." +:+ g_Origin opt) TypeNSEC3 ClassINET (g_TTL opt))
    (RD_NSEC3 (mkNSEC3 SHA1 flags (g_NSEC3Iters opt) (salt_len salt) salt 20 (ToUpper next) (bitmapOf (nsec3_types opt it)))).

Definition buildNSEC3 (opt : Options) (rrs : list RR) (flags : Z) : list RR :=
  let byName := namesFrom rrs in
  let names := addENTs (range byName).*1 (g_Origin opt) in
  let items := exchange_sort (λ a b, str_ltb (it_hash a) (it_hash b)) (omap (hashed_item opt flags byName) names) in
  imap (λ i it, nsec3_record opt flags (default "" (it_hash <$> items !! ((i + 1) mod length items))) it) items.
End ranged.
End generate.

(** ** Signing (sign.go) *)

Section sign.
Context `{DL : !DnsLib, MR : !MapRange, CR : !Crypto}.

Definition group_key (name : string) (t : Z) : string := Canonical name +:+ "|" +:+ fmt_d t.

(** The records other than RRSIGs by owner and type. *)
Definition groups_of (rrs : list RR) : gmap string (list RR) :=
  foldl (λ m rr,
      if bool_decide (rr_Type rr = TypeRRSIG) then m
      else let k := group_key (rr_Name rr) (rr_Type rr) in <[k := default [] (m !! k) ++ [rr]]> m) ∅ rrs.

Fixpoint glue_loop (fuel : nat) (origin : string) (groups : gmap string (list RR)) (p : string) : bool :=
  match fuel with
  | 0 => false
  | S fuel =>
      if negb (bool_decide (p = origin)) && negb (bool_decide (p = ".")) then
        if bool_decide (is_Some (groups !! (p +:+ "|" +:+ fmt_d TypeNS))) then true
        else
          let n := Parent p in
          if bool_decide (n = p) then false else glue_loop fuel origin groups n
      else false
  end.

Definition isGlue (origin : string) (groups : gmap string (list RR)) (name : string) (rrtype : Z) : bool :=
  if negb (bool_decide (rrtype = TypeA)) && negb (bool_decide (rrtype = TypeAAAA)) then false
  else
    let name := Canonical name in
    if bool_decide (name = origin) then false
    else glue_loop (S (String.length name)) origin groups (Parent name).

(** The RRSIG to be signed for the RRset with this first header. *)
Definition draft_sig (h : RR_Header) (key : DNSKEY_RR) (inception expiration : Z) : RRSIG_RR :=
  (mkHdr (h_Name h) TypeRRSIG ClassINET (h_Ttl h),
   mkRRSIG (h_Rrtype h) (key_Algorithm key.2) (u8 (CountLabel (h_Name h))) (h_Ttl h) expiration inception
     (KeyTag key.2) (h_Name key.1) "").

(** One round of the loop over the groups. *)
Definition sign_group (opt : Options) (groups : gmap string (list RR)) (ksk zsk : DNSKEY_RR) (kpriv zpriv : Signer)
    (out : list RR) (group : list RR) : outcome (list RR) :=
  match group with
  | [] => Done out
  | rr :: _ =>
      let h := rr_Hdr rr in
      if negb (bool_decide (h_Name h = g_Origin opt)) && bool_decide (h_Rrtype h = TypeNS) then Done out
      else if isGlue (g_Origin opt) groups (h_Name h) (h_Rrtype h) then Done out
      else
        let '(signer, key) :=
          if bool_decide (h_Rrtype h = TypeDNSKEY) && bool_decide (Canonical (h_Name h) = g_Origin opt)
          then (kpriv, ksk) else (zpriv, zsk) in
        match dns_Sign (draft_sig h key (g_Inception opt) (g_Expiration opt)) signer group with
        | Err err => Failed ("sign " +:+ h_Name h +:+ "/" +:+ default "" (TypeToString (h_Rrtype h)) +:+ ": " +:+ err)
        | Ok sig => Done (out ++ [sig_rr sig])
        end
  end.

Definition signZone (opt : Options) (rrs : list RR) (ksk zsk : DNSKEY_RR) (kpriv zpriv : Signer) : outcome (list RR) :=
  let groups := groups_of rrs in
  foldM_outcome (sign_group opt groups ksk zsk kpriv zpriv) rrs (range groups).*2.

Definition ResignRRSet (rrs : list RR) (key : DNSKEY_RR) (priv : Signer) (inception expiration : Z) : result RRSIG_RR :=
  match rrs with
  | [] => Err "empty rrset"
  | rr :: _ => dns_Sign (draft_sig (rr_Hdr rr) key inception expiration) priv rrs
  end.
End sign.

(** ** The zone *)

Section zone.
Context `{DL : !DnsLib, BT : !BTree, MR : !MapRange, CR : !Crypto}.

Record Generated := mkGenerated {
  ge_Store : Store; ge_KSK : DNSKEY_RR; ge_ZSK : DNSKEY_RR; ge_KSKPriv : Signer; ge_ZSKPriv : Signer; ge_Counts : Counts
}.

Definition gen_hdr (opt : Options) (name : string) (t : Z) : RR_Header := mkHdr name t ClassINET (g_TTL opt).

(** A DNSKEY literal with its public key generated: the [i]th of the run. *)
Definition new_key (opt : Options) (i : nat) (name : string) (flags : Z) : result (DNSKEY_RR * option Signer) :=
  let k := mkDNSKEY flags 3 (g_Algorithm opt) "" in
  match dns_Generate i k (keyBits (g_Algorithm opt)) with
  | Err err => Err err
  | Ok (pub, priv) => Ok ((gen_hdr opt name TypeDNSKEY, with_PublicKey k pub), priv)
  end.

(** An IPv4 address as its bytes. *)
Definition ip4 (d : Z) : string := String (byte_of_Z 192) (String (byte_of_Z 0) (String (byte_of_Z 2) (String (byte_of_Z d) ""))).

Definition apex_records (opt : Options) : list RR :=
  let o := g_Origin opt in
  [mkRR (gen_hdr opt o TypeSOA) (RD_SOA (mkSOA ("ns1." +:+ o) ("hostmaster." +:+ o) (g_Serial opt) 3600 600 86400 300));
   mkRR (gen_hdr opt o TypeNS) (RD_NS ("ns1." +:+ o));
   mkRR (gen_hdr opt o TypeNS) (RD_NS ("ns2." +:+ o));
   mkRR (gen_hdr opt ("ns1." +:+ o) TypeA) (RD_A (ip4 1));
   mkRR (gen_hdr opt ("ns2." +:+ o) TypeA) (RD_A (ip4 2))].

(** The state of the loop over the delegations: the records, how many are
    secure, the number of keys generated in the run so far. *)
Record GenState := mkGenState { gs_rrs : list RR; gs_secure : Z; gs_keys : nat }.

(** The name servers of a delegation and their addresses. *)
Definition deleg_records (opt : Options) (i : Z) (owner : string) : list RR :=
  n ← [1; 2; 3; 4]%Z;
  let ns := "ns" +:+ fmt_d n +:+ "." +:+ owner in
  [mkRR (gen_hdr opt owner TypeNS) (RD_NS ns);
   mkRR (gen_hdr opt ns TypeA) (RD_A (ip4 (1 + (i + n) mod 250)))].

Definition delegation (opt : Options) (s : GenState) (i : nat) : outcome GenState :=
  let owner := "d" +:+ fmt_0d 5 (Z.of_nat i) +:+ "." +:+ g_Origin opt in
  let rrs := gs_rrs s ++ deleg_records opt (Z.of_nat i) owner in
  if (rand_Intn (g_Seed opt) i 100 <? g_SecurePct opt)%Z then
    '(child, _) ← of_result (new_key opt (gs_keys s) owner 257);
    ds ← or_panic (ToDS child SHA256);
    Done (mkGenState (rrs ++ [mkRR (gen_hdr opt owner TypeDS) (RD_DS ds)]) (gs_secure s + 1) (S (gs_keys s)))
  else Done (mkGenState rrs (gs_secure s) (gs_keys s)).

Definition extra_records (opt : Options) : list RR :=
  let o := g_Origin opt in
  (if g_AddWildcard opt then [mkRR (gen_hdr opt ("*." +:+ o) TypeA) (RD_A (ip4 99))] else []) ++
  (if g_AddDNAME opt then
     [mkRR (gen_hdr opt ("alias." +:+ o) TypeDNAME) (RD_DNAME ("target." +:+ o));
      mkRR (gen_hdr opt ("ent.child." +:+ o) TypeTXT) (RD_TXT ["empty-nonterminal-parent"])] else []) ++
  (if g_ZONEMD opt && negb (bool_decide (g_Denial opt = DenialNone)) then
     [mkRR (gen_hdr opt o TypeZONEMD) (RD_ZONEMD (mkZONEMD (g_Serial opt) 1 1 (Repeat "00" 48)))] else []).

(** The records before those of denial of existence. *)
Definition base_records (opt : Options) (ksk zsk : DNSKEY_RR) : outcome GenState :=
  let rrs := apex_records opt ++ (if bool_decide (g_Denial opt = DenialNone) then [] else [key_rr ksk; key_rr zsk]) in
  s ← (if g_ExtraUnused opt then
         '(unused, _) ← of_result (new_key opt 2 (g_Origin opt) 256);
         Done (mkGenState (rrs ++ [key_rr unused]) 0 3)
       else Done (mkGenState rrs 0 2));
  s ← foldM_outcome (delegation opt) s (seq 0 (Z.to_nat (g_Delegations opt)));
  Done (mkGenState (gs_rrs s ++ extra_records opt) (gs_secure s) (gs_keys s)).

Definition param_record (opt : Options) : RR :=
  let salt := saltOrDash (g_NSEC3Salt opt) in
  mkRR (mkHdr (g_Origin opt) TypeNSEC3PARAM ClassINET 0)
    (RD_NSEC3PARAM (mkNSEC3PARAM SHA1 0 (g_NSEC3Iters opt) (salt_len salt) salt)).

(** The records with those of denial of existence. *)
Definition with_denial (opt : Options) (rrs : list RR) : list RR :=
  if bool_decide (g_Denial opt = DenialNSEC3) || bool_decide (g_Denial opt = DenialNSEC3OptOut) then
    let flags := if bool_decide (g_Denial opt = DenialNSEC3OptOut) then 1%Z else 0%Z in
    let rrs := rrs ++ [param_record opt] in
    rrs ++ buildNSEC3 opt rrs flags
  else if bool_decide (g_Denial opt = DenialNSEC) then rrs ++ buildNSEC opt rrs
  else rrs.

Fixpoint remove_each (st : Store) (rrs : list RR) : result Store :=
  match rrs with
  | [] => Ok st
  | rr :: rrs => match RemoveRR st rr with (_, Some err) => Err err | (st, None) => remove_each st rrs end
  end.

(** Remove the RRSIGs among the records that satisfy a test; a record of
    another type is a failed type assertion. *)
Fixpoint remove_sigs (p : RRSIG_rdata → bool) (st : Store) (rrs : list RR) : outcome Store :=
  match rrs with
  | [] => Done st
  | rr :: rrs =>
      match as_RRSIG rr with
      | None => Panics
      | Some sig =>
          if p sig then match RemoveRR st rr with (_, Some err) => Failed err | (st, None) => remove_sigs p st rrs end
          else remove_sigs p st rrs
      end
  end.

(** The digest of the zone in place of the placeholder, signed. *)
Definition finalizeZONEMD (g : Generated) (opt : Options) : outcome Generated :=
  match Apex (ge_Store g) with
  | None => Failed "no apex for ZONEMD"
  | Some apex =>
      match UnpackType apex TypeZONEMD with
      | Err err => Failed ("placeholder ZONEMD missing: " +:+ err)
      | Ok [] => Failed "placeholder ZONEMD missing: %!w(<nil>)"
      | Ok (rr :: _) =>
          old ← or_panic (as_ZONEMD rr);
          digest ← of_result (ComputeZONEMD (ge_Store g) (zmd_Scheme old) (zmd_Hash old));
          let neu := mkRR (mkHdr (rr_Name rr) TypeZONEMD ClassINET (rr_Ttl rr))
            (RD_ZONEMD (mkZONEMD (zmd_Serial old) (zmd_Scheme old) (zmd_Hash old) (hex_EncodeToString digest))) in
          sigs ← of_result (UnpackType apex TypeRRSIG);
          st ← remove_sigs (λ sig, bool_decide (sig_TypeCovered sig = TypeZONEMD)) (ge_Store g) sigs;
          st ← of_result (remove_each st [rr]);
          st ← of_result (add_all st [neu]);
          sig ← of_result (ResignRRSet [neu] (ge_ZSK g) (ge_ZSKPriv g) (g_Inception opt) (g_Expiration opt));
          st ← of_result (add_all st [sig_rr sig]);
          Done (mkGenerated st (ge_KSK g) (ge_ZSK g) (ge_KSKPriv g) (ge_ZSKPriv g) (ge_Counts g))
      end
  end.

Definition count_store (st : Store) (c : Counts) : Counts :=
  mkCounts (Store_RecordCount st) (Z.of_nat (RRSIGCount st)) (n_NSEC3 c) (n_DNSKEYs c) (n_Deleg c) (n_Secure c).

(** [Generate], and the number of keys it generated. *)
Definition Generate (opt : Options) : outcome (Generated * nat) :=
  let opt := defaults opt in
  '(ksk, kpriv) ← of_result (wrap_err (λ e, "ksk: " +:+ e) (new_key opt 0 (g_Origin opt) 257));
  '(zsk, zpriv) ← of_result (wrap_err (λ e, "zsk: " +:+ e) (new_key opt 1 (g_Origin opt) 256));
  match kpriv, zpriv with
  | Some kpriv, Some zpriv =>
      s ← base_records opt ksk zsk;
      let rrs := with_denial opt (gs_rrs s) in
      rrs ← (if bool_decide (g_Denial opt = DenialNone) then Done rrs else signZone opt rrs ksk zsk kpriv zpriv);
      st ← of_result (FromAXFR (g_Origin opt) rrs);
      let g := mkGenerated st ksk zsk kpriv zpriv
        (count_store st (mkCounts 0 0 (Z.of_nat (NSEC3Count st)) 2 (g_Delegations opt) (gs_secure s))) in
      if g_ZONEMD opt && negb (bool_decide (g_Denial opt = DenialNone)) then
        g ← finalizeZONEMD g opt;
        Done (mkGenerated (ge_Store g) ksk zsk kpriv zpriv (count_store (ge_Store g) (ge_Counts g)), gs_keys s)
      else Done (g, gs_keys s)
  | _, _ => Failed "keys are not signers"
  end.

Definition Small (origin : string) : outcome (Generated * nat) := Generate (mkGen origin 8 50 DenialNSEC3OptOut 1).

Definition Large (n seed : Z) : outcome (Generated * nat) :=
  let deleg := Z.quot n 12 in
  let deleg := if (deleg <? 1)%Z then 1%Z else deleg in
  Generate (mkGen "large.test." deleg 5 DenialNSEC3OptOut seed).
End zone.
