(* ===== verification/Mutate.v ===== *)
(** * Defects of generated zones (internal/zonegen/mutate.go)

    The mutators that make a generated zone fail one check each. They change
    the store in place and may stop with an error (or a panic) half way, so a
    mutator is a computation that returns the store as it left it beside its
    outcome ([Mut]). What they do to the verdict of the auditor is run in
    [Simulated]. *)

From S2P Require Import Prelude GoStrings DnsLib BTree DnsName Base32 Node Store Nsec Zonegen.

Section mutate.
Context `{DL : !DnsLib, BT : !BTree, MR : !MapRange, CR : !Crypto}.

(** ** Computations on a store *)

Definition Mut (A : Type) : Type := Store → Store * outcome A.

#[export] Instance mut_ret : MRet Mut := λ A a st, (st, Done a).
#[export] Instance mut_bind : MBind Mut := λ A B f m st,
  match m st with
  | (st, Done a) => f a st
  | (st, Failed err) => (st, Failed err)
  | (st, Panics) => (st, Panics)
  end.

(** The store, an outcome that does not depend on it, and one operation. *)
Definition the_store : Mut Store := λ st, (st, Done st).
Definition lift {A} (o : outcome A) : Mut A := λ st, (st, o).
Definition store_op (op : Store → RR → Store * option string) (rr : RR) : Mut unit := λ st,
  match op st rr with (st, Some err) => (st, Failed err) | (st, None) => (st, Done tt) end.

Fixpoint mut_each (f : RR → Mut unit) (rrs : list RR) : Mut unit :=
  match rrs with [] => mret tt | rr :: rrs => f rr ≫= λ _, mut_each f rrs end.

(** ** Finding a record *)

Definition firstOfType (st : Store) (rrtype : Z) : option (string * RRSet) :=
  n ← List.find (λ n, negb (bool_decide (n_Name n = st_origin st)) && Has n rrtype) (ForEachNode st);
  s ← Node_Set n rrtype; Some (n_Name n, s).

Definition firstDS (st : Store) : option Node := List.find n_HasDS (ForEachNode st).

Definition firstNSEC3 (st : Store) : option Node := List.find (λ n, Has n TypeNSEC3) (ForEachNode st).

Definition removeRRs (name : string) (rrtype : Z) : Mut unit :=
  st ← the_store;
  match Lookup st name with
  | None => lift (Failed ("no node " +:+ name))
  | Some n => rrs ← lift (of_result (UnpackType n rrtype)); mut_each (store_op RemoveRR) rrs
  end.

Definition replaceRRs (old neu : list RR) : Mut unit :=
  mut_each (store_op RemoveRR) old ≫= λ _, mut_each (store_op AddRR) neu.

(** A record with its RRSIG data. *)
Definition as_sig (rr : RR) : option RRSIG_RR := d ← as_RRSIG rr; Some (rr_Hdr rr, d).

(** The node is nil where there is none, and is dereferenced. *)
Definition coveringRRSIG (n : option Node) (rrtype : Z) : outcome RRSIG_RR :=
  n ← or_panic n;
  rrs ← of_result (UnpackType n TypeRRSIG);
  match List.find (λ s : RRSIG_RR, bool_decide (sig_TypeCovered s.2 = rrtype)) (omap as_sig rrs) with
  | Some sig => Done sig
  | None => Failed ("no RRSIG covering " +:+ n_Name n +:+ "/" +:+ default "" (TypeToString rrtype))
  end.

(** The first node with a DS, or the apex, and a type. *)
Definition ds_or_apex (st : Store) (apex_type : Z) : option Node * Z :=
  match firstDS st with Some n => (Some n, TypeDS) | None => (Apex st, apex_type) end.

(** ** Signatures *)

Definition with_Signature (s : RRSIG_RR) (sig : string) : RRSIG_RR :=
  (s.1, mkRRSIG (sig_TypeCovered s.2) (sig_Algorithm s.2) (sig_Labels s.2) (sig_OrigTtl s.2) (sig_Expiration s.2)
     (sig_Inception s.2) (sig_KeyTag s.2) (sig_SignerName s.2) sig).
Definition with_Labels (s : RRSIG_RR) (l : Z) : RRSIG_RR :=
  (s.1, mkRRSIG (sig_TypeCovered s.2) (sig_Algorithm s.2) l (sig_OrigTtl s.2) (sig_Expiration s.2)
     (sig_Inception s.2) (sig_KeyTag s.2) (sig_SignerName s.2) (sig_Signature s.2)).
Definition with_OrigTtl (s : RRSIG_RR) (ttl : Z) : RRSIG_RR :=
  (s.1, mkRRSIG (sig_TypeCovered s.2) (sig_Algorithm s.2) (sig_Labels s.2) ttl (sig_Expiration s.2)
     (sig_Inception s.2) (sig_KeyTag s.2) (sig_SignerName s.2) (sig_Signature s.2)).

(** The first byte of the signature becomes [A], or [B] if it was [A]. *)
Definition flip_byte (s : string) : string :=
  match s with
  | "" => ""
  | String c s => String (if bool_decide (c = "A"%char) then "B" else "A")%char s
  end.
Definition flip_sig (s : RRSIG_RR) : RRSIG_RR := with_Signature s (flip_byte (sig_Signature s.2)).

Definition FlipPair (g : Generated) : outcome (RRSIG_RR * RRSIG_RR) :=
  let '(n, rrtype) := ds_or_apex (ge_Store g) TypeSOA in
  sig ← coveringRRSIG n rrtype; Done (sig, flip_sig sig).

(** The records to add and to remove. *)
Definition SignedSerialBump (g : Generated) : outcome (list RR * list RR) :=
  match Apex (ge_Store g) with
  | None => Failed "no apex"
  | Some n =>
      match UnpackType n TypeSOA with
      | Err _ | Ok [] => Failed "no SOA"
      | Ok (old :: _) =>
          soa ← or_panic (as_SOA old);
          oldSig ← coveringRRSIG (Some n) TypeSOA;
          let neu := mkRR (rr_Hdr old) (RD_SOA (mkSOA (soa_Ns soa) (soa_Mbox soa) (u32 (soa_Serial soa + 1)) (soa_Refresh soa)
            (soa_Retry soa) (soa_Expire soa) (soa_Minttl soa))) in
          newSig ← of_result (ResignRRSet [neu] (ge_ZSK g) (ge_ZSKPriv g) (sig_Inception oldSig.2) (sig_Expiration oldSig.2));
          Done ([neu; sig_rr newSig], [old; sig_rr oldSig])
      end
  end.

(** [Mutator], with what it takes from outside: the clock, and the number of
    keys generated in the run so far. The store is that of [g]. *)
Definition Mutator : Type := Time → nat → Generated → Mut unit.

(** Run on a generated zone. *)
Definition mutate (m : Mutator) (now : Time) (i : nat) (g : Generated) : Generated * outcome unit :=
  let '(st, o) := m now i g (ge_Store g) in
  (mkGenerated st (ge_KSK g) (ge_ZSK g) (ge_KSKPriv g) (ge_ZSKPriv g) (ge_Counts g), o).

(** Replace the RRSIG of a type at a node by a changed one. *)
Definition change_sig (n : option Node) (rrtype : Z) (f : RRSIG_RR → RRSIG_RR) : Mut unit :=
  sig ← lift (coveringRRSIG n rrtype); replaceRRs [sig_rr sig] [sig_rr (f sig)].

Definition FlipRRSIG : Mutator := λ now i g,
  st ← the_store; let '(n, rrtype) := ds_or_apex st TypeSOA in change_sig n rrtype flip_sig.

Definition DropRRSIG : Mutator := λ now i g,
  st ← the_store; let '(n, rrtype) := ds_or_apex st TypeNS in
  sig ← lift (coveringRRSIG n rrtype); store_op RemoveRR (sig_rr sig).

(** Sign the SOA again with a key and a validity period. *)
Definition resign_soa (key : outcome (DNSKEY_RR * Signer)) (inception expiration : Z) : Mut unit :=
  st ← the_store;
  n ← lift (or_panic (Apex st));
  soa ← lift (of_result (UnpackType n TypeSOA));
  old ← lift (coveringRRSIG (Some n) TypeSOA);
  k ← lift key;
  neu ← lift (of_result (ResignRRSet soa k.1 k.2 inception expiration));
  replaceRRs [sig_rr old] [sig_rr neu].

Definition zsk_of (g : Generated) : outcome (DNSKEY_RR * Signer) := Done (ge_ZSK g, ge_ZSKPriv g).

Definition ExpireRRSIG : Mutator := λ now i g, resign_soa (zsk_of g) 1 2.
Definition FutureRRSIG : Mutator := λ now i g, resign_soa (zsk_of g) 2147479552 2147483647.

(** A key that is not in the zone. *)
Definition foreign_key (i : nat) (g : Generated) (origin : string) : outcome (DNSKEY_RR * Signer) :=
  let alg := key_Algorithm (ge_ZSK g).2 in
  let k := mkDNSKEY 256 3 alg "" in
  '(pub, priv) ← of_result (dns_Generate i k (keyBits alg));
  match priv with
  | None => Failed "foreign key is not a signer"
  | Some signer => Done ((mkHdr origin TypeDNSKEY ClassINET 3600, with_PublicKey k pub), signer)
  end.

Definition UnknownKeyRRSIG : Mutator := λ now i g,
  st ← the_store; resign_soa (foreign_key i g (st_origin st)) 1 2147483647.

Definition LabelsMismatch : Mutator := λ now i g,
  st ← the_store; change_sig (Apex st) TypeSOA (λ s, with_Labels s 99).
Definition TTLMismatch : Mutator := λ now i g,
  st ← the_store; change_sig (Apex st) TypeSOA (λ s, with_OrigTtl s 1).

Definition ExpiringSoon : Mutator := λ now i g, resign_soa (zsk_of g) 1 1060.

Definition ExpiringSoonLive : Mutator := λ now i g,
  let now := u32 (Unix now) in
  resign_soa (zsk_of g) (u32 (now - 3600)) (u32 (now + 36 * 3600)).

Definition DNSKEYSignedByZSKOnly : Mutator := λ now i g,
  st ← the_store;
  n ← lift (or_panic (Apex st));
  rrs ← lift (of_result (UnpackType n TypeRRSIG));
  mut_each (λ rr, match as_RRSIG rr with
    | None => lift Panics
    | Some sig =>
        if bool_decide (sig_TypeCovered sig = TypeDNSKEY) && bool_decide (sig_KeyTag sig = KeyTag (ge_KSK g).2)
        then store_op RemoveRR rr else mret tt
    end) rrs.

(** ** ZONEMD *)

Definition FakeZONEMD : Mutator := λ now i g,
  st ← the_store;
  store_op AddRR (mkRR (mkHdr (st_origin st) TypeZONEMD ClassINET 3600) (RD_ZONEMD (mkZONEMD (st_serial st) 1 1 (Repeat "0" 96)))).

(** ** Denial of existence *)

Definition DropNSEC3 : Mutator := λ now i g,
  st ← the_store;
  match firstNSEC3 st with
  | None => lift (Failed "no NSEC3")
  | Some n => removeRRs (n_Name n) TypeNSEC3
  end.

(** The first record of a type at a node, with an error if there is none. *)
Definition first_record (n : Node) (rrtype : Z) (err : string) : outcome RR :=
  match UnpackType n rrtype with Ok (rr :: _) => Done rr | _ => Failed err end.

Definition with_next3 (d : NSEC3_rdata) (next : string) : NSEC3_rdata :=
  mkNSEC3 (nsec3_Hash d) (nsec3_Flags d) (nsec3_Iterations d) (nsec3_SaltLength d) (nsec3_Salt d) (nsec3_HashLength d) next
    (nsec3_TypeBitMap d).
Definition with_bitmap3 (d : NSEC3_rdata) (bm : list Z) : NSEC3_rdata :=
  mkNSEC3 (nsec3_Hash d) (nsec3_Flags d) (nsec3_Iterations d) (nsec3_SaltLength d) (nsec3_Salt d) (nsec3_HashLength d)
    (nsec3_NextDomain d) bm.

Definition BreakNSEC3Chain : Mutator := λ now i g,
  st ← the_store;
  match firstNSEC3 st with
  | None => lift (Failed "no NSEC3")
  | Some n =>
      rr ← lift (first_record n TypeNSEC3 "no NSEC3 rr");
      d ← lift (or_panic (as_NSEC3 rr));
      replaceRRs [rr] [mkRR (rr_Hdr rr) (RD_NSEC3 (with_next3 d "AAAAAAAAAAAAAAAAAAAAAAAAAAAAAAAA"))]
  end.

(** The first node whose NSEC3 bitmap has DS; the records of the nodes before
    it must be NSEC3 records. *)
Fixpoint find_ds_bit (ns : list Node) : outcome (option Node) :=
  match ns with
  | [] => Done None
  | n :: ns =>
      if negb (Has n TypeNSEC3) then find_ds_bit ns
      else
        match UnpackType n TypeNSEC3 with
        | Err _ | Ok [] => find_ds_bit ns
        | Ok (rr :: _) =>
            match as_NSEC3 rr with
            | None => Panics
            | Some d => if BitmapHas (nsec3_TypeBitMap d) TypeDS then Done (Some n) else find_ds_bit ns
            end
        end
  end.

Definition NSEC3BitmapDropDS : Mutator := λ now i g,
  st ← the_store;
  match firstDS st with
  | None => lift (Failed "no DS")
  | Some _ =>
      target ← lift (find_ds_bit (ForEachNode st));
      match target with
      | None => lift (Failed "no NSEC3 with DS bit")
      | Some n =>
          rr ← lift (match UnpackType n TypeNSEC3 with Ok (rr :: _) => Done rr | _ => Panics end);
          d ← lift (or_panic (as_NSEC3 rr));
          let bm := List.filter (λ t, negb (bool_decide (t = TypeDS))) (nsec3_TypeBitMap d) in
          replaceRRs [rr] [mkRR (rr_Hdr rr) (RD_NSEC3 (with_bitmap3 d bm))]
      end
  end.

(** An NSEC set that cannot be read leaves the zone alone, without an error
    if it is empty. *)
Definition BreakNSECChain : Mutator := λ now i g,
  st ← the_store;
  match List.find (λ n, Has n TypeNSEC) (ForEachNode st) with
  | None => lift (Failed "no NSEC")
  | Some n =>
      match UnpackType n TypeNSEC with
      | Err err => lift (Failed err)
      | Ok [] => mret tt
      | Ok (rr :: _) =>
          d ← lift (or_panic (as_NSEC rr));
          replaceRRs [rr] [mkRR (rr_Hdr rr) (RD_NSEC (mkNSEC ("zzz-broken." +:+ st_origin st) (nsec_TypeBitMap d)))]
      end
  end.

Definition DropNSEC : Mutator := λ now i g,
  st ← the_store;
  let n := match List.find (λ n, Has n TypeNSEC && n_IsDelegation n) (ForEachNode st) with
    | Some n => Some n
    | None => List.find (λ n, Has n TypeNSEC && negb (bool_decide (n_Name n = st_origin st))) (ForEachNode st)
    end in
  match n with
  | None => lift (Failed "no NSEC")
  | Some n => removeRRs (n_Name n) TypeNSEC
  end.

Definition NSEC3PARAMMismatch : Mutator := λ now i g,
  st ← the_store;
  n ← lift (or_panic (Apex st));
  rr ← lift (first_record n TypeNSEC3PARAM "no NSEC3PARAM");
  p ← lift (or_panic (as_NSEC3PARAM rr));
  replaceRRs [rr] [mkRR (rr_Hdr rr) (RD_NSEC3PARAM (mkNSEC3PARAM (n3p_Hash p) (n3p_Flags p) 10 (n3p_SaltLength p) (n3p_Salt p)))].

Definition MixDenial : Mutator := λ now i g,
  st ← the_store;
  store_op AddRR (mkRR (mkHdr (st_origin st) TypeNSEC3PARAM ClassINET 0) (RD_NSEC3PARAM (mkNSEC3PARAM SHA1 0 0 0 "-"))).

Definition MixNSEC : Mutator := λ now i g,
  st ← the_store;
  let bitmap := sort_Z [TypeNS; TypeSOA; TypeRRSIG; TypeNSEC; TypeDNSKEY; TypeNSEC3PARAM] in
  store_op AddRR (mkRR (mkHdr (st_origin st) TypeNSEC ClassINET 3600) (RD_NSEC (mkNSEC ("zzz." +:+ st_origin st) bitmap))).

Definition Catalogue : gmap string Mutator := list_to_map [
  ("RRSIG_INVALID", FlipRRSIG);
  ("RRSIG_MISSING", DropRRSIG);
  ("RRSIG_EXPIRED", ExpireRRSIG);
  ("RRSIG_NOT_YET_VALID", FutureRRSIG);
  ("RRSIG_UNKNOWN_KEY", UnknownKeyRRSIG);
  ("RRSIG_LABELS_MISMATCH", LabelsMismatch);
  ("DNSKEY_NOT_SIGNED_BY_KSK", DNSKEYSignedByZSKOnly);
  ("NSEC3_MISSING", DropNSEC3);
  ("NSEC3_CHAIN_BROKEN", BreakNSEC3Chain);
  ("NSEC3_BITMAP_MISMATCH", NSEC3BitmapDropDS);
  ("NSEC3PARAM_MISMATCH", NSEC3PARAMMismatch);
  ("NSEC_MISSING", DropNSEC);
  ("NSEC_CHAIN_BROKEN", BreakNSECChain);
  ("RRSIG_TTL_MISMATCH", TTLMismatch);
  ("RRSIG_EXPIRING_SOON", ExpiringSoon);
  ("ZONEMD_MISMATCH", FakeZONEMD);
  ("MIXED_NSEC_NSEC3", MixDenial);
  ("MIXED_NSEC3_PLUS_NSEC", MixNSEC);
  ("RRSIG_EXPIRING_SOON_LIVE", ExpiringSoonLive)].
End mutate.
