(* ===== verification/Examples.v ===== *)
(** * The example pack (internal/zonegen/examples.go, cmd/testprimary/examples.go, cmd/zonegen)

    The zones the demo serves: for every check one that fails it, with the
    finding it is to show, and valid ones; and the catalog that lists them.
    [Simulated] runs the auditor over a part of it. *)

From S2P Require Import Prelude GoStrings DnsLib BTree DnsName Base32 Node Store Nsec Xfr TestPrimary State Zonegen Mutate.

Definition ExpectValid : string := "valid".
Definition ExpectInvalid : string := "invalid".
Definition ExpectWarning : string := "warning".
Definition ExpectUnsigned : string := "unsigned".

Definition baseOpts (origin denial : string) : Options := mkGen origin 4 50 denial 11.

Definition with_pct (o : Options) (pct : Z) : Options :=
  mkOptions (g_Origin o) (g_Serial o) (g_Delegations o) pct (g_Denial o) (g_Algorithm o) (g_NSEC3Iters o) (g_NSEC3Salt o)
    (g_TTL o) (g_Inception o) (g_Expiration o) (g_Seed o) (g_AddWildcard o) (g_AddDNAME o) (g_ZONEMD o) (g_DualAlg o) (g_ExtraUnused o).
Definition with_alg (o : Options) (alg : Z) : Options :=
  mkOptions (g_Origin o) (g_Serial o) (g_Delegations o) (g_SecurePct o) (g_Denial o) alg (g_NSEC3Iters o) (g_NSEC3Salt o)
    (g_TTL o) (g_Inception o) (g_Expiration o) (g_Seed o) (g_AddWildcard o) (g_AddDNAME o) (g_ZONEMD o) (g_DualAlg o) (g_ExtraUnused o).
Definition with_nsec3 (o : Options) (iters : Z) (salt : string) : Options :=
  mkOptions (g_Origin o) (g_Serial o) (g_Delegations o) (g_SecurePct o) (g_Denial o) (g_Algorithm o) iters salt
    (g_TTL o) (g_Inception o) (g_Expiration o) (g_Seed o) (g_AddWildcard o) (g_AddDNAME o) (g_ZONEMD o) (g_DualAlg o) (g_ExtraUnused o).
Definition with_extras (o : Options) (wildcard dname zonemd unused : bool) : Options :=
  mkOptions (g_Origin o) (g_Serial o) (g_Delegations o) (g_SecurePct o) (g_Denial o) (g_Algorithm o) (g_NSEC3Iters o) (g_NSEC3Salt o)
    (g_TTL o) (g_Inception o) (g_Expiration o) (g_Seed o) wildcard dname zonemd (g_DualAlg o) unused.

Definition secureOpts (origin denial : string) : Options := with_pct (baseOpts origin denial) 100.

Section examples.
Context `{DL : !DnsLib, BT : !BTree, MR : !MapRange, CR : !Crypto}.

Record ExampleSpec := mkExample {
  es_Origin : string; es_Summary : string; es_Expect : string; es_Want : string; es_Options : Options; es_Mutate : option Mutator
}.

Definition FileName (s : ExampleSpec) : string := "db." +:+ TrimSuffix (es_Origin s) ".".
Definition BINDName (s : ExampleSpec) : string := TrimSuffix (es_Origin s) ".".

(** An example whose options have its own origin. *)
Definition example (origin summary expect want : string) (opts : string → Options) (m : option Mutator) : ExampleSpec :=
  mkExample origin summary expect want (opts origin) m.

Definition base (denial origin : string) : Options := baseOpts origin denial.
Definition secure (denial origin : string) : Options := secureOpts origin denial.

(** Bad signatures. *)
Definition rrsig_examples : list ExampleSpec := [
  example "rrsig-missing.example." "one RRset has no covering RRSIG" ExpectInvalid "RRSIG_MISSING"
    (base DenialNSEC3OptOut) (Some DropRRSIG);
  example "rrsig-expired.example." "SOA RRSIG expiration is in the past" ExpectInvalid "RRSIG_EXPIRED"
    (base DenialNSEC3OptOut) (Some ExpireRRSIG);
  example "rrsig-future.example." "SOA RRSIG inception is still in the future" ExpectInvalid "RRSIG_NOT_YET_VALID"
    (base DenialNSEC3OptOut) (Some FutureRRSIG);
  example "rrsig-unknown.example." "SOA is signed by a key not in the DNSKEY set" ExpectInvalid "RRSIG_UNKNOWN_KEY"
    (base DenialNSEC3OptOut) (Some UnknownKeyRRSIG);
  example "rrsig-labels.example." "SOA RRSIG Labels field does not match the owner" ExpectInvalid "RRSIG_LABELS_MISMATCH"
    (base DenialNSEC3OptOut) (Some LabelsMismatch);
  example "rrsig-ttl.example." "SOA RRSIG OrigTTL does not match the RRset TTL (signature fails)" ExpectInvalid "RRSIG_INVALID"
    (base DenialNSEC3OptOut) (Some TTLMismatch);
  example "rrsig-expiring.example." "SOA RRSIG expires within the 72h warning window" ExpectWarning "RRSIG_EXPIRING_SOON"
    (base DenialNSEC3OptOut) (Some ExpiringSoonLive)].

(** Keys and algorithms. *)
Definition key_examples : list ExampleSpec := [
  example "dnskey-zskonly.example." "DNSKEY RRset is signed only by the ZSK" ExpectInvalid "DNSKEY_NOT_SIGNED_BY_KSK"
    (base DenialNSEC3OptOut) (Some DNSKEYSignedByZSKOnly);
  example "dnskey-unused.example." "extra ZSK in DNSKEY that signs nothing" ExpectWarning "DNSKEY_UNUSED"
    (λ o, with_extras (baseOpts o DenialNSEC3OptOut) false false false true) None;
  example "alg-rsasha1.example." "signed with RSASHA1 (deprecated)" ExpectWarning "DEPRECATED_ALGORITHM"
    (λ o, with_alg (baseOpts o DenialNSEC) RSASHA1) None;
  example "alg-rsasha1nsec3.example." "signed with RSASHA1-NSEC3-SHA1 (deprecated)" ExpectWarning "DEPRECATED_ALGORITHM"
    (λ o, with_pct (with_alg (baseOpts o DenialNSEC3) RSASHA1NSEC3SHA1) 100) None;
  example "alg-rsasha256.example." "valid zone signed with RSASHA256" ExpectValid ""
    (λ o, with_alg (baseOpts o DenialNSEC) RSASHA256) None;
  example "alg-ed25519.example." "valid zone signed with ED25519" ExpectValid ""
    (λ o, with_alg (baseOpts o DenialNSEC) ED25519) None].

(** NSEC3. *)
Definition nsec3_examples : list ExampleSpec := [
  example "nsec3-missing.example." "one NSEC3 record removed (chain/coverage breaks)" ExpectInvalid "NSEC3_CHAIN_BROKEN"
    (secure DenialNSEC3OptOut) (Some DropNSEC3);
  example "nsec3-chain.example." "NSEC3 next-hash does not point at the successor" ExpectInvalid "NSEC3_CHAIN_BROKEN"
    (base DenialNSEC3OptOut) (Some BreakNSEC3Chain);
  example "nsec3-bitmap.example." "NSEC3 type bitmap omits DS at a secure delegation" ExpectInvalid "NSEC3_BITMAP_MISMATCH"
    (secure DenialNSEC3OptOut) (Some NSEC3BitmapDropDS);
  example "nsec3-param.example." "NSEC3PARAM iterations do not match the NSEC3 chain" ExpectInvalid "NSEC3PARAM_MISMATCH"
    (base DenialNSEC3OptOut) (Some NSEC3PARAMMismatch);
  example "nsec3-iters.example." "valid signatures, NSEC3 iterations=5 (RFC 9276 wants 0)" ExpectWarning "NSEC3_ITERATIONS_NONZERO"
    (λ o, with_nsec3 (secureOpts o DenialNSEC3) 5 "") None;
  example "nsec3-salt.example." "valid signatures, NSEC3 salt present (RFC 9276 wants empty)" ExpectWarning "NSEC3_SALT_PRESENT"
    (λ o, with_nsec3 (secureOpts o DenialNSEC3) 0 "aabb") None;
  example "nsec3-strict.example." "valid NSEC3 zone without opt-out" ExpectValid "" (secure DenialNSEC3) None].

(** NSEC, and both kinds of denial. *)
Definition nsec_examples : list ExampleSpec := [
  example "nsec-missing.example." "one NSEC record removed" ExpectInvalid "NSEC_MISSING" (base DenialNSEC) (Some DropNSEC);
  example "nsec-chain.example." "NSEC next-name does not point at the successor" ExpectInvalid "NSEC_CHAIN_BROKEN"
    (base DenialNSEC) (Some BreakNSECChain);
  example "mixed-nsec-nsec3.example." "NSEC-signed zone with an extra NSEC3PARAM" ExpectInvalid "NSEC3_MISSING"
    (base DenialNSEC) (Some MixDenial);
  example "mixed-nsec3-plus-nsec.example." "NSEC3-signed zone with an extra unsigned NSEC" ExpectInvalid "RRSIG_MISSING"
    (base DenialNSEC3OptOut) (Some MixNSEC)].

(** Digests, and a zone with a wildcard. *)
Definition digest_examples : list ExampleSpec := [
  example "zonemd-bad.example." "ZONEMD digest does not match the zone" ExpectInvalid "ZONEMD_MISMATCH"
    (base DenialNSEC3OptOut) (Some FakeZONEMD);
  example "zonemd-good.example." "small signed zone with a matching SIMPLE SHA-384 ZONEMD" ExpectValid ""
    (λ o, with_extras (mkGen o 0 0 DenialNSEC 42) false false true false) None;
  example "wildcard.example." "valid zone with a wildcard and a DNAME empty-nonterminal" ExpectValid ""
    (λ o, with_extras (baseOpts o DenialNSEC) true true false false) None].

Definition ExamplePack : list ExampleSpec :=
  rrsig_examples ++ key_examples ++ nsec3_examples ++ nsec_examples ++ digest_examples.

(** [GenerateExample]; [now] is the time of the run. *)
Definition GenerateExample (now : Time) (spec : ExampleSpec) : outcome Generated :=
  '(g, i) ← wrap_outcome (λ err, es_Origin spec +:+ ": generate: " +:+ err) (Generate (es_Options spec));
  match es_Mutate spec with
  | None => Done g
  | Some m =>
      let '(g, o) := mutate m now i g in
      _ ← wrap_outcome (λ err, es_Origin spec +:+ ": mutate: " +:+ err) o;
      Done g
  end.

(** ** The files of the pack *)

Definition conf_head : string :=
  "// Generated by go run ./cmd/zonegen -examples <dir>" +:+ String "010" ("// Static pre-signed zones. Do not attach a dnssec-policy." +:+ String "010" (String "010" "")).

Definition conf_entry (spec : ExampleSpec) : string :=
  "zone " +:+ fmt_q (BINDName spec) +:+ " {" +:+ String "010" ("    type primary;" +:+ String "010" ("    file " +:+
  fmt_q ("/var/lib/bind/" +:+ FileName spec) +:+ ";" +:+ String "010" ("    allow-transfer { key " +:+ fmt_q "xfr-key" +:+ "; any; };" +:+
  String "010" ("};" +:+ String "010" (String "010" ""))))).

Definition pack_file (now : Time) (zonesDir : string) (out : list (string * list string)) (spec : ExampleSpec) :
    outcome (list (string * list string)) :=
  g ← GenerateExample now spec;
  let path := filepath_Join zonesDir (FileName spec) in
  lines ← of_result (wrap_err (λ err, "write " +:+ path +:+ ": " +:+ err) (WriteZoneFile (ge_Store g)));
  Done (out ++ [(path, lines)]).

(** [WriteExamplePack] where no system call fails: the paths and contents
    of the files, the configuration last. *)
Definition WriteExamplePack (now : Time) (zonesDir : string) : outcome (list (string * list string)) :=
  out ← foldM_outcome (pack_file now zonesDir) [] ExamplePack;
  Done (out ++ [(filepath_Join (filepath_Dir zonesDir) "static-zones.conf",
                 [foldl (λ conf spec, conf +:+ conf_entry spec) conf_head ExamplePack])]).

(** ** The demo primary *)

Definition pack_extras : list ExampleSpec := [
  mkExample "example.com." "" "" "" (mkGen "example.com." 4 50 DenialNSEC3OptOut 1) None;
  mkExample "nsec.example." "" "" "" (mkGen "nsec.example." 4 50 DenialNSEC 2) None;
  mkExample "unsigned.example." "" "" "" (mkGen "unsigned.example." 0 0 DenialNone 3) None;
  mkExample "broken.example." "" "" "" (mkGen "broken.example." 4 50 DenialNSEC3OptOut 4) (Some FlipRRSIG);
  mkExample "member.example." "" "" "" (mkGen "member.example." 4 50 DenialNSEC3OptOut 5) None].

(** [strings.ReplaceAll] of a byte. *)
Definition ReplaceAll_byte (s : string) (c d : ascii) : string := str_map (λ x, if bool_decide (x = c) then d else x) s.

Definition catalog_label (m : string) : string := ReplaceAll_byte (TrimSuffix m ".") "." "-".

Definition catalog_records (members : list string) : list RR :=
  let origin := "catalog.example." in
  let h name t := mkHdr name t ClassINET 3600 in
  [mkRR (h origin TypeSOA) (RD_SOA (mkSOA ("ns." +:+ origin) ("hostmaster." +:+ origin) 1 3600 600 86400 60));
   mkRR (h origin TypeNS) (RD_NS "invalid.");
   mkRR (h ("version." +:+ origin) TypeTXT) (RD_TXT ["2"])] ++
  ((λ m, mkRR (h (catalog_label m +:+ ".zones." +:+ origin) TypePTR) (RD_PTR m)) <$> members).

(** [loadCatalog]: the store it loads. *)
Definition loadCatalog (s : Server) (members : list string) : result Server :=
  st ← add_all (NewStore "catalog.example.") (catalog_records members); Ok (LoadZone s st).

Definition with_origin (o : Options) (origin : string) : Options :=
  mkOptions origin (g_Serial o) (g_Delegations o) (g_SecurePct o) (g_Denial o) (g_Algorithm o) (g_NSEC3Iters o) (g_NSEC3Salt o)
    (g_TTL o) (g_Inception o) (g_Expiration o) (g_Seed o) (g_AddWildcard o) (g_AddDNAME o) (g_ZONEMD o) (g_DualAlg o) (g_ExtraUnused o).

Definition load_example (now : Time) (s : Server) (spec : ExampleSpec) : outcome Server :=
  let spec := if bool_decide (g_Origin (es_Options spec) = "")
    then mkExample (es_Origin spec) (es_Summary spec) (es_Expect spec) (es_Want spec) (with_origin (es_Options spec) (es_Origin spec)) (es_Mutate spec)
    else spec in
  g ← GenerateExample now spec; Done (LoadZone s (ge_Store g)).

Definition loadExamplePack (now : Time) (s : Server) : outcome Server :=
  let specs := pack_extras ++ ExamplePack in
  s ← foldM_outcome (load_example now) s specs;
  of_result (loadCatalog s (es_Origin <$> specs)).

(** [applyMutate] of cmd/zonegen; the keys of the error are in map order. *)
Definition applyMutate (name : string) : Mutator := λ now i g,
  if bool_decide (name = "flip") then FlipRRSIG now i g
  else
    match (Catalogue : gmap string Mutator) !! name with
    | Some m => m now i g
    | None =>
        match (Catalogue : gmap string Mutator) !! ToUpper name with
        | Some m => m now i g
        | None => lift (Failed ("unknown mutate " +:+ fmt_q name +:+ " (want one of " +:+ Join (range (Catalogue : gmap string Mutator)).*1 ", " +:+ ")"))
        end
    end.
End examples.
