(* ===== verification/Simulated.v ===== *)
(** * The auditor on the example pack

    A second instance of the DNS library and an instance of [Crypto], with
    signatures that depend on everything a real one covers: a checksum of
    the key, the fields of the RRSIG and the set of records. On it the
    generator, the mutators and the auditor run: five zones of the pack, of
    every kind but digests, are judged as the pack says they are. *)

From S2P Require Import Prelude GoStrings DnsLib BTree DnsName Base32 Bytes Node Store Config Findings Nsec Verify Full Toy Zonegen Mutate Examples.

(** ** Checksums *)

Fixpoint poly (s : string) (acc : Z) : Z :=
  match s with "" => acc | String c s => poly s ((acc * 257 + Z_of_byte c + 1) mod 65521) end.

(** 16 bits of a text, and 20 bytes that depend on them. *)
Definition digest16 (s : string) : Z := poly s 1.
Definition digest20 (s : string) : bytes := be 20 (digest16 s * 22300745198530623141535718272648361505980417).

Fixpoint dedup (l : list string) : list string :=
  match l with
  | x :: ((y :: _) as l') => if bool_decide (x = y) then dedup l' else x :: dedup l'
  | _ => l
  end.

(** What a signature covers: the key, the RRSIG but for the signature, and
    the records in order of their wire form, with the original TTL. *)
Definition covered (pub : string) (s : RRSIG_rdata) (rrs : list RR) : string :=
  let wire rr := toy_wire (mkRR (mkHdr (rr_Name rr) (rr_Type rr) (rr_Class rr) (sig_OrigTtl s)) (rr_Data rr)) in
  esc_all ([pub; zs (sig_TypeCovered s); zs (sig_Algorithm s); zs (sig_Labels s); zs (sig_OrigTtl s); zs (sig_Expiration s);
            zs (sig_Inception s); zs (sig_KeyTag s); sig_SignerName s] ++ dedup (sort_str (wire <$> rrs))).

Definition signature (pub : string) (s : RRSIG_rdata) (rrs : list RR) : string :=
  hex_EncodeToString (be 2 (digest16 (covered pub s rrs))).

(** ** The library *)

Definition sim_types : list (Z * string) := toy_types ++ [(TypePTR, "PTR"); (TypeDNAME, "DNAME")].
Definition sim_algs : list (Z * string) :=
  [(RSASHA1, "RSASHA1"); (RSASHA1NSEC3SHA1, "RSASHA1-NSEC3-SHA1"); (RSASHA256, "RSASHA256");
   (ECDSAP256SHA256, "ECDSAP256SHA256"); (ED25519, "ED25519")].

Definition sim_KeyTag (k : DNSKEY_rdata) : Z :=
  digest16 (key_PublicKey k +:+ zs (key_Flags k) +:+ zs (key_Algorithm k)).

Definition sim_Verify (rr : RR) (k : DNSKEY_RR) (rrs : list RR) : bool :=
  match as_RRSIG rr with
  | Some s =>
      bool_decide (sig_KeyTag s = sim_KeyTag k.2) && bool_decide (sig_Algorithm s = key_Algorithm k.2)
        && bool_decide (sig_SignerName s = h_Name k.1) && bool_decide (sig_Signature s = signature (key_PublicKey k.2) s rrs)
  | None => false
  end.

Definition sim_dns : DnsLib := {|
  IsFqdn := toy_IsFqdn;
  Fqdn := toy_Fqdn;
  SplitDomainName := toy_Split;
  CountLabel := λ s, Z.of_nat (length (toy_Split s));
  dns_Len := toy_Len;
  dns_PackRR := toy_Pack;
  dns_UnpackRR := toy_Unpack;
  RR_String := toy_wire;
  TypeToString := assoc sim_types;
  AlgorithmToString := assoc sim_algs;
  dns_HashName := λ name hash iter salt, ToUpper (Base32Hex (digest20 (name +:+ zs iter +:+ salt)));
  Verify := sim_Verify;
  KeyTag := sim_KeyTag;
  ToDS := λ k h, Some (mkDS (sim_KeyTag k.2) (key_Algorithm k.2) h (hex_EncodeToString (digest20 (key_PublicKey k.2))))
|}.

(** ** Keys *)

(** The text of the [i]th key: base64 of the length of its algorithm. *)
Definition sim_public (i : nat) (alg : Z) : string :=
  let c := String (default "z"%char (String.get i "BCDEFGHIJKLMNOPQRSTUVWXYZbcdefghijklmnopqrstuvwxyz")) "" in
  if bool_decide (alg = ECDSAP256SHA256) then Repeat c 85 +:+ "A=="
  else if bool_decide (alg = ECDSAP384SHA384) then Repeat c 128
  else if bool_decide (alg = ED25519) then Repeat c 42 +:+ "A="
  else "AwEAAa" +:+ Repeat c 338.

Definition sim_Sign (s : RRSIG_RR) (priv : string) (rrs : list RR) : result RRSIG_RR :=
  match rrs with
  | [] => Err "dns: bad rrset"
  | rr :: _ =>
      let d := mkRRSIG (rr_Type rr) (sig_Algorithm s.2)
        (u8 (@CountLabel sim_dns (rr_Name rr) - if HasPrefix (rr_Name rr) "*" then 1 else 0))
        (if bool_decide (sig_OrigTtl s.2 = 0%Z) then rr_Ttl rr else sig_OrigTtl s.2) (sig_Expiration s.2) (sig_Inception s.2)
        (sig_KeyTag s.2) (sig_SignerName s.2) "" in
      Ok (mkHdr (rr_Name rr) TypeRRSIG (rr_Class rr) (h_Ttl s.1),
          mkRRSIG (sig_TypeCovered d) (sig_Algorithm d) (sig_Labels d) (sig_OrigTtl d) (sig_Expiration d) (sig_Inception d)
            (sig_KeyTag d) (sig_SignerName d) (signature priv d rrs))
  end.

Definition sim_crypto : Crypto := {|
  Signer := string;
  dns_Generate := λ i k bits, let pub := sim_public i (key_Algorithm k) in Ok (pub, Some pub);
  dns_Sign := sim_Sign;
  rand_Intn := λ seed i n, ((seed * 7919 + Z.of_nat i * 53 + 17) mod n)%Z
|}.

(** ** The pack *)

Definition sim_now : Time := timeUnix 1700000000.
Definition sim_verifier : Verifier := mkVerifier (c_Verification Defaults) sim_now sim_now 1.

(** What the auditor says of an example, with one worker: the verdict, and
    the findings by code. *)
Definition audit (spec : ExampleSpec (CR := sim_crypto)) : option (bool * bool * list string) :=
  match GenerateExample (DL := sim_dns) (CR := sim_crypto) sim_now spec with
  | Done g =>
      let st := ge_Store (CR := sim_crypto) g in
      r ← Full (DL := sim_dns) sim_verifier (replicate (S (NodeCount st)) 0) st;
      Some (r_Valid r, r_Unsigned r, f_Code <$> FSet_List (r_Findings r))
  | _ => None
  end.

(** ** The auditor agrees with the pack *)

(** What an example promises: a valid zone has no findings, a warning is
    valid and shows the finding it is for, an invalid one is not and does. *)
Definition as_expected (spec : ExampleSpec (CR := sim_crypto)) : bool :=
  match audit spec with
  | None => false
  | Some (valid, unsigned, codes) =>
      let wanted := existsb (λ c, bool_decide (c = es_Want spec)) codes in
      if bool_decide (es_Expect spec = ExpectInvalid) then negb valid && wanted
      else if bool_decide (es_Expect spec = ExpectWarning) then valid && wanted
      else valid && negb unsigned && bool_decide (codes = [])
  end.

(** The examples run here: valid, invalid and with a warning, NSEC and
    NSEC3. The others, those with a digest most, take longer. *)
Definition run_here : list string :=
  ["rrsig-unknown.example."; "rrsig-expiring.example."; "nsec3-bitmap.example."; "nsec3-strict.example."; "nsec-chain.example."].
Definition chosen : list (ExampleSpec (CR := sim_crypto)) :=
  List.filter (λ s, bool_decide (es_Origin s ∈ run_here)) (ExamplePack (DL := sim_dns) (CR := sim_crypto)).

(** On these the verdict and the finding are the ones the pack announces. *)
Theorem pack_as_expected : length chosen = 5 ∧ forallb as_expected chosen = true.
Proof. vm_compute. split; reflexivity. Qed.
