(* ===== verification/Signed.v ===== *)
(** * What signZone signs verifies (internal/zonegen/sign.go)

    [signZone] leaves out the NS records of delegations and glue, and signs
    every other RRset once. Main result: in the zone it returns every RRset
    of every name the auditor takes for authoritative passes verification.
    The auditor climbs the tree of names and reads flags of nodes, the
    generator looks for NS records in its own table; the theorem shows that
    they agree. What is assumed of the library is [CryptoLaws]: a signature
    made with a generated key verifies with it. *)

From S2P Require Import Prelude GoStrings Decimal DnsLib BTree DnsName Base32 Node Store StoreSpec Snapshot TestPrimary Loaded Config Findings Keys Verify Zonegen Toy.

(** ** What is assumed of the library *)

Section laws.
Context `{DL : !DnsLib, CR : !Crypto}.

(** A generated key and its private key. *)
Definition key_pair (key : DNSKEY_RR) (priv : Signer) : Prop :=
  ∃ i k bits pub, dns_Generate i k bits = Ok (pub, Some priv) ∧ key.2 = with_PublicKey k pub.

(** A key the library signs zones with. *)
Record signing_key (key : DNSKEY_RR) (priv : Signer) : Prop := {
  sk_pair : key_pair key priv;
  sk_protocol : key_Protocol key.2 = 3%Z;
  sk_zone : Z.testbit (key_Flags key.2) 8 = true;
  sk_class : h_Class key.1 = ClassINET;
  sk_name : IsFqdn (h_Name key.1) = true
}.

(** An RRset. *)
Definition proper_rrset (rrs : list RR) (k : string) (t : Z) : Prop :=
  rrs ≠ [] ∧ ∀ rr, rr ∈ rrs → rr_Name rr = k ∧ rr_Type rr = t ∧ rr_Class rr = ClassINET.

(** The same records, in whatever order and number, by their encoding. *)
Definition same_wire (l l' : list RR) : Prop :=
  ∀ w, (∃ x, x ∈ l ∧ PackRR x = Ok w) ↔ (∃ x, x ∈ l' ∧ PackRR x = Ok w).

(** A generated key can be parsed. Signing fills in the fields that follow
    from the RRset, and the result verifies for the same records with the key
    whose private key signed, if they are in the zone of that key. *)
Class CryptoLaws : Prop := {
  Generate_parses : ∀ i k bits pub priv, dns_Generate i k bits = Ok (pub, priv) → is_ok (parsePublicKey (with_PublicKey k pub)) = true;
  Sign_header : ∀ s priv rr rrs s', dns_Sign s priv (rr :: rrs) = Ok s' →
    s'.1 = mkHdr (rr_Name rr) TypeRRSIG (rr_Class rr) (h_Ttl s.1);
  Sign_fields : ∀ s priv rr rrs s', dns_Sign s priv (rr :: rrs) = Ok s' →
    sig_TypeCovered s'.2 = rr_Type rr ∧ sig_Algorithm s'.2 = sig_Algorithm s.2 ∧
    sig_Labels s'.2 = u8 (CountLabel (rr_Name rr) - if HasPrefix (rr_Name rr) "*" then 1 else 0) ∧
    sig_Expiration s'.2 = sig_Expiration s.2 ∧ sig_Inception s'.2 = sig_Inception s.2 ∧
    sig_KeyTag s'.2 = sig_KeyTag s.2 ∧ sig_SignerName s'.2 = sig_SignerName s.2;
  Sign_Verify : ∀ s priv key rrs rrs' k t s' ttl,
    signing_key key priv → sig_KeyTag s.2 = KeyTag key.2 → sig_Algorithm s.2 = key_Algorithm key.2 →
    sig_SignerName s.2 = h_Name key.1 → HasSuffix k (h_Name key.1) = true → proper_rrset rrs k t → same_wire rrs rrs' →
    dns_Sign s priv rrs = Ok s' → Verify (mkRR (mkHdr k TypeRRSIG ClassINET ttl) (RD_RRSIG s'.2)) key rrs' = true
}.
End laws.

(** ** The groups *)

Section groups.
Context `{DL : !DnsLib}.

Definition in_group (key : string) (rr : RR) : bool :=
  negb (bool_decide (rr_Type rr = TypeRRSIG)) && bool_decide (group_key (rr_Name rr) (rr_Type rr) = key).

(** The group of a key: its records in order, if there are any. *)
Lemma groups_lookup rrs key :
  groups_of rrs !! key = let g := List.filter (in_group key) rrs in if bool_decide (g = []) then None else Some g.
Proof.
  unfold groups_of. induction rrs as [|rr rrs IH] using rev_ind; [done|]. rewrite foldl_app. cbn [foldl]. revert IH.
  generalize (foldl (λ (m : gmap string (list RR)) rr, if bool_decide (rr_Type rr = TypeRRSIG) then m
      else let k := group_key (rr_Name rr) (rr_Type rr) in <[k := default [] (m !! k) ++ [rr]]> m) ∅ rrs).
  intros m IH. rewrite List.filter_app. cbn [List.filter]. cbv zeta in IH |- *.
  destruct (bool_decide (rr_Type rr = TypeRRSIG)) eqn:Ht.
  { assert (in_group key rr = false) as -> by (unfold in_group; by rewrite Ht). by rewrite app_nil_r. }
  destruct (decide (group_key (rr_Name rr) (rr_Type rr) = key)) as [Hk|Hk].
  - assert (in_group key rr = true) as -> by (unfold in_group; rewrite Ht; by rewrite (bool_decide_true _ Hk)).
    rewrite Hk, lookup_insert_eq, IH. rewrite (bool_decide_false (_ ++ [rr] = [])) by (by destruct (List.filter _ _)).
    clear Ht. case_bool_decide as E; cbn; [by rewrite E|done].
  - assert (in_group key rr = false) as -> by (unfold in_group; rewrite Ht; by rewrite (bool_decide_false _ Hk)).
    rewrite lookup_insert_ne, app_nil_r by done. exact IH.
Qed.

Lemma group_key_inj n t n' t' :
  (0 ≤ t)%Z → (0 ≤ t')%Z → group_key n t = group_key n' t' → Canonical n = Canonical n' ∧ t = t'.
Proof.
  intros Ht Ht' H. unfold group_key in H.
  apply (last_sep_inj "|"%char) in H as [? ?%fmt_d_inj]; [done|by apply fmt_d_no_byte..].
Qed.

Lemma elem_of_in_group rrs n t rr :
  canonical n → (0 ≤ t)%Z → t ≠ TypeRRSIG →
  (∀ r, r ∈ rrs → canonical (rr_Name r) ∧ (0 ≤ rr_Type r)%Z) →
  rr ∈ List.filter (in_group (group_key n t)) rrs ↔ at_rrset rrs n t rr.
Proof.
  intros Hn Ht Hsig Hrrs. rewrite elem_of_filter_b. unfold in_group, at_rrset.
  rewrite andb_true_iff, negb_true_iff, bool_decide_eq_false, bool_decide_eq_true. split.
  - intros (Hin & _ & Hk). destruct (Hrrs rr Hin) as [Hc Hp].
    apply group_key_inj in Hk as [Hk ->]; [|done..]. rewrite Hc, Hn in Hk. done.
  - intros (Hin & <- & <-). done.
Qed.

(** A group as the loop meets it. *)
Lemma group_shape rrs g :
  (∃ key, groups_of rrs !! key = Some g) →
  ∃ rr rest, g = rr :: rest ∧ rr ∈ rrs ∧ rr_Type rr ≠ TypeRRSIG ∧
    g = List.filter (in_group (group_key (rr_Name rr) (rr_Type rr))) rrs.
Proof.
  intros [key H]. rewrite groups_lookup in H. cbv zeta in H.
  case_bool_decide as Hne; [done|]. injection H as H. destruct g as [|rr rest]; [done|].
  assert (rr ∈ List.filter (in_group key) rrs) as Hin by (rewrite H; by left).
  apply elem_of_filter_b in Hin as [Hin [Ht Hk]%andb_true_iff].
  apply negb_true_iff, bool_decide_eq_false in Ht. apply bool_decide_eq_true in Hk.
  exists rr, rest. by rewrite Hk.
Qed.

(** Every record other than an RRSIG is in a group. *)
Lemma group_of_record rrs rr :
  rr ∈ rrs → rr_Type rr ≠ TypeRRSIG →
  groups_of rrs !! group_key (rr_Name rr) (rr_Type rr)
    = Some (List.filter (in_group (group_key (rr_Name rr) (rr_Type rr))) rrs).
Proof.
  intros Hin Ht. rewrite groups_lookup. cbv zeta. rewrite bool_decide_false; [done|]. intros E.
  apply (not_elem_of_nil (A := RR) rr). rewrite <-E. apply elem_of_filter_b. split; [done|]. unfold in_group.
  by rewrite bool_decide_false, bool_decide_true.
Qed.
End groups.

(** ** The loop over the groups *)

Section signing.
Context `{DL : !DnsLib, MR : !MapRange, CR : !Crypto}.
Variables (opt : Options) (rrs : list RR) (ksk zsk : DNSKEY_RR) (kpriv zpriv : Signer).

(** The groups the loop passes over, and the key for another. *)
Definition passed_over (h : RR_Header) : bool :=
  negb (bool_decide (h_Name h = g_Origin opt)) && bool_decide (h_Rrtype h = TypeNS)
    || isGlue (g_Origin opt) (groups_of rrs) (h_Name h) (h_Rrtype h).
Definition signer_for (h : RR_Header) : Signer * DNSKEY_RR :=
  if bool_decide (h_Rrtype h = TypeDNSKEY) && bool_decide (Canonical (h_Name h) = g_Origin opt) then (kpriv, ksk) else (zpriv, zsk).

(** [s] is what a round makes of the group. *)
Definition signed (group : list RR) (s : RRSIG_RR) : Prop :=
  ∃ rr rest, group = rr :: rest ∧ passed_over (rr_Hdr rr) = false ∧
    dns_Sign (draft_sig (rr_Hdr rr) (signer_for (rr_Hdr rr)).2 (g_Inception opt) (g_Expiration opt))
      (signer_for (rr_Hdr rr)).1 group = Ok s.

Lemma sign_group_spec out group out' :
  sign_group opt (groups_of rrs) ksk zsk kpriv zpriv out group = Done out' →
  ∃ sigs, out' = out ++ (sig_rr <$> sigs) ∧ (∀ s, s ∈ sigs → signed group s) ∧
    (∀ rr rest, group = rr :: rest → passed_over (rr_Hdr rr) = false → sigs ≠ []).
Proof.
  intros H.
  assert (out' = out → (∀ rr rest, group = rr :: rest → passed_over (rr_Hdr rr) = true) →
    ∃ sigs, out' = out ++ (sig_rr <$> sigs) ∧ (∀ s, s ∈ sigs → signed group s) ∧
      (∀ rr rest, group = rr :: rest → passed_over (rr_Hdr rr) = false → sigs ≠ [])) as Hskip.
  { intros -> Hp. exists []. split_and!; [by rewrite app_nil_r|by intros s ?%elem_of_nil|].
    intros rr rest Hg Hf. by rewrite (Hp rr rest Hg) in Hf. }
  destruct group as [|rr rest]; cbn [sign_group] in H; [injection H as <-; by apply Hskip|]. cbv zeta in H.
  destruct (passed_over (rr_Hdr rr)) eqn:Hp.
  - apply Hskip; [|by intros ? ? [= -> ->]]. unfold passed_over in Hp.
    destruct (negb _ && bool_decide (h_Rrtype (rr_Hdr rr) = TypeNS)); [by injection H|].
    cbn [orb] in Hp. rewrite Hp in H. by injection H.
  - pose proof Hp as Hp'. apply orb_false_iff in Hp' as [Hns Hgl]. rewrite Hns, Hgl in H. fold (signer_for (rr_Hdr rr)) in H.
    destruct (signer_for (rr_Hdr rr)) as [signer key] eqn:Hk.
    destruct (dns_Sign _ signer (rr :: rest)) as [s|err] eqn:Hs; [|done]. injection H as <-.
    exists [s]. split_and!; [done| |done]. intros ? ->%list_elem_of_singleton. exists rr, rest. by rewrite Hk.
Qed.

Lemma sign_loop_spec gs out out' :
  foldM_outcome (sign_group opt (groups_of rrs) ksk zsk kpriv zpriv) out gs = Done out' →
  ∃ sigs, out' = out ++ (sig_rr <$> sigs) ∧ (∀ s, s ∈ sigs → ∃ g, g ∈ gs ∧ signed g s) ∧
    (∀ rr rest, rr :: rest ∈ gs → passed_over (rr_Hdr rr) = false → ∃ s, s ∈ sigs ∧ signed (rr :: rest) s).
Proof.
  revert out. induction gs as [|g gs IH]; intros out H; cbn [foldM_outcome] in H.
  { injection H as <-. exists []. split_and!; [by rewrite app_nil_r|by intros ? ?%elem_of_nil|by intros ? ? ?%elem_of_nil]. }
  destruct (sign_group _ _ _ _ _ _ out g) as [out1| |] eqn:E; cbn in H; try done.
  destruct (sign_group_spec _ _ _ E) as (s1 & -> & Hs1 & Hne). destruct (IH _ H) as (s2 & -> & Hs2 & Hall).
  exists (s1 ++ s2). split_and!.
  - by rewrite fmap_app, app_assoc.
  - intros s [Hs|Hs]%elem_of_app; [exists g; split; [by left|by apply Hs1]|].
    destruct (Hs2 s Hs) as (g' & ? & ?). exists g'. split; [by right|done].
  - intros rr rest [Hg|Hg]%elem_of_cons Hp.
    + specialize (Hne rr rest (eq_sym Hg) Hp). destruct s1 as [|s s1]; [done|]. exists s. split; [by left|].
      rewrite Hg. apply Hs1. by left.
    + destruct (Hall rr rest Hg Hp) as (s & ? & ?). exists s. split; [|done]. apply elem_of_app. by right.
Qed.

(** The result of [signZone]: the records, then the signatures of the
    groups that are not passed over. *)
Lemma signZone_spec out :
  signZone opt rrs ksk zsk kpriv zpriv = Done out →
  ∃ sigs, out = rrs ++ (sig_rr <$> sigs) ∧
    (∀ s, s ∈ sigs → ∃ g key, groups_of rrs !! key = Some g ∧ signed g s) ∧
    (∀ key rr rest, groups_of rrs !! key = Some (rr :: rest) → passed_over (rr_Hdr rr) = false →
       ∃ s, s ∈ sigs ∧ signed (rr :: rest) s).
Proof.
  intros H. destruct (sign_loop_spec _ _ _ H) as (sigs & -> & Hs & Hall). exists sigs. split_and!; [done| |].
  - intros s Hin. destruct (Hs s Hin) as (g & [key Hg]%elem_of_range_snd & ?). by exists g, key.
  - intros key rr rest Hg Hp. apply (Hall rr rest); [|done]. apply elem_of_range_snd. by exists key.
Qed.
End signing.

(** ** In the loaded zone *)

Section zone.
Context `{DL : !DnsLib, BT : !BTree, MR : !MapRange, CR : !Crypto, NL : !DnsNameLaws, WL : !DnsWireLaws, CL : !CryptoLaws}.
Implicit Types st : Store.

(** The label count of a name as the library signs it is the one the
    auditor wants. *)
Definition labels_ok (name : string) : Prop :=
  (0 < CountLabel name < 256)%Z ∧ HasPrefix name "*" = isWildcardOwner name ∨ (CountLabel name = 0%Z ∧ HasPrefix name "*" = false).

(** The records [signZone] is called with. *)
Record signable (origin : string) (rrs : list RR) : Prop := {
  sn_name : ∀ rr, rr ∈ rrs → canonical (rr_Name rr) ∧ labels_ok (rr_Name rr);
  sn_zone : ∀ rr, rr ∈ rrs → HasSuffix (rr_Name rr) origin = true;
  sn_class : ∀ rr, rr ∈ rrs → rr_Class rr = ClassINET;
  sn_type : ∀ rr, rr ∈ rrs → (0 ≤ rr_Type rr)%Z ∧ rr_Type rr ≠ TypeRRSIG;
  sn_ttl : ∀ k t, same_ttl rrs k t;
  sn_hdr : ∀ rr, rr ∈ rrs → rr_Hdr (wire_norm rr) = rr_Hdr rr
}.

(** A key among those of a pass. *)
Definition cached_among (keys : list CachedKey) (key : DNSKEY_RR) : Prop :=
  ∃ c, c ∈ keys ∧ ck_RR c = key ∧ ck_KeyTag c = KeyTag key.2 ∧ ck_Alg c = key_Algorithm key.2 ∧ ck_IsZone c = true.

Lemma wantLabels_ok name : labels_ok name →
  u8 (CountLabel name - if HasPrefix name "*" then 1 else 0) = wantLabels name.
Proof.
  unfold wantLabels. cbv zeta. intros [[Hl ->]|[-> ->]].
  - assert ((0 <? CountLabel name)%Z = true) as -> by lia. rewrite andb_true_r.
    unfold u8. destruct (isWildcardOwner name); rewrite wrapN_small; lia.
  - by rewrite andb_false_r.
Qed.

(** Glue is below a delegation. *)
Lemma glue_loop_cut fuel origin rrs st p :
  (∀ q, is_Some (groups_of rrs !! (q +:+ "|" +:+ fmt_d TypeNS)) → q ≠ origin → canonical q → is_cut st q) →
  canonical p → st_origin st = origin → glue_loop fuel origin (groups_of rrs) p = true →
  ∃ i, is_cut st (iter_n Parent i p) ∧ ∀ j, j ≤ i → iter_n Parent j p ≠ origin ∧ iter_n Parent j p ≠ ".".
Proof.
  intros Hns Hp Ho. revert p Hp. induction fuel as [|fuel IH]; intros p Hp H; cbn [glue_loop] in H; [done|].
  destruct (decide (p = origin)) as [|Hpo]; [by rewrite bool_decide_true in H|].
  destruct (decide (p = ".")) as [|Hpr]; [by rewrite (bool_decide_true (p = ".")), andb_false_r in H|].
  rewrite !bool_decide_false in H by done. cbn [negb andb] in H.
  assert (∀ j, j ≤ 0 → iter_n Parent j p ≠ origin ∧ iter_n Parent j p ≠ ".") as H0 by (intros j Hj; by replace j with 0 by lia).
  destruct (decide (is_Some (groups_of rrs !! (p +:+ "|" +:+ fmt_d TypeNS)))) as [Hs|Hs].
  { exists 0. split; [by apply Hns|done]. }
  rewrite bool_decide_false in H by done. case_bool_decide; [done|].
  destruct (IH (Parent p)) as (i & Hcut & Hno); [apply canonical_Parent|done|].
  exists (S i). split; [done|]. intros [|j] Hj; [by apply H0|]. apply (Hno j). lia.
Qed.

(** A zone that was signed and loaded. *)
Record signed_zone (opt : Options) (rrs out : list RR) (ksk zsk : DNSKEY_RR) (kpriv zpriv : Signer) (st : Store) : Prop := {
  sz_sign : signZone opt rrs ksk zsk kpriv zpriv = Done out;
  sz_load : FromAXFR (g_Origin opt) out = Ok st;
  sz_origin : canonical (g_Origin opt);
  sz_rrs : signable (g_Origin opt) rrs;
  sz_exact : ∀ rr, rr ∈ out → rr_Type rr = TypeRRSIG → wire_exact rr;
  sz_ksk : signing_key ksk kpriv;
  sz_zsk : signing_key zsk zpriv;
  sz_names : h_Name ksk.1 = g_Origin opt ∧ h_Name zsk.1 = g_Origin opt
}.
#[global] Arguments sz_sign {_ _ _ _ _ _ _ _}.
#[global] Arguments sz_load {_ _ _ _ _ _ _ _}.
#[global] Arguments sz_origin {_ _ _ _ _ _ _ _}.
#[global] Arguments sz_rrs {_ _ _ _ _ _ _ _}.
#[global] Arguments sz_exact {_ _ _ _ _ _ _ _}.
#[global] Arguments sz_ksk {_ _ _ _ _ _ _ _}.
#[global] Arguments sz_zsk {_ _ _ _ _ _ _ _}.
#[global] Arguments sz_names {_ _ _ _ _ _ _ _}.

Variables (opt : Options) (rrs out : list RR) (ksk zsk : DNSKEY_RR) (kpriv zpriv : Signer) (st : Store).
Hypothesis Hz : signed_zone opt rrs out ksk zsk kpriv zpriv st.

Lemma signed_header rr rest s :
  signed opt rrs ksk zsk kpriv zpriv (rr :: rest) s →
  s.1 = mkHdr (rr_Name rr) TypeRRSIG (rr_Class rr) (rr_Ttl rr) ∧ sig_TypeCovered s.2 = rr_Type rr.
Proof.
  intros (r & l & [= <- <-] & _ & Hd). split; [by rewrite (Sign_header _ _ _ _ _ Hd)|].
  by destruct (Sign_fields _ _ _ _ _ Hd) as (-> & _).
Qed.

(** A signature is of a group of records of one name and type. *)
Lemma signed_group key g s :
  groups_of rrs !! key = Some g → signed opt rrs ksk zsk kpriv zpriv g s →
  ∃ rr, rr ∈ rrs ∧ passed_over opt rrs (rr_Hdr rr) = false ∧
    g = List.filter (in_group (group_key (rr_Name rr) (rr_Type rr))) rrs ∧
    s.1 = mkHdr (rr_Name rr) TypeRRSIG ClassINET (rr_Ttl rr) ∧ sig_TypeCovered s.2 = rr_Type rr ∧
    signed opt rrs ksk zsk kpriv zpriv g s.
Proof.
  intros Hg Hs. destruct (group_shape rrs g) as (rr & rest & -> & Hin & Ht & Hf); [by exists key|].
  pose proof Hs as (rr' & rest' & [= <- <-] & Hp & _). destruct (signed_header _ _ _ Hs) as [Hh Hc].
  exists rr. rewrite (sn_class _ _ (sz_rrs Hz) rr Hin) in Hh. done.
Qed.

Lemma out_cases rr : rr ∈ out → rr ∈ rrs ∨
  rr_Type rr = TypeRRSIG ∧ ∃ s key g, rr = sig_rr s ∧ groups_of rrs !! key = Some g ∧ signed opt rrs ksk zsk kpriv zpriv g s.
Proof.
  destruct (signZone_spec _ _ _ _ _ _ _ (sz_sign Hz)) as (sigs & Hout & Hs & _). rewrite Hout.
  intros [Hin|(s & -> & Hin)%list_elem_of_fmap]%elem_of_app; [by left|right].
  destruct (Hs s Hin) as (g & key & Hg & Hsg). destruct (signed_group key g s Hg Hsg) as (r & _ & _ & _ & Hh & _).
  split; [unfold rr_Type; cbn; by rewrite Hh|]. by exists s, key, g.
Qed.

Lemma out_at k t rr : t ≠ TypeRRSIG → at_rrset out k t rr ↔ at_rrset rrs k t rr.
Proof.
  intros Ht. split; intros (Hin & Hk & Hty); (split; [|done]).
  - destruct (out_cases rr Hin) as [|[Hr _]]; [done|]. by rewrite Hty in Hr.
  - destruct (signZone_spec _ _ _ _ _ _ _ (sz_sign Hz)) as (sigs & Hout & _). rewrite Hout. apply elem_of_app. by left.
Qed.

Lemma out_hdr rr : rr ∈ out → canonical (rr_Name rr) ∧ rr_Class rr = ClassINET ∧ rr_Hdr (wire_norm rr) = rr_Hdr rr.
Proof.
  intros Hin. destruct (out_cases rr Hin) as [Hr|(Ht & s & key & g & E & Hg & Hs)].
  - split_and!; [by apply (sn_name _ _ (sz_rrs Hz))|by apply (sn_class _ _ (sz_rrs Hz))|by apply (sn_hdr _ _ (sz_rrs Hz))].
  - destruct (signed_group key g s Hg Hs) as (r & Hr & _ & _ & Hh & _). assert (rr_Hdr rr = s.1) as Hhd by by rewrite E.
    unfold rr_Name, rr_Class. rewrite ((sz_exact Hz) rr Hin Ht), Hhd, Hh. split_and!; [by apply (sn_name _ _ (sz_rrs Hz))|done..].
Qed.

Lemma out_carried : carried out.
Proof.
  split; intros rr Hin; destruct (out_hdr rr Hin) as (? & Hc & ?); [|done..].
  unfold class_ok. by rewrite Hc, bool_decide_true.
Qed.

Lemma out_ttl k t : t ≠ TypeRRSIG → same_ttl out k t.
Proof. intros Ht rr rr'. rewrite !out_at by done. apply (sn_ttl _ _ (sz_rrs Hz)). Qed.

Lemma st_is_origin : st_origin st = g_Origin opt.
Proof. destruct (loaded_wf _ _ _ (sz_load Hz)) as [_ ->]. exact (sz_origin Hz). Qed.

Lemma group_iff k t rr :
  canonical k → (0 ≤ t)%Z → t ≠ TypeRRSIG → rr ∈ List.filter (in_group (group_key k t)) rrs ↔ at_rrset rrs k t rr.
Proof.
  intros Hk Ht Hs. apply elem_of_in_group; [done..|]. intros r Hr. split; [by apply (sn_name _ _ (sz_rrs Hz))|by apply (sn_type _ _ (sz_rrs Hz))].
Qed.

(** The table of the generator and the tree of the auditor have the same
    delegations. *)
Lemma groups_cut q :
  is_Some (groups_of rrs !! (q +:+ "|" +:+ fmt_d TypeNS)) → q ≠ g_Origin opt → canonical q → is_cut st q.
Proof.
  intros [g Hg] Hne Hq. assert (q +:+ "|" +:+ fmt_d TypeNS = group_key q TypeNS) as E by (unfold group_key; by rewrite Hq).
  rewrite E in Hg. rewrite groups_lookup in Hg. cbv zeta in Hg. case_bool_decide as Hnil; [done|]. clear Hg.
  destruct (List.filter (in_group (group_key q TypeNS)) rrs) as [|rr l] eqn:El; [done|].
  assert (at_rrset rrs q TypeNS rr) as Hat by (apply group_iff; [done..|]; rewrite El; by left).
  apply out_at in Hat; [|done]. assert (is_Some (st_nodes st !! q)) as [n Hn].
  { apply (loaded_node (g_Origin opt) out st (sz_load Hz) out_carried). exists rr. split; apply Hat. }
  exists n. unfold Lookup. rewrite Hq. split; [done|].
  pose proof (loaded_node_wf _ _ _ (sz_load Hz) q n Hn) as Hwf. rewrite (nw_delegation _ _ _ Hwf), st_is_origin, bool_decide_false by done.
  apply (loaded_Has (g_Origin opt) out st (sz_load Hz) out_carried q n TypeNS Hn). by exists rr.
Qed.

(** What the loop passes over the auditor does not ask for. *)
Lemma passed_over_fine rr n :
  rr ∈ rrs → st_nodes st !! rr_Name rr = Some n → isAuthoritative st n = true →
  passed_over opt rrs (rr_Hdr rr) = true → n_IsDelegation n = true ∧ rr_Type rr = TypeNS.
Proof.
  intros Hin Hn Hauth Hp. destruct (sn_name _ _ (sz_rrs Hz) rr Hin) as [Hc _].
  pose proof (loaded_node_wf _ _ _ (sz_load Hz) _ n Hn) as Hwf. pose proof (nw_name _ _ _ Hwf) as Hname.
  apply orb_true_iff in Hp as [[Hne%negb_true_iff%bool_decide_eq_false Hns%bool_decide_eq_true]%andb_true_iff|Hg].
  - split; [|done]. rewrite (nw_delegation _ _ _ Hwf), st_is_origin, bool_decide_false by done.
    apply (loaded_Has (g_Origin opt) out st (sz_load Hz) out_carried _ n TypeNS Hn). exists rr. apply out_at; [done|]. done.
  - exfalso. unfold isGlue in Hg. destruct (negb _ && negb _); [done|]. fold (rr_Name rr) in Hg. rewrite Hc in Hg.
    case_bool_decide as Ho; [done|].
    destruct (glue_loop_cut _ _ _ st _ groups_cut (canonical_Parent _) st_is_origin Hg) as (i & Hcut & Hno).
    assert (isAuthoritative st n = false) as Hf; [|congruence].
    apply isAuthoritative_spec; [by rewrite Hname|]. rewrite Hname, st_is_origin. split; [done|].
    exists i. rewrite st_is_origin. by split.
Qed.

(** The RRSIGs the auditor finds are those of the group. *)
Lemma covering k n t sig :
  st_nodes st !! k = Some n → sig ∈ RRSIGsCovering n t ↔
  ∃ s, sig_rr s ∈ out ∧ rr_Type (sig_rr s) = TypeRRSIG ∧ rr_Name (sig_rr s) = k ∧ sig_TypeCovered s.2 = t ∧ sig = ParseRRSIG s.2.
Proof.
  intros Hn. unfold RRSIGsCovering.
  pose proof (loaded_Set (g_Origin opt) out st (sz_load Hz) out_carried k n TypeRRSIG Hn) as Hset.
  destruct (Node_Set n TypeRRSIG) as [set|] eqn:E.
  2:{ split; [by intros ?%elem_of_nil|]. intros (s & Hin & Ht & Hk & _). destruct Hset as [_ Hset]. destruct Hset; [|done]. by exists (sig_rr s). }
  destruct (loaded_Unpack (g_Origin opt) out st (sz_load Hz) out_carried k n TypeRRSIG set Hn E) as (l & -> & Hl).
  rewrite list_elem_of_omap. split.
  - intros (x & (rr & (Hin & Hk & Ht) & ->)%Hl & Hx). destruct (out_cases rr Hin) as [Hr|(_ & s & key & g & -> & _)].
    { by destruct (sn_type _ _ (sz_rrs Hz) rr Hr). }
    exists s. unfold as_RRSIG, refit in Hx. rewrite ((sz_exact Hz) _ Hin Ht) in Hx. cbn in Hx.
    destruct (bool_decide_reflect (sig_TypeCovered s.2 = t)); [|done]. by injection Hx as <-.
  - intros (s & Hin & Ht & Hk & Hcov & ->). exists (refit k (rs_TTL set) (sig_rr s)). split.
    + apply Hl. by exists (sig_rr s).
    + unfold as_RRSIG, refit. rewrite ((sz_exact Hz) _ Hin Ht). cbn. by rewrite bool_decide_true.
Qed.

Lemma RRSIG_of_parsed name ttl d :
  IsFqdn (sig_SignerName d) = true →
  RRSIGFromCompact name ttl (ParseRRSIG d) = mkRR (mkHdr name TypeRRSIG ClassINET ttl) (RD_RRSIG d).
Proof. intros H. unfold RRSIGFromCompact, ParseRRSIG, mustBase64. cbn. rewrite (Fqdn_id _ H). by destruct d. Qed.

(** A signature of an RRset verifies with the key it was made with for the
    RRset as the auditor reads it. *)
Lemma signed_Verify k n set s rr rest l :
  st_nodes st !! k = Some n → set ∈ n_Sets n → (0 ≤ rs_Type set)%Z → rs_Type set ≠ TypeRRSIG →
  List.filter (in_group (group_key k (rs_Type set))) rrs = rr :: rest →
  signed opt rrs ksk zsk kpriv zpriv (rr :: rest) s → Unpack set (n_Name n) = Ok l →
  let key := (signer_for opt ksk zsk kpriv zpriv (rr_Hdr rr)).2 in
  sig_KeyTag s.2 = KeyTag key.2 ∧ sig_Algorithm s.2 = key_Algorithm key.2 ∧
  Verify (RRSIGFromCompact (n_Name n) (rs_TTL set) (ParseRRSIG s.2)) key l = true.
Proof.
  intros Hn Hset Ht0 Ht Hg (r0 & rest0 & [= <- <-] & _ & Hd) Hl. pose proof (loaded_node_wf _ _ _ (sz_load Hz) k n Hn) as Hwf.
  pose proof (nw_canonical _ _ _ Hwf) as Hc. pose proof (loaded_find _ _ _ (sz_load Hz) k n set Hn Hset) as Hfind.
  set (t := rs_Type set) in *. assert (∀ r, r ∈ rr :: rest ↔ at_rrset rrs k t r) as Hgrp by (intros r; rewrite <-Hg; by apply group_iff).
  destruct (loaded_Unpack_same _ _ _ (sz_load Hz) out_carried k n t set Hn Hfind (out_ttl k t Ht)) as (l' & Hl' & Hx).
  rewrite Hl in Hl'. injection Hl' as <-.
  assert (signing_key (signer_for opt ksk zsk kpriv zpriv (rr_Hdr rr)).2 (signer_for opt ksk zsk kpriv zpriv (rr_Hdr rr)).1) as Hkey.
  { unfold signer_for. destruct (_ && _); apply Hz. }
  assert (HasSuffix k (h_Name (signer_for opt ksk zsk kpriv zpriv (rr_Hdr rr)).2.1) = true) as Hsuf.
  { assert (at_rrset rrs k t rr) as (Hin & <- & _) by (apply Hgrp; by left). pose proof (sn_zone _ _ (sz_rrs Hz) rr Hin) as Hs.
    unfold signer_for. destruct (_ && _); cbn; [by rewrite (proj1 (sz_names Hz))|by rewrite (proj2 (sz_names Hz))]. }
  revert Hd Hkey Hsuf. generalize (signer_for opt ksk zsk kpriv zpriv (rr_Hdr rr)). intros [priv key]. cbn. intros Hd Hkey Hsuf.
  pose proof Hd as (_ & F2 & _ & _ & _ & F6 & F7)%Sign_fields. cbn in F2, F6, F7. split_and!; [done..|].
  rewrite (nw_name _ _ _ Hwf), RRSIG_of_parsed by (rewrite F7; apply Hkey).
  apply (Sign_Verify (draft_sig (rr_Hdr rr) key (g_Inception opt) (g_Expiration opt)) priv key (rr :: rest) l k t s); [done..| | |exact Hd].
  - split; [done|]. intros r (Hr & ? & ?)%Hgrp. split_and!; [done..|]. by apply (sn_class _ _ (sz_rrs Hz)).
  - intros w. split.
    + intros (r & Hr%Hgrp & Hp). exists (wire_norm r). split; [apply Hx; exists r; split; [by apply out_at|done]|].
      exact (PackRR_norm _ _ Hp).
    + intros (x & (r & Hr%out_at & ->)%Hx & Hp); [|done]. exists r. split; [by apply Hgrp|].
      destruct (loaded_packs _ _ _ (sz_load Hz) out_carried r) as [w' Hw']; [by apply out_at in Hr as [? _]|].
      rewrite (PackRR_norm _ _ Hw') in Hp. congruence.
Qed.

Lemma signed_verifies k n set s keys l :
  st_nodes st !! k = Some n → set ∈ n_Sets n → (0 ≤ rs_Type set)%Z → rs_Type set ≠ TypeRRSIG →
  cached_among keys ksk → cached_among keys zsk →
  signed opt rrs ksk zsk kpriv zpriv (List.filter (in_group (group_key k (rs_Type set))) rrs) s →
  Unpack set (n_Name n) = Ok l → sig_verifies n set keys l (ParseRRSIG s.2) = true.
Proof.
  intros Hn Hset Ht0 Ht Hk Hzk Hs Hl. pose proof Hs as (rr & rest & Hg & _). rewrite Hg in Hs.
  destruct (signed_Verify k n set s rr rest l Hn Hset Ht0 Ht Hg Hs Hl) as (F6 & F2 & Hv).
  assert (cached_among keys (signer_for opt ksk zsk kpriv zpriv (rr_Hdr rr)).2) as (c & Hc1 & Hc2 & Hc3 & Hc4 & Hc5).
  { unfold signer_for. by destruct (_ && _). }
  unfold sig_verifies. apply existsb_elem_of. exists c. split; [done|]. apply andb_true_iff. split; [|by rewrite Hc2].
  unfold key_matches. cbn. by rewrite Hc3, Hc4, F2, F6, Hc5, !bool_decide_true.
Qed.

(** An RRset of an authoritative name is passed over only at a delegation;
    otherwise the signatures found are those made of it, and there is one. *)
Lemma set_signed k n set :
  st_nodes st !! k = Some n → isAuthoritative st n = true → set ∈ n_Sets n → rs_Type set ≠ TypeRRSIG →
  let g := List.filter (in_group (group_key k (rs_Type set))) rrs in
  (0 ≤ rs_Type set)%Z ∧ (∃ r, at_rrset rrs k (rs_Type set) r) ∧
  (∀ sig, sig ∈ RRSIGsCovering n (rs_Type set) → ∃ s, sig = ParseRRSIG s.2 ∧ signed opt rrs ksk zsk kpriv zpriv g s) ∧
  (RRSIGsCovering n (rs_Type set) = [] → n_IsDelegation n = true ∧ rs_Type set = TypeNS).
Proof.
  intros Hn Hauth Hset Ht g. pose proof (loaded_find _ _ _ (sz_load Hz) k n set Hn Hset) as Hfind.
  assert (∃ r, at_rrset rrs k (rs_Type set) r) as [r Hr].
  { destruct (proj1 (loaded_Set _ _ _ (sz_load Hz) out_carried k n (rs_Type set) Hn)) as [r Hr]; [by rewrite Hfind|].
    exists r. by apply out_at. }
  pose proof Hr as (Hin & Hk & Hty). assert (0 ≤ rs_Type set)%Z as Ht0 by (rewrite <-Hty; by apply (sn_type _ _ (sz_rrs Hz))).
  split_and!; [done|by exists r| |].
  - intros sig (s & Hs & Hst & Hsk & Hcov & ->)%(covering k n _ _ Hn). exists s. split; [done|].
    destruct (out_cases _ Hs) as [Hb|(_ & s' & key & g' & E & Hg & Hsg)]; [by destruct (sn_type _ _ (sz_rrs Hz) _ Hb)|].
    assert (s = s') as <- by (destruct s, s'; unfold sig_rr in E; cbn in E; congruence).
    destruct (signed_group key g' s Hg Hsg) as (r' & Hr' & _ & -> & Hh & Hc & _).
    unfold rr_Name in Hsk at 1. cbn in Hsk. rewrite Hh in Hsk. cbn in Hsk. unfold g. by rewrite <-Hsk, <-Hcov, Hc.
  - intros Hnil. rewrite <-Hty. rewrite <-Hk in Hn. destruct (passed_over opt rrs (rr_Hdr r)) eqn:Hp; [by apply (passed_over_fine r n)|].
    exfalso. destruct (signZone_spec _ _ _ _ _ _ _ (sz_sign Hz)) as (sigs & Hout & _ & Hall).
    pose proof (group_of_record rrs r Hin) as Hgr. rewrite Hty, Hk in Hgr. specialize (Hgr Ht). fold g in Hgr.
    destruct (group_shape rrs g) as (r0 & rest & Hg0 & Hin0 & _); [by eexists|].
    assert (r0 ∈ g) as (_ & Hk0 & Hty0)%group_iff by (rewrite Hg0; by left || done); [|rewrite <-Hk; by apply (sn_name _ _ (sz_rrs Hz))|done..].
    rewrite Hg0 in Hgr. destruct (Hall _ _ _ Hgr) as (s & Hs & Hsg).
    { rewrite <-Hp. unfold passed_over, rr_Name, rr_Type in *. by rewrite Hk, Hk0, Hty, Hty0. }
    destruct (signed_header _ _ _ Hsg) as [Hh Hc]. apply (not_elem_of_nil (A := CompactRRSIG) (ParseRRSIG s.2)). rewrite <-Hnil.
    apply (covering k n _ _); [by rewrite <-Hk|]. exists s. unfold rr_Name, rr_Type. cbn. rewrite Hh, Hc. cbn. split_and!; try done.
    rewrite Hout. apply elem_of_app. right. apply list_elem_of_fmap. by exists s.
Qed.

Lemma signed_passes v keys k n set :
  cached_among keys ksk → cached_among keys zsk →
  (u32 (now32 v + skew32 v) <? g_Inception opt)%Z = false → (u32 (g_Expiration opt + skew32 v) <? now32 v)%Z = false →
  st_nodes st !! k = Some n → isAuthoritative st n = true → set ∈ n_Sets n → rs_Type set ≠ TypeRRSIG →
  rrset_passes v n set keys.
Proof.
  intros Hk Hzk Hinc Hexp Hn Hauth Hset Ht. pose proof (loaded_node_wf _ _ _ (sz_load Hz) k n Hn) as Hwf.
  destruct (set_signed k n set Hn Hauth Hset Ht) as (Ht0 & [r Hr] & Hsigs & Hnone). cbv zeta in Hsigs.
  unfold rrset_passes. cbv zeta. destruct (decide (RRSIGsCovering n (rs_Type set) = [])) as [E|E].
  { left. split; [done|]. destruct (Hnone E) as [Hd ->]. unfold unsigned_ok. by rewrite Hd. }
  right. split; [done|].
  destruct (loaded_Unpack_same _ _ _ (sz_load Hz) out_carried k n _ set Hn (loaded_find _ _ _ (sz_load Hz) k n set Hn Hset) (out_ttl k _ Ht)) as (l & Hl & _).
  exists l. split_and!; [done| |].
  - intros sig (s & -> & rr & rest & Hg & _ & Hd)%Hsigs.
    assert (at_rrset rrs k (rs_Type set) rr) as (Hin & Hrk & _) by (apply group_iff; [apply Hwf|done..|]; rewrite Hg; by left).
    rewrite Hg in Hd. apply Sign_fields in Hd as (_ & _ & F3 & F4 & F5 & _). cbn in F4, F5.
    unfold sig_good, in_window. cbn. rewrite F3, F4, F5, Hinc, Hexp, (nw_name _ _ _ Hwf), <-Hrk.
    rewrite wantLabels_ok by by apply (sn_name _ _ (sz_rrs Hz)). by rewrite bool_decide_true.
  - destruct (RRSIGsCovering n (rs_Type set)) as [|sig sigs] eqn:Ec; [done|]. exists sig. split; [by left|].
    destruct (Hsigs sig) as (s & -> & Hs); [by left|]. by apply (signed_verifies k n set s keys l).
Qed.

(** C13: what [signZone] signs verifies. When the zone it returns for a list
    of records (canonical names, one TTL for each RRset, no signatures yet)
    is loaded, every RRset of every name the auditor takes for authoritative
    passes, at every time in the validity period, with the two keys among
    the keys of the pass: the delegations in the generator's table are those
    in the tree, what is passed over as glue is below one of them, and every
    other RRset has a signature made with one of the keys over the records
    it unpacks to. *)
Theorem signZone_passes v keys k n set :
  cached_among keys ksk → cached_among keys zsk →
  (u32 (now32 v + skew32 v) <? g_Inception opt)%Z = false → (u32 (g_Expiration opt + skew32 v) <? now32 v)%Z = false →
  st_nodes st !! k = Some n → isAuthoritative st n = true → set ∈ n_Sets n → rs_Type set ≠ TypeRRSIG →
  rrset_passes v n set keys.
Proof. apply signed_passes. Qed.
End zone.

(** ** A signature scheme that satisfies the laws *)

(** The toy signature is the key itself; keys come from a list of texts that
    parse, and generation fails for an algorithm they do not suit. *)
Definition toy_public (alg : Z) : string :=
  if bool_decide (alg = ED25519) then Repeat "B" 42 +:+ "A=" else Repeat "B" 85 +:+ "A==".

Definition toy_Sign (s : RRSIG_RR) (priv : string) (rrs : list RR) : result RRSIG_RR :=
  match rrs with
  | [] => Err "dns: bad rrset"
  | rr :: _ =>
      Ok (mkHdr (rr_Name rr) TypeRRSIG (rr_Class rr) (h_Ttl s.1),
          mkRRSIG (rr_Type rr) (sig_Algorithm s.2) (u8 (CountLabel (rr_Name rr) - if HasPrefix (rr_Name rr) "*" then 1 else 0))
            (sig_OrigTtl s.2) (sig_Expiration s.2) (sig_Inception s.2) (sig_KeyTag s.2) (sig_SignerName s.2) priv)
  end.

Definition toy_crypto : Crypto := {|
  Signer := string;
  dns_Generate := λ i k bits, let pub := toy_public (key_Algorithm k) in
    if is_ok (parsePublicKey (with_PublicKey k pub)) then Ok (pub, Some pub) else Err "dns: bad algorithm";
  dns_Sign := toy_Sign;
  rand_Intn := λ seed i n, (Z.of_nat i mod n)%Z
|}.

#[export] Instance toy_crypto_laws : CryptoLaws (CR := toy_crypto).
Proof.
  split; cbn.
  - intros i k bits pub priv. destruct (is_ok _) eqn:E; [|done]. by intros [= <- <-].
  - intros s priv rr rrs s' [= <-]. done.
  - intros s priv rr rrs s' [= <-]. done.
  - intros s priv key [|rr rrs] rrs' k t s' ttl [(i & kk & bits & pub & Hg & Hk) _ _ _ _] _ _ Hn _ [Hne _] _; [done|].
    intros [= <-]. cbn in Hg. destruct (is_ok _); [|done]. injection Hg as Hp Hpriv. subst priv. cbn.
    unfold toy_Verify. cbn. rewrite Hn, Hk. cbn. rewrite Hp, !bool_decide_true; done.
Qed.

(** ** Witness *)

(** A zone with glue below a delegation, before it is signed. *)
Definition toy_ksk : DNSKEY_RR := (hdr "z." TypeDNSKEY, mkDNSKEY 257 3 ED25519 (toy_public ED25519)).
Definition toy_unsigned : list RR :=
  [toy_SOA "z." 7; key_rr toy_ksk; toy_NS "sub.z." "ns.sub.z."; toy_A "ns.sub.z." "192.0.2.1"; toy_A "*.z." "192.0.2.2"].
Definition toy_sign_options : Options := mkGen "z." 0 0 DenialNone 0.

Definition toy_record_fine (rr : RR) : Prop :=
  (canonical (rr_Name rr) ∧ labels_ok (rr_Name rr)) ∧ HasSuffix (rr_Name rr) "z." = true ∧
  rr_Class rr = ClassINET ∧ (0 ≤ rr_Type rr)%Z ∧ rr_Type rr ≠ TypeRRSIG ∧ rr_Ttl rr = 300%Z.
#[local] Instance toy_record_fine_dec rr : Decision (toy_record_fine rr).
Proof. unfold toy_record_fine, labels_ok. apply _. Defined.
Lemma toy_unsigned_fine : Forall toy_record_fine toy_unsigned.
Proof. apply (bool_decide_unpack (Forall _ _)). vm_compute. done. Qed.

Lemma toy_signable : signable "z." toy_unsigned.
Proof.
  pose proof toy_unsigned_fine as H. rewrite Forall_forall in H. split; try (intros rr Hin; apply (H rr Hin)).
  - intros rr Hin. split; apply (H rr Hin).
  - intros k t r r' (H1 & _) (H2 & _). destruct (H r H1) as (_ & _ & _ & _ & _ & ->), (H r' H2) as (_ & _ & _ & _ & _ & ->). done.
  - done.
Qed.

Lemma toy_signing_key : signing_key (CR := toy_crypto) toy_ksk (toy_public ED25519).
Proof.
  split; [|reflexivity..]. exists 0, (mkDNSKEY 257 3 ED25519 ""), 256%Z, (toy_public ED25519). split; vm_compute; reflexivity.
Qed.

Definition toy_signed_out : list RR :=
  match signZone (CR := toy_crypto) toy_sign_options toy_unsigned toy_ksk toy_ksk (toy_public ED25519) (toy_public ED25519) with
  | Done out => out | _ => [] end.

Definition toy_signed_nodes : bool :=
  match st_nodes (built "z." toy_signed_out) !! "*.z." with
  | Some n => isAuthoritative (built "z." toy_signed_out) n && bool_decide (length (RRSIGsCovering n TypeA) = 1)
              && match Node_Set n TypeA with Some set => bool_decide (rs_Type set = TypeA) | None => false end
  | None => false
  end.
Lemma toy_signed_checked : toy_signed_nodes = true.
Proof. vm_compute. reflexivity. Qed.

Lemma signZone_passes_witness :
  ∃ n set keys, st_nodes (built "z." toy_signed_out) !! "*.z." = Some n ∧ Node_Set n TypeA = Some set ∧
    length (RRSIGsCovering n TypeA) = 1 ∧ rrset_passes (toy_verifier 1000) n set keys.
Proof.
  pose proof toy_signed_checked as H. unfold toy_signed_nodes in H.
  destruct (st_nodes (built "z." toy_signed_out) !! "*.z.") as [n|] eqn:En; [|discriminate H].
  apply andb_true_iff in H as [[Ha Hs%bool_decide_eq_true]%andb_true_iff Ht].
  destruct (Node_Set n TypeA) as [set|] eqn:Eset; [|discriminate Ht]. apply bool_decide_eq_true in Ht.
  destruct (cacheKey toy_ksk) as [c|] eqn:Ec; [|vm_compute in Ec; discriminate Ec].
  assert (cached_among [c] toy_ksk) as Hk.
  { exists c. pose proof (cacheKey_spec _ _ Ec) as (? & ? & ? & _ & _ & Hz). split_and!; [by left|done..|]. rewrite Hz. reflexivity. }
  exists n, set, [c]. split_and!; [done..|].
  apply (signZone_passes (CR := toy_crypto) toy_sign_options toy_unsigned toy_signed_out toy_ksk toy_ksk (toy_public ED25519)
    (toy_public ED25519) (built "z." toy_signed_out)) with (k := "*.z."); [|exact Hk|exact Hk|vm_compute; reflexivity|vm_compute; reflexivity|exact En|exact Ha| |].
  - split; [vm_compute; reflexivity|apply built_Ok; vm_compute; reflexivity|vm_compute; reflexivity|apply toy_signable| |apply toy_signing_key|apply toy_signing_key|by split].
    intros rr _ _. reflexivity.
  - by apply Node_Set_elem in Eset as [? _].
  - rewrite Ht. discriminate.
Defined.
