(* ===== verification/HashOrder.v ===== *)
(** * Hash labels keep the order of hashes (internal/zone/nsec3.go)

    The generator sorts NSEC3 records by their labels, the auditor by the
    hashes the labels decode to. For hashes of one length the two orders
    are the same, because the digits of base32hex are in the order of their
    values and the encoder reads the bytes from the left. *)

From S2P Require Import Prelude GoStrings Base32.

(** ** Strings, byte by byte *)

Lemma str_lt_cons c a d b :
  str_lt (String c a) (String d b) ↔ (Z_of_byte c < Z_of_byte d)%Z ∨ (c = d ∧ str_lt a b).
Proof.
  unfold str_lt, Z_of_byte. cbn [String.compare]. unfold Ascii.compare.
  destruct (N.compare_spec (N_of_ascii c) (N_of_ascii d)) as [H|H|H].
  - assert (c = d) as -> by (rewrite <-(ascii_N_embedding c), H; apply ascii_N_embedding). split; [by right|].
    intros [?|[_ ?]]; [lia|done].
  - split; [left; lia|done].
  - split; [done|]. intros [?|[-> _]]; lia.
Qed.

Lemma str_ltb_in_order a b : str_ltb b a = false ↔ str_le a b.
Proof. rewrite str_le_not_lt, <-str_ltb_spec. by destruct (str_ltb b a). Qed.

(** ** The encoder *)

(** The digits are in order. *)
Lemma digit_lower_lt u v : (0 ≤ u)%Z → (u < v < 32)%Z → (Z_of_byte (digit_lower u) < Z_of_byte (digit_lower v))%Z.
Proof.
  intros Hu Huv.
  assert (Forall (λ n, Forall (λ m, (Z_of_byte (digit_lower (Z.of_nat m)) < Z_of_byte (digit_lower (Z.of_nat n)))%Z) (seq 0 n))
    (seq 0 32)) as H by (apply (bool_decide_unpack (Forall _ _)); vm_compute; done).
  rewrite Forall_forall in H. specialize (H (Z.to_nat v)). rewrite Forall_forall in H.
  specialize (H ltac:(apply elem_of_seq; lia) (Z.to_nat u)). rewrite !Z2Nat.id in H by lia. apply H, elem_of_seq. lia.
Qed.

(** One digit, taken from the top of what is left. *)
Lemma digit_split x y k a b :
  (0 ≤ k)%Z → (0 ≤ x)%Z → (x < y < 32 * 2 ^ k)%Z →
  (x / 2 ^ k = y / 2 ^ k → x mod 2 ^ k < y mod 2 ^ k → str_lt a b)%Z →
  str_lt (String (digit_lower (x / 2 ^ k mod 32)) a) (String (digit_lower (y / 2 ^ k mod 32)) b).
Proof.
  intros Hk Hx Hxy Hab. assert (0 < 2 ^ k)%Z as Hp by (apply Z.pow_pos_nonneg; lia).
  assert (x / 2 ^ k ≤ y / 2 ^ k)%Z by (apply Z.div_le_mono; lia).
  assert (0 ≤ x / 2 ^ k)%Z by (apply Z.div_pos; lia).
  assert (y / 2 ^ k < 32)%Z by (apply Z.div_lt_upper_bound; lia).
  rewrite !Z.mod_small by lia. apply str_lt_cons. destruct (decide (x / 2 ^ k = y / 2 ^ k)%Z) as [E|E].
  - right. rewrite E. split; [done|]. apply Hab; [done|].
    pose proof (Z.div_mod x (2 ^ k) ltac:(lia)). pose proof (Z.div_mod y (2 ^ k) ltac:(lia)). rewrite E in *. lia.
  - left. apply digit_lower_lt; lia.
Qed.

Lemma encode_loop_mono b b' r r' e :
  String.length b = String.length b' → (0 ≤ e < 5)%Z → (0 ≤ r < 2 ^ e)%Z → (0 ≤ r' < 2 ^ e)%Z →
  (r < r')%Z ∨ r = r' ∧ str_lt b b' → str_lt (encode_loop b r e) (encode_loop b' r' e).
Proof.
  revert b' r r' e. induction b as [|c b IH]; intros [|d b'] r r' e Hl He Hr Hr' H; try done.
  - destruct H as [H|[_ H]]; [|done]. assert (0 < e)%Z by (destruct (decide (e = 0)%Z) as [->|]; [simpl in *; lia|lia]).
    rewrite !encode_end by lia. apply str_lt_cons. left.
    assert (2 ^ e * 2 ^ (5 - e) = 32)%Z as Hp by (rewrite <-Z.pow_add_r by lia; by replace (e + (5 - e))%Z with 5%Z by lia).
    assert (0 < 2 ^ (5 - e))%Z by (apply Z.pow_pos_nonneg; lia). apply digit_lower_lt; nia.
  - injection Hl as Hl. rewrite !encode_step by done. pose proof (Z_of_byte_range c). pose proof (Z_of_byte_range d).
    set (x := (r * 256 + Z_of_byte c)%Z). set (y := (r' * 256 + Z_of_byte d)%Z).
    assert ((x < y)%Z ∨ x = y ∧ str_lt b b') as Hxy.
    { destruct H as [H|[-> [H|[-> H]]%str_lt_cons]]; [left; unfold x, y; lia..|by right]. }
    assert (0 ≤ x ∧ 0 ≤ y ∧ x < 2 ^ e * 256 ∧ y < 2 ^ e * 256)%Z as (Hx0 & Hy0 & Hx & Hy) by (unfold x, y; lia).
    assert (2 ^ e * 256 = 32 * 2 ^ (e + 3))%Z as E3 by (rewrite Z.pow_add_r by lia; lia).
    rewrite E3 in *. clearbody x y. clear H Hr Hr'. destruct Hxy as [Hxy|[<- Hb]].
    2:{ case_bool_decide; repeat (apply str_lt_cons; right; split; [done|]);
          (apply IH; [done|lia|apply Z.mod_pos_bound, Z.pow_pos_nonneg; lia..|by right]). }
    case_bool_decide.
    + apply digit_split; [lia..|]. intros _ Hm.
      assert (2 ^ (e + 3) = 32 * 2 ^ (e - 2))%Z as E2.
      { replace (e + 3)%Z with (5 + (e - 2))%Z by lia. rewrite Z.pow_add_r by lia. done. }
      assert (0 < 2 ^ (e - 2))%Z by (apply Z.pow_pos_nonneg; lia).
      assert (∀ z, z / 2 ^ (e - 2) mod 32 = (z mod 2 ^ (e + 3)) / 2 ^ (e - 2) mod 32)%Z as Hd.
      { intros z. rewrite E2. rewrite (Z.mul_comm 32), Z.rem_mul_r by lia. rewrite (Z.mul_comm (2 ^ (e - 2)) (_ mod _)).
        rewrite Z.div_add by lia. rewrite (Z.div_small (z mod _)) by (apply Z.mod_pos_bound; lia). by rewrite Z.add_0_l, Z.mod_mod. }
      assert (∀ z, z mod 2 ^ (e - 2) = (z mod 2 ^ (e + 3)) mod 2 ^ (e - 2))%Z as Hlow.
      { intros z. rewrite E2, Z.mul_comm, Z.rem_mul_r by lia. rewrite (Z.mul_comm (2 ^ (e - 2)) (_ mod _)).
        by rewrite Z.mod_add, Z.mod_mod by lia. }
      rewrite (Hd x), (Hd y). apply digit_split; [lia|apply Z.mod_pos_bound; lia| |].
      { split; [done|]. rewrite <-E2. apply Z.mod_pos_bound. lia. }
      intros _ Hm2. rewrite (Hlow x), (Hlow y). apply IH; [done|lia|apply Z.mod_pos_bound; lia..|by left].
    + apply digit_split; [lia..|]. intros _ Hm. apply IH; [done|lia|apply Z.mod_pos_bound, Z.pow_pos_nonneg; lia..|by left].
Qed.

(** Labels are in the order of the hashes they stand for. *)
Theorem Base32Hex_mono a b :
  String.length a = String.length b → str_lt (Base32Hex a) (Base32Hex b) ↔ str_lt a b.
Proof.
  assert (∀ a b, String.length a = String.length b → str_lt a b → str_lt (Base32Hex a) (Base32Hex b)) as Hmono.
  { intros x y Hl Hxy. unfold Base32Hex. rewrite Hl. case_bool_decide as H0.
    - destruct x; [|simpl in *; lia]. by destruct y.
    - apply encode_loop_mono; [done|simpl; lia..|by right]. }
  intros Hl. split; [|by apply Hmono]. intros H. destruct (str_lt_total a b) as [?|[->|Hba]]; [done|by apply str_lt_irrefl in H|].
  exfalso. apply (str_lt_irrefl (Base32Hex a)). etrans; [exact H|]. by apply Hmono.
Qed.

(** ** Case *)

Lemma is_b32_case c :
  is_b32 c = true → lower_byte (upper_byte c) = c ∧ lower_byte c = c ∧ bool_decide (upper_byte c = "="%char) = false.
Proof.
  rewrite <-(ascii_nat_embedding c). pose proof (nat_ascii_bounded c) as Hc. revert Hc. generalize (nat_of_ascii c). clear c. intros n Hn.
  assert (Forall (λ n, is_b32 (ascii_of_nat n) = true → lower_byte (upper_byte (ascii_of_nat n)) = ascii_of_nat n ∧
    lower_byte (ascii_of_nat n) = ascii_of_nat n ∧ bool_decide (upper_byte (ascii_of_nat n) = "="%char) = false) (seq 0 256)) as H
    by (apply (bool_decide_unpack (Forall _ _)); vm_compute; done).
  rewrite Forall_forall in H. apply H, elem_of_seq. lia.
Qed.

(** A label is in lower case; put in upper case it can be put back. *)
Lemma b32_lower s : str_all is_b32 s = true → ToLower s = s ∧ ToLower (ToUpper s) = s ∧ TrimRight (ToUpper s) "=" = ToUpper s.
Proof.
  induction s as [|c s IH]; [done|]. cbn [str_all]. intros [Hc Hs]%andb_true_iff.
  destruct (IH Hs) as (H1 & H2 & H3), (is_b32_case c Hc) as (C1 & C2 & C3). unfold ToLower, ToUpper, TrimRight in *. cbn [str_map trim_right].
  rewrite C1, C2, H1, H2, H3. split_and!; [done..|]. destruct (str_map upper_byte s); [by rewrite C3|done].
Qed.

(** Labels in upper case, as the library writes them, decode as well. *)
Lemma HashFromBase32_upper b : b ≠ "" → HashFromBase32 (ToUpper (Base32Hex b)) = Ok b.
Proof.
  intros Hb. unfold HashFromBase32. destruct (b32_lower _ (Base32Hex_b32 b)) as (_ & H & ->).
  rewrite <-(ToUpper_ToLower (ToUpper _)), H. by rewrite decode_Base32Hex.
Qed.
