(* ===== verification/Denial.v ===== *)
(** * The NSEC records the generator makes (internal/zonegen/generate.go)

    The sort of the package sorts, the empty non-terminals are added once,
    and the NSEC records it builds make up one cycle in canonical order with
    a record for every name; loaded and signed, they are what the checks of
    the auditor ask for. *)

From S2P Require Import Prelude Cycle GoStrings DnsLib BTree DnsName Base32 CanonOrder Node Store StoreSpec Snapshot TestPrimary Loaded Config Findings Keys Verify Nsec NsecChain Zonemd Hygiene Pool Full Verdict Zonegen Signed.

(** ** The exchange sort *)

Section exchange.
Context {A : Type} (less : A → A → bool).

Lemma exchange_perm x l : (exchange less x l).1 :: (exchange less x l).2 ≡ₚ x :: l.
Proof.
  revert x. induction l as [|y l IH]; intros x; cbn [exchange]; [done|].
  destruct (less y x); [specialize (IH y)|specialize (IH x)]; destruct (exchange less _ l) as [m r]; cbn in *.
  - transitivity (x :: m :: r); [constructor|by rewrite IH].
  - transitivity (y :: m :: r); [constructor|]. rewrite IH. constructor.
Qed.

Lemma exchange_length x l : length (exchange less x l).2 = length l.
Proof. pose proof (Permutation_length (exchange_perm x l)) as H. cbn in H. lia. Qed.

Lemma exchange_loop_perm fuel l : exchange_loop less fuel l ≡ₚ l.
Proof.
  revert l. induction fuel as [|fuel IH]; intros [|x l]; cbn [exchange_loop]; [done..|].
  rewrite <-(exchange_perm x l). destruct (exchange less x l) as [m r]. cbn. by rewrite IH.
Qed.

Lemma exchange_sort_perm l : exchange_sort less l ≡ₚ l.
Proof. apply exchange_loop_perm. Qed.

(** [b] may come after [a]. *)
Definition in_order (a b : A) : Prop := less b a = false.

Hypothesis asym : ∀ a b, less a b = true → less b a = false.
Hypothesis trans : ∀ a b c, in_order a b → in_order b c → in_order a c.

Lemma exchange_least x l : in_order (exchange less x l).1 x ∧ Forall (in_order (exchange less x l).1) (exchange less x l).2.
Proof.
  assert (∀ a, in_order a a) as refl by (intros a; unfold in_order; destruct (less a a) eqn:E; [by rewrite (asym a a E) in E|done]).
  revert x. induction l as [|y l IH]; intros x; cbn [exchange]; [split; [apply refl|constructor]|].
  destruct (less y x) eqn:E; [destruct (IH y) as [Hm Hr]|destruct (IH x) as [Hm Hr]];
    destruct (exchange less _ l) as [m r]; cbn in *.
  - assert (in_order m x) by (eapply trans; [exact Hm|]; by apply asym). split; [done|]. by constructor.
  - split; [done|]. constructor; [|done]. by apply (trans _ x).
Qed.

Lemma exchange_loop_sorted fuel l : length l ≤ fuel → StronglySorted in_order (exchange_loop less fuel l).
Proof.
  revert l. induction fuel as [|fuel IH]; intros [|x l] Hl; cbn [exchange_loop length] in *; [constructor|lia|constructor|].
  pose proof (exchange_length x l) as Hlen. destruct (exchange_least x l) as [_ Hf].
  destruct (exchange less x l) as [m r]. cbn in Hlen, Hf. constructor; [apply IH; lia|]. by rewrite exchange_loop_perm.
Qed.

(** One round for every element is enough. *)
Lemma exchange_sort_sorted l : StronglySorted in_order (exchange_sort less l).
Proof. by apply exchange_loop_sorted. Qed.
End exchange.

Section names.
Context `{DL : !DnsLib, NL : !DnsNameLaws}.

Lemma sortCanon_perm names : sortCanon names ≡ₚ names.
Proof. apply exchange_sort_perm. Qed.

Lemma sortCanon_sorted names : StronglySorted (cmp_le CanonicalCmp) (sortCanon names).
Proof.
  assert (StronglySorted (in_order (λ a b, (0 <? CanonicalCmp b a)%Z)) (sortCanon names)) as H.
  { apply exchange_sort_sorted; unfold in_order.
    - intros a b H%Z.ltb_lt. apply Z.ltb_ge. pose proof (cmp_sym (cmp := CanonicalCmp) a b). lia.
    - intros a b c H1%Z.ltb_ge H2%Z.ltb_ge. apply Z.ltb_ge. by apply (cmp_trans a b c). }
  induction H as [|x l _ IH Hf]; constructor; [done|]. eapply Forall_impl; [exact Hf|].
  intros y Hy%Z.ltb_ge. done.
Qed.

(** For canonical names, each once, strictly. *)
Lemma sortCanon_strict names :
  NoDup names → (∀ x, x ∈ names → canonical x) → StronglySorted canon_lt (sortCanon names).
Proof.
  intros Hnd Hc. pose proof (sortCanon_sorted names) as Hs. pose proof (sortCanon_perm names) as Hp.
  assert (NoDup (sortCanon names)) as Hnd' by (by rewrite Hp).
  assert (∀ x, x ∈ sortCanon names → canonical x) as Hc' by (intros x; rewrite Hp; apply Hc).
  clear Hnd Hc Hp. revert Hnd' Hc'. generalize dependent (sortCanon names). clear names. intros names Hs Hnd Hc.
  induction Hs as [|x l _ IH Hf]; constructor.
  - inversion Hnd. apply IH; [done|]. intros y Hy. apply Hc. by right.
  - apply Forall_forall. intros y Hy. rewrite Forall_forall in Hf. specialize (Hf y Hy). unfold cmp_le, canon_lt in *.
    destruct (decide (CanonicalCmp x y = 0)%Z) as [H0|]; [|lia].
    apply CanonicalCmp_0 in H0 as ->; [|apply Hc; by (left || right)..]. inversion Hnd. done.
Qed.

(** The exchange sort the generator orders its names with computes what
    the sort the auditor uses computes, for canonical names. *)
Theorem sortCanon_exact names :
  (∀ x, x ∈ names → canonical x) → sortCanon names = SortFunc CanonicalCmp names.
Proof.
  intros Hc. apply (StronglySorted_unique_strong (cmp_le CanonicalCmp)).
  - intros x y Hx Hy%elem_of_SortFunc Hxy Hyx. rewrite (sortCanon_perm names) in Hx. apply CanonicalCmp_0; [by apply Hc..|].
    unfold cmp_le in *. pose proof (cmp_sym (cmp := CanonicalCmp) x y). lia.
  - apply sortCanon_sorted.
  - apply SortFunc_sorted, _.
  - by rewrite sortCanon_perm, SortFunc_perm.
Qed.

(** ** The names of the zone *)

Lemma namesFrom_spec rrs k :
  (is_Some (namesFrom rrs !! k) ↔ ∃ rr, rr ∈ rrs ∧ Canonical (rr_Name rr) = k) ∧
  (∀ t, t ∈ default ∅ (namesFrom rrs !! k) ↔ ∃ rr, rr ∈ rrs ∧ Canonical (rr_Name rr) = k ∧ rr_Type rr = t).
Proof.
  unfold namesFrom. induction rrs as [|rr rrs IH] using rev_ind.
  { cbn. rewrite lookup_empty. split; [split; [by intros [? ?]|by intros (? & ?%elem_of_nil & _)]|].
    intros t. split; [by intros ?%elem_of_empty|by intros (? & ?%elem_of_nil & _)]. }
  rewrite foldl_app. cbn [foldl]. revert IH. generalize (foldl (λ (m : gmap string (gset Z)) rr,
    let n := Canonical (rr_Name rr) in <[n := {[ rr_Type rr ]} ∪ default ∅ (m !! n)]> m) ∅ rrs).
  intros m [IH1 IH2]. cbv zeta. setoid_rewrite elem_of_app. setoid_rewrite list_elem_of_singleton.
  destruct (decide (Canonical (rr_Name rr) = k)) as [Hk|Hk].
  - rewrite Hk, lookup_insert_eq. split.
    + split; [|done]. intros _. exists rr. split; [by right|done].
    + intros t. cbn. rewrite elem_of_union, elem_of_singleton, IH2. split.
      * intros [->|(r & ? & ? & ?)]; [exists rr; split_and!; [by right|done..]|exists r; split_and!; [by left|done..]].
      * intros (r & [Hr| ->] & ? & ?); [right; by exists r|by left].
  - rewrite lookup_insert_ne by done. split.
    + rewrite IH1. split; [intros (r & ? & ?); exists r; split; [by left|done]|].
      intros (r & [Hr| ->] & ?); [by exists r|done].
    + intros t. rewrite IH2. split; [intros (r & ? & ?); exists r; split; [by left|done]|].
      intros (r & [Hr| ->] & ? & ?); [by exists r|done].
Qed.

Definition ent_inv (names : list string) (s : gset string * list string) : Prop :=
  s.1 = list_to_set (names ++ s.2) ∧ NoDup (names ++ s.2) ∧ Forall canonical s.2.

Lemma ent_loop_inv fuel origin names p s : canonical p → ent_inv names s → ent_inv names (ent_loop fuel origin p s).
Proof.
  revert p s. induction fuel as [|fuel IH]; intros p s Hp Hs; cbn [ent_loop]; [done|].
  destruct (negb _ && negb _); [|done].
  set (s' := if bool_decide (p ∈ s.1) then s else _).
  assert (ent_inv names s') as Hs'.
  { unfold s'. case_bool_decide as Hin; [done|]. destruct s as [seen added]. destruct Hs as (Hseen & Hnd & Hc). cbn in *.
    split_and!; cbn.
    - rewrite Hseen, app_assoc, (list_to_set_app_L _ [p]). cbn. set_solver.
    - rewrite app_assoc. apply NoDup_app. split_and!; [done| |apply NoDup_singleton].
      intros x Hx ->%list_elem_of_singleton. apply Hin. rewrite Hseen. by apply elem_of_list_to_set.
    - apply Forall_app. by split; [|constructor]. }
  case_bool_decide; [done|]. apply IH; [apply canonical_Parent|done].
Qed.

Lemma addENTs_inv names origin :
  NoDup names → ∃ added, addENTs names origin = names ++ added ∧ NoDup (names ++ added) ∧ Forall canonical added.
Proof.
  intros Hnd. unfold addENTs. eexists. split; [reflexivity|].
  assert (ent_inv names (foldl (λ s n, if bool_decide (n = origin) then s else ent_loop (S (String.length n)) origin (Parent n) s)
    (list_to_set names, []) names)) as (_ & ? & ?); [|done].
  apply foldl_inv.
  - split_and!; cbn; rewrite ?app_nil_r; [done..|constructor].
  - intros s n _ Hs. case_bool_decide; [done|]. apply ent_loop_inv; [apply canonical_Parent|done].
Qed.
End names.

(** ** The records *)

Section records.
Context `{DL : !DnsLib, NL : !DnsNameLaws, MR : !MapRange}.
Variables (opt : Options) (rrs : list RR).

(** The names [buildNSEC] goes through. *)
Definition nsec_owners : list string := sortCanon (addENTs (range (namesFrom rrs)).*1 (g_Origin opt)).
Definition types_at (k : string) : gset Z := default ∅ (namesFrom rrs !! k).

Lemma owners_canonical x : x ∈ nsec_owners → canonical x.
Proof.
  unfold nsec_owners. rewrite sortCanon_perm.
  destruct (addENTs_inv (range (namesFrom rrs)).*1 (g_Origin opt)) as (added & -> & _ & Hc); [apply NoDup_fst_range|].
  intros [Hx|Hx]%elem_of_app; [|rewrite Forall_forall in Hc; by apply Hc].
  apply elem_of_range_fst, namesFrom_spec in Hx as (rr & _ & <-). apply canonical_Canonical.
Qed.

Lemma owners_sorted : StronglySorted canon_lt nsec_owners.
Proof.
  apply sortCanon_strict.
  - destruct (addENTs_inv (range (namesFrom rrs)).*1 (g_Origin opt)) as (added & -> & Hnd & _); [apply NoDup_fst_range|done].
  - intros x Hx. apply owners_canonical. unfold nsec_owners. by rewrite sortCanon_perm.
Qed.

Lemma owners_own rr : rr ∈ rrs → Canonical (rr_Name rr) ∈ nsec_owners.
Proof.
  intros Hrr. unfold nsec_owners. rewrite sortCanon_perm.
  destruct (addENTs_inv (range (namesFrom rrs)).*1 (g_Origin opt)) as (added & -> & _); [apply NoDup_fst_range|].
  apply elem_of_app. left. apply elem_of_range_fst, namesFrom_spec. by exists rr.
Qed.

(** One record for every name, with the next name in canonical order. *)
Lemma buildNSEC_spec k :
  k ∈ nsec_owners →
  ∃ next, canonical next ∧ cyc_next canon_lt (λ x, x ∈ nsec_owners) k next ∧
    ∀ rr, rr ∈ buildNSEC opt rrs ∧ rr_Name rr = k ↔ rr = nsec_record opt k next (types_at k).
Proof.
  intros [i Hi]%list_elem_of_lookup. destruct (cyc_lookup nsec_owners i k Hi) as [next Hn]. exists next.
  assert (∀ j, nsec_owners !! j = Some k → j = i) as Hj.
  { intros j Hj. destruct (Nat.lt_trichotomy i j) as [Hlt|[?|Hlt]]; [exfalso|done|exfalso];
      by eapply (canon_lt_irrefl k), (sorted_lookup_lt canon_lt); [apply owners_sorted| | |exact Hlt]. }
  split_and!.
  - apply owners_canonical. by eapply list_elem_of_lookup_2.
  - apply (sorted_cyc_next canon_lt canon_lt_irrefl canon_lt_trans nsec_owners i); [apply owners_sorted|done..].
  - intros rr. unfold buildNSEC. fold nsec_owners. rewrite elem_of_lookup_imap. split.
    + intros [(j & name & -> & Hname) Hk]. cbn in Hk. subst name. rewrite (Hj j Hname), Hn. done.
    + intros ->. split; [|done]. exists i, k. by rewrite Hn.
Qed.

Lemma buildNSEC_owner rr : rr ∈ buildNSEC opt rrs → rr_Name rr ∈ nsec_owners ∧ rr_Type rr = TypeNSEC.
Proof.
  intros (i & k & -> & Hk)%elem_of_lookup_imap. split; [|done]. by eapply list_elem_of_lookup_2.
Qed.

Lemma elem_of_bitmapOf (X : gset Z) t : t ∈ bitmapOf X ↔ t ∈ X.
Proof. unfold bitmapOf, sortU16. rewrite exchange_sort_perm. apply elem_of_range_set. Qed.
End records.

(** ** In the loaded zone *)

(** A zone completed with records of other types. *)
Section extra.
Context `{DL : !DnsLib, BT : !BTree, MR : !MapRange, CR : !Crypto, NL : !DnsNameLaws, WL : !DnsWireLaws, CL : !CryptoLaws}.
Variables (opt : Options) (rrs extra out : list RR) (ksk zsk : DNSKEY_RR) (kpriv zpriv : Signer) (st : Store).
Hypothesis Hz : signed_zone opt (rrs ++ extra) out ksk zsk kpriv zpriv st.

Lemma out_at_base k t rr :
  t ≠ TypeRRSIG → (∀ r, r ∈ extra → rr_Type r ≠ t) → at_rrset out k t rr ↔ at_rrset rrs k t rr.
Proof.
  intros H1 H2. rewrite (out_at _ _ _ _ _ _ _ _ Hz) by done. unfold at_rrset. rewrite elem_of_app. split; [|naive_solver].
  intros ([Hin|Hin%H2] & ? & ?); [done|congruence].
Qed.

Lemma at_types k t : (∃ rr, at_rrset rrs k t rr) ↔ t ∈ types_at rrs k.
Proof.
  unfold types_at. rewrite (proj2 (namesFrom_spec rrs k)).
  assert (∀ rr, rr ∈ rrs → Canonical (rr_Name rr) = rr_Name rr) as Hc.
  { intros rr Hin. apply (sn_name _ _ (sz_rrs Hz)). apply elem_of_app. by left. }
  split; intros (rr & Hin & Hk & Ht); exists rr; (split_and!; [done| |done]); [by rewrite Hc|by rewrite <-Hc].
Qed.

Lemma out_types k t :
  t ≠ TypeRRSIG → (∀ r, r ∈ extra → rr_Type r ≠ t) → (∃ rr, at_rrset out k t rr) ↔ t ∈ types_at rrs k.
Proof. intros H1 H2. rewrite <-at_types. by setoid_rewrite out_at_base. Qed.

(** The types of a node are those of its sets. *)
Lemma elem_of_Types k n t : st_nodes st !! k = Some n → t ∈ Types n ↔ is_Some (Node_Set n t).
Proof.
  intros Hn. unfold Types. rewrite list_elem_of_fmap. split.
  - intros (set & -> & Hs). rewrite (loaded_find _ _ _ (sz_load Hz) k n set Hn Hs). done.
  - intros [set [Hs <-]%Node_Set_elem]. by exists set.
Qed.

(** A set of an authoritative name is signed, but for the NS records of a delegation. *)
Lemma signed_has_RRSIG k n t :
  st_nodes st !! k = Some n → isAuthoritative st n = true → is_Some (Node_Set n t) → t ≠ TypeRRSIG →
  n_IsDelegation n = false ∨ t ≠ TypeNS → is_Some (Node_Set n TypeRRSIG).
Proof.
  intros Hn Hauth [set [Hs Ht]%Node_Set_elem] Hne Hor.
  destruct (set_signed _ _ _ _ _ _ _ _ Hz k n set Hn Hauth Hs) as (_ & _ & _ & Hnone); [by rewrite Ht|].
  apply not_eq_None_Some. intros E. destruct Hnone as [Hd Hns]; [by unfold RRSIGsCovering; rewrite E|].
  rewrite Ht in Hns. destruct Hor; congruence.
Qed.
End extra.

Section zone.
Context `{DL : !DnsLib, BT : !BTree, MR : !MapRange, CR : !Crypto, NL : !DnsNameLaws, WL : !DnsWireLaws, CL : !CryptoLaws}.
Variables (opt : Options) (rrs out : list RR) (ksk zsk : DNSKEY_RR) (kpriv zpriv : Signer) (st : Store).
Hypotheses (Hz : signed_zone opt (rrs ++ buildNSEC opt rrs) out ksk zsk kpriv zpriv st)
  (Hnsec : ∀ rr, rr ∈ buildNSEC opt rrs → wire_exact rr)
  (Hno : ∀ rr, rr ∈ rrs → rr_Type rr ∉ [TypeNSEC; TypeNSEC3; TypeNSEC3PARAM]).

Lemma rrs_owner rr : rr ∈ rrs ++ buildNSEC opt rrs → rr_Name rr ∈ nsec_owners opt rrs.
Proof.
  intros Hin. pose proof (proj1 (sn_name _ _ (sz_rrs Hz) rr Hin)) as Hc.
  apply elem_of_app in Hin as [Hin|[Hin _]%buildNSEC_owner]; [|done]. rewrite <-Hc. by apply owners_own.
Qed.

Lemma zone_owner k : is_Some (st_nodes st !! k) ↔ k ∈ nsec_owners opt rrs.
Proof.
  rewrite (loaded_node _ _ _ (sz_load Hz) (out_carried _ _ _ _ _ _ _ _ Hz)). split.
  - intros (rr & Hin & <-). destruct (out_cases _ _ _ _ _ _ _ _ Hz rr Hin) as [Hr|(_ & s & key & g & -> & Hg & Hs)]; [by apply rrs_owner|].
    destruct (signed_group _ _ _ _ _ _ _ _ Hz key g s Hg Hs) as (r & Hr & _ & _ & Hh & _).
    unfold rr_Name. cbn. rewrite Hh. by apply rrs_owner.
  - intros Hk. destruct (buildNSEC_spec opt rrs k Hk) as (next & _ & _ & Hall).
    destruct (proj2 (Hall _) eq_refl) as [Hin Hname]. eexists. split; [|exact Hname].
    destruct (signZone_spec _ _ _ _ _ _ _ (sz_sign Hz)) as (sigs & Hout & _). rewrite Hout. apply elem_of_app. left. apply elem_of_app. by right.
Qed.

(** The records of a name other than RRSIG and NSEC are those put in. *)
Lemma zone_at k t : t ≠ TypeRRSIG → t ≠ TypeNSEC →
  (∃ rr, at_rrset out k t rr) ↔ t ∈ types_at rrs k.
Proof.
  intros H1 H2. apply (out_types _ _ _ _ _ _ _ _ _ Hz); [done|]. intros rr [_ ->]%buildNSEC_owner. congruence.
Qed.

(** The NSEC record of a node. *)
Lemma zone_nsec k n :
  st_nodes st !! k = Some n →
  Has n TypeNSEC = true ∧
  ∃ next rr rest, UnpackType n TypeNSEC = Ok (rr :: rest) ∧ canonical next ∧
    cyc_next canon_lt (λ x, x ∈ nsec_owners opt rrs) k next ∧
    as_NSEC rr = Some (mkNSEC next (bitmapOf ({[ TypeNSEC; TypeRRSIG ]} ∪ types_at rrs k))).
Proof.
  intros Hn. assert (k ∈ nsec_owners opt rrs) as Hk by (apply zone_owner; by eexists).
  destruct (buildNSEC_spec opt rrs k Hk) as (next & Hc & Hcyc & Hall).
  assert (∀ r, at_rrset out k TypeNSEC r ↔ r = nsec_record opt k next (types_at rrs k)) as Hat.
  { intros r. rewrite (out_at _ _ _ _ _ _ _ _ Hz) by done. rewrite <-Hall. split.
    - intros ([Hin|Hin]%elem_of_app & Hrk & Ht); [|done]. exfalso. apply (Hno r Hin). rewrite Ht. by left.
    - intros [Hin Hrk]. split; [apply elem_of_app; by right|]. by apply buildNSEC_owner in Hin as [_ ?]. }
  assert (Has n TypeNSEC = true) as HH.
  { apply (loaded_Has _ _ _ (sz_load Hz) (out_carried _ _ _ _ _ _ _ _ Hz) k n TypeNSEC Hn). eexists. by apply Hat. }
  split; [done|]. unfold Has in HH. apply bool_decide_eq_true in HH as [set Hset].
  destruct (loaded_Unpack_same _ _ _ (sz_load Hz) (out_carried _ _ _ _ _ _ _ _ Hz) k n TypeNSEC set Hn Hset) as (l & Hl & Hx).
  { intros r r' ->%Hat ->%Hat. done. }
  assert (nsec_record opt k next (types_at rrs k) ∈ l) as Hin.
  { apply Hx. eexists. split; [by apply Hat|]. symmetry. apply Hnsec. by apply (proj2 (Hall _) eq_refl). }
  destruct l as [|rr rest]; [by apply elem_of_nil in Hin|]. exists next, rr, rest.
  unfold UnpackType. rewrite Hset. split_and!; [done..|].
  assert (rr ∈ rr :: rest) as (r & ->%Hat & ->)%Hx by by left.
  by rewrite (Hnsec _ (proj1 (proj2 (Hall _) eq_refl))).
Qed.

(** Every authoritative name has its NSEC record, with exactly its types. *)
Lemma zone_types k n t :
  st_nodes st !! k = Some n → isAuthoritative st n = true →
  t ∈ Types n ↔ t ∈ ({[ TypeNSEC; TypeRRSIG ]} : gset Z) ∪ types_at rrs k.
Proof.
  intros Hn Hauth. destruct (zone_nsec k n Hn) as [Hhas _]. unfold Has in Hhas. apply bool_decide_eq_true in Hhas.
  rewrite (elem_of_Types _ _ _ _ _ _ _ _ _ Hz k n t Hn), elem_of_union, elem_of_union, !elem_of_singleton.
  destruct (decide (t = TypeNSEC)) as [->|H1]; [split; [by left; left|done]|].
  destruct (decide (t = TypeRRSIG)) as [->|H2].
  { split; [by left; right|]. intros _. apply (signed_has_RRSIG _ _ _ _ _ _ _ _ _ Hz k n TypeNSEC Hn Hauth Hhas); [done|by right]. }
  rewrite (loaded_Set _ _ _ (sz_load Hz) (out_carried _ _ _ _ _ _ _ _ Hz) k n t Hn), zone_at by done. naive_solver.
Qed.

Lemma zone_nsec_ok k n : st_nodes st !! k = Some n → nsec_ok st n.
Proof.
  intros Hn _ Hauth. destruct (zone_nsec k n Hn) as (Hhas & next & rr & rest & Hu & _ & _ & Hd). split; [done|].
  exists rr, rest. split; [done|]. rewrite Hd. intros ? [= <-] t. cbn.
  rewrite elem_of_ExpectedBitmap, elem_of_bitmapOf, <-(zone_types k n t Hn Hauth). naive_solver.
Qed.

(** The records make up one chain. *)
Lemma zone_chain name nsec :
  has_nsec st name → nsec_of st name = Some nsec → cyc_next canon_lt (has_nsec st) name (Canonical (nsec_NextDomain nsec)).
Proof.
  intros (n & Hn & _) Hof. destruct (zone_nsec name n Hn) as (_ & next & rr & rest & Hu & Hc & Hcyc & Hd).
  unfold nsec_of in Hof. rewrite Hn, Hu, Hd in Hof. injection Hof as <-. cbn. rewrite Hc.
  apply (cyc_next_ext canon_lt (λ x, x ∈ nsec_owners opt rrs)); [|done].
  intros x. rewrite <-zone_owner. split.
  - intros [m Hm]. exists m. split; [done|]. by apply (zone_nsec x m).
  - intros (m & Hm & _). by exists m.
Qed.

Lemma zone_no_type t k n : t ∈ [TypeNSEC3; TypeNSEC3PARAM] → st_nodes st !! k = Some n → Node_Set n t = None.
Proof.
  intros Ht Hn. apply eq_None_not_Some.
  assert (t ≠ TypeRRSIG ∧ t ≠ TypeNSEC) as [H1 H2] by (apply elem_of_cons in Ht as [->| ->%list_elem_of_singleton]; done).
  rewrite (loaded_Set _ _ _ (sz_load Hz) (out_carried _ _ _ _ _ _ _ _ Hz) k n t Hn), zone_at by done.
  unfold types_at. rewrite (proj2 (namesFrom_spec rrs k)). intros (rr & Hin & _ & <-). apply (Hno rr Hin). by right.
Qed.
End zone.
