(* ===== verification/Denial3.v ===== *)
(** * The NSEC3 records the generator makes (internal/zonegen/generate.go)

    Every name of the zone that is to have an NSEC3 record gets one, filed
    in the index of the loaded zone under the hash the auditor looks for,
    with the types the auditor finds at the name; the records, sorted by
    their labels, make up the ring of the hashes. What is assumed of the
    hash is [hashes_fine]: twenty bytes in base32hex, different for
    different names of the zone. *)

From S2P Require Import Prelude Cycle GoStrings DnsLib BTree DnsName Base32 HashOrder CanonOrder Node Store StoreSpec StoreTouch StoreRing Snapshot TestPrimary Loaded Config Findings Keys Verify Nsec NsecChain Zonemd Hygiene Pool Full Verdict Zonegen Signed Denial.

(** ** The index of a loaded zone *)

Section index.
Context `{DL : !DnsLib, BT : !BTree, BL : !BTreeLaws, NL : !DnsNameLaws}.
Implicit Types st : Store.

(** The index entries that records call for. *)
Definition nsec3_entry (rrs : list RR) (k : bytes) (r : NSEC3Rec) : Prop :=
  ∃ rr d, rr ∈ rrs ∧ as_NSEC3 rr = Some d ∧ r = nsec3Rec (Canonical (rr_Name rr)) d ∧ k = r3_Hash r.

Lemma add_ring st rr st' :
  class_ok rr = true → addRRLocked st rr = (st', None) → ∀ k r,
  on_ring st' k r ↔ match as_NSEC3 rr with
    | Some d => let rec := nsec3Rec (Canonical (rr_Name rr)) d in if bool_decide (r3_Hash rec = k) then r = rec else on_ring st k r
    | None => on_ring st k r end.
Proof.
  unfold addRRLocked, class_ok, rr_Class, rr_Name. intros Hc. rewrite <-negb_orb, Hc. cbn [negb].
  destruct (PackRR rr); [|done]. intros Ha k r. injection Ha as <-.
  match goal with |- context [if ?b then match ?o with _ => _ end else ?s0] =>
    destruct (serial_frame s0 b o) as (_ & Hs & _); revert Hs; cbv zeta;
    generalize (if b then match o with Some soa => with_serial s0 (soa_Serial soa) | None => s0 end else s0) end.
  intros s1 Hs. cbn [st_nsec3 with_nodes] in Hs. unfold indexRRLocked, on_ring, NSEC3ByHash, as_NSEC3.
  destruct (rr_Data rr); try (cbn [st_nsec3 with_expiry]; rewrite Hs; reflexivity). cbn [st_nsec3 with_nsec3].
  rewrite bt_get_set, Hs. cbv zeta.
  destruct (decide (r3_Hash (nsec3Rec (Canonical (h_Name (rr_Hdr rr))) d) = k)) as [E|E];
    [rewrite !bool_decide_true by done|by rewrite !bool_decide_false by done]. split; [by intros <-%(inj Some)|by intros ->].
Qed.

Lemma add_all_ring rrs pre st st' :
  (∀ rr, rr ∈ rrs → class_ok rr = true) → add_all st rrs = Ok st' →
  (∀ k r, on_ring st k r → nsec3_entry pre k r) → (∀ k r, nsec3_entry pre k r → ring_hash st k) →
  (∀ k r, on_ring st' k r → nsec3_entry (pre ++ rrs) k r) ∧ (∀ k r, nsec3_entry (pre ++ rrs) k r → ring_hash st' k).
Proof.
  revert pre st. induction rrs as [|rr rrs IH]; intros pre st Hc Ha H1 H2; cbn [add_all] in Ha.
  { injection Ha as <-. by rewrite app_nil_r. }
  destruct (addRRLocked st rr) as [st1 [err|]] eqn:E; [done|]. rewrite (cons_middle rr), app_assoc.
  pose proof (add_ring st rr st1 (Hc rr ltac:(by left)) E) as Hr. apply (IH _ st1); [intros; apply Hc; by right|done| |].
  - assert (∀ k r, nsec3_entry pre k r → nsec3_entry (pre ++ [rr]) k r) as Hmono.
    { intros k r (x & d & Hx & ?). exists x, d. split; [apply elem_of_app; by left|done]. }
    intros k r Hk%Hr. destruct (as_NSEC3 rr) as [d|] eqn:Ed; [|by apply Hmono, H1]. cbv zeta in Hk.
    case_bool_decide as Heq; [|by apply Hmono, H1]. exists rr, d. rewrite Hk. split_and!; [|done..].
    apply elem_of_app. right. by apply list_elem_of_singleton.
  - intros k r (x & d & [Hx| ->%list_elem_of_singleton]%elem_of_app & Hd & -> & ->).
    + destruct (H2 (r3_Hash (nsec3Rec (Canonical (rr_Name x)) d)) (nsec3Rec (Canonical (rr_Name x)) d)) as [r Hon]; [by exists x, d|].
      destruct (as_NSEC3 rr) as [d'|] eqn:Ed; [|exists r; by apply Hr].
      destruct (decide (r3_Hash (nsec3Rec (Canonical (rr_Name rr)) d') = r3_Hash (nsec3Rec (Canonical (rr_Name x)) d))) as [Heq|Hne].
      * eexists. apply Hr. cbv zeta. by rewrite bool_decide_true.
      * exists r. apply Hr. cbv zeta. by rewrite bool_decide_false.
    + eexists. apply Hr. rewrite Hd. cbv zeta. by rewrite bool_decide_true.
Qed.

(** When no two entries differ under one hash, the index has them all. *)
Lemma loaded_ring origin rrs st :
  FromAXFR origin rrs = Ok st → (∀ rr, rr ∈ rrs → class_ok rr = true) →
  (∀ k r r', nsec3_entry rrs k r → nsec3_entry rrs k r' → r = r') → ∀ k r, on_ring st k r ↔ nsec3_entry rrs k r.
Proof.
  intros Hl Hc Hu k r. destruct (add_all_ring rrs [] (NewStore origin) st Hc Hl) as [H1 H2].
  - intros k' r'. unfold on_ring, NSEC3ByHash. cbn. by rewrite bt_get_new.
  - by intros ? ? (? & ? & ?%elem_of_nil & _).
  - split; [apply H1|]. intros He. destruct (H2 k r He) as [r' Hr']. by rewrite (Hu k r r' He (H1 _ _ Hr')).
Qed.
End index.

(** ** The items *)

Section items.
Context `{DL : !DnsLib, NL : !DnsNameLaws, MR : !MapRange}.
Variables (opt : Options) (rrs : list RR) (flags : Z).

(** The names [buildNSEC3] goes through, and the records it makes. *)
Definition zone_names : list string := addENTs (range (namesFrom rrs)).*1 (g_Origin opt).
Definition hashed_items : list Hashed :=
  exchange_sort (λ a b, str_ltb (it_hash a) (it_hash b)) (omap (hashed_item opt flags (namesFrom rrs)) zone_names).

(** The hash of a name, as text and as bytes. *)
Definition hash_text (name : string) : string := dns_HashName name SHA1 (g_NSEC3Iters opt) (g_NSEC3Salt opt).
Definition name_hash (name : string) : bytes := ok_or "" (HashFromBase32 (hash_text name)).

(** The parameters the zone shows. *)
Definition param_data : NSEC3PARAM_rdata :=
  let salt := saltOrDash (g_NSEC3Salt opt) in mkNSEC3PARAM SHA1 0 (g_NSEC3Iters opt) (salt_len salt) salt.

(** The salt is in hexadecimal, in lower case; the library writes a hash of
    twenty bytes in base32hex, in upper case; no two names of the zone have
    the same hash. *)
Record hashes_fine : Prop := {
  hf_salt : hex_EncodeToString (saltOf param_data) = g_NSEC3Salt opt;
  hf_sha1 : ∀ name, name ∈ zone_names → ∃ b, String.length b = 20 ∧ hash_text name = ToUpper (Base32Hex b);
  hf_distinct : ∀ a b, a ∈ zone_names → b ∈ zone_names → hash_text a = hash_text b → a = b
}.

Lemma zone_names_spec : NoDup zone_names ∧ (∀ x, x ∈ zone_names → canonical x) ∧ ∀ rr, rr ∈ rrs → Canonical (rr_Name rr) ∈ zone_names.
Proof.
  unfold zone_names. destruct (addENTs_inv (range (namesFrom rrs)).*1 (g_Origin opt)) as (added & -> & Hnd & Hc); [apply NoDup_fst_range|].
  split_and!; [done| |].
  - intros x [Hx|Hx]%elem_of_app; [|rewrite Forall_forall in Hc; by apply Hc].
    apply elem_of_range_fst, namesFrom_spec in Hx as (rr & _ & <-). apply canonical_Canonical.
  - intros rr Hrr. apply elem_of_app. left. apply elem_of_range_fst, namesFrom_spec. by exists rr.
Qed.

Lemma hashed_item_inv name it :
  hashed_item opt flags (namesFrom rrs) name = Some it →
  it_name it = name ∧ it_hash it = ToLower (hash_text name) ∧ it_types it = types_at rrs name.
Proof. unfold hashed_item. cbv zeta. destruct (underDelegation _ _ _); [done|]. destruct (_ && _ && _); [done|]. by intros [= <-]. Qed.

Lemma elem_of_items it :
  it ∈ hashed_items ↔ it_name it ∈ zone_names ∧ hashed_item opt flags (namesFrom rrs) (it_name it) = Some it.
Proof.
  unfold hashed_items. rewrite exchange_sort_perm, list_elem_of_omap. split.
  - intros (name & Hin & Hit). pose proof (hashed_item_inv _ _ Hit) as (-> & _). done.
  - intros [? ?]. by exists (it_name it).
Qed.

Hypothesis Hh : hashes_fine.

Lemma name_hash_spec name :
  name ∈ zone_names → String.length (name_hash name) = 20 ∧ hash_text name = ToUpper (Base32Hex (name_hash name)).
Proof.
  intros Hin. unfold name_hash. destruct (hf_sha1 Hh name Hin) as (b & Hl & ->).
  rewrite HashFromBase32_upper by by destruct b. done.
Qed.

Lemma name_hash_inj a b : a ∈ zone_names → b ∈ zone_names → name_hash a = name_hash b → a = b.
Proof.
  intros Ha Hb E. apply (hf_distinct Hh); [done..|].
  destruct (name_hash_spec a Ha) as [_ ->], (name_hash_spec b Hb) as [_ ->]. by rewrite E.
Qed.

(** The hash the auditor computes. *)
Lemma auditor_hash name : name ∈ zone_names → HashName name SHA1 (g_NSEC3Iters opt) (saltOf param_data) = name_hash name.
Proof.
  intros Hin. destruct zone_names_spec as (_ & Hc & _). unfold HashName. cbv zeta. rewrite (hf_salt Hh), (Hc name Hin : Canonical _ = _).
  destruct (name_hash_spec name Hin) as [Hl Ht]. unfold name_hash in *. fold (hash_text name).
  destruct (HashFromBase32 (hash_text name)) as [b|err] eqn:E; [done|]. by cbn in Hl.
Qed.

Lemma item_spec it :
  it ∈ hashed_items → it_name it ∈ zone_names ∧ String.length (name_hash (it_name it)) = 20 ∧
    it_hash it = Base32Hex (name_hash (it_name it)) ∧ it_types it = types_at rrs (it_name it).
Proof.
  intros [Hin (_ & -> & ->)%hashed_item_inv]%elem_of_items. destruct (name_hash_spec _ Hin) as [Hl ->].
  split_and!; [done..| |done]. by destruct (b32_lower _ (Base32Hex_b32 (name_hash (it_name it)))) as (_ & ? & _).
Qed.

(** They are in the order of the hashes. *)
Lemma items_sorted : StronglySorted str_lt ((λ it, name_hash (it_name it)) <$> hashed_items).
Proof.
  assert (NoDup (it_name <$> hashed_items)) as Hnd.
  { unfold hashed_items. rewrite exchange_sort_perm. destruct zone_names_spec as (Hnd & _).
    induction zone_names as [|name l IH]; [constructor|]. apply NoDup_cons in Hnd as [Hn Hnd]. cbn [omap list_omap].
    destruct (hashed_item opt flags (namesFrom rrs) name) as [it|] eqn:E; [|by apply IH]. cbn. constructor; [|by apply IH].
    intros (it' & Heq & (name' & Hin & (E' & _)%hashed_item_inv)%list_elem_of_omap)%list_elem_of_fmap.
    apply hashed_item_inv in E as (E & _). congruence. }
  assert (StronglySorted (in_order (λ a b, str_ltb (it_hash a) (it_hash b))) hashed_items) as Hs.
  { apply exchange_sort_sorted; unfold in_order.
    - intros a b H%str_ltb_spec. apply str_ltb_in_order. by apply str_lt_le.
    - intros a b c H1%str_ltb_in_order H2%str_ltb_in_order. apply str_ltb_in_order. by etrans. }
  assert (∀ it, it ∈ hashed_items → it ∈ hashed_items) as Hin by done. revert Hin Hnd. revert Hs. generalize hashed_items at 1 2 4 5. intros l Hs.
  induction Hs as [|it l _ IH Hf]; intros Hin Hnd; [constructor|]. rewrite fmap_cons in *. apply NoDup_cons in Hnd as [Hn Hnd].
  constructor; [apply IH; [intros; apply Hin; by right|done]|]. apply Forall_fmap, Forall_forall. intros it' Hit'.
  rewrite Forall_forall in Hf. specialize (Hf it' Hit'). unfold in_order in Hf. apply str_ltb_in_order in Hf. cbn.
  destruct (item_spec it) as (N1 & L1 & E1 & _); [apply Hin; by left|].
  destruct (item_spec it') as (N2 & L2 & E2 & _); [apply Hin; by right|]. rewrite E1, E2 in Hf.
  destruct (str_lt_total (name_hash (it_name it)) (name_hash (it_name it'))) as [?|[Heq|Hlt]]; [done| |]; exfalso.
  - apply Hn. rewrite (name_hash_inj _ _ N1 N2 Heq). by apply list_elem_of_fmap_2.
  - apply (str_lt_irrefl (Base32Hex (name_hash (it_name it')))). eapply str_lt_le_trans; [|exact Hf]. apply Base32Hex_mono; [by rewrite L1|done].
Qed.
End items.

(** ** The records *)

Section records.
Context `{DL : !DnsLib, NL : !DnsNameLaws, MR : !MapRange}.

(** A name put under another. *)
Lemma canonical_under c q o :
  canonical o → isSpace c = false → ToLower (String c q) = String c q → canonical (String c q +:+ "." +:+ o).
Proof.
  intros Ho Hc Hq. pose proof (IsFqdn_Canonical o) as Hf. rewrite Ho in Hf.
  pose proof (Canonical_lower o) as Hl. rewrite Ho in Hl. apply canonical_intro.
  - by apply IsFqdn_app.
  - by rewrite !ToLower_app, Hq, Hl.
  - by apply trim_left_head.
Qed.

Variables (opt : Options) (rrs : list RR) (flags : Z).
Hypotheses (Ho : canonical (g_Origin opt)) (Hh : hashes_fine opt rrs).

Local Abbreviation items := (hashed_items opt rrs flags).
Local Abbreviation hash := (name_hash opt).

Lemma label_shape b : String.length b = 20 → ∃ c s, Base32Hex b = String c s ∧ is_b32 c = true ∧ String.length (Base32Hex b) = 32.
Proof.
  intros Hl. pose proof (Base32Hex_length b) as Hlen. pose proof (Base32Hex_b32 b) as Hall. rewrite Hl in Hlen. change ((8 * Z.of_nat 20 + 4) / 5)%Z with 32%Z in Hlen.
  destruct (Base32Hex b) as [|c s]; [done|]. exists c, s. apply andb_true_iff in Hall as [Hc _]. split_and!; [done..|lia].
Qed.

Lemma label_canonical b : String.length b = 20 → canonical (Base32Hex b +:+ "." +:+ g_Origin opt).
Proof.
  intros Hl. destruct (label_shape b Hl) as (c & s & E & Hc & _). destruct (b32_lower _ (Base32Hex_b32 b)) as (Hlow & _).
  rewrite E in *. apply canonical_under; [done| |done]. destruct (isSpace c) eqn:Hs; [|done].
  exfalso. revert Hc Hs. unfold is_b32, isSpace, in_range. clear. destruct c as [[] [] [] [] [] [] [] []]; vm_compute; congruence.
Qed.

Lemma elem_of_buildNSEC3 rr : rr ∈ buildNSEC3 opt rrs flags ↔
  ∃ i it next, items !! i = Some it ∧ items !! ((i + 1) mod length items) = Some next ∧ rr = nsec3_record opt flags (it_hash next) it.
Proof.
  unfold buildNSEC3. fold (zone_names opt rrs) (hashed_items opt rrs flags). rewrite elem_of_lookup_imap. split.
  - intros (i & it & -> & Hi). destruct (cyc_lookup _ i it Hi) as [next Hn]. exists i, it, next. by rewrite Hn.
  - intros (i & it & next & Hi & Hn & ->). exists i, it. by rewrite Hn.
Qed.

(** The record of an item: its header, and the entry of the index. *)
Lemma nsec3_record_hdr it next : it ∈ items →
  let rr := nsec3_record opt flags next it in
  rr_Name rr = Base32Hex (hash (it_name it)) +:+ "." +:+ g_Origin opt ∧ canonical (rr_Name rr) ∧
  rr_Type rr = TypeNSEC3 ∧ rr_Class rr = ClassINET ∧ rr_Ttl rr = g_TTL opt.
Proof.
  intros (_ & Hl & E & _)%(item_spec _ _ _ Hh). cbv zeta. unfold nsec3_record, rr_Name, rr_Type, rr_Class, rr_Ttl. cbn. rewrite E.
  destruct (b32_lower _ (Base32Hex_b32 (hash (it_name it)))) as (-> & _). split_and!; [done|by apply label_canonical|done..].
Qed.

Lemma nsec3_record_entry it next d : it ∈ items → next ∈ items →
  let rr := nsec3_record opt flags (it_hash next) it in
  as_NSEC3 rr = Some d → let r := nsec3Rec (Canonical (rr_Name rr)) d in
  r3_Hash r = hash (it_name it) ∧ r3_Next r = hash (it_name next) ∧ r3_Iterations r = g_NSEC3Iters opt ∧
  r3_TypeBitMap r = bitmapOf (nsec3_types opt it).
Proof.
  intros Hit Hnext rr. destruct (nsec3_record_hdr it (it_hash next) Hit) as (Hname & Hc & _). fold rr in Hname, Hc. intros Hd. cbv zeta.
  destruct (item_spec _ _ _ Hh it Hit) as (_ & Hl & _), (item_spec _ _ _ Hh next Hnext) as (_ & Hl' & E & _).
  rewrite (Hc : Canonical _ = _), Hname. unfold nsec3Rec. cbn [r3_Hash r3_Next r3_Iterations r3_TypeBitMap].
  rewrite HashFromOwner_label; [|by intros Hnil; rewrite Hnil in Hl|by apply label_canonical].
  unfold as_NSEC3, rr, nsec3_record in Hd. cbn in Hd. injection Hd as <-. cbn.
  rewrite E, HashFromBase32_upper by by intros Hnil; rewrite Hnil in Hl'. done.
Qed.

(** The owner of a record is one the auditor does not ask about. *)
Lemma nsec3_owner it : it ∈ items →
  Parent (Base32Hex (hash (it_name it)) +:+ "." +:+ g_Origin opt) = g_Origin opt →
  isNSEC3Owner (Base32Hex (hash (it_name it)) +:+ "." +:+ g_Origin opt) (g_Origin opt) = true.
Proof.
  intros (_ & Hl & _)%(item_spec _ _ _ Hh) Hp. pose proof (label_canonical _ Hl) as Hc. revert Hl Hp Hc. generalize (hash (it_name it)). intros b Hl Hp Hc.
  destruct (label_shape b Hl) as (c & s & E & _ & Hlen). pose proof (Base32Hex_b32 b) as Hall.
  unfold isNSEC3Owner. rewrite bool_decide_false.
  2:{ intros H%(f_equal String.length). rewrite !str_length_app in H. cbn in H. lia. }
  unfold IsSubdomain. cbv zeta. rewrite (Hc : Canonical _ = _), (Ho : Canonical _ = _).
  rewrite bool_decide_false by (intros H%(f_equal String.length); rewrite !str_length_app in H; cbn in H; lia).
  rewrite HasSuffix_app. cbn [orb negb]. rewrite (bool_decide_true _ Hp). cbn [andb].
  unfold hasTypicalName, indexByte. pose proof (first_label_app (Base32Hex b) (g_Origin opt) Hall) as Hf. unfold first_label in Hf.
  destruct (IndexByte (Base32Hex b +:+ "." +:+ g_Origin opt) ".") as [[|dot]|]; cbv zeta.
  - rewrite E in Hf. done.
  - rewrite Hf. rewrite bool_decide_false by lia. cbn [negb]. rewrite negb_true_iff, negb_false_iff. revert Hall. generalize (Base32Hex b). clear.
    induction s as [|c s IH]; [done|]. cbn. intros [Hc Hs]%andb_true_iff. rewrite (IH Hs). unfold is_hash_char. unfold is_b32 in Hc. by rewrite Hc.
  - apply (f_equal String.length) in Hf. rewrite !str_length_app in Hf. cbn in Hf. lia.
Qed.
End records.

(** ** In the loaded zone *)

(** The wire format has no dash for an empty salt. *)
Definition undash (rr : RR) : RR :=
  match rr_Data rr with
  | RD_NSEC3PARAM d => mkRR (rr_Hdr rr) (RD_NSEC3PARAM (mkNSEC3PARAM (n3p_Hash d) (n3p_Flags d) (n3p_Iterations d) (n3p_SaltLength d)
      (if bool_decide (n3p_Salt d = "-") then "" else n3p_Salt d)))
  | RD_NSEC3 d => mkRR (rr_Hdr rr) (RD_NSEC3 (mkNSEC3 (nsec3_Hash d) (nsec3_Flags d) (nsec3_Iterations d) (nsec3_SaltLength d)
      (if bool_decide (nsec3_Salt d = "-") then "" else nsec3_Salt d) (nsec3_HashLength d) (nsec3_NextDomain d) (nsec3_TypeBitMap d)))
  | _ => rr
  end.

Section zone.
Context `{DL : !DnsLib, BT : !BTree, BL : !BTreeLaws, MR : !MapRange, CR : !Crypto, NL : !DnsNameLaws, WL : !DnsWireLaws, CL : !CryptoLaws}.
Variables (opt : Options) (rrs out : list RR) (flags : Z) (ksk zsk : DNSKEY_RR) (kpriv zpriv : Signer) (st : Store).
Hypotheses (Hz : signed_zone opt (rrs ++ buildNSEC3 opt rrs flags) out ksk zsk kpriv zpriv st)
  (Hh : hashes_fine opt rrs)
  (Hdata : ∀ rr, rr ∈ rrs → as_NSEC3 rr = None)
  (Hno : ∀ rr, rr ∈ rrs → rr_Type rr ≠ TypeNSEC3)
  (Hone : ∀ rr, rr ∈ rrs → rr_Type rr = TypeNSEC3PARAM → rr = param_record opt)
  (Hparam : param_record opt ∈ rrs)
  (Hwire : wire_norm (param_record opt) = param_record opt ∨ wire_norm (param_record opt) = undash (param_record opt))
  (Hparent : ∀ rr, rr ∈ buildNSEC3 opt rrs flags → Parent (rr_Name rr) = g_Origin opt).

Local Abbreviation items := (hashed_items opt rrs flags).
Local Abbreviation hash := (name_hash opt).

Lemma buildNSEC3_type rr : rr ∈ buildNSEC3 opt rrs flags → rr_Type rr = TypeNSEC3.
Proof. by intros (i & it & next & _ & _ & ->)%elem_of_buildNSEC3. Qed.

Lemma zone3_types k t : t ≠ TypeRRSIG → t ≠ TypeNSEC3 → (∃ rr, at_rrset out k t rr) ↔ t ∈ types_at rrs k.
Proof. intros H1 H2. apply (out_types _ _ _ _ _ _ _ _ _ Hz); [done|]. intros rr ->%buildNSEC3_type. congruence. Qed.

(** *** The index *)

Lemma zone3_entry k r :
  nsec3_entry out k r ↔ ∃ i it next d, items !! i = Some it ∧ items !! ((i + 1) mod length items) = Some next ∧
    as_NSEC3 (nsec3_record opt flags (it_hash next) it) = Some d ∧
    r = nsec3Rec (Canonical (rr_Name (nsec3_record opt flags (it_hash next) it))) d ∧ k = hash (it_name it).
Proof.
  split.
  - intros (rr & d & Hin & Hd & -> & ->). destruct (out_cases _ _ _ _ _ _ _ _ Hz rr Hin) as [Hr|(_ & s & key & g & -> & _)]; [|done].
    apply elem_of_app in Hr as [Hr%Hdata|(i & it & next & Hi & Hn & ->)%elem_of_buildNSEC3]; [congruence|].
    exists i, it, next, d. split_and!; [done..|].
    apply (nsec3_record_entry opt rrs flags (sz_origin Hz) Hh it next d); [by eapply list_elem_of_lookup_2..|done].
  - intros (i & it & next & d & Hi & Hn & Hd & -> & ->). exists (nsec3_record opt flags (it_hash next) it), d. split_and!; [|done..|].
    + destruct (signZone_spec _ _ _ _ _ _ _ (sz_sign Hz)) as (sigs & Hout & _). rewrite Hout.
      apply elem_of_app. left. apply elem_of_app. right. apply elem_of_buildNSEC3. by exists i, it, next.
    + symmetry. apply (nsec3_record_entry opt rrs flags (sz_origin Hz) Hh it next d); [by eapply list_elem_of_lookup_2..|done].
Qed.

Lemma zone3_ring k r : on_ring st k r ↔ nsec3_entry out k r.
Proof.
  apply (loaded_ring _ _ _ (sz_load Hz)); [apply (out_carried _ _ _ _ _ _ _ _ Hz)|]. clear k r. intros k r r'.
  intros (i & it & next & d & Hi & Hn & Hd & -> & ->)%zone3_entry (j & it' & next' & d' & Hj & Hn' & Hd' & -> & E)%zone3_entry.
  assert (i = j) as <-; [|congruence].
  assert (∀ n x, items !! n = Some x → ((λ it, hash (it_name it)) <$> items) !! n = Some (hash (it_name x))) as Hl
    by (intros n x H; by rewrite list_lookup_fmap, H).
  apply Hl in Hi, Hj. rewrite <-E in Hj. pose proof (items_sorted opt rrs flags Hh) as Hs.
  destruct (Nat.lt_trichotomy i j) as [Hlt|[?|Hlt]]; [exfalso|done|exfalso]; apply (str_lt_irrefl (hash (it_name it))).
  - exact (sorted_lookup_lt str_lt _ i j _ _ Hs Hi Hj Hlt).
  - exact (sorted_lookup_lt str_lt _ j i _ _ Hs Hj Hi Hlt).
Qed.

Lemma zone3_hash k : k ∈ ((λ it, hash (it_name it)) <$> items) ↔ ring_hash st k.
Proof.
  rewrite list_elem_of_fmap. unfold ring_hash, is_Some. setoid_rewrite zone3_ring. split.
  - intros (it & -> & [i Hi]%list_elem_of_lookup). destruct (cyc_lookup _ i it Hi) as [next Hn].
    eexists. apply zone3_entry. exists i, it, next. by eexists.
  - intros (r & (i & it & next & d & Hi & _ & _ & _ & ->)%zone3_entry). exists it. split; [done|]. by eapply list_elem_of_lookup_2.
Qed.

(** Every record points at the next hash. *)
Lemma zone3_next k r : on_ring st k r → r3_Iterations r = g_NSEC3Iters opt ∧ ring_next st k (r3_Next r).
Proof.
  intros (i & it & next & d & Hi & Hn & Hd & -> & ->)%zone3_ring%zone3_entry.
  destruct (nsec3_record_entry opt rrs flags (sz_origin Hz) Hh it next d) as (_ & -> & -> & _); [by eapply list_elem_of_lookup_2..|done|].
  split; [done|]. apply ring_next_cyc. apply (cyc_next_ext str_lt _ _ _ _ zone3_hash).
  apply (sorted_cyc_next str_lt str_lt_irrefl str_lt_trans _ i); [by apply items_sorted|..]; rewrite list_lookup_fmap; [by rewrite Hi|].
  by rewrite length_fmap, Hn.
Qed.

(** *** The parameters *)

Lemma zone3_param :
  is_Some (st_nodes st !! g_Origin opt) →
  ∃ p, NSEC3PARAM st = Some p ∧ n3p_Hash p = SHA1 ∧ n3p_Iterations p = g_NSEC3Iters opt ∧ saltOf p = saltOf (param_data opt).
Proof.
  intros [apex Ha]. unfold NSEC3PARAM, apex_first, Apex. rewrite (st_is_origin _ _ _ _ _ _ _ _ Hz), Ha. cbn.
  assert (∀ rr, at_rrset out (g_Origin opt) TypeNSEC3PARAM rr ↔ rr = param_record opt) as Hat.
  { intros rr. rewrite (out_at_base _ _ _ _ _ _ _ _ _ Hz) by (done || intros r ->%buildNSEC3_type; done).
    split; [intros (? & _ & ?); by apply Hone|]. intros ->. by split_and!. }
  destruct (proj2 (loaded_Set _ _ _ (sz_load Hz) (out_carried _ _ _ _ _ _ _ _ Hz) _ apex TypeNSEC3PARAM Ha)) as [set Hset].
  { eexists. by apply Hat. }
  destruct (loaded_Unpack_same _ _ _ (sz_load Hz) (out_carried _ _ _ _ _ _ _ _ Hz) _ _ _ _ Ha Hset) as (l & Hl & Hx).
  { intros r r' ->%Hat ->%Hat. done. }
  unfold UnpackType. rewrite Hset, Hl. destruct l as [|x l].
  { exfalso. apply (not_elem_of_nil (A := RR) (wire_norm (param_record opt))), Hx. eexists. by rewrite Hat. }
  assert (x ∈ x :: l) as (rr & ->%Hat & ->)%Hx by by left. cbn.
  destruct Hwire as [-> | ->]; (eexists; split; [reflexivity|]); (split_and!; [reflexivity..|]); [reflexivity|].
  unfold saltOf. cbn. destruct (bool_decide_reflect (saltOrDash (g_NSEC3Salt opt) = "-")) as [->|H]; [done|]. by rewrite (bool_decide_false _ H).
Qed.

(** *** The names *)

(** A delegation of the generator's table is one of the tree. *)
Lemma types_cut q : TypeNS ∈ types_at rrs q → q ≠ g_Origin opt → canonical q → is_cut st q.
Proof.
  intros Hns Hne Hq. unfold types_at in Hns. apply (proj2 (namesFrom_spec rrs q)) in Hns as (rr & Hin & Hk & Ht).
  apply (groups_cut _ _ _ _ _ _ _ _ Hz); [|done..].
  assert (rr ∈ rrs ++ buildNSEC3 opt rrs flags) as Hin' by (apply elem_of_app; by left).
  assert (q +:+ "|" +:+ fmt_d TypeNS = group_key (rr_Name rr) (rr_Type rr)) as -> by (unfold group_key; by rewrite Hk, Ht).
  rewrite (group_of_record _ rr Hin') by by rewrite Ht. by eexists.
Qed.

Lemma under_loop_cut fuel p :
  canonical p → under_loop fuel (namesFrom rrs) (g_Origin opt) p = true →
  ∃ i, is_cut st (iter_n Parent i p) ∧ ∀ j, j ≤ i → iter_n Parent j p ≠ g_Origin opt ∧ iter_n Parent j p ≠ ".".
Proof.
  revert p. induction fuel as [|fuel IH]; intros p Hp H; cbn [under_loop] in H; [done|].
  destruct (decide (p = g_Origin opt)) as [|Hpo]; [by rewrite bool_decide_true in H|].
  destruct (decide (p = ".")) as [|Hpr]; [by rewrite (bool_decide_true (p = ".")), andb_false_r in H|].
  destruct (negb _ && negb _ && negb _); [|done].
  assert (∀ j, j ≤ 0 → iter_n Parent j p ≠ g_Origin opt ∧ iter_n Parent j p ≠ ".") as H0 by (intros j Hj; by replace j with 0 by lia).
  destruct (namesFrom rrs !! p) as [types|] eqn:E.
  - destruct (decide (TypeNS ∈ types)) as [Hns|Hns].
    { exists 0. split; [|done]. cbn. apply types_cut; [|done..]. unfold types_at. by rewrite E. }
    rewrite bool_decide_false in H by done. case_bool_decide; [done|].
    destruct (IH (Parent p)) as (i & Hcut & Hno'); [apply canonical_Parent|done|].
    exists (S i). split; [done|]. intros [|j] Hj; [by apply H0|]. apply (Hno' j). lia.
  - case_bool_decide; [done|]. destruct (IH (Parent p)) as (i & Hcut & Hno'); [apply canonical_Parent|done|].
    exists (S i). split; [done|]. intros [|j] Hj; [by apply H0|]. apply (Hno' j). lia.
Qed.

(** A record has the name of one of those that were signed. *)
Lemma zone3_name k : is_Some (st_nodes st !! k) → ∃ rr, rr ∈ rrs ++ buildNSEC3 opt rrs flags ∧ rr_Name rr = k.
Proof.
  rewrite (loaded_node _ _ _ (sz_load Hz) (out_carried _ _ _ _ _ _ _ _ Hz)). intros (rr & Hin & <-).
  destruct (out_cases _ _ _ _ _ _ _ _ Hz rr Hin) as [Hr|(_ & s & key & g & -> & Hg & Hs)]; [by exists rr|].
  destruct (signed_group _ _ _ _ _ _ _ _ Hz key g s Hg Hs) as (r & Hr & _ & _ & Hh' & _).
  exists r. split; [done|]. unfold rr_Name at 2. cbn. by rewrite Hh'.
Qed.

(** What the generator takes for glue the auditor does not ask about. *)
Lemma under_not_authoritative k n :
  st_nodes st !! k = Some n → underDelegation (namesFrom rrs) (g_Origin opt) k = true → isAuthoritative st n = false.
Proof.
  intros Hn Hu. pose proof (loaded_node_wf _ _ _ (sz_load Hz) k n Hn) as Hwf.
  pose proof (nw_name _ _ _ Hwf) as Hname. pose proof (nw_canonical _ _ _ Hwf) as Hc.
  destruct (under_loop_cut _ _ (canonical_Parent k) Hu) as (i & Hcut & Hno').
  destruct (decide (k = g_Origin opt)) as [Hk|Hk].
  - exfalso. destruct Hcut as (m & Hm & _). unfold Lookup in Hm. rewrite Hk in *.
    assert (g_Origin opt ≠ ".") as Hr by (intros Hr; destruct (Hno' 0) as [H _]; [lia|]; apply H; cbn; by rewrite Hr, Parent_root).
    destruct (ancestor_shorter (g_Origin opt) i (sz_origin Hz) Hr) as [Hca Hlt]. rewrite (Hca : Canonical _ = _) in Hm.
    destruct (zone3_name _ (mk_is_Some _ _ Hm)) as (rr & Hin & Hrk). pose proof (sn_zone _ _ (sz_rrs Hz) rr Hin) as Hsuf.
    apply HasSuffix_spec in Hsuf as [q Hq]. rewrite Hrk in Hq. rewrite Hq, str_length_app in Hlt. lia.
  - apply isAuthoritative_spec; [by rewrite Hname|]. rewrite Hname, (st_is_origin _ _ _ _ _ _ _ _ Hz). split; [done|].
    exists i. rewrite (st_is_origin _ _ _ _ _ _ _ _ Hz). by split.
Qed.

(** A name the auditor asks about is among the items. *)
Lemma zone3_item k n :
  st_nodes st !! k = Some n → isNSEC3Owner k (g_Origin opt) = false → needsNSEC3 st n = true →
  isAuthoritative st n = true ∧ ∃ it, it ∈ items ∧ it_name it = k.
Proof.
  intros Hn Hown Hneed. pose proof (loaded_node_wf _ _ _ (sz_load Hz) k n Hn) as Hwf. pose proof (nw_name _ _ _ Hwf) as Hname.
  assert (isAuthoritative st n = true) as Hauth.
  { unfold needsNSEC3 in Hneed. unfold isAuthoritative. case_bool_decide; [done|]. unfold isAuthoritative in Hneed.
    rewrite bool_decide_false in Hneed by done. by destruct (default true _). }
  split; [done|].
  assert (∃ rr, rr ∈ rrs ∧ rr_Name rr = k) as (rr & Hin & Hk).
  { destruct (zone3_name k) as (rr & [Hin|Hin]%elem_of_app & Hk); [by eexists|by exists rr|]. exfalso.
    pose proof (Hparent rr Hin) as Hp. apply elem_of_buildNSEC3 in Hin as (i & it & next & Hi & _ & ->).
    assert (it ∈ items) as Hit by by eapply list_elem_of_lookup_2.
    destruct (nsec3_record_hdr opt rrs flags (sz_origin Hz) Hh it (it_hash next) Hit) as (Hnm & _). rewrite Hnm in *.
    rewrite <-Hk, (nsec3_owner opt rrs flags (sz_origin Hz) Hh it Hit Hp) in Hown. done. }
  assert (k ∈ zone_names opt rrs) as Hz'.
  { rewrite <-Hk. rewrite <-(proj1 (sn_name _ _ (sz_rrs Hz) rr (proj2 (elem_of_app _ _ _) (or_introl Hin)))).
    by apply (zone_names_spec opt rrs). }
  assert (hashed_item opt flags (namesFrom rrs) k = Some (mkHashed (ToLower (hash_text opt k)) k (types_at rrs k))) as Hit.
  2:{ exists (mkHashed (ToLower (hash_text opt k)) k (types_at rrs k)). split; [|reflexivity]. apply elem_of_items. split; [exact Hz'|exact Hit]. }
  unfold hashed_item. cbv zeta. destruct (underDelegation _ _ k) eqn:Hu.
  { rewrite (under_not_authoritative k n Hn Hu) in Hauth. done. }
  fold (types_at rrs k). assert (isDelegation (types_at rrs k) (g_Origin opt) k && negb (bool_decide (TypeDS ∈ types_at rrs k)) = false) as ->; [|done].
  rewrite <-(needsNSEC3_secure st k n Hwf Hneed), (nw_delegation _ _ _ Hwf), (nw_ds _ _ _ Hwf), (st_is_origin _ _ _ _ _ _ _ _ Hz).
  pose proof (λ t, loaded_Has _ _ _ (sz_load Hz) (out_carried _ _ _ _ _ _ _ _ Hz) k n t Hn) as HH.
  assert (∀ t, t ≠ TypeRRSIG → t ≠ TypeNSEC3 → Has n t = bool_decide (t ∈ types_at rrs k)) as Ht.
  { intros t H1 H2. apply eq_true_iff_eq. rewrite HH, bool_decide_eq_true. by apply zone3_types. }
  rewrite !Ht by done. unfold isDelegation. by destruct (bool_decide (k = g_Origin opt)).
Qed.

(** ** Denial of existence *)

Lemma zone3_types_at k n it t :
  st_nodes st !! k = Some n → isAuthoritative st n = true → needsNSEC3 st n = true → it ∈ items → it_name it = k →
  (t ∈ Types n ∧ t ≠ TypeNSEC3) ↔ t ∈ nsec3_types opt it.
Proof.
  clear Hwire Hparam Hparent. intros Hn Hauth Hneed Hit Hk. destruct (item_spec opt rrs flags Hh it Hit) as (_ & _ & _ & Hty).
  pose proof (loaded_node_wf _ _ _ (sz_load Hz) k n Hn) as Hwf.
  pose proof (λ t, loaded_Set _ _ _ (sz_load Hz) (out_carried _ _ _ _ _ _ _ _ Hz) k n t Hn) as HS.
  rewrite (elem_of_Types _ _ _ _ _ _ _ _ _ Hz k n t Hn). unfold nsec3_types. rewrite Hty, Hk, elem_of_union, elem_of_singleton, elem_of_filter.
  destruct (decide (t = TypeRRSIG)) as [->|Hrs].
  { split; [by left|]. intros _. split; [|done].
    assert (n_IsDelegation n = false ∨ n_HasDS n = true) as Hd.
    { pose proof (needsNSEC3_secure st k n Hwf Hneed) as H. destruct (n_IsDelegation n); [|by left]. right. by destruct (n_HasDS n). }
    assert (∃ u, u ≠ TypeRRSIG ∧ is_Some (Node_Set n u) ∧ (n_IsDelegation n = false ∨ u ≠ TypeNS)) as (u & Hu & Hs & Hor).
    { destruct Hd as [Hd|Hd].
      - destruct (zone3_name k (mk_is_Some _ _ Hn)) as (rr & Hin & Hrk). exists (rr_Type rr).
        pose proof (proj2 (sn_type _ _ (sz_rrs Hz) rr Hin)) as Hne. split_and!; [done| |by left].
        apply HS. exists rr. by apply (out_at _ _ _ _ _ _ _ _ Hz).
      - exists TypeDS. rewrite (nw_ds _ _ _ Hwf) in Hd. unfold Has in Hd. apply bool_decide_eq_true in Hd. split_and!; [done..|by right]. }
    by apply (signed_has_RRSIG _ _ _ _ _ _ _ _ _ Hz k n u). }
  destruct (decide (t = TypeNSEC3)) as [->|H3]; [naive_solver|]. rewrite HS, zone3_types by done.
  assert (t ∈ types_at rrs k → t = TypeNSEC3PARAM → k = g_Origin opt) as Hp; [|naive_solver].
  intros Hin ->. unfold types_at in Hin. apply (proj2 (namesFrom_spec rrs k)) in Hin as (rr & Hr & <- & Ht).
  rewrite (Hone rr Hr Ht). exact (sz_origin Hz).
Qed.

Lemma zone3_nsec3_ok k n p :
  st_nodes st !! k = Some n → n3p_Hash p = SHA1 → n3p_Iterations p = g_NSEC3Iters opt → saltOf p = saltOf (param_data opt) →
  nsec3_ok st n p.
Proof.
  intros Hn Hp1 Hp2 Hp3 Hown Hneed. pose proof (nw_name _ _ _ (loaded_node_wf _ _ _ (sz_load Hz) k n Hn)) as Hname.
  rewrite Hname, (st_is_origin _ _ _ _ _ _ _ _ Hz) in Hown. destruct (zone3_item k n Hn Hown Hneed) as (Hauth & it & Hit & Hk).
  rewrite Hname, Hp1, Hp2, Hp3, <-Hk, (auditor_hash opt rrs Hh) by by apply (item_spec opt rrs flags Hh it Hit).
  pose proof Hit as [i Hi]%list_elem_of_lookup. destruct (cyc_lookup _ i it Hi) as [next Hnx].
  eexists. split; [apply zone3_ring, zone3_entry; exists i, it, next; by eexists|]. intros t.
  destruct (nsec3_record_entry opt rrs flags (sz_origin Hz) Hh it next _ Hit ltac:(by eapply list_elem_of_lookup_2) eq_refl) as (_ & _ & _ & ->).
  rewrite elem_of_bitmapOf, elem_of_ExpectedBitmap, <-(zone3_types_at k n it t) by done. naive_solver.
Qed.
End zone.
