(* ===== verification/Sealed.v ===== *)
(** * Generated zones are valid (internal/zonegen/generate.go)

    The generator against the auditor: a zone completed with the records of
    [buildNSEC] or [buildNSEC3] and signed with [signZone] satisfies every
    check of a full pass, and so do the zones [Generate] makes. The two
    sides were written from the same RFCs and share no code but the names,
    the store and the packing of records; the theorem goes through all of
    them. *)

From S2P Require Import Prelude Cycle GoStrings Decimal DnsLib BTree DnsName Base32 CanonOrder Node Store StoreSpec Snapshot TestPrimary Loaded Config Findings Keys Verify Nsec NsecChain Zonemd Hygiene Pool Full Verdict Zonegen Signed Denial Denial3 Toy.

Lemma length_omap_le {A B} (f : A → option B) l : length (omap f l) ≤ length l.
Proof. induction l as [|x l IH]; cbn; [done|]. destruct (f x); cbn; lia. Qed.

Lemma mapM_result_length {A B} (f : A → result B) l ys : mapM_result f l = Ok ys → length ys = length l.
Proof.
  revert ys. induction l as [|x l IH]; intros ys H; cbn in H; [by injection H as <-|].
  destruct (f x); [|done]. cbn in H. destruct (mapM_result f l); [|done]. injection H as <-. cbn. by rewrite (IH _ eq_refl).
Qed.

Section sealed.
Context `{DL : !DnsLib, BT : !BTree, MR : !MapRange, CR : !Crypto, NL : !DnsNameLaws, WL : !DnsWireLaws, CL : !CryptoLaws}.

(** The records the generator completes: a SOA; DNSKEYs at the origin, few
    of them, among them the two the zone is signed with; nothing of denial
    of existence and no digest. *)
Record base_zone (opt : Options) (rrs : list RR) (ksk zsk : DNSKEY_RR) : Prop := {
  bz_soa : ∃ rr, at_rrset rrs (g_Origin opt) TypeSOA rr;
  bz_keys : ∀ rr, at_rrset rrs (g_Origin opt) TypeDNSKEY rr → wire_exact rr ∧
    ∃ key, rr = key_rr key ∧ is_ok (parsePublicKey key.2) = true;
  bz_few : length (List.filter (λ rr, bool_decide (rr_Type rr = TypeDNSKEY)) rrs) ≤ 3;
  bz_ksk : at_rrset rrs (g_Origin opt) TypeDNSKEY (key_rr ksk) ∧ Z.testbit (key_Flags ksk.2) 0 = true;
  bz_zsk : at_rrset rrs (g_Origin opt) TypeDNSKEY (key_rr zsk);
  bz_types : ∀ rr, rr ∈ rrs → rr_Type rr ∉ [TypeNSEC; TypeNSEC3; TypeNSEC3PARAM; TypeZONEMD]
}.

(** Of what kind the records of denial of existence are. *)
Definition denial_type (t : Z) : bool := bool_decide (t ∈ [TypeNSEC; TypeNSEC3; TypeNSEC3PARAM]).

Lemma denial_type_ok t : denial_type t = true → (0 ≤ t)%Z ∧ t ≠ TypeRRSIG.
Proof. intros H%bool_decide_eq_true. revert t H. apply Forall_forall. apply (bool_decide_unpack (Forall _ _)). vm_compute. done. Qed.

Variables (opt : Options) (rrs extra out : list RR) (ksk zsk : DNSKEY_RR) (kpriv zpriv : Signer) (st : Store) (v : Verifier).
Hypotheses (Hz : signed_zone opt (rrs ++ extra) out ksk zsk kpriv zpriv st)
  (Hb : base_zone opt rrs ksk zsk)
  (Hextra : ∀ rr, rr ∈ extra → denial_type (rr_Type rr) = true)
  (Hdenial : ∀ k n, st_nodes st !! k = Some n → denial_ok st n)
  (Hchain : chain_ok st).

Lemma base_at k t rr : t ≠ TypeRRSIG → denial_type t = false → at_rrset out k t rr ↔ at_rrset rrs k t rr.
Proof.
  intros H1 H2. apply (out_at_base _ _ _ _ _ _ _ _ _ Hz); [done|]. intros r Hr%Hextra E. rewrite E in Hr. congruence.
Qed.

Lemma apex_is : ∃ apex, st_nodes st !! g_Origin opt = Some apex ∧ Apex st = Some apex ∧ isAuthoritative st apex = true.
Proof.
  destruct (bz_soa _ _ _ _ Hb) as (rr & Hat). pose proof Hat as (_ & Hname & _).
  destruct (proj2 (loaded_node _ _ _ (sz_load Hz) (out_carried _ _ _ _ _ _ _ _ Hz) (g_Origin opt))) as [apex Ha].
  { exists rr. split; [|done]. apply (base_at _ _ rr) in Hat; [apply Hat|done..]. }
  exists apex. unfold Apex, isAuthoritative. rewrite (st_is_origin _ _ _ _ _ _ _ _ Hz). split_and!; [done..|].
  rewrite (nw_name _ _ _ (loaded_node_wf _ _ _ (sz_load Hz) _ _ Ha)). by rewrite bool_decide_true.
Qed.

Lemma apex_Has apex t : st_nodes st !! g_Origin opt = Some apex → t ≠ TypeRRSIG → denial_type t = false →
  is_Some (Node_Set apex t) ↔ ∃ rr, at_rrset rrs (g_Origin opt) t rr.
Proof.
  intros Ha H1 H2. rewrite (loaded_Set _ _ _ (sz_load Hz) (out_carried _ _ _ _ _ _ _ _ Hz) _ apex t Ha).
  by setoid_rewrite base_at.
Qed.

(** ** The keys *)

(** A DNSKEY RRset holds at most as many records as were put in. *)
Lemma few_keys apex set :
  st_nodes st !! g_Origin opt = Some apex → Node_Set apex TypeDNSKEY = Some set → length (rs_Rdata set) ≤ 3.
Proof.
  intros Ha Hset. pose proof (loaded_node_wf _ _ _ (sz_load Hz) _ _ Ha) as Hwf.
  etrans; [|apply (bz_few _ _ _ _ Hb)].
  set (pack := λ rr, match PackRR rr with Ok w => w | Err _ => "" end).
  transitivity (length (pack <$> List.filter (λ rr, bool_decide (rr_Type rr = TypeDNSKEY)) rrs)); [|by rewrite length_fmap].
  apply submseteq_length, NoDup_submseteq.
  - apply Node_Set_elem in Hset as [Hin _]. destruct (nw_sets _ _ _ Hwf) as [_ Hne]. rewrite Forall_forall in Hne. by apply Hne.
  - intros w Hw. apply (Node_Set_recs _ _ _ w (nw_sets _ _ _ Hwf) Hset) in Hw.
    apply (loaded_node_recs _ _ _ (sz_load Hz) (out_carried _ _ _ _ _ _ _ _ Hz) _ _ _ _ Ha) in Hw as (rr & Hat & Hp).
    apply base_at in Hat as (Hin & _ & Ht); [|done..]. apply list_elem_of_fmap. exists rr. unfold pack. rewrite Hp. split; [done|].
    apply elem_of_filter_b. split; [done|]. by apply bool_decide_eq_true.
Qed.

Lemma apex_keys :
  ∃ keys, DNSKEYs st = Ok keys ∧ length keys ≤ 3 ∧ ∀ key, key ∈ keys ↔ at_rrset rrs (g_Origin opt) TypeDNSKEY (key_rr key).
Proof.
  destruct apex_is as (apex & Ha & HA & _). unfold DNSKEYs, UnpackType. rewrite HA.
  destruct (proj2 (apex_Has apex TypeDNSKEY Ha ltac:(done) ltac:(done))) as [set Hset]; [exists (key_rr zsk); apply Hb|].
  rewrite Hset. pose proof (few_keys apex set Ha Hset) as Hfew.
  destruct (loaded_Unpack_same _ _ _ (sz_load Hz) (out_carried _ _ _ _ _ _ _ _ Hz) _ _ _ _ Ha Hset) as (l & Hl & Hx).
  { by apply (out_ttl _ _ _ _ _ _ _ _ Hz). }
  rewrite Hl. eexists. split; [reflexivity|]. split.
  - etrans; [apply length_omap_le|]. unfold Unpack in Hl. by rewrite (mapM_result_length _ _ _ Hl).
  - intros key. rewrite list_elem_of_omap. setoid_rewrite Hx. split.
    + intros (x & (rr & Hat & ->) & Hk). apply base_at in Hat; [|done..]. destruct (bz_keys _ _ _ _ Hb rr Hat) as (He & k & -> & _).
      unfold wire_exact in He. rewrite He in Hk. cbn in Hk. injection Hk as <-. destruct k. exact Hat.
    + intros Hat. destruct (bz_keys _ _ _ _ Hb _ Hat) as (He & _). exists (key_rr key). split.
      * exists (key_rr key). split; [by apply base_at|done].
      * cbn. by destruct key.
Qed.

(** They all parse. *)
Lemma keys_parse keys : (∀ key, key ∈ keys → is_ok (parsePublicKey key.2) = true) → ∃ cached, cacheKeys keys = Ok cached.
Proof.
  unfold cacheKeys. induction keys as [|key keys IH]; intros H; cbn [mapM_result]; [by exists []|].
  assert (is_ok (parsePublicKey key.2) = true) as Hk by (apply H; by left).
  destruct IH as [cached Hc]; [intros k Hin; apply H; by right|]. rewrite Hc.
  unfold cacheKey. destruct (parsePublicKey key.2) as [pub|]; [|done]. cbn. by eexists.
Qed.

Lemma cached_key keys cached key : cacheKeys keys = Ok cached → key ∈ keys →
  ∃ c, c ∈ cached ∧ cacheKey key = Ok c.
Proof.
  unfold cacheKeys. revert cached. induction keys as [|k keys IH]; intros cached H Hin; [by apply elem_of_nil in Hin|].
  cbn [mapM_result] in H. destruct (cacheKey k) as [c|] eqn:Hc; [|done]. cbn in H.
  destruct (mapM_result cacheKey keys) as [cs|]; [|done]. injection H as <-.
  apply elem_of_cons in Hin as [->|Hin]; [exists c; split; [by left|done]|].
  destruct (IH cs eq_refl Hin) as (c' & ? & ?). exists c'. split; [by right|done].
Qed.

(** The two keys are among those of the pass. *)
Lemma key_among keys cached key :
  cacheKeys keys = Ok cached → key ∈ keys → Z.testbit (key_Flags key.2) 8 = true →
  ∃ c, c ∈ cached ∧ ck_RR c = key ∧ ck_KeyTag c = KeyTag key.2 ∧ ck_Alg c = key_Algorithm key.2 ∧ ck_IsZone c = true ∧
    ck_IsKSK c = Z.testbit (key_Flags key.2) 0.
Proof.
  intros Hc Hin Hf. destruct (cached_key keys cached key Hc Hin) as (c & Hcin & (? & ? & ? & _ & ? & Hzone)%cacheKey_spec).
  exists c. rewrite Hf in Hzone. done.
Qed.

(** The KSK signs the DNSKEY RRset. *)
Lemma sealed_ksk keys cached :
  (∀ key, key ∈ keys ↔ at_rrset rrs (g_Origin opt) TypeDNSKEY (key_rr key)) → cacheKeys keys = Ok cached → ksk_signs st cached.
Proof.
  intros Hkeys Hc apex set l HA Hset Hl. destruct apex_is as (apex' & Ha & HA' & Hauth). rewrite HA in HA'. injection HA' as <-.
  pose proof (Node_Set_elem _ _ _ Hset) as [Hin Ht].
  destruct (key_among keys cached ksk Hc) as (c & Hcin & HcR & Hctag & _ & _ & Hck); [apply Hkeys, Hb|apply Hz|].
  rewrite (proj2 (bz_ksk _ _ _ _ Hb)) in Hck.
  assert (rs_Type set ≠ TypeRRSIG) as Hns by by rewrite Ht.
  destruct (set_signed _ _ _ _ _ _ _ _ Hz _ apex set Ha Hauth Hin Hns) as (Ht0 & _ & Hsigs & Hnone). cbv zeta in Hsigs. rewrite Ht in *.
  destruct (RRSIGsCovering apex TypeDNSKEY) as [|sig sigs] eqn:Ecov; [by destruct (Hnone eq_refl)|].
  destruct (Hsigs sig) as (s & -> & Hs); [by left|]. pose proof Hs as (rr & rest & Hg & _). rewrite Hg in Hs. rewrite <-Ht in Hg.
  rewrite <-Ht in Ht0, Hns. destruct (signed_Verify _ _ _ _ _ _ _ _ Hz _ apex set s rr rest l Ha Hin Ht0 Hns Hg Hs Hl) as (F6 & _ & Hv).
  assert ((signer_for opt ksk zsk kpriv zpriv (rr_Hdr rr)).2 = ksk) as Hk.
  { assert (at_rrset (rrs ++ extra) (g_Origin opt) TypeDNSKEY rr) as (_ & Hname & Hty).
    { rewrite <-Ht. apply (group_iff _ _ _ _ _ _ _ _ Hz); [apply Hz|done..|]. rewrite Hg. by left. }
    unfold signer_for. unfold rr_Name, rr_Type in *. rewrite Hname, Hty, (sz_origin Hz : Canonical _ = _), !bool_decide_true by done. done. }
  rewrite Hk in F6, Hv. exists (ParseRRSIG s.2), c. rewrite HcR. split_and!; [by left|done..| |done]. rewrite Hctag. symmetry. exact F6.
Qed.

(** ** The verdict *)

Lemma tags_few keys : length keys ≤ 3 → tags_spread keys.
Proof. intros H tag. etrans; [apply List.filter_length_le|done]. Qed.

Lemma sealed_nodes keys cached k n :
  (∀ key, key ∈ keys ↔ at_rrset rrs (g_Origin opt) TypeDNSKEY (key_rr key)) → cacheKeys keys = Ok cached →
  (u32 (now32 v + skew32 v) <? g_Inception opt)%Z = false → (u32 (g_Expiration opt + skew32 v) <? now32 v)%Z = false →
  st_nodes st !! k = Some n → node_passes v st cached n.
Proof.
  intros Hkeys Hc Hinc Hexp Hn. split; [|by apply (Hdenial k)].
  intros Hauth set Hset Ht _.
  assert (∀ key, at_rrset rrs (g_Origin opt) TypeDNSKEY (key_rr key) → Z.testbit (key_Flags key.2) 8 = true → cached_among cached key) as Ha.
  { intros key Hk%Hkeys Hf. destruct (key_among keys cached key Hc Hk Hf) as (c & ? & ? & ? & ? & ? & _). by exists c. }
  apply (signed_passes _ _ _ _ _ _ _ _ Hz v cached k n set); [apply Ha; [apply Hb|apply Hz]|apply Ha; [apply Hb|apply Hz]|done..].
Qed.

Theorem sealed_verdict :
  (u32 (now32 v + skew32 v) <? g_Inception opt)%Z = false → (u32 (g_Expiration opt + skew32 v) <? now32 v)%Z = false →
  ToLower (vf_ZONEMD (v_cfg v)) ≠ "on" → verdict v st.
Proof.
  intros Hinc Hexp Hmd. destruct apex_is as (apex & Ha & HA & Hauth). split.
  { unfold has_SOA. rewrite HA. unfold Has. apply bool_decide_eq_true. apply (apex_Has apex TypeSOA Ha); [done..|]. apply Hb. }
  destruct apex_keys as (keys & -> & Hlen & Hkeys). enough (∃ cached, cacheKeys keys = Ok cached ∧ zone_passes v st cached) by by destruct keys.
  destruct (keys_parse keys) as [cached Hc]; [|exists cached; split; [done|]].
  { intros k Hk%Hkeys. destruct (bz_keys _ _ _ _ Hb _ Hk) as (_ & k' & E & Hp). destruct k, k'. unfold key_rr in E. cbn in *. by injection E as -> ->. }
  split_and!.
  - apply tags_few. by rewrite <-(length_fmap ck_RR), (cacheKeys_RR _ _ Hc).
  - by apply (sealed_ksk keys).
  - intros name n Hn. by apply (sealed_nodes keys cached name n).
  - done.
  - unfold zonemd_passes, zonemd_records. rewrite HA. unfold UnpackType.
    assert (Node_Set apex TypeZONEMD = None) as ->; [|done]. apply eq_None_not_Some.
    rewrite (apex_Has apex TypeZONEMD Ha) by done. intros (rr & Hin & _ & Ht). apply (bz_types _ _ _ _ Hb rr Hin). rewrite Ht. set_solver.
Qed.
End sealed.

(** ** The two kinds of denial *)

Section denial.
Context `{DL : !DnsLib, BT : !BTree, BL : !BTreeLaws, MR : !MapRange, CR : !Crypto, NL : !DnsNameLaws, WL : !DnsWireLaws, CL : !CryptoLaws}.
Variables (opt : Options) (rrs out : list RR) (ksk zsk : DNSKEY_RR) (kpriv zpriv : Signer) (st : Store).
Hypotheses (Hb : base_zone opt rrs ksk zsk) (Hapex : is_Some (st_nodes st !! g_Origin opt)).

Lemma nsec_denial :
  signed_zone opt (rrs ++ buildNSEC opt rrs) out ksk zsk kpriv zpriv st → (∀ rr, rr ∈ buildNSEC opt rrs → wire_exact rr) →
  (∀ k n, st_nodes st !! k = Some n → denial_ok st n) ∧ chain_ok st.
Proof.
  intros Hz Hnsec. destruct Hapex as [apex Ha].
  assert (∀ rr, rr ∈ rrs → rr_Type rr ∉ [TypeNSEC; TypeNSEC3; TypeNSEC3PARAM]) as Hno.
  { intros rr Hin H. apply (bz_types _ _ _ _ Hb rr Hin). set_solver. }
  assert (NSEC3PARAM st = None) as Hparam.
  { unfold NSEC3PARAM, apex_first, Apex. rewrite (st_is_origin _ _ _ _ _ _ _ _ Hz), Ha. cbn. unfold UnpackType.
    by rewrite (zone_no_type opt rrs out ksk zsk kpriv zpriv st Hz Hno TypeNSEC3PARAM _ apex) by (done || set_solver). }
  unfold denial_ok, chain_ok. rewrite Hparam. split.
  - intros k n Hn _. by apply (zone_nsec_ok opt rrs out ksk zsk kpriv zpriv st Hz Hnsec Hno k n).
  - apply (zone_chain opt rrs out ksk zsk kpriv zpriv st Hz Hnsec Hno).
Qed.

(** What the decoder makes of a record: itself, but for the dash. *)
Definition decodes (rr : RR) : Prop := wire_norm rr = rr ∨ wire_norm rr = undash rr.

Lemma nsec3_denial flags :
  let prrs := rrs ++ [param_record opt] in
  signed_zone opt (prrs ++ buildNSEC3 opt prrs flags) out ksk zsk kpriv zpriv st → hashes_fine opt prrs →
  (∀ rr, rr ∈ rrs → as_NSEC3 rr = None) → decodes (param_record opt) →
  (∀ rr, rr ∈ buildNSEC3 opt prrs flags → Parent (rr_Name rr) = g_Origin opt) →
  (∀ k n, st_nodes st !! k = Some n → denial_ok st n) ∧ chain_ok st.
Proof.
  intros prrs Hz Hh Hdata Hwire Hparent.
  assert (∀ rr, rr ∈ prrs → rr = param_record opt ∨ rr ∈ rrs) as Hin.
  { intros rr [?| ->%list_elem_of_singleton]%elem_of_app; [by right|by left]. }
  assert (∀ rr, rr ∈ prrs → as_NSEC3 rr = None) as Hd by (intros rr [->|?%Hdata]%Hin; done).
  assert (∀ rr, rr ∈ prrs → rr_Type rr ≠ TypeNSEC3) as Hno.
  { intros rr [->|Hr]%Hin; [done|]. intros Ht. apply (bz_types _ _ _ _ Hb rr Hr). rewrite Ht. set_solver. }
  assert (∀ rr, rr ∈ prrs → rr_Type rr = TypeNSEC3PARAM → rr = param_record opt) as Hone.
  { intros rr [->|Hr]%Hin; [done|]. intros Ht. destruct (bz_types _ _ _ _ Hb rr Hr). rewrite Ht. set_solver. }
  assert (param_record opt ∈ prrs) as Hp by (apply elem_of_app; right; by apply list_elem_of_singleton).
  destruct (zone3_param opt prrs out flags ksk zsk kpriv zpriv st Hz Hone Hp Hwire Hapex) as (p & E & H1 & H2 & H3).
  unfold denial_ok, chain_ok. rewrite E. split.
  - intros k n Hn. by apply (zone3_nsec3_ok opt prrs out flags ksk zsk kpriv zpriv st) with (k := k).
  - rewrite H2. split; intros k r Hr; by apply (zone3_next opt prrs out flags ksk zsk kpriv zpriv st Hz Hh Hd k r Hr).
Qed.
End denial.

(** ** The records Generate starts from *)

Section names.
Context `{DL : !DnsLib, NL : !DnsNameLaws}.

(** Numbers are in lower case. *)
Lemma digits_lower n : ToLower (digits n) = digits n.
Proof.
  induction n as [n IH] using (well_founded_induction N.lt_wf_0).
  destruct (decide (n = 0%N)) as [->|Hn]; [by rewrite digits_0|].
  rewrite digits_step by lia. rewrite ToLower_app, IH by (apply N.div_lt; lia). f_equal.
  assert (n mod 10 < 10)%N as Hlt by (apply N.mod_lt; lia). generalize (n mod 10)%N Hlt. clear. intros d Hd.
  assert (d = 0 ∨ d = 1 ∨ d = 2 ∨ d = 3 ∨ d = 4 ∨ d = 5 ∨ d = 6 ∨ d = 7 ∨ d = 8 ∨ d = 9)%N as H by lia.
  by destruct H as [->|[->|[->|[->|[->|[->|[->|[->|[->| ->]]]]]]]]].
Qed.

Lemma fmt_d_lower z : (0 ≤ z)%Z → ToLower (fmt_d z) = fmt_d z.
Proof. intros Hz. rewrite pretty_Z_nonneg, pretty_N_digits by done. case_bool_decide; [done|apply digits_lower]. Qed.

Lemma Repeat_0_lower n : ToLower (Repeat "0" n) = Repeat "0" n.
Proof. induction n as [|n IH]; [done|]. by rewrite Repeat_S, ToLower_app, IH. Qed.

Lemma fmt_0d_lower w z : (0 ≤ z)%Z → ToLower (fmt_0d w z) = fmt_0d w z.
Proof. intros Hz. unfold fmt_0d. rewrite ToLower_app, Repeat_0_lower. f_equal. by apply fmt_d_lower. Qed.
End names.

Section base.
Context `{DL : !DnsLib, CR : !Crypto, NL : !DnsNameLaws, CL : !CryptoLaws}.
Variable opt : Options.
Hypotheses (Horigin : canonical (g_Origin opt)) (Hzmd : g_ZONEMD opt = false).

(** What all the records have in common, and those that are not keys. *)
Definition plain_rr (rr : RR) : Prop :=
  canonical (rr_Name rr) ∧ rr_Class rr = ClassINET ∧ rr_Ttl rr = g_TTL opt ∧
  rr_Type rr ∈ [TypeSOA; TypeNS; TypeA; TypeDNSKEY; TypeDS; TypeDNAME; TypeTXT] ∧ as_NSEC3 rr = None.
Definition other_rr (rr : RR) : Prop := plain_rr rr ∧ rr_Type rr ≠ TypeDNSKEY.

Lemma plain_type t : t ∈ [TypeSOA; TypeNS; TypeA; TypeDNSKEY; TypeDS; TypeDNAME; TypeTXT] →
  (0 ≤ t)%Z ∧ t ≠ TypeRRSIG ∧ t ∉ [TypeNSEC; TypeNSEC3; TypeNSEC3PARAM; TypeZONEMD].
Proof.
  revert t. apply Forall_forall. apply (bool_decide_unpack (Forall _ _)). vm_compute. done.
Qed.

Lemma filter_no_keys l : Forall other_rr l → List.filter (λ rr, bool_decide (rr_Type rr = TypeDNSKEY)) l = [].
Proof. induction 1 as [|rr l [_ Hne] _ IH]; [done|]. cbn. by rewrite bool_decide_false. Qed.

Lemma other_gen name t d :
  canonical name → t ∈ [TypeSOA; TypeNS; TypeA; TypeDS; TypeDNAME; TypeTXT] → as_NSEC3 (mkRR (gen_hdr opt name t) d) = None →
  other_rr (mkRR (gen_hdr opt name t) d).
Proof. intros Hn Ht Hd. split; [split_and!; [done..| |done]|]; cbn; set_unfold; naive_solver. Qed.

Ltac other := apply other_gen; [|set_solver|reflexivity].

Lemma apex_other : Forall other_rr (apex_records opt).
Proof.
  unfold apex_records. rewrite !Forall_cons. split_and!; [other; done|other; done|other; done| | |constructor]; other.
  - by apply (canonical_under "n" "s1" (g_Origin opt)).
  - by apply (canonical_under "n" "s2" (g_Origin opt)).
Qed.

Lemma deleg_owner_canonical i : canonical ("d" +:+ fmt_0d 5 (Z.of_nat i) +:+ "." +:+ g_Origin opt).
Proof.
  rewrite str_app_assoc. apply (canonical_under "d" (fmt_0d 5 (Z.of_nat i)) (g_Origin opt)); [done..|].
  change (String "d" ?x) with ("d" +:+ x). rewrite ToLower_app, fmt_0d_lower by lia. done.
Qed.

Lemma deleg_other i owner : canonical owner → Forall other_rr (deleg_records opt i owner).
Proof.
  intros Ho. apply Forall_forall. intros rr (n & Hrr & Hn)%list_elem_of_bind. cbv zeta in Hrr.
  apply elem_of_cons in Hrr as [->|[->|Hrr%elem_of_nil]%elem_of_cons]; [other; done| |done]. other.
  rewrite str_app_assoc. apply (canonical_under "n" ("s" +:+ fmt_d n) owner); [done..|].
  change (String "n" ("s" +:+ ?x)) with ("ns" +:+ x). rewrite ToLower_app, fmt_d_lower; [done|]. set_unfold. lia.
Qed.

Lemma delegation_other s i s' :
  delegation opt s i = Done s' → ∃ ex, gs_rrs s' = gs_rrs s ++ ex ∧ Forall other_rr ex.
Proof.
  unfold delegation. pose proof (deleg_owner_canonical i) as Ho. set (owner := "d" +:+ _) in *.
  pose proof (deleg_other (Z.of_nat i) owner Ho) as Hd. cbv zeta. destruct (rand_Intn _ _ _ <? _)%Z.
  - destruct (new_key opt (gs_keys s) owner 257) as [[child p]|]; [|done]. cbn. destruct (ToDS child SHA256) as [ds|]; [|done].
    cbn. intros [= <-]. cbn. eexists. rewrite <-app_assoc. split; [reflexivity|]. apply Forall_app. split; [done|].
    constructor; [|constructor]. by other.
  - intros [= <-]. cbn. by eexists.
Qed.

Lemma delegations_other l s s' :
  foldM_outcome (delegation opt) s l = Done s' → ∃ ex, gs_rrs s' = gs_rrs s ++ ex ∧ Forall other_rr ex.
Proof.
  revert s. induction l as [|i l IH]; intros s H; cbn [foldM_outcome] in H.
  { injection H as <-. exists []. by rewrite app_nil_r. }
  destruct (delegation opt s i) as [s1| |] eqn:E; [|done..]. cbn in H.
  destruct (delegation_other s i s1 E) as (e1 & H1 & F1). destruct (IH s1 H) as (e2 & H2 & F2).
  exists (e1 ++ e2). rewrite H2, H1, app_assoc. split; [done|]. by apply Forall_app.
Qed.

Lemma extra_other : Forall other_rr (extra_records opt).
Proof.
  unfold extra_records. rewrite Hzmd. cbn [andb]. rewrite app_nil_r. apply Forall_app. split.
  - destruct (g_AddWildcard opt); [|constructor]. constructor; [|constructor]. other. by apply (canonical_under "*" "" (g_Origin opt)).
  - destruct (g_AddDNAME opt); [|constructor]. rewrite !Forall_cons. split_and!; [other|other|constructor].
    + by apply (canonical_under "a" "lias" (g_Origin opt)).
    + by apply (canonical_under "e" "nt.child" (g_Origin opt)).
Qed.

Lemma new_key_spec i name flags key priv :
  new_key opt i name flags = Ok (key, priv) →
  key.1 = gen_hdr opt name TypeDNSKEY ∧ key_Flags key.2 = flags ∧ key_Protocol key.2 = 3%Z ∧
  is_ok (parsePublicKey key.2) = true ∧ ∀ p, priv = Some p → key_pair key p.
Proof.
  unfold new_key. cbv zeta. destruct (dns_Generate _ _ _) as [[pub p]|] eqn:E; [|done]. intros [= <- <-].
  split_and!; [done..|by eapply Generate_parses|]. intros q ->. by exists i, (mkDNSKEY flags 3 (g_Algorithm opt) ""), (keyBits (g_Algorithm opt)), pub.
Qed.

(** The records without those of denial: the keys, and others. *)
Lemma base_records_spec ksk zsk s :
  g_Denial opt ≠ DenialNone → base_records opt ksk zsk = Done s →
  ∃ ks pre post, gs_rrs s = pre ++ (key_rr <$> ks) ++ post ∧ Forall other_rr pre ∧ Forall other_rr post ∧ length ks ≤ 3 ∧
    ksk ∈ ks ∧ zsk ∈ ks ∧ pre = apex_records opt ∧
    ∀ k, k ∈ ks → k = ksk ∨ k = zsk ∨ k.1 = gen_hdr opt (g_Origin opt) TypeDNSKEY ∧ is_ok (parsePublicKey k.2) = true.
Proof.
  intros Hden H. unfold base_records in H. cbv zeta in H. rewrite bool_decide_false in H by done.
  set (rrs0 := apex_records opt ++ [key_rr ksk; key_rr zsk]) in *.
  assert (∃ s0 unused, length unused ≤ 1 ∧ gs_rrs s0 = rrs0 ++ (key_rr <$> unused) ∧
    (∀ k, k ∈ unused → k.1 = gen_hdr opt (g_Origin opt) TypeDNSKEY ∧ is_ok (parsePublicKey k.2) = true) ∧
    (s ← foldM_outcome (delegation opt) s0 (seq 0 (Z.to_nat (g_Delegations opt)));
     Done (mkGenState (gs_rrs s ++ extra_records opt) (gs_secure s) (gs_keys s))) = Done s) as (s0 & unused & Hlen & Hs0 & Hu & Hs).
  { destruct (g_ExtraUnused opt).
    - destruct (new_key opt 2 (g_Origin opt) 256) as [[k p]|] eqn:Ek; [|done]. cbn in H.
      exists (mkGenState (rrs0 ++ [key_rr k]) 0 3), [k]. split_and!; [done|done| |done].
      intros ? ->%list_elem_of_singleton. by apply new_key_spec in Ek as (? & _ & _ & ? & _).
    - exists (mkGenState rrs0 0 2), []. split_and!; [cbn; lia|by rewrite app_nil_r|by intros ? ?%elem_of_nil|done]. }
  destruct (foldM_outcome (delegation opt) s0 _) as [s1| |] eqn:Ef; [|done..]. cbn in Hs. injection Hs as <-.
  destruct (delegations_other _ _ _ Ef) as (ex & He & Hex). cbn. rewrite He, Hs0.
  exists ([ksk; zsk] ++ unused), (apex_records opt), (ex ++ extra_records opt). unfold rrs0. split_and!.
  - rewrite fmap_app. cbn. by rewrite <-!app_assoc.
  - apply apex_other.
  - apply Forall_app. split; [done|apply extra_other].
  - rewrite length_app. cbn. lia.
  - by left.
  - by right; left.
  - done.
  - intros k [Hk|Hk]%elem_of_app; [|by right; right; apply Hu]. apply elem_of_cons in Hk as [->| ->%list_elem_of_singleton]; auto.
Qed.
End base.

(** ** Generate *)

Section generate.
Context `{DL : !DnsLib, BT : !BTree, BL : !BTreeLaws, MR : !MapRange, CR : !Crypto, NL : !DnsNameLaws, WL : !DnsWireLaws, CL : !CryptoLaws}.
Implicit Types o : Options.

(** The records of denial of existence. *)
Definition denial_records (o : Options) (base : list RR) : list RR :=
  if bool_decide (g_Denial o = DenialNSEC) then buildNSEC o base
  else param_record o :: buildNSEC3 o (base ++ [param_record o]) (if bool_decide (g_Denial o = DenialNSEC3OptOut) then 1 else 0).

(** A run of [Generate] with these (completed) options, up to the loading. *)
Record run (o : Options) (g : Generated) (base out : list RR) : Prop := {
  rn_denial : g_Denial o ∈ [DenialNSEC; DenialNSEC3; DenialNSEC3OptOut];
  rn_zonemd : g_ZONEMD o = false;
  rn_origin : canonical (g_Origin o);
  rn_ksk : ∃ i p, new_key o i (g_Origin o) 257 = Ok (ge_KSK g, Some p) ∧ p = ge_KSKPriv g;
  rn_zsk : ∃ i p, new_key o i (g_Origin o) 256 = Ok (ge_ZSK g, Some p) ∧ p = ge_ZSKPriv g;
  rn_base : ∃ s, base_records o (ge_KSK g) (ge_ZSK g) = Done s ∧ gs_rrs s = base;
  rn_sign : signZone o (base ++ denial_records o base) (ge_KSK g) (ge_ZSK g) (ge_KSKPriv g) (ge_ZSKPriv g) = Done out;
  rn_load : FromAXFR (g_Origin o) out = Ok (ge_Store g)
}.

Lemma with_denial_records o base :
  g_Denial o ∈ [DenialNSEC; DenialNSEC3; DenialNSEC3OptOut] → with_denial o base = base ++ denial_records o base ∧ g_Denial o ≠ DenialNone.
Proof.
  unfold with_denial, denial_records. intros [->|[->| ->%list_elem_of_singleton]%elem_of_cons]%elem_of_cons; (split; [|done]); cbn; [done|..].
  all: by rewrite <-app_assoc.
Qed.

Lemma Generate_run opt g i :
  Generate opt = Done (g, i) → g_Denial (defaults opt) ∈ [DenialNSEC; DenialNSEC3; DenialNSEC3OptOut] → g_ZONEMD opt = false →
  ∃ base out, run (defaults opt) g base out.
Proof.
  intros H Hd Hm. assert (g_ZONEMD (defaults opt) = false) as Hm' by done.
  assert (canonical (g_Origin (defaults opt))) as Ho by apply canonical_Canonical.
  unfold Generate in H. cbv zeta in H. generalize dependent (defaults opt). clear Hm. intros o H Hd Hm Ho.
  destruct (new_key o 0 (g_Origin o) 257) as [[ksk kp]|] eqn:Ek; [|done]. cbn in H.
  destruct (new_key o 1 (g_Origin o) 256) as [[zsk zp]|] eqn:Ez; [|done]. cbn in H.
  destruct kp as [kpriv|]; [|done]. destruct zp as [zpriv|]; [|done].
  destruct (base_records o ksk zsk) as [s| |] eqn:Eb; [|done..]. cbn in H.
  destruct (with_denial_records o (gs_rrs s) Hd) as [Hwd Hnone]. rewrite (bool_decide_false _ Hnone), Hwd in H.
  destruct (signZone o _ ksk zsk kpriv zpriv) as [out| |] eqn:Es; [|done..]. cbn in H.
  destruct (FromAXFR (g_Origin o) out) as [st|] eqn:El; [|done]. cbn in H. rewrite Hm in H. cbn in H. injection H as <- _.
  exists (gs_rrs s), out. split; cbn; [done..| | | |done|done]; [by exists 0, kpriv|by exists 1, zpriv|by exists s].
Qed.

(** The node of a record, before anything is known of the others. *)
Lemma loaded_has_node origin rrs st rr :
  FromAXFR origin rrs = Ok st → rr ∈ rrs → rr_Class rr = ClassINET → is_Some (st_nodes st !! Canonical (rr_Name rr)).
Proof.
  intros Hl Hin Hc. assert (class_ok rr = true) as Hok by (unfold class_ok; by rewrite Hc, bool_decide_true).
  pose proof (add_all_packs rrs _ _ Hl rr Hin Hok) as Hp. destruct (PackRR rr) as [w|] eqn:E; [|done].
  pose proof (FromAXFR_exact origin rrs) as H. rewrite Hl in H. destruct H as (_ & _ & Hs & _).
  assert ((Canonical (rr_Name rr), (rr_Type rr, w)) ∈ zone_set st) as (n & -> & _)%elem_of_zone_set; [|by eexists].
  rewrite Hs. apply elem_of_keys. exists rr. split; [by apply elem_of_filter_b|]. unfold rr_key. by rewrite E.
Qed.

(** What is assumed of the library, for the records of a run: they are in
    the form the decoder gives them back, and the hashes are fine. *)
Record library_fine (o : Options) (base out : list RR) : Prop := {
  lf_wire : ∀ rr, rr ∈ out → decodes rr;
  lf_hash : g_Denial o ≠ DenialNSEC → hashes_fine o (base ++ [param_record o])
}.

Lemma denial_hdr o base rr :
  canonical (g_Origin o) → (g_Denial o ≠ DenialNSEC → hashes_fine o (base ++ [param_record o])) → rr ∈ denial_records o base →
  canonical (rr_Name rr) ∧ rr_Class rr = ClassINET ∧ rr_Ttl rr = (if bool_decide (rr_Type rr = TypeNSEC3PARAM) then 0 else g_TTL o)%Z ∧
  denial_type (rr_Type rr) = true.
Proof.
  intros Ho Hh. unfold denial_records. case_bool_decide as Hd.
  - intros Hin. pose proof (buildNSEC_owner o base rr Hin) as [_ Ht]. apply elem_of_lookup_imap in Hin as (i & k & -> & Hk).
    split_and!; [|done..]. apply (owners_canonical o base). by eapply list_elem_of_lookup_2.
  - intros [->|(i & it & next & Hi & _ & ->)%elem_of_buildNSEC3]%elem_of_cons; [split_and!; [exact Ho|done..]|].
    destruct (nsec3_record_hdr o _ _ Ho (Hh Hd) it (it_hash next) (list_elem_of_lookup_2 _ _ _ Hi)) as (_ & ? & -> & ? & ?).
    split_and!; done.
Qed.

(** The names of a zone are in it, and have the label counts names have;
    the owners of NSEC3 records are one label below the origin. *)
Definition names_fine (o : Options) (st : Store) : Prop :=
  ∀ name n, st_nodes st !! name = Some n →
    labels_ok name ∧ HasSuffix name (g_Origin o) = true ∧ (Has n TypeNSEC3 = true → Parent name = g_Origin o).

Lemma decodes_hdr rr : decodes rr → rr_Hdr (wire_norm rr) = rr_Hdr rr.
Proof. intros [->| ->]; [done|]. unfold undash. by destruct (rr_Data rr). Qed.
Lemma decodes_exact rr : decodes rr → undash rr = rr → wire_exact rr.
Proof. unfold wire_exact. intros [->| ->]; done. Qed.

Lemma run_spec o g base out :
  run o g base out → library_fine o base out → names_fine o (ge_Store g) →
  signed_zone o (base ++ denial_records o base) out (ge_KSK g) (ge_ZSK g) (ge_KSKPriv g) (ge_ZSKPriv g) (ge_Store g) ∧
  base_zone o base (ge_KSK g) (ge_ZSK g) ∧ (∀ rr, rr ∈ base → as_NSEC3 rr = None) ∧
  ∀ rr, rr ∈ denial_records o base → denial_type (rr_Type rr) = true ∧ decodes rr.
Proof.
  intros R [Hx Hh] Hf. pose proof (rn_origin _ _ _ _ R) as Ho.
  destruct (rn_ksk _ _ _ _ R) as (ik & pk & (K1 & K2 & K3 & K4 & K5)%new_key_spec & ->).
  destruct (rn_zsk _ _ _ _ R) as (iz & pz & (Z1 & Z2 & Z3 & Z4 & Z5)%new_key_spec & ->).
  destruct (rn_base _ _ _ _ R) as (s & Hs & Hbase).
  assert (g_Denial o ≠ DenialNone) as Hnone by by apply (with_denial_records o base), R.
  destruct (base_records_spec o Ho (rn_zonemd _ _ _ _ R) _ _ s Hnone Hs) as (ks & pre & post & Hb & Hpre & Hpost & Hlen & Hk & Hz & Epre & Hks).
  rewrite Hbase in Hb. rewrite Forall_forall in Hpre, Hpost.
  assert (∀ k, k ∈ ks → k.1 = gen_hdr o (g_Origin o) TypeDNSKEY ∧ is_ok (parsePublicKey k.2) = true) as Hkeys.
  { intros k [->|[->|?]]%Hks; done. }
  assert (∀ rr, rr ∈ base → plain_rr o rr ∧ (rr_Type rr = TypeDNSKEY → ∃ k, k ∈ ks ∧ rr = key_rr k)) as Hplain.
  { intros rr. rewrite Hb. intros [Hin%Hpre|[(k & -> & Hin)%list_elem_of_fmap|Hin%Hpost]%elem_of_app]%elem_of_app.
    - split; [apply Hin|]. intros Ht. by destruct Hin.
    - destruct (Hkeys k Hin) as [Hh' _]. unfold plain_rr, rr_Name, rr_Class, rr_Ttl, rr_Type. cbn. rewrite Hh'. cbn.
      split; [split_and!; [done..|set_solver|done]|]. intros _. by exists k.
    - split; [apply Hin|]. intros Ht. by destruct Hin. }
  destruct (signZone_spec _ _ _ _ _ _ _ (rn_sign _ _ _ _ R)) as (sigs & Hout & _).
  assert (∀ rr, rr ∈ base ++ denial_records o base → canonical (rr_Name rr) ∧ rr_Class rr = ClassINET ∧
    rr_Ttl rr = (if bool_decide (rr_Type rr = TypeNSEC3PARAM) then 0 else g_TTL o)%Z ∧ (0 ≤ rr_Type rr)%Z ∧ rr_Type rr ≠ TypeRRSIG) as Hall.
  { intros rr [((?&?&Ht&Hty%plain_type&_)&_)%Hplain|(?&?&?&Hty)%(denial_hdr o base rr Ho Hh)]%elem_of_app; (split_and!; [done..| | |]).
    - rewrite bool_decide_false; [done|]. intros E. apply Hty. rewrite E. set_solver.
    - apply Hty.
    - apply Hty.
    - done.
    - by apply denial_type_ok in Hty as [? _].
    - by apply denial_type_ok in Hty as [_ ?]. }
  assert (∀ rr, rr ∈ base ++ denial_records o base → rr ∈ out) as Hio by (intros rr Hin; rewrite Hout; apply elem_of_app; by left).
  assert (∀ rr, rr ∈ base ++ denial_records o base → labels_ok (rr_Name rr) ∧ HasSuffix (rr_Name rr) (g_Origin o) = true) as Hnames.
  { intros rr Hin. destruct (Hall rr Hin) as (Hc & Hcl & _).
    destruct (loaded_has_node _ _ _ _ (rn_load _ _ _ _ R) (Hio rr Hin) Hcl) as [n Hn]. rewrite Hc in Hn. by destruct (Hf _ _ Hn) as (? & ? & _). }
  assert (∀ k, k ∈ ks → at_rrset base (g_Origin o) TypeDNSKEY (key_rr k)) as Hat.
  { intros k Hin. unfold at_rrset, rr_Name, rr_Type. cbn. rewrite (proj1 (Hkeys k Hin)). split_and!; [|done..].
    rewrite Hb. apply elem_of_app. right. apply elem_of_app. left. apply list_elem_of_fmap. by exists k. }
  split_and!; [split|split| |].
  - apply R.
  - apply R.
  - done.
  - split; intros rr Hin.
    + destruct (Hall rr Hin) as (? & _). split; [done|]. by apply Hnames.
    + by apply Hnames.
    + by apply Hall.
    + by apply Hall.
    + intros r r' (H1 & _ & T1) (H2 & _ & T2). destruct (Hall _ H1) as (_ & _ & -> & _), (Hall _ H2) as (_ & _ & -> & _). by rewrite T1, T2.
    + by apply decodes_hdr, Hx, Hio.
  - intros rr Hin Ht. apply decodes_exact; [by apply Hx|]. rewrite Hout in Hin.
    apply elem_of_app in Hin as [Hin|(sg & -> & _)%list_elem_of_fmap]; [|done]. by destruct (Hall rr Hin) as (_ & _ & _ & _ & ?).
  - split; [by apply K5|done|by rewrite K2|by rewrite K1|]. rewrite K1. cbn. rewrite <-Ho. apply IsFqdn_Canonical.
  - split; [by apply Z5|done|by rewrite Z2|by rewrite Z1|]. rewrite Z1. cbn. rewrite <-Ho. apply IsFqdn_Canonical.
  - by rewrite K1, Z1.
  - eexists. split; [rewrite Hb, Epre; by left|done].
  - intros rr (Hin & _ & Ht). destruct (Hplain rr Hin) as [_ Hk']. destruct (Hk' Ht) as (k & Hkin & ->). split; [|exists k; split; [done|by apply Hkeys]].
    apply decodes_exact; [|done]. apply Hx, Hio, elem_of_app. by left.
  - rewrite Hb, !List.filter_app, !length_app, (filter_no_keys o pre), (filter_no_keys o post) by (by apply Forall_forall). cbn. rewrite Nat.add_0_r.
    etrans; [apply List.filter_length_le|]. by rewrite length_fmap.
  - split; [by apply Hat|by rewrite K2].
  - by apply Hat.
  - intros rr Hin. apply (plain_type (rr_Type rr)). by apply Hplain.
  - intros rr Hin. by apply Hplain.
  - intros rr Hin. split; [by apply (denial_hdr o base)|]. apply Hx, Hio, elem_of_app. by right.
Qed.

(** The denial of existence of a run. *)
Lemma run_denial o g base out :
  run o g base out → library_fine o base out → names_fine o (ge_Store g) →
  is_Some (st_nodes (ge_Store g) !! g_Origin o) →
  (∀ k n, st_nodes (ge_Store g) !! k = Some n → denial_ok (ge_Store g) n) ∧ chain_ok (ge_Store g).
Proof.
  intros R Hl Hf Ha. destruct (run_spec _ _ _ _ R Hl Hf) as (Hz & Hb & Hdata & Hd).
  pose proof (lf_hash _ _ _ Hl) as Hh. unfold denial_records in Hz, Hd. case_bool_decide as Hnsec.
  - apply (nsec_denial o base out _ _ _ _ _ Hb Ha Hz). intros rr Hin. destruct (Hd rr Hin) as [_ Hdec].
    apply decodes_exact; [done|]. by apply elem_of_lookup_imap in Hin as (? & ? & -> & _).
  - rewrite cons_middle, app_assoc in Hz. set (fl := if bool_decide (g_Denial o = DenialNSEC3OptOut) then 1%Z else 0%Z) in *.
    eapply (nsec3_denial o base out _ _ _ _ _ Hb Ha _ Hz (Hh Hnsec) Hdata); [apply Hd; by left|].
    intros rr Hin.
    destruct (loaded_has_node _ _ _ rr (rn_load _ _ _ _ R)) as [n Hn].
    + apply (out_at _ _ _ _ _ _ _ _ Hz (rr_Name rr) (rr_Type rr)); [by rewrite (buildNSEC3_type _ _ _ _ Hin)|].
      split; [|done]. apply elem_of_app. by right.
    + apply (sn_class _ _ (sz_rrs Hz)). apply elem_of_app. by right.
    + assert (rr ∈ (base ++ [param_record o]) ++ buildNSEC3 o (base ++ [param_record o]) fl) as Hin' by (apply elem_of_app; by right).
      pose proof (proj1 (sn_name _ _ (sz_rrs Hz) rr Hin')) as Hc. rewrite Hc in Hn. apply (Hf _ _ Hn).
      apply (loaded_Has _ _ _ (sz_load Hz) (out_carried _ _ _ _ _ _ _ _ Hz) _ n TypeNSEC3 Hn). exists rr.
      apply (out_at _ _ _ _ _ _ _ _ Hz); [done|]. split_and!; [done..|]. by eapply buildNSEC3_type.
Qed.

(** C12: the zones [Generate] makes are valid, with NSEC, with NSEC3 and
    with NSEC3 and opt-out: whenever a run without a ZONEMD ends with a
    zone, at every time in the validity period of its signatures and for
    every schedule, a full pass with any configuration that does not require
    a digest finds the zone signed and valid. Assumed are the laws of the
    library, that the records are in the form the decoder gives them back,
    that names have fewer than 256 labels and are in the zone, and for NSEC3
    that hashes have twenty bytes and do not collide. *)
Theorem Generate_valid opt g i v sched r :
  Generate opt = Done (g, i) → g_Denial (defaults opt) ∈ [DenialNSEC; DenialNSEC3; DenialNSEC3OptOut] → g_ZONEMD opt = false →
  (∀ base out, run (defaults opt) g base out → library_fine (defaults opt) base out) →
  names_fine (defaults opt) (ge_Store g) →
  (u32 (now32 v + skew32 v) <? g_Inception (defaults opt))%Z = false →
  (u32 (g_Expiration (defaults opt) + skew32 v) <? now32 v)%Z = false →
  ToLower (vf_ZONEMD (v_cfg v)) ≠ "on" →
  Full v sched (ge_Store g) = Some r → r_Valid r = true ∧ r_Unsigned r = false.
Proof.
  intros Hg Hd Hm Hx Hf Hinc Hexp Hon Hr. destruct (Generate_run opt g i Hg Hd Hm) as (base & out & R).
  pose proof (Hx base out R) as Hl. destruct (run_spec _ _ _ _ R Hl Hf) as (Hz & Hb & _ & Hty).
  assert (∀ rr, rr ∈ denial_records (defaults opt) base → denial_type (rr_Type rr) = true) as Hext by (intros rr Hin; by apply Hty).
  destruct (loaded_wf _ _ _ (rn_load _ _ _ _ R)) as [Hwf _].
  destruct (apex_is _ _ _ _ _ _ _ _ _ Hz Hb Hext) as (apex & Ha & _).
  destruct (run_denial _ _ _ _ R Hl Hf (mk_is_Some _ _ Ha)) as [Hden Hch].
  assert (hash_ok (ge_Store g)) as Hh by (eapply add_all_hash_ok; [apply NewStore_hash_ok|exact (rn_load _ _ _ _ R)]).
  destruct (Full_verdict_iff v sched (ge_Store g) r Hwf Hh Hr) as [Hv Hu]. split.
  - apply Hv. by eapply sealed_verdict.
  - apply not_true_iff_false. rewrite Hu. intros [_ H].
    destruct (apex_keys _ _ _ _ _ _ _ _ _ Hz Hb Hext) as (keys & Hk & _ & Hin). rewrite Hk in H. destruct H as [[= ->]|?]; [|done].
    apply (not_elem_of_nil (A := DNSKEY_RR) (ge_KSK g)), Hin, Hb.
Qed.
End generate.

(** ** Witness *)

#[export] Instance labels_ok_dec `{DL : !DnsLib} name : Decision (labels_ok name).
Proof. unfold labels_ok. apply _. Defined.

(** The library of [Toy] with a hash of twenty bytes: the name itself,
    filled up. *)
Definition fill20 (name : string) : bytes := str_take 20 (name +:+ Repeat "=" 20).
Lemma fill20_length name : String.length (fill20 name) = 20.
Proof. unfold fill20. rewrite str_length_take, str_length_app. change (String.length (Repeat "=" 20)) with 20. lia. Qed.

Definition toy3_dns : DnsLib := {|
  IsFqdn := toy_IsFqdn; Fqdn := toy_Fqdn; SplitDomainName := toy_Split; CountLabel := λ s, Z.of_nat (length (toy_Split s));
  dns_Len := toy_Len; dns_PackRR := toy_Pack; dns_UnpackRR := toy_Unpack;
  RR_String := toy_wire; TypeToString := assoc toy_types; AlgorithmToString := assoc toy_algs;
  dns_HashName := λ name hash iter salt, ToUpper (Base32Hex (fill20 name));
  Verify := toy_Verify; KeyTag := @KeyTag toy_dns; ToDS := @ToDS toy_dns
|}.
Definition toy3_name_laws : DnsNameLaws (H := toy3_dns) := {|
  Fqdn_id := @Fqdn_id toy_dns _ : ∀ s, @IsFqdn toy3_dns s = true → _; Fqdn_dot := @Fqdn_dot toy_dns _; IsFqdn_Fqdn := @IsFqdn_Fqdn toy_dns _;
  IsFqdn_suffix := @IsFqdn_suffix toy_dns _; IsFqdn_lower := @IsFqdn_lower toy_dns _; IsFqdn_root := @IsFqdn_root toy_dns _;
  IsFqdn_app := @IsFqdn_app toy_dns _; Split_root := @Split_root toy_dns _; Split_join := @Split_join toy_dns _; Split_tail := @Split_tail toy_dns _
|}.
Definition toy3_wire_laws : DnsWireLaws (H := toy3_dns) :=
  @Build_DnsWireLaws toy3_dns (λ rr, rr) toy_Unpack_Pack toy_Pack_len (λ rr n w H, proj2 (toy_Pack_wire rr n w H)) toy_Pack_bigger.
Lemma toy3_crypto_laws : CryptoLaws (DL := toy3_dns) (CR := toy_crypto).
Proof.
  split; [exact (@Generate_parses toy_dns toy_crypto _)|exact (@Sign_header toy_dns toy_crypto _)|exact (@Sign_fields toy_dns toy_crypto _)|].
  intros s priv key rrs rrs' k t s' ttl [H1 H2 H3 H4 H5]. apply (@Sign_Verify toy_dns toy_crypto _ s priv key rrs rrs' k t s' ttl). by split.
Qed.

(** A zone with a secure delegation, an unsigned one, a wildcard and an
    empty non-terminal, signed with toy keys, with each kind of denial. *)
Definition toy_options (denial : string) : Options :=
  mkOptions "z." 7 2 1 denial ED25519 1 "ab" 0 0 0 1 true true false false false.

Definition toy_generated (denial : string) : option (Generated (CR := toy_crypto) * nat) :=
  match Generate (DL := toy3_dns) (CR := toy_crypto) (toy_options denial) with Done x => Some x | _ => None end.

(** The first worker checks all the nodes. *)
Definition toy_schedule (st : Store) : list nat := replicate (S (NodeCount st)) 0 ++ [1].

(** What is assumed of names and hashes holds of these zones. *)
Definition toy_name_fine (name : string) (n : Node) : Prop :=
  labels_ok (DL := toy3_dns) name ∧ HasSuffix name "z." = true ∧ (Has n TypeNSEC3 = true → Parent (DL := toy3_dns) name = "z.").
#[local] Instance toy_name_fine_dec name n : Decision (toy_name_fine name n).
Proof. unfold toy_name_fine. apply _. Defined.

Definition toy_hashes (denial : string) (g : Generated (CR := toy_crypto)) : bool :=
  let o := defaults (DL := toy3_dns) (toy_options denial) in
  match base_records (DL := toy3_dns) (CR := toy_crypto) o (ge_KSK (CR := toy_crypto) g) (ge_ZSK (CR := toy_crypto) g) with
  | Done s => bool_decide (NoDup (hash_text (DL := toy3_dns) o <$> zone_names (DL := toy3_dns) o (gs_rrs s ++ [param_record o])))
  | _ => false
  end.

Definition toy_generated_fine (denial : string) : bool :=
  match toy_generated denial with
  | Some (g, _) =>
      let st := ge_Store (CR := toy_crypto) g in
      bool_decide (map_Forall toy_name_fine (st_nodes st)) && toy_hashes denial g
      && is_some (Full (DL := toy3_dns) toy_two (toy_schedule st) st)
  | None => false
  end.
Lemma toy_generated_checked : forallb toy_generated_fine [DenialNSEC; DenialNSEC3OptOut] = true.
Proof. vm_compute. reflexivity. Qed.

Lemma toy_hashes_fine denial g s :
  toy_hashes denial g = true →
  base_records (DL := toy3_dns) (CR := toy_crypto) (defaults (DL := toy3_dns) (toy_options denial)) (ge_KSK (CR := toy_crypto) g) (ge_ZSK (CR := toy_crypto) g) = Done s →
  hashes_fine (DL := toy3_dns) (defaults (DL := toy3_dns) (toy_options denial)) (gs_rrs s ++ [param_record (defaults (DL := toy3_dns) (toy_options denial))]).
Proof.
  unfold toy_hashes. cbv zeta. intros H E. rewrite E in H. apply bool_decide_eq_true in H. split.
  - vm_compute. reflexivity.
  - intros name _. exists (fill20 name). split; [apply fill20_length|reflexivity].
  - intros a b [i Hi]%list_elem_of_lookup [j Hj]%list_elem_of_lookup Hab. assert (i = j) as ->; [|congruence].
    eapply (NoDup_lookup _ i j _ H); rewrite list_lookup_fmap; [by rewrite Hi|by rewrite Hj, Hab].
Qed.

(** The zone of a kind, and the verdict on it. *)
Definition toy_verdict (denial : string) : Prop :=
  ∃ g i r, Generate (DL := toy3_dns) (CR := toy_crypto) (toy_options denial) = Done (g, i) ∧
    Full (DL := toy3_dns) toy_two (toy_schedule (ge_Store (CR := toy_crypto) g)) (ge_Store (CR := toy_crypto) g) = Some r ∧
    r_Valid r = true ∧ r_Unsigned r = false.

Lemma Generate_valid_witness : Forall toy_verdict [DenialNSEC; DenialNSEC3OptOut].
Proof.
  assert (∀ denial, denial ∈ [DenialNSEC; DenialNSEC3OptOut] → toy_verdict denial) as Hall; [|apply Forall_forall; exact Hall].
  intros denial Hd. pose proof toy_generated_checked as H. rewrite forallb_elem_of in H. specialize (H denial Hd).
  unfold toy_generated_fine, toy_generated in H. unfold toy_verdict.
  destruct (Generate (DL := toy3_dns) (CR := toy_crypto) (toy_options denial)) as [[g i]| |] eqn:E; [|discriminate H|discriminate H].
  apply andb_true_iff in H as [[Hn Hh]%andb_true_iff Hs]. apply bool_decide_eq_true in Hn. destruct (is_some_eq _ Hs) as [r Hr].
  exists g, i, r. split; [reflexivity|]. split; [exact Hr|].
  apply (Generate_valid (DL := toy3_dns) (NL := toy3_name_laws) (WL := toy3_wire_laws) (CL := toy3_crypto_laws) (CR := toy_crypto)
    (toy_options denial) g i toy_two (toy_schedule (ge_Store (CR := toy_crypto) g)) r E).
  - apply elem_of_cons in Hd as [->| ->%list_elem_of_singleton]; [by left|by right; right; left].
  - reflexivity.
  - intros base out R. split; [intros rr _; by left|]. intros _.
    destruct (rn_base _ _ _ _ R) as (s & Hb & <-). exact (toy_hashes_fine denial g s Hh Hb).
  - intros name n Hnode. exact (Hn name n Hnode).
  - vm_compute. reflexivity.
  - vm_compute. reflexivity.
  - vm_compute. discriminate.
  - exact Hr.
Defined.
