(* ===== verification/Api.v ===== *)
(** * The HTTP API (internal/api)

    The handlers, as functions of the monitor they read: a reply, or one of
    the HTTP errors. Routing, JSON and the measurement of memory are
    libraries. The stream of events is a hub with a queue of 32 events for
    every connected client, which the event bus fills without waiting.

    Main results: the numbers of the status page and the lists of zones are
    consistent; the zone requests answer 404 exactly for zones that are not
    monitored; the only handler that changes anything is a step of the
    monitor; a client that keeps up gets every event in order, whatever the
    others do. The list of catalogs counts the members of a catalog for
    every other catalog whose name begins its name. *)

From S2P Require Import Prelude GoStrings DnsLib BTree DnsName Node Store StoreSpec Toy Config Findings Event Runtime Manager Monitor.
From Stdlib Require Import SpecFloat.

(** ** Replies *)

Inductive Reply (A : Type) : Type :=
| Reply200 (body : A)
| Error404 (msg : string)
| Error409 (msg : string)
| Error500 (msg : string).
Arguments Reply200 {A} body.
Arguments Error404 {A} msg.
Arguments Error409 {A} msg.
Arguments Error500 {A} msg.

#[export] Instance Reply_bind : MBind Reply := λ A B f r,
  match r with Reply200 a => f a | Error404 e => Error404 e | Error409 e => Error409 e | Error500 e => Error500 e end.

(** What is set at link time (internal/version). *)
Record Build := mkBuild { bd_Version : string; bd_Commit : string }.
Definition version_default : Build := mkBuild "dev" "unknown".

(** The memory of the process as the operating system and the runtime report
    it, and the snapshot of it (internal/metrics/memory.go). *)
Record MemStats := mkMemStats {
  ms_HeapAlloc : Z; ms_HeapSys : Z; ms_HeapInuse : Z; ms_StackInuse : Z; ms_Sys : Z; ms_NextGC : Z; ms_NumGC : Z; ms_goroutines : Z;
  ms_statm : option (Z * Z); ms_pagesize : Z
}.
Record MemorySnapshot := mkMemory {
  mm_RSSBytes : Z; mm_VirtualBytes : Z; mm_HeapAllocBytes : Z; mm_HeapSysBytes : Z; mm_HeapInuseBytes : Z; mm_StackInuseBytes : Z;
  mm_SysBytes : Z; mm_NextGCBytes : Z; mm_NumGC : Z; mm_Goroutines : Z; mm_ZoneStoreBytes : Z
}.
(** [statm] has the pages and the resident pages, if it can be read. *)
Definition processMemory (m : MemStats) : Z * Z :=
  match ms_statm m with
  | None => (0, 0)%Z
  | Some (pages, resident) => (u64 (resident * ms_pagesize m), u64 (pages * ms_pagesize m))
  end.
Definition SnapshotMemory (m : MemStats) (zoneStoreBytes : Z) : MemorySnapshot :=
  let '(rss, virt) := processMemory m in
  mkMemory rss virt (ms_HeapAlloc m) (ms_HeapSys m) (ms_HeapInuse m) (ms_StackInuse m) (ms_Sys m) (ms_NextGC m) (ms_NumGC m)
    (ms_goroutines m) zoneStoreBytes.

(** ** The routes *)

Inductive Endpoint :=
| GetHealth | GetReady | GetUIConfig | GetStatus | GetMemory | ListZones | GetZone | GetZoneSOA | GetZoneDNSKEYs | GetZoneServers
| GetZoneFindings | GetZoneHistory | DumpZone | ExportZone | RefreshZone | ListCatalogs | StreamEvents.

(** A segment of a path: fixed, or the name of a zone. *)
Inductive Seg := Lit (s : string) | ZoneSeg.
Record Route := mkRoute { ru_Method : string; ru_Path : list Seg; ru_Status : Z; ru_Endpoint : Endpoint }.

Definition get (path : list Seg) (e : Endpoint) : Route := mkRoute "GET" path 200 e.
Definition zone_route (path : list Seg) (e : Endpoint) : Route := get ([Lit "v1"; Lit "zones"; ZoneSeg] ++ path) e.

(** [registerRoutes]; the status of a success is 202 for the refresh. *)
Definition routes : list Route :=
  [ get [Lit "health"] GetHealth; get [Lit "ready"] GetReady; get [Lit "ui"; Lit "config"] GetUIConfig;
    get [Lit "v1"; Lit "status"] GetStatus; get [Lit "v1"; Lit "memory"] GetMemory; get [Lit "v1"; Lit "zones"] ListZones;
    zone_route [] GetZone; zone_route [Lit "soa"] GetZoneSOA; zone_route [Lit "dnskeys"] GetZoneDNSKEYs;
    zone_route [Lit "servers"] GetZoneServers; zone_route [Lit "findings"] GetZoneFindings; zone_route [Lit "history"] GetZoneHistory;
    zone_route [Lit "dump"] DumpZone; zone_route [Lit "export"] ExportZone;
    mkRoute "POST" [Lit "v1"; Lit "zones"; ZoneSeg; Lit "refresh"] 202 RefreshZone;
    get [Lit "v1"; Lit "catalogs"] ListCatalogs; get [Lit "v1"; Lit "events"] StreamEvents ].

(** Whether a path matches; a segment that stands for a zone is not empty. *)
Fixpoint path_matches (segs : list Seg) (path : list string) : bool :=
  match segs, path with
  | [], [] => true
  | Lit s :: segs, p :: path => bool_decide (s = p) && path_matches segs path
  | ZoneSeg :: segs, p :: path => negb (bool_decide (p = "")) && path_matches segs path
  | _, _ => false
  end.
Definition dispatch (method : string) (path : list string) : option Endpoint :=
  ru_Endpoint <$> List.find (λ r, bool_decide (ru_Method r = method) && path_matches (ru_Path r) path) routes.

Section api.
Context `{DL : !DnsLib, BT : !BTree, MR : !MapRange}.

(** ** The handlers that read *)

Record healthOutput := mkHealth { ho_Status : string; ho_Version : string }.
Definition getHealth (b : Build) : healthOutput := mkHealth "ok" (bd_Version b).

Record readyOutput := mkReady { ro_Status : string; ro_Zones : nat }.
Definition getReady (s : Sys) : readyOutput := mkReady "ready" (length (List_zones s)).

Definition getUIConfig (cfg : Config) : ThemeConfig := c_Theme cfg.

Record statusOutput := mkStatus { so_Version : string; so_Commit : string; so_UptimeS : Z; so_Counts : gmap string nat; so_StartedAt : Time }.
Definition getStatus (b : Build) (started now : Time) (s : Sys) : statusOutput :=
  mkStatus (bd_Version b) (bd_Commit b) (Z.quot (now - started) Second) (Counts s) started.

Definition getMemory (m : MemStats) (s : Sys) : MemorySnapshot := SnapshotMemory m (StoreBytes s).

Definition without_details (v : ZoneView) : ZoneView :=
  mkZoneView (v_Name v) (v_Source v) (v_State v) (v_Valid v) (v_Unsigned v) (v_Serial v) (v_Records v) (v_RRSIGs v) (v_NSEC3 v)
    (v_Signing v) (v_LastValidAt v) (v_LastVerified v) (v_LastFullVerified v) (v_LastTransfer v) (v_NextRefresh v) (v_VerifyMode v)
    (v_LastMethod v) (v_Refreshing v) (v_RefreshFull v) (v_ErrorCount v) (v_WarningCount v) [] (v_Servers v) [] (v_SOA v)
    (v_ChainOK v) (v_ZONEMDOK v) (v_ZONEMDCheckedAt v) (v_ZONEMDStale v).

Record zonesOutput := mkZones { zo_Zones : list ZoneView; zo_Total : nat }.
Definition listZones (s : Sys) (state source : string) : zonesOutput :=
  let zs := omap (λ v,
      if negb (bool_decide (state = "")) && negb (bool_decide (v_State v = state)) then None
      else if negb (bool_decide (source = "")) && negb (bool_decide (v_Source v = source)) then None
      else Some (without_details v)) (Views s) in
  mkZones zs (length zs).

Definition zoneOrNotFound (s : Sys) (name : string) : Reply ZoneRuntime :=
  match zone_at s name with Some z => Reply200 z | None => Error404 "not found" end.

Definition getZone (s : Sys) (name : string) : Reply ZoneView := z ← zoneOrNotFound s name; Reply200 (Snapshot z).
Definition getZoneSOA (s : Sys) (name : string) : Reply (option SOAInfo) := z ← zoneOrNotFound s name; Reply200 (v_SOA (Snapshot z)).
Definition getZoneServers (s : Sys) (name : string) : Reply (list ServerStatus) := z ← zoneOrNotFound s name; Reply200 (v_Servers (Snapshot z)).
Definition getZoneHistory (s : Sys) (name : string) : Reply (list HistoryEntry) := z ← zoneOrNotFound s name; Reply200 (v_History (Snapshot z)).

Definition getZoneFindings (s : Sys) (name severity : string) : Reply (list Finding) :=
  z ← zoneOrNotFound s name;
  let l := v_Findings (Snapshot z) in
  Reply200 (if negb (bool_decide (severity = "")) then List.filter (λ f, bool_decide (f_Severity f = severity)) l else l).

Record keyView := mkKeyView { kv_Flags : Z; kv_Protocol : Z; kv_Algorithm : Z; kv_KeyTag : Z; kv_KSK : bool; kv_DS : string }.
Definition key_view (k : DNSKEY_RR) : keyView :=
  mkKeyView (key_Flags k.2) (key_Protocol k.2) (key_Algorithm k.2) (KeyTag k.2)
    (bool_decide (Z.land (key_Flags k.2) 257 = 257%Z) || bool_decide (Z.land (key_Flags k.2) 1 = 1%Z))
    (match ToDS k 2 with Some ds => ds_Digest ds | None => "" end).

Definition getZoneDNSKEYs (s : Sys) (name : string) : Reply (list keyView * option bool) :=
  z ← zoneOrNotFound s name;
  let '(st, chain) := StoreAndChain z in
  match st with
  | None => Reply200 ([], chain)
  | Some st =>
      match DNSKEYs st with
      | Err err => Error500 err
      | Ok keys => Reply200 (key_view <$> keys, chain)
      end
  end.

(** The name of the attachment and its lines; where the zone cannot be
    written to the end the body is cut off there, which is not kept. *)
Definition dumpZone (s : Sys) (name : string) : Reply (string * result (list string)) :=
  z ← zoneOrNotFound s name;
  let '(st, findings) := StoreAndFindings z in
  match st with
  | None => Error409 "no zone data"
  | Some st => Reply200 (TrimSuffix (st_origin st) "." +:+ ".txt", WriteZoneFileAnnotated st (ErrorCommentsByOwner findings))
  end.
Definition exportZone (s : Sys) (name : string) : Reply (string * result (list string)) := dumpZone s name.

Record catalogView := mkCatalogView { cv_Name : string; cv_Members : list string }.
Definition is_member (c : Catalog) (v : ZoneView) : bool :=
  HasPrefix (v_Source v) ("catalog:" +:+ ct_Name c) || bool_decide (v_Source v = "catalog:" +:+ ct_Name c).
Definition listCatalogs (cfg : Config) (s : Sys) : list catalogView :=
  (λ c, mkCatalogView (ct_Name c) (v_Name <$> List.filter (is_member c) (Views s))) <$> c_Catalogs cfg.

(** ** The handler that acts *)

Definition refreshZone (s : Sys) (name : string) (full : bool) : Sys * Reply (string * bool) :=
  match RequestRefresh s name full with
  | Err err => (s, Error404 err)
  | Ok s => (s, Reply200 ("refreshing", full))
  end.

(** ** The log of requests *)

(** [sample]; the clock in nanoseconds of the Unix epoch. *)
Definition sample (now : Time) (rate : float64) : bool :=
  if SFleb (f_of_Z 1) rate then true
  else if SFleb rate (f_of_Z 0) then false
  else (Z.rem (now - unixEpochSeconds * Second) 1000 <? f_to_int64 (f_mul rate (f_of_Z 1000)))%Z.

(** The decision of [withLogging] to log a request; nothing is logged in
    either case. *)
Definition withLogging (cfg : LoggingConfig) (code : Z) (method : string) (d : Duration) (now : Time) : bool :=
  (400 <=? code)%Z || negb (bool_decide (method = "GET")) || (lg_SlowThresholdMS cfg * 1000000 <? d)%Z || sample now (lg_SampleRate cfg).
End api.

(** ** The stream of events *)

Definition sse_cap : nat := 32.

(** The channels of the connected clients. *)
Abbreviation Hub := (gmap nat (list Event)) (only parsing).

(** The handler [New] registers with the bus. *)
Definition hub_event (e : Event) (h : Hub) : Hub := (λ ch, if bool_decide (length ch < sse_cap) then ch ++ [e] else ch) <$> h.

(** [streamEvents]: a client connects, is sent an event, and leaves. *)
Definition hub_connect (id : nat) (h : Hub) : Hub := <[id := []]> h.
Definition hub_take (id : nat) (h : Hub) : option (Event * Hub) :=
  match h !! id with Some (e :: ch) => Some (e, <[id := ch]> h) | _ => None end.
Definition hub_leave (id : nat) (h : Hub) : Hub := delete id h.

(** [New]: the server subscribes its hub to the bus. *)
Definition New (bus : Bus (Hub → Hub)) : Bus (Hub → Hub) * Hub := (Event.Subscribe bus hub_event, ∅).

(** What happens to the hub, from all goroutines; a channel is new. *)
Inductive HStep := HEvent (e : Event) | HConnect (id : nat) | HTake (id : nat) | HLeave (id : nat).

(** A run: the hub after it, and what one client was sent. *)
Fixpoint hub_run (c : nat) (h : Hub) (steps : list HStep) : Hub * list Event :=
  match steps with
  | [] => (h, [])
  | HEvent e :: steps => hub_run c (hub_event e h) steps
  | HConnect id :: steps => hub_run c (hub_connect id h) steps
  | HLeave id :: steps => hub_run c (hub_leave id h) steps
  | HTake id :: steps =>
      match hub_take id h with
      | None => hub_run c h steps
      | Some (e, h) =>
          let '(h, sent) := hub_run c h steps in
          (h, if bool_decide (id = c) then e :: sent else sent)
      end
  end.

(** ** The routes are unambiguous *)

(** Two patterns no path matches both of. *)
Fixpoint apart (a b : list Seg) : bool :=
  match a, b with
  | [], [] => false
  | Lit s :: a, Lit t :: b => negb (bool_decide (s = t)) || apart a b
  | _ :: a, _ :: b => apart a b
  | _, _ => true
  end.

Lemma apart_sound a b path : apart a b = true → path_matches a path = true → path_matches b path = true → False.
Proof.
  revert b path. induction a as [|[s|] a IH]; intros [|[t|] b] [|p path]; cbn [apart path_matches]; try done;
    rewrite ?andb_true_iff, ?orb_true_iff, ?negb_true_iff, ?bool_decide_eq_true, ?bool_decide_eq_false; naive_solver.
Qed.

Definition routes_apart : bool :=
  forallb (λ i, forallb (λ j, (i =? j) || match routes !! i, routes !! j with
    | Some r1, Some r2 => negb (bool_decide (ru_Method r1 = ru_Method r2)) || apart (ru_Path r1) (ru_Path r2)
    | _, _ => true end) (seq 0 (length routes))) (seq 0 (length routes)).

(** No request matches two routes, so the order of registration does not
    matter. *)
Theorem routes_unambiguous i j r1 r2 path :
  routes !! i = Some r1 → routes !! j = Some r2 → ru_Method r1 = ru_Method r2 →
  path_matches (ru_Path r1) path = true → path_matches (ru_Path r2) path = true → i = j.
Proof.
  intros H1 H2 Hm Hp1 Hp2. assert (routes_apart = true) as HR by by vm_compute. unfold routes_apart in HR.
  rewrite forallb_elem_of in HR. specialize (HR i). rewrite elem_of_seq in HR.
  pose proof (lookup_lt_Some _ _ _ H1). pose proof (lookup_lt_Some _ _ _ H2). specialize (HR ltac:(lia)).
  rewrite forallb_elem_of in HR. specialize (HR j). rewrite elem_of_seq in HR. specialize (HR ltac:(lia)).
  rewrite H1, H2, Hm, bool_decide_true in HR by done. cbn [negb orb] in HR. destruct (Nat.eqb_spec i j); [done|]. exfalso. by eapply apart_sound.
Qed.

(** ** The readers agree with each other *)

Section consistency.
Context `{DL : !DnsLib, BT : !BTree, MR : !MapRange}.

Lemma foldl_counts (f : ZoneRuntime → string) zs (c : gmap string nat) st :
  default 0 (foldl (λ (c : gmap string nat) z, <[f z := S (default 0 (c !! f z))]> c) c zs !! st) =
  default 0 (c !! st) + length (List.filter (λ z, bool_decide (f z = st)) zs).
Proof.
  revert c. induction zs as [|z zs IH]; intros c; [simpl; lia|]. cbn [foldl List.filter]. rewrite IH. case_bool_decide as Hz.
  - subst st. rewrite lookup_insert_eq. simpl. lia.
  - by rewrite lookup_insert_ne.
Qed.

(** The selection of the list of zones. *)
Lemma listZones_Total s state source :
  zo_Total (listZones s state source) =
  length (List.filter (λ z, (bool_decide (state = "") || bool_decide (state_string (z_State z) = state)) &&
    (bool_decide (source = "") || bool_decide (z_Source z = source))) (List_zones s)).
Proof.
  unfold listZones, Views. cbn [zo_Total]. induction (List_zones s) as [|z l IH]; [done|]. csimpl.
  destruct (bool_decide (state = "")), (bool_decide (state_string (z_State z) = state)), (bool_decide (source = "")), (bool_decide (z_Source z = source));
    csimpl; first [exact IH | f_equal; exact IH].
Qed.

(** The status page counts, for every state, the zones the list of zones
    selects by that state, and the readiness probe counts all of them. *)
Theorem status_consistent b started now s (st : State) :
  default 0 (so_Counts (getStatus b started now s) !! state_string st) = zo_Total (listZones s (state_string st) "") ∧
  ro_Zones (getReady s) = zo_Total (listZones s "" "").
Proof.
  rewrite !listZones_Total. cbn [so_Counts getStatus ro_Zones getReady]. unfold Counts. rewrite foldl_counts, lookup_empty. split.
  - change (default 0 None) with 0. rewrite Nat.add_0_l. f_equal. apply List.filter_ext. intros z. rewrite (bool_decide_false (state_string st = "")) by by destruct st.
    cbn [orb]. by rewrite andb_true_r.
  - symmetry. rewrite (bool_decide_true (""%string = "")) by done. cbn [orb andb].
    induction (List_zones s) as [|z l IH]; [done|]. simpl. by rewrite IH.
Qed.

(** Every request for a zone is refused with 404 when it is not monitored,
    and only then; the refresh is the only one that changes the monitor, by
    one step of it. *)
Theorem zone_requests s name full :
  (zone_at s name = None →
    getZone s name = Error404 "not found" ∧ getZoneSOA s name = Error404 "not found" ∧ getZoneServers s name = Error404 "not found" ∧
    getZoneHistory s name = Error404 "not found" ∧ getZoneDNSKEYs s name = Error404 "not found" ∧ exportZone s name = Error404 "not found" ∧
    refreshZone s name full = (s, Error404 ("unknown zone " +:+ name))) ∧
  (∀ z, zone_at s name = Some z →
    getZone s name = Reply200 (Snapshot z) ∧ (∀ e, exportZone s name ≠ Error404 e) ∧
    ∃ s', refreshZone s name full = (s', Reply200 ("refreshing", full)) ∧ length (s_jobs s') = S (length (s_jobs s))).
Proof.
  unfold getZone, getZoneSOA, getZoneServers, getZoneHistory, getZoneDNSKEYs, exportZone, dumpZone, zoneOrNotFound, refreshZone, RequestRefresh.
  unfold zone_at. destruct (Get s name) as [loc|]; cbn [mbind option_bind].
  - split; [intros ->; done|]. intros z ->. split; [done|]. cbn [mbind Reply_bind]. split.
    { destruct (StoreAndFindings z) as [[st|] findings]; done. }
    eexists. split; [done|]. destruct full; cbn [s_jobs spawn put]; rewrite length_app; simpl; lia.
  - split; [done|]. by intros z.
Qed.

(** The refresh handler makes one step of the monitor, or none. *)
Lemma refreshZone_step cfg s name full s' r : refreshZone s name full = (s', r) → s' = s ∨ Monitor.step cfg s s'.
Proof.
  unfold refreshZone. destruct (RequestRefresh s name full) eqn:E; intros [= <- <-]; [|by left]. right. by eapply step_request.
Qed.
End consistency.

(** ** The catalogs *)

Section catalogs.
Context `{DL : !DnsLib, BT : !BTree, MR : !MapRange}.

(** The comparison of a source with a catalog is one with the names that
    begin with its name; the second condition adds nothing. *)
Lemma is_member_prefix c v : is_member c v = true ↔ ∃ r, v_Source v = "catalog:" +:+ ct_Name c +:+ r.
Proof.
  unfold is_member. rewrite orb_true_iff, bool_decide_eq_true, HasPrefix_spec. split.
  - intros [[r ->]| ->]; [exists r; by rewrite str_app_assoc|exists ""]. by rewrite str_app_nil_r.
  - intros [r ->]. left. exists r. by rewrite str_app_assoc.
Qed.

(** The members of a catalog are listed under every catalog whose name
    begins its name. *)
Theorem listCatalogs_misattributes cfg s c d r z :
  c ∈ c_Catalogs cfg → ct_Name d = ct_Name c +:+ r → z ∈ List_zones s → z_Source z = "catalog:" +:+ ct_Name d →
  ∃ v, v ∈ listCatalogs cfg s ∧ cv_Name v = ct_Name c ∧ z_Name z ∈ cv_Members v.
Proof.
  intros Hc Hd Hz Hs. eexists. split; [apply list_elem_of_fmap; eauto|]. split; [done|]. cbn [cv_Members].
  apply list_elem_of_fmap. exists (Snapshot z). split; [done|]. apply elem_of_filter_b. split.
  - by apply list_elem_of_fmap_2.
  - apply is_member_prefix. exists r. by rewrite <-Hd.
Qed.

(** Where no name of a catalog begins that of another, the list is exact. *)
Theorem listCatalogs_exact cfg s :
  (∀ c d r, c ∈ c_Catalogs cfg → d ∈ c_Catalogs cfg → ct_Name d = ct_Name c +:+ r → r = "") →
  (∀ z, z ∈ List_zones s → z_Source z = "config" ∨ z_Source z = "catalog" ∨
    ∃ d, d ∈ c_Catalogs cfg ∧ z_Source z = "catalog:" +:+ ct_Name d) →
  listCatalogs cfg s = (λ c, mkCatalogView (ct_Name c)
    (z_Name <$> List.filter (λ z, bool_decide (z_Source z = "catalog:" +:+ ct_Name c)) (List_zones s))) <$> c_Catalogs cfg.
Proof.
  intros Hp Hs. unfold listCatalogs. apply list_fmap_ext. intros i c Hc%list_elem_of_lookup_2. f_equal. unfold Views.
  induction (List_zones s) as [|z l IH]; [done|]. csimpl. assert (is_member c (Snapshot z) = bool_decide (z_Source z = "catalog:" +:+ ct_Name c)) as ->.
  { apply eq_bool_prop_intro. split; intros H; apply Is_true_true in H; apply Is_true_true.
    - apply is_member_prefix in H as [r Hr]. apply bool_decide_eq_true. change (v_Source (Snapshot z)) with (z_Source z) in Hr.
      destruct (Hs z ltac:(set_solver)) as [E|[E|(d & Hd & E)]]; rewrite E in Hr; [done|done|].
      simplify_eq/=. pose proof (Hp c d r Hc Hd Hr) as ->. by rewrite E, Hr, str_app_nil_r.
    - apply bool_decide_eq_true in H. apply is_member_prefix. exists "". change (v_Source (Snapshot z)) with (z_Source z).
      by rewrite str_app_nil_r. }
  case_bool_decide; csimpl; rewrite IH; [done| |done|]; set_solver.
Qed.
End catalogs.

(** ** The stream of events *)

(** The events of a run that reach the hub. *)
Definition events_of (steps : list HStep) : list Event := omap (λ st, match st with HEvent e => Some e | _ => None end) steps.

(** What concerns a client: the events, and its own steps. *)
Definition concerns (c : nat) (st : HStep) : bool :=
  match st with HEvent _ => true | HConnect id | HTake id | HLeave id => bool_decide (id = c) end.

(** The client stays connected. *)
Definition stays (c : nat) (st : HStep) : Prop :=
  match st with HConnect id | HLeave id => id ≠ c | _ => True end.

Lemma hub_event_lookup e h c :
  hub_event e h !! c = (λ ch, if bool_decide (length ch < sse_cap) then ch ++ [e] else ch) <$> h !! c.
Proof. apply lookup_fmap. Qed.

(** What a client has and is sent depends on the events and its own steps. *)
Lemma hub_run_own c h1 h2 steps :
  h1 !! c = h2 !! c →
  (hub_run c h1 steps).1 !! c = (hub_run c h2 (List.filter (concerns c) steps)).1 !! c ∧
  (hub_run c h1 steps).2 = (hub_run c h2 (List.filter (concerns c) steps)).2.
Proof.
  revert h1 h2. induction steps as [|[e|id|id|id] steps IH]; intros h1 h2 Hc; cbn [hub_run List.filter concerns].
  - done.
  - apply IH. by rewrite !hub_event_lookup, Hc.
  - case_bool_decide as E; cbn [hub_run]; apply IH; unfold hub_connect; [subst; by rewrite !lookup_insert_eq|by rewrite lookup_insert_ne].
  - case_bool_decide as E; cbn [hub_run]; unfold hub_take.
    + subst id. rewrite Hc. destruct (h2 !! c) as [[|e ch]|] eqn:Eh; [apply IH; congruence|..|apply IH; congruence].
      destruct (IH (<[c:=ch]> h1) (<[c:=ch]> h2)) as [I1 I2]; [by rewrite !lookup_insert_eq|].
      destruct (hub_run c (<[c:=ch]> h1) steps), (hub_run c (<[c:=ch]> h2) _). simpl in *. by rewrite I1, I2, bool_decide_true.
    + destruct (h1 !! id) as [[|e ch]|] eqn:Eh; [apply IH; congruence|..|apply IH; congruence].
      destruct (IH (<[id:=ch]> h1) h2) as [I1 I2]; [by rewrite lookup_insert_ne|].
      destruct (hub_run c (<[id:=ch]> h1) steps). simpl in *. done.
  - case_bool_decide as E; cbn [hub_run]; apply IH; unfold hub_leave; [subst; by rewrite !lookup_delete_eq|by rewrite lookup_delete_ne].
Qed.

(** One client: its channel and what it was sent, against the events. *)
Lemma hub_run_client c steps : ∀ h q, Forall (stays c) steps → h !! c = Some q → length q ≤ sse_cap →
  ∃ q', (hub_run c h steps).1 !! c = Some q' ∧ length q' ≤ sse_cap ∧
    (hub_run c h steps).2 ++ q' `sublist_of` q ++ events_of steps.
Proof.
  induction steps as [|st steps IH]; intros h q Hst Hq Hl.
  { exists q. cbn [hub_run fst snd events_of omap list_omap]. by rewrite app_nil_r. }
  apply Forall_cons in Hst as [Hs Hst]. destruct st as [e|id|id|id]; cbn [hub_run]; unfold events_of; csimpl; fold (events_of steps).
  - assert (∃ q1, hub_event e h !! c = Some q1 ∧ length q1 ≤ sse_cap ∧ q1 ++ events_of steps `sublist_of` q ++ e :: events_of steps)
      as (q1 & H1 & H2 & H3).
    { rewrite hub_event_lookup, Hq. cbn [fmap option_fmap option_map]. case_bool_decide as Hc; eexists; (split; [done|]).
      - rewrite length_app. cbn [length]. split; [lia|]. by rewrite <-app_assoc.
      - split; [done|]. apply sublist_app; [done|]. by apply sublist_cons. }
    destruct (IH _ _ Hst H1 H2) as (q' & I1 & I2 & I3). exists q'. split_and!; [done..|]. by etrans.
  - apply IH; [done| |done]. unfold hub_connect. by rewrite lookup_insert_ne.
  - unfold hub_take. destruct (h !! id) as [[|e ch]|] eqn:Eh; [by apply IH|..|by apply IH].
    destruct (decide (id = c)) as [->|Hne].
    + rewrite Hq in Eh. injection Eh as ->. destruct (IH (<[c:=ch]> h) ch Hst) as (q' & I1 & I2 & I3); [by rewrite lookup_insert_eq|simpl in Hl; lia|].
      destruct (hub_run c (<[c:=ch]> h) steps) as [h' sent]. cbn [fst snd] in *. exists q'. split_and!; [done..|].
      rewrite bool_decide_true by done. cbn [app]. by apply sublist_skip.
    + destruct (IH (<[id:=ch]> h) q Hst) as (q' & I1 & I2 & I3); [by rewrite lookup_insert_ne|done|].
      destruct (hub_run c (<[id:=ch]> h) steps) as [h' sent]. rewrite bool_decide_false by done. eauto.
  - apply IH; [done| |done]. unfold hub_leave. by rewrite lookup_delete_ne.
Qed.

(** A client that is never 32 events behind loses nothing. *)
Lemma hub_run_keeps c steps : ∀ h q, Forall (stays c) steps → h !! c = Some q →
  (∀ p q, p `prefix_of` steps → (hub_run c h p).1 !! c = Some q → length q < sse_cap) →
  ∃ q', (hub_run c h steps).1 !! c = Some q' ∧ (hub_run c h steps).2 ++ q' = q ++ events_of steps.
Proof.
  induction steps as [|st steps IH]; intros h q Hst Hq Hk.
  { exists q. cbn [hub_run fst snd events_of omap list_omap]. by rewrite app_nil_r. }
  apply Forall_cons in Hst as [Hs Hst]. pose proof (λ p q H, Hk (st :: p) q (prefix_cons st _ _ H)) as Hk'.
  destruct st as [e|id|id|id]; cbn [hub_run] in *; unfold events_of; csimpl; fold (events_of steps).
  - assert (hub_event e h !! c = Some (q ++ [e])) as H1.
    { rewrite hub_event_lookup, Hq. csimpl. rewrite bool_decide_true; [done|]. apply (Hk []); [apply prefix_nil|done]. }
    destruct (IH _ _ Hst H1 Hk') as (q' & I1 & I2). exists q'. split; [done|]. by rewrite I2, <-app_assoc.
  - apply IH; [done| |done]. unfold hub_connect. by rewrite lookup_insert_ne.
  - unfold hub_take in *. destruct (h !! id) as [[|e ch]|] eqn:Eh; [by apply IH|..|by apply IH].
    assert (∀ p q, p `prefix_of` steps → (hub_run c (<[id:=ch]> h) p).1 !! c = Some q → length q < sse_cap) as Hk2.
    { intros p q2 Hp H2. apply (Hk' p); [done|]. by destruct (hub_run c (<[id:=ch]> h) p). }
    destruct (decide (id = c)) as [->|Hne].
    + rewrite Hq in Eh. injection Eh as ->. destruct (IH (<[c:=ch]> h) ch Hst) as (q' & I1 & I2); [by rewrite lookup_insert_eq|done|].
      destruct (hub_run c (<[c:=ch]> h) steps) as [h' sent]. cbn [fst snd] in *. exists q'. split; [done|].
      rewrite bool_decide_true by done. cbn [app]. by rewrite I2.
    + destruct (IH (<[id:=ch]> h) q Hst) as (q' & I1 & I2); [by rewrite lookup_insert_ne|done|].
      destruct (hub_run c (<[id:=ch]> h) steps) as [h' sent]. rewrite bool_decide_false by done. eauto.
  - apply IH; [done| |done]. unfold hub_leave. by rewrite lookup_delete_ne.
Qed.

(** What a client of the event stream is sent, with what waits in its
    channel, is an ordered part of what waited before and the events since,
    never more than 32 waiting; it is all of them as long as fewer than 32
    wait at every moment; and it is the same whatever other clients connect,
    read or leave. *)
Theorem stream_in_order c h q steps :
  Forall (stays c) steps → h !! c = Some q → length q ≤ sse_cap →
  ∃ q', (hub_run c h steps).1 !! c = Some q' ∧ length q' ≤ sse_cap ∧
    ((hub_run c h steps).2 ++ q' `sublist_of` q ++ events_of steps) ∧
    ((∀ p q, p `prefix_of` steps → (hub_run c h p).1 !! c = Some q → length q < sse_cap) →
      (hub_run c h steps).2 ++ q' = q ++ events_of steps) ∧
    (hub_run c h steps).2 = (hub_run c {[ c := q ]} (List.filter (concerns c) steps)).2.
Proof.
  intros Hst Hq Hl. destruct (hub_run_client c steps h q Hst Hq Hl) as (q' & H1 & H2 & H3). exists q'. split_and!; [done..| |].
  - intros Hk. destruct (hub_run_keeps c steps h q Hst Hq Hk) as (q2 & H4 & H5). simplify_eq. done.
  - apply hub_run_own. by rewrite Hq, lookup_singleton_eq.
Qed.

(** Two clients, one that reads and one that does not. *)
Definition demo_event (n : Z) : Event := mkEvent ZoneValid "z." n "" "" "" "" "" "" ∅.
Definition demo_steps : list HStep :=
  [HConnect 1; HEvent (demo_event 1); HEvent (demo_event 2); HTake 0; HLeave 1; HTake 0; HEvent (demo_event 3)].

Lemma stream_in_order_witness :
  e_At <$> (hub_run 0 {[ 0 := [] ]} demo_steps).2 = [1; 2]%Z ∧
  ∃ q', (hub_run 0 {[ 0 := [] ]} demo_steps).1 !! 0 = Some q' ∧ length q' ≤ sse_cap.
Proof.
  split; [by vm_compute|]. destruct (stream_in_order 0 {[ 0 := [] ]} [] demo_steps) as (q' & H1 & H2 & _).
  - repeat constructor; done.
  - done.
  - unfold sse_cap. simpl. lia.
  - by exists q'.
Defined.

(** ** A catalog whose name begins that of another *)

Definition demo_catalog (name : string) : Catalog := mkCatalog name [] "" [] "" true.
Definition demo_config : Config :=
  mkConfig (c_TSIGKeys Defaults) (c_Servers Defaults) (c_Zones Defaults) [demo_catalog "cat.example."; demo_catalog "cat.example.org."]
    (c_Refresh Defaults) (c_Notify Defaults) (c_Verification Defaults) (c_ChainOfTrust Defaults) (c_Webhooks Defaults) (c_State Defaults)
    (c_APIListen Defaults) (c_Logging Defaults) (c_Theme Defaults).
Definition demo_zone : ZoneRuntime := NewZone "member.test." "catalog:cat.example.org." [] "".
Definition demo_sys : Sys := mkSys [demo_zone] {[ "member.test." := 0 ]} 0 [] [].

Lemma demo_zones : demo_zone ∈ List_zones demo_sys.
Proof. apply list_elem_of_omap. exists ("member.test.", 0). split; [|done]. apply elem_of_range. apply lookup_singleton_eq. Qed.

Lemma listCatalogs_misattributes_witness :
  ∃ v, v ∈ listCatalogs demo_config demo_sys ∧ cv_Name v = "cat.example." ∧ z_Name demo_zone ∈ cv_Members v.
Proof.
  apply (listCatalogs_misattributes demo_config demo_sys (demo_catalog "cat.example.") (demo_catalog "cat.example.org.") "org." demo_zone).
  - apply list_elem_of_here.
  - reflexivity.
  - exact demo_zones.
  - reflexivity.
Defined.
