(* ===== verification/Metrics.v ===== *)
(** * Metrics (internal/metrics, and updateZoneMetrics of the monitor)

    The collectors [New] registers, as data: their names, labels and
    buckets; and the update the monitor makes after every refresh, as the
    list of its operations ([Counters] has those of the rest of the
    program). The registry itself is the Prometheus
    library, a parameter with the laws its documentation states: a series is
    a name and its label values, [Set], [Inc] and [Add] change one series,
    [Reset] deletes all series of a name; of a histogram the number of
    observations is kept. The values set are integers, kept as
    such; a [float64] holds them exactly below 2^53.

    Main results: the collectors can be registered, and no update names
    labels a gauge does not have; the update shows exactly the view; but it
    deletes the findings of all other zones. *)

From S2P Require Import Prelude GoStrings DnsLib BTree DnsName Node Store Toy Config Findings Full Runtime Manager.
From Stdlib Require Strings.String.

(** ** Collectors *)

Inductive Kind := Gauge | Counter | Histogram (buckets : list Z).

#[export] Instance Kind_eq_dec : EqDecision Kind.
Proof. solve_decision. Defined.

(** The buckets are in milliseconds. *)
Record Collector := mkCollector { co_Kind : Kind; co_Name : string; co_Labels : list string }.

Definition ns : string := "dnssec_auditor".
Definition fq (name : string) : string := ns +:+ "_" +:+ name.

(** [prometheus.DefBuckets] *)
Definition DefBuckets : list Z := [5; 10; 25; 50; 100; 250; 500; 1000; 2500; 5000; 10000]%Z.

(** The collectors of [New], in the order of registration. *)
Definition New : list Collector :=
  [ mkCollector Gauge (fq "zone_valid") ["zone"];
    mkCollector Gauge (fq "zone_state") ["zone"; "state"];
    mkCollector Gauge (fq "zone_serial") ["zone"];
    mkCollector Gauge (fq "zone_last_valid_timestamp_seconds") ["zone"];
    mkCollector Gauge (fq "zone_last_verified_timestamp_seconds") ["zone"];
    mkCollector Gauge (fq "zone_last_transfer_timestamp_seconds") ["zone"];
    mkCollector Gauge (fq "zone_next_refresh_timestamp_seconds") ["zone"];
    mkCollector Gauge (fq "zone_records") ["zone"];
    mkCollector Gauge (fq "zone_rrsigs") ["zone"];
    mkCollector Gauge (fq "zone_nsec3_records") ["zone"];
    mkCollector Gauge (fq "zone_dnskeys") ["zone"; "flags"; "algorithm"];
    mkCollector Gauge (fq "zone_rrsig_earliest_expiry_timestamp_seconds") ["zone"];
    mkCollector Gauge (fq "zone_findings") ["zone"; "code"; "severity"];
    mkCollector Gauge (fq "zone_chain_of_trust_ok") ["zone"];
    mkCollector Gauge (fq "zone_zonemd_ok") ["zone"];
    mkCollector Gauge (fq "zone_zonemd_checked_timestamp_seconds") ["zone"];
    mkCollector Gauge (fq "zone_zonemd_stale") ["zone"];
    mkCollector Gauge (fq "zone_server_serial") ["zone"; "server"];
    mkCollector Gauge (fq "zone_server_reachable") ["zone"; "server"];
    mkCollector (Histogram DefBuckets) (fq "zone_server_probe_rtt_seconds") ["zone"; "server"];
    mkCollector Gauge (fq "zone_store_bytes") [];
    mkCollector Counter (fq "transfers_total") ["zone"; "method"; "result"];
    mkCollector (Histogram [50; 100; 250; 500; 1000; 2000; 5000; 10000; 30000; 60000; 120000; 300000]%Z)
      (fq "transfer_duration_seconds") ["zone"; "method"];
    mkCollector Counter (fq "transfer_records_total") ["zone"; "method"];
    mkCollector Counter (fq "verifications_total") ["zone"; "mode"; "result"];
    mkCollector (Histogram [1; 5; 10; 50; 100; 250; 500; 1000; 2000; 5000; 10000; 30000; 60000; 120000]%Z)
      (fq "verification_duration_seconds") ["zone"; "mode"];
    mkCollector Counter (fq "rrsig_verifications_total") ["algorithm"; "result"];
    mkCollector Counter (fq "notifies_received_total") ["transport"; "result"];
    mkCollector Gauge (fq "catalog_members") ["catalog"];
    mkCollector Counter (fq "webhook_deliveries_total") ["target"; "result"];
    mkCollector Counter (fq "state_saves_total") ["result"] ].

(** ** The update of a zone *)

(** An operation on a collector: [Set], [Inc], [Add], [Observe], [Reset]. *)
Inductive MetricOp :=
| GSet (name : string) (labels : list string) (v : Z)
| GInc (name : string) (labels : list string)
| CAdd (name : string) (labels : list string) (v : Z)
| HObserve (name : string) (labels : list string)
| GReset (name : string).

(** [m.metrics.X.WithLabelValues(v.Name).Set(n)], and the same where [n] is a date that is set. *)
Definition gauge (v : ZoneView) (name : string) (n : Z) : MetricOp := GSet (fq name) [v_Name v] n.
Definition date_gauge (v : ZoneView) (name : string) (t : Time) : list MetricOp := if IsZero t then [] else [gauge v name (Unix t)].
Definition b2z (b : bool) : Z := if b then 1%Z else 0%Z.

Definition all_states : list string := ["unknown"; "transferring"; "verifying"; "valid"; "invalid"; "unsigned"; "transfer_failed"; "stale"].

(** The gauges of the zone but the first two and the findings; [r] is the
    result of the pass, if there was one. *)
Definition zone_gauges (v : ZoneView) (r : option Result) : list MetricOp :=
  [gauge v "zone_serial" (v_Serial v); gauge v "zone_records" (v_Records v);
   gauge v "zone_rrsigs" (Z.of_nat (v_RRSIGs v)); gauge v "zone_nsec3_records" (Z.of_nat (v_NSEC3 v))] ++
  date_gauge v "zone_last_valid_timestamp_seconds" (v_LastValidAt v) ++
  date_gauge v "zone_last_verified_timestamp_seconds" (v_LastVerified v) ++
  date_gauge v "zone_last_transfer_timestamp_seconds" (v_LastTransfer v) ++
  date_gauge v "zone_next_refresh_timestamp_seconds" (v_NextRefresh v) ++
  match r with
  | None => []
  | Some r =>
      (if bool_decide (r_EarliestExpiry r = 0%Z) then []
       else [gauge v "zone_rrsig_earliest_expiry_timestamp_seconds" (r_EarliestExpiry r)]) ++
      [gauge v "zone_zonemd_ok" (match v_ZONEMDOK v with None => -1 | Some true => 1 | Some false => 0 end)%Z]
  end ++
  match v_ZONEMDCheckedAt v with Some t => [gauge v "zone_zonemd_checked_timestamp_seconds" (Unix t)] | None => [] end ++
  [gauge v "zone_zonemd_stale" (b2z (v_ZONEMDStale v))].

(** [bytes] is [StoreBytes]. *)
Definition updateZoneMetrics (v : ZoneView) (r : option Result) (bytes : Z) : list MetricOp :=
  [gauge v "zone_valid" (b2z (v_Valid v))] ++
  ((λ s, GSet (fq "zone_state") [v_Name v; s] (b2z (bool_decide (v_State v = s)))) <$> all_states) ++
  zone_gauges v r ++
  [GReset (fq "zone_findings")] ++
  ((λ f, GInc (fq "zone_findings") [v_Name v; f_Code f; f_Severity f]) <$> v_Findings v) ++
  [GSet (fq "zone_store_bytes") [] bytes].

(** ** The registry *)

Class Prom : Type := {
  Registry : Type;
  value : Registry → string → list string → option Z;
  perform : MetricOp → Registry → Registry
}.

Class PromLaws `{Prom} : Prop := {
  value_set name ls n r name' ls' :
    value (perform (GSet name ls n) r) name' ls' = if bool_decide (name = name' ∧ ls = ls') then Some n else value r name' ls';
  value_inc name ls r name' ls' :
    value (perform (GInc name ls) r) name' ls' =
      if bool_decide (name = name' ∧ ls = ls') then Some (default 0 (value r name' ls') + 1)%Z else value r name' ls';
  value_add name ls n r name' ls' :
    value (perform (CAdd name ls n) r) name' ls' =
      if bool_decide (name = name' ∧ ls = ls') then Some (default 0 (value r name' ls') + n)%Z else value r name' ls';
  value_observe name ls r name' ls' :
    value (perform (HObserve name ls) r) name' ls' =
      if bool_decide (name = name' ∧ ls = ls') then Some (default 0 (value r name' ls') + 1)%Z else value r name' ls';
  value_reset name r name' ls' :
    value (perform (GReset name) r) name' ls' = if bool_decide (name = name') then None else value r name' ls'
}.

Definition update `{Prom} (ops : list MetricOp) (r : Registry) : Registry := foldl (λ r op, perform op r) r ops.

(** ** Registration *)

Definition strictly_increasing (l : list Z) : bool := bool_decide (Sorted Z.lt l).

(** What registering a collector requires. *)
Definition metric_char (c : Ascii.ascii) : bool :=
  let n := Ascii.nat_of_ascii c in ((97 <=? n) && (n <=? 122)) || ((48 <=? n) && (n <=? 57)) || (n =? 95).
Definition well_named (s : string) : bool :=
  match s with
  | "" => false
  | String c _ => negb (Ascii.nat_of_ascii c <? 58) && forallb metric_char (String.list_ascii_of_string s)
  end.
Definition registrable (c : Collector) : bool :=
  well_named (co_Name c) && forallb well_named (co_Labels c) && bool_decide (NoDup (co_Labels c)) &&
  match co_Kind c with Histogram bs => strictly_increasing bs && negb (bool_decide ("le" ∈ co_Labels c)) | _ => true end.

(** Every collector can be registered, under a name of its own. *)
Theorem New_registers : forallb registrable New = true ∧ NoDup (co_Name <$> New).
Proof. split; [|apply (bool_decide_unpack _)]; vm_compute; done. Qed.

(** The kind of a collector, and how many labels it has. *)
Definition collector (name : string) : option (Kind * nat) :=
  (λ c, (co_Kind c, length (co_Labels c))) <$> List.find (λ c, bool_decide (co_Name c = name)) New.

(** The operation exists for the collector, and is given a value for every label. *)
Definition op_fits (op : MetricOp) : bool :=
  match op with
  | GSet name ls _ => bool_decide (collector name = Some (Gauge, length ls))
  | GInc name ls => bool_decide (collector name = Some (Gauge, length ls) ∨ collector name = Some (Counter, length ls))
  | CAdd name ls n => bool_decide (collector name = Some (Counter, length ls)) && (0 <=? n)%Z
  | HObserve name ls => match collector name with Some (Histogram _, n) => bool_decide (n = length ls) | _ => false end
  | GReset name => bool_decide (is_Some (collector name))
  end.

Definition op_name (op : MetricOp) : string :=
  match op with GSet name _ _ | GInc name _ | CAdd name _ _ | HObserve name _ | GReset name => name end.

(** A property of the sets of these gauges holds of all operations. *)
Lemma zone_gauges_Forall (P : MetricOp → Prop) v r :
  (∀ name n, name ∈ ["zone_serial"; "zone_records"; "zone_rrsigs"; "zone_nsec3_records"; "zone_last_valid_timestamp_seconds";
      "zone_last_verified_timestamp_seconds"; "zone_last_transfer_timestamp_seconds"; "zone_next_refresh_timestamp_seconds";
      "zone_rrsig_earliest_expiry_timestamp_seconds"; "zone_zonemd_ok"; "zone_zonemd_checked_timestamp_seconds"; "zone_zonemd_stale"] →
    P (gauge v name n)) → Forall P (zone_gauges v r).
Proof.
  intros Hg. assert (∀ name t, P (gauge v name (Unix t)) → Forall P (date_gauge v name t)) as Hd.
  { intros name t H. unfold date_gauge. destruct (IsZero t); repeat constructor; done. }
  unfold zone_gauges. rewrite !Forall_app, !Forall_cons, !Forall_nil. split_and!;
    try first [done|apply Hd; apply Hg; set_solver|apply Hg; set_solver].
  - destruct r as [r|]; [|done]. rewrite Forall_app, Forall_singleton. split; [|apply Hg; set_solver].
    destruct (bool_decide _); [done|]. apply Forall_singleton, Hg. set_solver.
  - destruct (v_ZONEMDCheckedAt v); [|done]. apply Forall_singleton, Hg. set_solver.
Qed.

(** No operation of an update panics: every gauge is given as many label
    values as it has labels. *)
Theorem update_labels v r bytes : Forall (λ op, op_fits op = true) (updateZoneMetrics v r bytes).
Proof.
  unfold updateZoneMetrics. rewrite !Forall_app, !Forall_singleton, !Forall_fmap. split_and!.
  - by vm_compute.
  - apply Forall_forall. intros s _. by vm_compute.
  - apply zone_gauges_Forall. intros name n Hin. cbn [op_fits gauge length]. revert name Hin. apply Forall_forall. repeat constructor.
  - by vm_compute.
  - apply Forall_forall. intros f _. by vm_compute.
  - by vm_compute.
Qed.

(** Operations that are on other gauges. *)
Ltac others H :=
  first [by apply H; set_solver
        |rewrite ?Forall_fmap, ?Forall_singleton; try (apply Forall_forall; intros ? _);
         cbv beta iota delta [op_name gauge compose]; by vm_compute].

Section shown.
Context `{PL : PromLaws}.

Lemma fq_inj a b : fq a = fq b → a = b.
Proof. unfold fq, ns. simpl. intros [= E]. exact E. Qed.

Lemma update_app ops1 ops2 r : update (ops1 ++ ops2) r = update ops2 (update ops1 r).
Proof. apply foldl_app. Qed.

(** Operations on other gauges leave a gauge alone. *)
Lemma update_other ops r name ls : Forall (λ op, op_name op ≠ name) ops → value (update ops r) name ls = value r name ls.
Proof.
  revert r. induction ops as [|op ops IH]; intros r; [done|]. rewrite Forall_cons. intros [Hop Hops]. unfold update in *. cbn [foldl]. rewrite IH by done.
  destruct op as [n l v|n l|n l v|n l|n]; cbn [op_name] in Hop; rewrite ?value_set, ?value_inc, ?value_add, ?value_observe, ?value_reset; rewrite bool_decide_false; naive_solver.
Qed.

(** The states of a zone: one series for each. *)
Lemma update_states (states : list string) z (f : string → Z) r z' s :
  value (update ((λ s, GSet (fq "zone_state") [z; s] (f s)) <$> states) r) (fq "zone_state") [z'; s] =
  if bool_decide (z' = z ∧ s ∈ states) then Some (f s) else value r (fq "zone_state") [z'; s].
Proof.
  revert r. induction states as [|s1 states IH]; intros r.
  { rewrite bool_decide_false; [done|]. intros [_ E]. by apply elem_of_nil in E. }
  unfold update in *. cbn [fmap list_fmap foldl]. rewrite IH, value_set.
  destruct (decide (z' = z)) as [->|Hz]; [|rewrite !bool_decide_false by naive_solver; done].
  destruct (decide (s ∈ states)) as [Hs|Hs]; [rewrite !bool_decide_true by set_solver; done|].
  rewrite (bool_decide_false (z = z ∧ s ∈ states)) by naive_solver.
  destruct (decide (s1 = s)) as [->|Hne]; [rewrite !bool_decide_true by set_solver; done|].
  rewrite (bool_decide_false (z = z ∧ s ∈ s1 :: states)) by (rewrite elem_of_cons; naive_solver).
  by rewrite bool_decide_false by (intros [_ [= E]]; congruence).
Qed.

(** The findings are counted by code and severity. *)
Lemma update_findings (fs : list Finding) z r z' code sev :
  (∀ ls, value r (fq "zone_findings") ls = None) →
  value (update ((λ f, GInc (fq "zone_findings") [z; f_Code f; f_Severity f]) <$> fs) r) (fq "zone_findings") [z'; code; sev] =
  let n := if bool_decide (z' = z) then length (List.filter (λ f, bool_decide (f_Code f = code) && bool_decide (f_Severity f = sev)) fs) else 0 in
  if bool_decide (n = 0) then None else Some (Z.of_nat n).
Proof.
  intros Hr. induction fs as [|f fs IH] using rev_ind; [cbn; rewrite Hr; by destruct (bool_decide (z' = z))|].
  rewrite fmap_app, update_app, List.filter_app, length_app. unfold update at 1. cbn [fmap list_fmap foldl List.filter].
  rewrite value_inc, IH. cbv zeta. destruct (decide (z' = z)) as [->|Hz].
  2:{ rewrite (bool_decide_false (z' = z)) by done. rewrite bool_decide_false by naive_solver. done. }
  rewrite (bool_decide_true (z = z)) by done.
  destruct (decide (f_Code f = code)) as [->|Hc]; [destruct (decide (f_Severity f = sev)) as [->|Hs]|].
  - rewrite (bool_decide_true (_ ∧ _)) by done. rewrite (bool_decide_true (code = code)), (bool_decide_true (sev = sev)) by done. cbn [andb length].
    rewrite (bool_decide_false (_ + 1 = 0)) by lia.
    generalize (length (List.filter (λ f, bool_decide (f_Code f = code) && bool_decide (f_Severity f = sev)) fs)). intros [|n]; [done|].
    rewrite (bool_decide_false (S n = 0)) by done. cbn [default from_option id]. f_equal. lia.
  - rewrite bool_decide_false by naive_solver. rewrite (bool_decide_false (f_Severity f = sev)) by done. rewrite andb_false_r. cbn [length].
    by rewrite Nat.add_0_r.
  - rewrite bool_decide_false by naive_solver. rewrite (bool_decide_false (f_Code f = code)) by done. cbn [andb length].
    by rewrite Nat.add_0_r.
Qed.

(** After the update the gauges show the view: whether the zone is valid,
    one of the eight states set and the others not, and the numbers of its
    findings. The findings of all other zones are gone, although they are
    as open as before. *)
Theorem update_shows v res bytes r :
  let r' := update (updateZoneMetrics v res bytes) r in
  value r' (fq "zone_valid") [v_Name v] = Some (b2z (v_Valid v)) ∧
  (∀ s, s ∈ all_states → value r' (fq "zone_state") [v_Name v; s] = Some (b2z (bool_decide (v_State v = s)))) ∧
  ∀ z code sev, value r' (fq "zone_findings") [z; code; sev] =
    let n := if bool_decide (z = v_Name v)
      then length (List.filter (λ f, bool_decide (f_Code f = code) && bool_decide (f_Severity f = sev)) (v_Findings v)) else 0 in
    if bool_decide (n = 0) then None else Some (Z.of_nat n).
Proof.
  cbv zeta. unfold updateZoneMetrics. rewrite !update_app.
  assert (∀ name, name ∈ ["zone_valid"; "zone_state"; "zone_findings"] → Forall (λ op, op_name op ≠ fq name) (zone_gauges v res)) as Hother.
  { intros name Hn. apply zone_gauges_Forall. intros n k Hk E. apply fq_inj in E. subst n.
    revert Hk. revert name Hn. rewrite <-Forall_forall. apply (bool_decide_unpack _). by vm_compute. }
  split_and!.
  - rewrite 5!update_other by others Hother. unfold update. cbn [foldl]. unfold gauge. by rewrite value_set, bool_decide_true.
  - intros s Hs. rewrite 4!update_other by others Hother. by rewrite update_states, bool_decide_true.
  - intros z code sev. rewrite update_other by others Hother. apply update_findings.
    intros ls. unfold update. cbn [foldl]. by rewrite value_reset, bool_decide_true.
Qed.
End shown.

(** A registry, as a map. *)
#[export] Instance map_prom : Prom := {|
  Registry := gmap (string * list string) Z;
  value r name ls := r !! (name, ls);
  perform op r := match op with
    | GSet name ls n => <[(name, ls) := n]> r
    | GInc name ls | HObserve name ls => <[(name, ls) := (default 0 (r !! (name, ls)) + 1)%Z]> r
    | CAdd name ls n => <[(name, ls) := (default 0 (r !! (name, ls)) + n)%Z]> r
    | GReset name => filter (λ e, e.1.1 ≠ name) r
    end
|}.

#[export] Instance map_prom_laws : PromLaws.
Proof.
  constructor; intros; cbn [perform value map_prom Registry] in *.
  1-4: case_bool_decide as E; [destruct E as [-> ->]; by rewrite lookup_insert_eq|rewrite lookup_insert_ne; [done|naive_solver]].
  - case_bool_decide as E.
    + subst. apply map_lookup_filter_None. right. naive_solver.
    + destruct (r !! (name', ls')) as [v|] eqn:Ev; [by apply map_lookup_filter_Some_2; [|naive_solver]|]. apply map_lookup_filter_None. by left.
Qed.

(** A zone with a finding, and the update of another zone. *)
Section alert.
Definition demo_view (name : string) (findings : list Finding) : ZoneView :=
  mkZoneView name "config" "valid" true false 1 3 0 0 "" 0 0 None 0 0 "" "" false false 0 0 findings [] [] None None None None false.
Definition demo_skew : Finding := NewFinding 5 SerialSkew Warning "a." 0 "server serials differ by 9".

Lemma update_shows_witness :
  let r1 := update (updateZoneMetrics (demo_view "a." [demo_skew]) None 0) (∅ : Registry) in
  let r2 := update (updateZoneMetrics (demo_view "b." []) None 0) r1 in
  value r1 (fq "zone_findings") ["a."; SerialSkew; Warning] = Some 1%Z ∧ value r2 (fq "zone_findings") ["a."; SerialSkew; Warning] = None.
Proof.
  cbv zeta. split.
  - destruct (update_shows (demo_view "a." [demo_skew]) None 0 (∅ : Registry)) as (_ & _ & H). rewrite H. by vm_compute.
  - destruct (update_shows (demo_view "b." []) None 0 (update (updateZoneMetrics (demo_view "a." [demo_skew]) None 0) (∅ : Registry))) as (_ & _ & H).
    rewrite H. by vm_compute.
Defined.
End alert.
