(* ===== verification/Logging.v ===== *)
(** * Logging (internal/logging)

    The choice of the level and the format of the log, and the wide events:
    one record for each refresh, whose attributes [Emit] selects. Writing
    them is the standard library's. Main result: exactly which attributes
    are logged. *)

From S2P Require Import Prelude GoStrings Config.

(** ** Setup *)

Inductive Level := LevelDebug | LevelInfo | LevelWarn | LevelError.
Inductive LogHandler := TextHandler (l : Level) | JSONHandler (l : Level).

Definition log_level (level : string) : Level :=
  let l := ToLower level in
  if bool_decide (l = "debug") then LevelDebug
  else if bool_decide (l = "warn" ∨ l = "warning") then LevelWarn
  else if bool_decide (l = "error") then LevelError
  else LevelInfo.
Definition Setup (cfg : LoggingConfig) : LogHandler :=
  if EqualFold (lg_Format cfg) "text" then TextHandler (log_level (lg_Level cfg)) else JSONHandler (log_level (lg_Level cfg)).

(** ** Wide events *)

Inductive LogValue := LStr (s : string) | LInt (n : Z) | LBool (b : bool).

#[export] Instance LogValue_eq_dec : EqDecision LogValue.
Proof. solve_decision. Defined.

Record WideEvent := mkWide {
  we_Event : string; we_Zone : string; we_Source : string; we_Server : string; we_SerialFrom : Z; we_SerialTo : Z; we_Method : string;
  we_RecordsAdded : Z; we_RecordsRemoved : Z; we_VerifyMode : string; we_RRSIGsVerified : Z; we_NSEC3Checked : Z; we_ZONEMDChecked : bool;
  we_DurationMS : Z; we_Result : string; we_FindingsOpened : Z; we_FindingsClosed : Z; we_Warnings : Z; we_Extra : gmap string LogValue;
  we_started : Time
}.

Definition StartWide (event : string) (now : Time) : WideEvent :=
  mkWide event "" "" "" 0 0 "" 0 0 "" 0 0 false 0 "" 0 0 0 ∅ now.

(** The duration [Emit] logs, and keeps. *)
Definition elapsed (now : Time) (e : WideEvent) : Z :=
  if bool_decide (we_DurationMS e = 0%Z) && negb (IsZero (we_started e)) then Z.quot (now - we_started e) 1000000 else we_DurationMS e.

Definition attr_str (key s : string) : list (string * LogValue) := if bool_decide (s = "") then [] else [(key, LStr s)].
Definition attr_int (key : string) (n : Z) : list (string * LogValue) := if bool_decide (n = 0%Z) then [] else [(key, LInt n)].

Definition Emit `{MR : !MapRange} (now : Time) (e : WideEvent) : list (string * LogValue) :=
  [("event", LStr (we_Event e)); ("duration_ms", LInt (elapsed now e)); ("result", LStr (we_Result e))] ++
  attr_str "zone" (we_Zone e) ++ attr_str "source" (we_Source e) ++ attr_str "server" (we_Server e) ++
  (if bool_decide (we_SerialFrom e = 0%Z) && bool_decide (we_SerialTo e = 0%Z) then []
   else [("serial_from", LInt (we_SerialFrom e)); ("serial_to", LInt (we_SerialTo e))]) ++
  attr_str "method" (we_Method e) ++ attr_str "verify_mode" (we_VerifyMode e) ++
  attr_int "rrsigs_verified" (we_RRSIGsVerified e) ++ attr_int "nsec3_checked" (we_NSEC3Checked e) ++
  (if we_ZONEMDChecked e then [("zonemd_checked", LBool true)] else []) ++
  attr_int "records_added" (we_RecordsAdded e) ++ attr_int "records_removed" (we_RecordsRemoved e) ++
  attr_int "findings_opened" (we_FindingsOpened e) ++ attr_int "findings_closed" (we_FindingsClosed e) ++
  attr_int "warnings" (we_Warnings e) ++ range (we_Extra e).

(** ** What is logged *)

Lemma elem_of_attr_str key s k v : (k, v) ∈ attr_str key s ↔ s ≠ "" ∧ k = key ∧ v = LStr s.
Proof. unfold attr_str. case_bool_decide; set_solver. Qed.

Lemma elem_of_attr_int key n k v : (k, v) ∈ attr_int key n ↔ n ≠ 0%Z ∧ k = key ∧ v = LInt n.
Proof. unfold attr_int. case_bool_decide; set_solver. Qed.

(** The texts and numbers of an event, by the key they are logged under. *)
Definition texts (e : WideEvent) : list (string * string) :=
  [("zone", we_Zone e); ("source", we_Source e); ("server", we_Server e); ("method", we_Method e); ("verify_mode", we_VerifyMode e)].
Definition numbers (e : WideEvent) : list (string * Z) :=
  [("rrsigs_verified", we_RRSIGsVerified e); ("nsec3_checked", we_NSEC3Checked e); ("records_added", we_RecordsAdded e);
   ("records_removed", we_RecordsRemoved e); ("findings_opened", we_FindingsOpened e); ("findings_closed", we_FindingsClosed e);
   ("warnings", we_Warnings e)].

(** What [Emit] logs: the three attributes every event has, the others when
    they are not empty or zero, both serials as soon as one is known, and
    everything in [Extra]. *)
Theorem Emit_exact `{MR : !MapRange} now e k v :
  (k, v) ∈ Emit now e ↔
    (k, v) ∈ [("event", LStr (we_Event e)); ("duration_ms", LInt (elapsed now e)); ("result", LStr (we_Result e))] ∨
    (∃ s, (k, s) ∈ texts e ∧ s ≠ "" ∧ v = LStr s) ∨ (∃ n, (k, n) ∈ numbers e ∧ n ≠ 0%Z ∧ v = LInt n) ∨
    ((we_SerialFrom e ≠ 0%Z ∨ we_SerialTo e ≠ 0%Z) ∧ (k, v) ∈ [("serial_from", LInt (we_SerialFrom e)); ("serial_to", LInt (we_SerialTo e))]) ∨
    (we_ZONEMDChecked e = true ∧ k = "zonemd_checked" ∧ v = LBool true) ∨ we_Extra e !! k = Some v.
Proof.
  unfold Emit, texts, numbers. rewrite !elem_of_app, !elem_of_attr_str, !elem_of_attr_int, elem_of_range.
  assert ((k, v) ∈ (if bool_decide (we_SerialFrom e = 0%Z) && bool_decide (we_SerialTo e = 0%Z) then []
    else [("serial_from", LInt (we_SerialFrom e)); ("serial_to", LInt (we_SerialTo e))]) ↔
    (we_SerialFrom e ≠ 0%Z ∨ we_SerialTo e ≠ 0%Z) ∧ (k, v) ∈ [("serial_from", LInt (we_SerialFrom e)); ("serial_to", LInt (we_SerialTo e))]) as ->.
  { repeat case_bool_decide; cbn [andb]; rewrite ?elem_of_nil; naive_solver. }
  assert ((k, v) ∈ (if we_ZONEMDChecked e then [("zonemd_checked", LBool true)] else []) ↔
    we_ZONEMDChecked e = true ∧ k = "zonemd_checked" ∧ v = LBool true) as -> by (destruct (we_ZONEMDChecked e); set_solver).
  assert (∀ (l : list (string * string)) (x : string * string), (∃ s, (k, s) ∈ x :: l ∧ s ≠ "" ∧ v = LStr s) ↔
    (x.2 ≠ "" ∧ k = x.1 ∧ v = LStr x.2) ∨ (∃ s, (k, s) ∈ l ∧ s ≠ "" ∧ v = LStr s)) as Ht.
  { intros l [a b]. setoid_rewrite elem_of_cons. naive_solver. }
  assert (∀ (l : list (string * Z)) (x : string * Z), (∃ n, (k, n) ∈ x :: l ∧ n ≠ 0%Z ∧ v = LInt n) ↔
    (x.2 ≠ 0%Z ∧ k = x.1 ∧ v = LInt x.2) ∨ (∃ n, (k, n) ∈ l ∧ n ≠ 0%Z ∧ v = LInt n)) as Hn.
  { intros l [a b]. setoid_rewrite elem_of_cons. naive_solver. }
  rewrite !Ht, !Hn. cbn [fst snd].
  assert ((∃ s : string, (k, s) ∈ [] ∧ s ≠ "" ∧ v = LStr s) ↔ False) as -> by set_solver.
  assert ((∃ n : Z, (k, n) ∈ [] ∧ n ≠ 0%Z ∧ v = LInt n) ↔ False) as -> by set_solver.
  tauto.
Qed.
