(* ===== verification/Commands.v ===== *)
(** * The commands (cmd)

    What the three programs do with their arguments: the choice of the
    command and the parsing of flags in [dnssec-auditor], and the bodies of
    [zonegen] and [testprimary] after the flags are parsed. Go's [flag]
    package is modelled for flags of type string and bool; the parser of
    RFC 3339 dates is a parameter.

    Main results: the flags of [check] reach the check unchanged, in any
    order, the last one counting; a first argument that begins with a minus
    always means [serve], so that [--version] and [--help] are never
    reached; the packs of [testprimary]. *)

From S2P Require Import Prelude GoStrings Decimal Base32 DnsLib BTree DnsName Node Store Config Findings Keys Verify Full Xfr TestPrimary State Check Zonegen Mutate Examples.

(** ** The flag package *)

Inductive FlagVal := FStr (s : string) | FBool (b : bool).
Abbreviation FlagSet := (gmap string FlagVal) (only parsing).

Definition ParseBool (s : string) : option bool :=
  if bool_decide (s ∈ ["1"; "t"; "T"; "true"; "TRUE"; "True"]) then Some true
  else if bool_decide (s ∈ ["0"; "f"; "F"; "false"; "FALSE"; "False"]) then Some false else None.

Inductive Parsed :=
| ParseOk (flags : FlagSet) (rest : list string)
| ParseHelp
| ParseErr (msg : string).

(** The name of a flag and the value behind an equals sign, which cannot
    come first. *)
Fixpoint cut_equals (name : string) : string * option string :=
  match name with
  | "" => ("", None)
  | String c s =>
      if bool_decide (c = "="%char) then ("", Some s)
      else let '(n, v) := cut_equals s in (String c n, v)
  end.
Definition flag_name (name : string) : string * option string :=
  match name with "" => ("", None) | String c s => let '(n, v) := cut_equals s in (String c n, v) end.

(** [parseOne] on one argument: what comes after the minuses of a flag. *)
Inductive Arg := NotAFlag | Terminator | BadSyntax | AFlag (name : string).
Definition classify (s : string) : Arg :=
  let named name :=
    match name with
    | "" => BadSyntax
    | String c _ => if bool_decide (c = "-"%char ∨ c = "="%char) then BadSyntax else AFlag name
    end in
  match s with
  | String "-" (String "-" "") => Terminator
  | String "-" (String "-" name) => named name
  | String "-" (String c name) => named (String c name)
  | _ => NotAFlag
  end.

(** [Parse]. *)
Fixpoint Parse (flags : FlagSet) (args : list string) : Parsed :=
  match args with
  | [] => ParseOk flags []
  | s :: rest =>
      match classify s with
      | NotAFlag => ParseOk flags args
      | Terminator => ParseOk flags rest
      | BadSyntax => ParseErr ("bad flag syntax: " +:+ s)
      | AFlag name =>
          let '(name, value) := flag_name name in
          match flags !! name with
          | None =>
              if bool_decide (name = "help" ∨ name = "h") then ParseHelp else ParseErr ("flag provided but not defined: -" +:+ name)
          | Some (FBool _) =>
              match value with
              | None => Parse (<[name := FBool true]> flags) rest
              | Some v =>
                  match ParseBool v with
                  | Some b => Parse (<[name := FBool b]> flags) rest
                  | None => ParseErr ("invalid boolean value " +:+ fmt_q v +:+ " for -" +:+ name)
                  end
              end
          | Some (FStr _) =>
              match value, rest with
              | Some v, _ => Parse (<[name := FStr v]> flags) rest
              | None, v :: rest => Parse (<[name := FStr v]> flags) rest
              | None, [] => ParseErr ("flag needs an argument: -" +:+ name)
              end
          end
      end
  end.

(** [*p] of a flag. *)
Definition str_of (flags : FlagSet) (name : string) : string := match flags !! name with Some (FStr s) => s | _ => "" end.
Definition bool_of (flags : FlagSet) (name : string) : bool := match flags !! name with Some (FBool b) => b | _ => false end.

(** ** dnssec-auditor *)

(** What the program goes on to do, or the code it ends with. *)
Inductive Action :=
| RunServe (config : string)
| RunCheck (opt : Check.Options)
| PrintVersion
| PrintHelp
| Exit (code : Z).

(** [flag.ExitOnError] *)
Definition on_parsed (p : Parsed) (k : FlagSet → Action) : Action :=
  match p with ParseOk flags _ => k flags | ParseHelp => Exit 0 | ParseErr _ => Exit 2 end.

Definition serve_flags : FlagSet := {[ "config" := FStr "" ]}.
Definition check_strings : list string := ["zone"; "file"; "axfr"; "tsig"; "time"; "zonemd"].
Definition check_flags : FlagSet := <["json" := FBool false]> (list_to_map ((λ n, (n, FStr "")) <$> check_strings)).

Section auditor.
Variable parse_rfc3339 : string → result Time.

Definition check_options (flags : FlagSet) (t : Time) : Check.Options :=
  Check.mkOptions (str_of flags "zone") (str_of flags "file") (str_of flags "axfr") (str_of flags "tsig") t (str_of flags "zonemd")
    (bool_of flags "json").
Definition check_action (flags : FlagSet) : Action :=
  if bool_decide (str_of flags "time" = "") then RunCheck (check_options flags zeroTime)
  else match parse_rfc3339 (str_of flags "time") with Err _ => Exit 1 | Ok t => RunCheck (check_options flags t) end.

(** The switch over the command; [args] come after it. *)
Definition command (cmd : string) (args : list string) : Action :=
  if bool_decide (cmd = "serve") then on_parsed (Parse serve_flags args) (λ f, RunServe (str_of f "config"))
  else if bool_decide (cmd = "check") then on_parsed (Parse check_flags args) check_action
  else if bool_decide (cmd ∈ ["version"; "-version"; "--version"]) then PrintVersion
  else if bool_decide (cmd ∈ ["help"; "-h"; "--help"]) then PrintHelp
  else Exit 2.

Definition starts_with_minus (s : string) : bool := match s with String "-" _ => true | _ => false end.

(** [main], of [os.Args]; [None] is the panic of a program that is run
    without even its own name. *)
Definition main (args : list string) : option Action :=
  let args := if length args <? 2 then args ++ ["serve"] else args in
  match args with
  | prog :: cmd :: rest =>
      Some (if starts_with_minus cmd then command "serve" (cmd :: rest) else command cmd rest)
  | _ => None
  end.
End auditor.

(** ** zonegen *)

Record ZonegenFlags := mkZonegenFlags {
  zf_zone : string; zf_n : Z; zf_delegations : Z; zf_large : bool; zf_mutate : string; zf_examples : string
}.
(** What is written: the files of the pack, or the zone file and the
    numbers of its records. *)
Inductive Written := WrotePack (files : list (string * list string)) | WroteZone (lines : list string) (counts : Counts).

Record PrimaryFlags := mkPrimaryFlags {
  pf_zone : string; pf_delegations : Z; pf_pack : string; pf_notify : string; pf_tsig : string
}.

Section bodies.
Context `{DL : !DnsLib, BT : !BTree, MR : !MapRange, CR : !Crypto}.

(** [main] of zonegen; [Failed] is exit code 1. *)
Definition zonegen_main (now : Time) (f : ZonegenFlags) : outcome Written :=
  if negb (bool_decide (zf_examples f = "")) then files ← WriteExamplePack now (zf_examples f); Done (WrotePack files)
  else
    '(g, i) ← (if zf_large f then Large (zf_n f) 1 else Generate (mkGen (zf_zone f) (zf_delegations f) 0 "" 1));
    g ← (if bool_decide (zf_mutate f = "") then Done g
         else let '(g, o) := mutate (applyMutate (zf_mutate f)) now i g in _ ← o; Done g);
    lines ← of_result (WriteZoneFile (ge_Store g));
    Done (WroteZone lines (ge_Counts g)).

(** ** testprimary *)

(** The pack of defects: the second zone has a broken signature and the
    third one none; an error of the mutation is ignored. *)
Definition defect_pack : list (string * option Mutator) :=
  [("good", None); ("rrsig-invalid", Some FlipRRSIG); ("rrsig-missing", Some DropRRSIG)].
Definition load_defect (now : Time) (s : TestPrimary.Server) (e : string * option Mutator) : outcome TestPrimary.Server :=
  '(g, i) ← Small (e.1 +:+ ".pack.test.");
  match e.2 with
  | None => Done (LoadZone s (ge_Store g))
  | Some m => let '(g, o) := mutate m now i g in match o with Panics => Panics | _ => Done (LoadZone s (ge_Store g)) end
  end.

(** [strings.Cut] at a colon. *)
Definition cut_colon (s : string) : option (string * string) :=
  match IndexByte s ":" with Some i => Some (str_take i s, str_drop (S i) s) | None => None end.

(** [main] up to the start of the server; [Failed] is exit code 1. *)
Definition testprimary_main (now : Time) (f : PrimaryFlags) : outcome TestPrimary.Server :=
  s ← (if bool_decide (pf_pack f = "examples") then loadExamplePack now TestPrimary.New
       else if bool_decide (pf_pack f = "defects") then foldM_outcome (load_defect now) TestPrimary.New defect_pack
       else '(g, _) ← Generate (mkGen (pf_zone f) (pf_delegations f) 0 "" 1); Done (LoadZone TestPrimary.New (ge_Store g)));
  s ← (if bool_decide (pf_tsig f = "") then Done s
       else match cut_colon (pf_tsig f) with
            | Some (name, secret) =>
                if bool_decide (name = "") || bool_decide (secret = "") then Failed "tsig must be name:secret"
                else Done (SetTSIG s (Canonical name) secret)
            | None => Failed "tsig must be name:secret"
            end);
  Done (if bool_decide (pf_notify f = "") then s else SetNotify s (pf_notify f)).
End bodies.

(** ** The choice of the command *)

(** A first argument that begins with a minus is an argument of [serve]:
    whatever it is, the version and the help are not printed. *)
Theorem minus_serves parse_rfc3339 prog cmd rest :
  starts_with_minus cmd = true →
  main parse_rfc3339 (prog :: cmd :: rest) = main parse_rfc3339 (prog :: "serve" :: cmd :: rest) ∧
  main parse_rfc3339 (prog :: cmd :: rest) ≠ Some PrintVersion ∧ main parse_rfc3339 (prog :: cmd :: rest) ≠ Some PrintHelp.
Proof.
  intros Hm. assert (∀ prog cmd rest, main parse_rfc3339 (prog :: cmd :: rest) =
    Some (if starts_with_minus cmd then command parse_rfc3339 "serve" (cmd :: rest) else command parse_rfc3339 cmd rest)) as Hmain by done.
  rewrite !Hmain, Hm. split; [done|]. unfold command. rewrite (bool_decide_true (_ = _)) by done.
  by destruct (Parse serve_flags (cmd :: rest)).
Qed.

(** What [--version], [-h] and no argument do. *)
Lemma minus_serves_witness : main (λ _, Err "") ["dnssec-auditor"; "--version"] = Some (Exit 2) ∧
  main (λ _, Err "") ["dnssec-auditor"; "--version"] ≠ Some PrintVersion.
Proof. split; [by vm_compute|]. by apply (minus_serves (λ _, Err "") "dnssec-auditor" "--version" []). Defined.

Lemma main_examples : let m := main (λ _, Err "") in
  m ["p"; "-h"] = Some (Exit 0) ∧ m ["p"] = Some (RunServe "") ∧ m ["p"; "version"] = Some PrintVersion ∧
  m ["p"; "-config"; "a.yaml"] = Some (RunServe "a.yaml") ∧ m ["p"; "serve"; "--config=a.yaml"; "x"] = Some (RunServe "a.yaml").
Proof. by vm_compute. Qed.

(** ** The flags of the check *)

(** Flags as they are typed, each with its value as the next argument. *)
Definition typed (l : list (string * string)) : list string := l ≫= λ e, ["-" +:+ e.1; e.2].
(** The last value given for a flag. *)
Definition given (l : list (string * string)) (name : string) : string :=
  foldl (λ v e, if bool_decide (e.1 = name) then e.2 else v) "" l.

Lemma check_names : Forall (λ n, classify ("-" +:+ n) = AFlag n ∧ flag_name n = (n, None)) check_strings.
Proof. unfold check_strings. repeat (apply Forall_cons_2; [by split; vm_compute|]). apply Forall_nil_2. Qed.

Lemma Parse_typed l : ∀ flags tail, Forall (λ e, e.1 ∈ check_strings ∧ ∃ s, flags !! e.1 = Some (FStr s)) l →
  Parse flags (typed l ++ tail) = Parse (foldl (λ f e, <[e.1 := FStr e.2]> f) flags l) tail.
Proof.
  induction l as [|[n v] l IH]; intros flags tail Hl; [done|]. apply Forall_cons in Hl as [[Hn [s Hs]] Hl]. cbn [fst snd] in *.
  destruct (proj1 (Forall_forall _ _) check_names n Hn) as [Hc Hf].
  change (typed ((n, v) :: l) ++ tail) with (("-" +:+ n) :: v :: (typed l ++ tail)). cbn [Parse foldl fst snd]. rewrite Hc, Hf, Hs. apply IH.
  eapply Forall_impl; [exact Hl|]. intros e [H1 [s' H2]]. split; [done|].
  destruct (decide (e.1 = n)) as [->|Hne]; [rewrite lookup_insert_eq; eauto|rewrite lookup_insert_ne by done; eauto].
Qed.

Lemma Parse_bool flags s n b rest :
  classify s = AFlag n → flag_name n = (n, None) → flags !! n = Some (FBool b) → Parse flags (s :: rest) = Parse (<[n := FBool true]> flags) rest.
Proof. intros Hc Hf Hn. cbn [Parse]. by rewrite Hc, Hf, Hn. Qed.

Lemma given_lookup l flags name : flags !! name = Some (FStr "") →
  foldl (λ (f : FlagSet) e, <[e.1 := FStr e.2]> f) flags l !! name = Some (FStr (given l name)).
Proof.
  intros H0. unfold given. induction l as [|e l IH] using rev_ind; [done|]. rewrite !foldl_app. cbn [foldl].
  case_bool_decide as He; [subst; by rewrite lookup_insert_eq|by rewrite lookup_insert_ne].
Qed.

(** The flags of the [check] command, in any order and with any values,
    reach the check: of a flag given twice the last counts, one not given is
    empty, and without [-time] the check goes by the clock. *)
Theorem check_receives parse_rfc3339 prog l (json : bool) :
  Forall (λ e, e.1 ∈ check_strings) l →
  main parse_rfc3339 (prog :: "check" :: typed l ++ (if json then ["-json"] else [])) =
  Some (match (if bool_decide (given l "time" = "") then Ok zeroTime else parse_rfc3339 (given l "time")) with
        | Err _ => Exit 1
        | Ok t => RunCheck (Check.mkOptions (given l "zone") (given l "file") (given l "axfr") (given l "tsig") t (given l "zonemd") json)
        end).
Proof.
  intros Hl. set (flags := foldl (λ (f : FlagSet) e, <[e.1 := FStr e.2]> f) check_flags l).
  assert (∀ n, n ∈ check_strings → check_flags !! n = Some (FStr "")) as H0.
  { apply Forall_forall. unfold check_strings. repeat (apply Forall_cons_2; [by vm_compute|]). apply Forall_nil_2. }
  assert (Parse check_flags (typed l ++ if json then ["-json"] else []) = ParseOk (if json then <["json" := FBool true]> flags else flags) []
    ∧ (flags !! "json" = Some (FBool false))) as [HP HJ].
  { assert (flags !! "json" = Some (FBool false)) as HJ.
    { unfold flags. clear flags. induction l as [|e l IH] using rev_ind; [by vm_compute|]. apply Forall_app in Hl as [Hl He].
      rewrite foldl_app. cbn [foldl]. rewrite lookup_insert_ne; [by apply IH|]. intros E. rewrite Forall_singleton, E in He.
      revert He. by apply (bool_decide_unpack (_ ∉ _)). }
    split; [|done]. rewrite Parse_typed.
    - fold flags. destruct json; [|done]. by rewrite (Parse_bool _ "-json" "json" false []).
    - eapply Forall_impl; [exact Hl|]. intros e He. split; [done|]. exists "". by apply H0. }
  change (main parse_rfc3339 (prog :: "check" :: typed l ++ (if json then ["-json"] else [])))
    with (Some (on_parsed (Parse check_flags (typed l ++ (if json then ["-json"] else []))) (check_action parse_rfc3339))).
  rewrite HP. cbn [on_parsed]. f_equal.
  assert (∀ n, n ∈ check_strings → str_of (if json then <["json" := FBool true]> flags else flags) n = given l n) as Hg.
  { intros n Hn. unfold str_of. pose proof (given_lookup l check_flags n (H0 n Hn)) as H. fold flags in H.
    destruct json; [rewrite lookup_insert_ne; [by rewrite H|]|by rewrite H]. intros <-. revert Hn. by apply (bool_decide_unpack (_ ∉ _)). }
  unfold check_action, check_options. rewrite !Hg by (by apply (bool_decide_unpack _)).
  assert (bool_of (if json then <["json" := FBool true]> flags else flags) "json" = json) as ->.
  { unfold bool_of. destruct json; [by rewrite lookup_insert_eq|by rewrite HJ]. }
  case_bool_decide; [done|]. by destruct (parse_rfc3339 _).
Qed.

Lemma check_receives_witness :
  main (λ _, Err "no dates") ["dnssec-auditor"; "check"; "-zone"; "a.test."; "-file"; "-"; "-zone"; "b.test."; "-json"] =
  Some (RunCheck (Check.mkOptions "b.test." "-" "" "" zeroTime "" true)).
Proof.
  apply (check_receives (λ _, Err "no dates") "dnssec-auditor" [("zone", "a.test."); ("file", "-"); ("zone", "b.test.")] true).
  repeat apply Forall_cons_2; try apply Forall_nil_2; by apply (bool_decide_unpack _).
Defined.
