(* ===== verification/App.v ===== *)
(** * The process (internal/app/app.go)

    How [App.Run] puts the components together: the state and the snapshots
    are read before anything runs, finished verifications write snapshots, a
    ticker and the end of the process save the state. The goroutines
    themselves are the steps of the monitor (Monitor), the catalog watcher
    (Catalog), the listeners and the chain check.

    Main results: whatever the files hold, the monitor starts in one of its
    initial states, so that everything proved of reachable states holds of
    the process; a stop and a start keep the findings and dates of a zone
    and the records of its last snapshot; and the ticker of the state file
    panics on an interval that is not positive. *)

From S2P Require Import Prelude GoStrings DnsLib BTree DnsName Node Store StoreSpec Snapshot Toy Config Findings Event Full Runtime Manager Monitor State.

Section app.
Context `{DL : !DnsLib, BT : !BTree, MR : !MapRange, OS : !Os}.

(** [New]: the bus and the monitor of a configuration. *)
Definition New {A} (cfg : Config) : Bus A * Sys := (Event.New 256, NewManager cfg).

(** The start of [Run]. *)
Definition boot (now : Time) (cfg : Config) (disk : Disk) : Sys := restart now cfg disk (NewManager cfg).

(** The handler of NOTIFY messages. *)
Definition notified (s : Sys) (zone : string) : Sys := match RequestRefresh s zone false with Ok s' => s' | Err _ => s end.

(** The subscriber that writes snapshots: the disks on the way. *)
Definition snapshot_event (now : Time) (cfg : Config) (s : Sys) (disk : Disk) (e : Event) : list Disk :=
  if negb (bool_decide (e_Type e = VerificationCompleted)) then []
  else match zone_at s (e_Zone e) with
       | None => []
       | Some z => (State.WriteSnapshot now (sc_ZoneSnapshots (c_State cfg)) disk z).1
       end.

(** The start of [persistLoop], where there is a state file: its ticker.
    The outer [None] is a panic. *)
Definition persist_ticker (cfg : Config) : option (option Duration) :=
  let interval := sc_SaveInterval (c_State cfg) in
  t ← NewTicker interval;
  Some (if bool_decide (interval ≤ 0)%Z then None else Some t).
Definition start_persist (cfg : Config) : option (option Duration) :=
  if bool_decide (sc_File (c_State cfg) = "") then Some None else persist_ticker cfg.

(** A tick of [persistLoop], and the end of [Run]. *)
Definition persist (now : Time) (cfg : Config) (s : Sys) (disk : Disk) : list Disk := (Save now disk (sc_File (c_State cfg)) s).1.

(** [Serve] up to the start: the configuration, or the error it ends with. *)
Definition Serve (now : Time) (path : string) (file : result bytes) (decode : bytes → Config → result Config) (disk : Disk) : result (Config * Sys) :=
  match Config.Load path file decode with
  | Err err => Err err
  | Ok cfg => Ok (cfg, boot now cfg disk)
  end.
End app.

(** ** The start *)

Section start.
Context `{DL : !DnsLib, BT : !BTree, MR : !MapRange, NL : !DnsNameLaws, OS : !Os}.
Implicit Types s : Sys.

(** What stays true while the state and the snapshots are read. *)
Record booting (s : Sys) : Prop := {
  bt_initial : initial s;
  bt_named : named s
}.

Lemma put_booting s loc z z' : booting s → s_heap s !! loc = Some z → fresh_zone z' → z_Name z' = z_Name z → booting (put s loc z' []).
Proof.
  intros [[Hj Hs Hz Hm] Hn] Hl Hf Hname. split.
  - split; cbn [put s_jobs s_sem s_heap s_zones]; [done|done| |].
    + by apply Forall_insert.
    + intros name l Hl'. rewrite length_insert. by eapply Hm.
  - intros name l Hl'. destruct (Hn name l Hl') as (Hc & zl & Hzl & Hnl). split; [done|]. cbn [put s_heap].
    destruct (decide (l = loc)) as [->|Hne].
    + exists z'. rewrite list_lookup_insert_eq by (by eapply lookup_lt_Some). split; [done|]. congruence.
    + exists zl. by rewrite list_lookup_insert_ne.
Qed.

Lemma booting_fresh s loc z : booting s → s_heap s !! loc = Some z → fresh_zone z.
Proof. intros [[_ _ Hz _] _] Hl. by eapply Forall_lookup_1. Qed.

Lemma Restore_fresh now z lv fs : fresh_zone z → fresh_zone (Restore now z lv fs) ∧ z_Name (Restore now z lv fs) = z_Name z.
Proof. unfold Restore, fresh_zone. by destruct (negb _). Qed.

Lemma apply_one_booting now s e : booting s → booting (apply_one now s e).
Proof.
  intros Hb. unfold apply_one. destruct (Get s e.1) as [loc|]; [|done]. destruct (s_heap s !! loc) as [z|] eqn:Hz; [|done].
  destruct (Restore_fresh now z (zs_LastValidAt e.2) (zs_Findings e.2) (booting_fresh _ _ _ Hb Hz)). by eapply put_booting.
Qed.

Lemma attach_one_booting sn disk s z : booting s → booting (attach_one sn disk s z).
Proof.
  intros Hb. unfold attach_one. destruct (ReadSnapshot _ _ _) as [[st t]|]; [|done]. destruct (Get s (z_Name z)) as [loc|]; [|done].
  destruct (s_heap s !! loc) as [z0|] eqn:Hz; [|done]. eapply put_booting; [done|done| |done]. exact (booting_fresh _ _ _ Hb Hz).
Qed.

Lemma NewManager_initial cfg : initial (NewManager cfg).
Proof.
  assert (∀ s name source servers tsig, initial s → initial (AddZone s name source servers tsig)) as HA.
  { intros s name source servers tsig [Hj Hs Hz Hm].
    assert (initial (mkSys (s_heap s ++ [NewZone (Canonical name) source servers tsig])
      (<[Canonical name := length (s_heap s)]> (s_zones s)) (s_sem s) (s_jobs s) (s_log s))) as H.
    { split; cbn [s_jobs s_sem s_heap s_zones]; [done|done| |].
      - apply Forall_app. split; [done|]. by apply Forall_singleton.
      - intros n l. rewrite length_app. cbn [length]. intros [[_ <-]|[_ Hl]]%lookup_insert_Some; [lia|]. apply Hm in Hl. lia. }
    unfold AddZone. destruct (_ ≫= _); [destruct (bool_decide _)|]; done. }
  unfold NewManager. apply (foldl_inv initial); [|intros; by apply HA]. apply (foldl_inv initial); [|intros; by apply HA].
  split; [done|done|by constructor|]. by intros n l.
Qed.

Lemma boot_booting now cfg disk : booting (boot now cfg disk).
Proof.
  unfold boot, restart. assert (booting (NewManager cfg)) as H0 by (split; [apply NewManager_initial|apply NewManager_named]).
  set (s1 := match Load _ _ with Ok f => _ | Err _ => _ end). assert (booting s1) as H1.
  { unfold s1. destruct (Load _ _) as [f|]; [|done]. unfold Apply. apply (foldl_inv booting); [done|]. intros; by apply apply_one_booting. }
  destruct (sn_Enabled _); [|done]. apply (foldl_inv booting); [done|]. intros; by apply attach_one_booting.
Qed.

(** Whatever the state file and the snapshots hold, the monitor starts in
    one of its initial states. *)
Theorem boot_reachable now cfg disk : reachable cfg (boot now cfg disk).
Proof. apply reach_init. apply boot_booting. Qed.

(** ** A stop and a start *)

Definition attach (st : Store) (z : ZoneRuntime) : ZoneRuntime := AttachStore z st.

Lemma attach_one_spec sn disk s z name : named s → canonical name → canonical (z_Name z) →
  named (attach_one sn disk s z) ∧
  zone_at (attach_one sn disk s z) name =
    match ReadSnapshot sn disk name with
    | Ok (st, _) => if bool_decide (z_Name z = name) then attach st <$> zone_at s name else zone_at s name
    | Err _ => zone_at s name
    end.
Proof.
  intros Hn Hc Hcz. unfold attach_one. destruct (ReadSnapshot sn disk (z_Name z)) as [[st t]|err] eqn:Er.
  2:{ split; [done|]. destruct (ReadSnapshot sn disk name) as [[st t]|] eqn:E; [|done]. rewrite bool_decide_false; [done|]. congruence. }
  assert (Get s (z_Name z) = s_zones s !! z_Name z) as HG by (unfold Get; by rewrite Hcz). rewrite HG.
  destruct (s_zones s !! z_Name z) as [loc|] eqn:E.
  2:{ split; [done|]. destruct (ReadSnapshot sn disk name) as [[st' t']|]; [|done]. case_bool_decide as Hne; [|done]. subst name.
      unfold zone_at. by rewrite HG. }
  destruct (Hn _ _ E) as (_ & z0 & Hz0 & Hname). rewrite Hz0. assert (loc < length (s_heap s)) as Hlt by by eapply lookup_lt_Some. split.
  - intros n l Hl. destruct (Hn _ _ Hl) as (Hcl & zl & Hzl & Hnl). split; [done|]. cbn [put s_heap].
    destruct (decide (loc = l)) as [<-|Hne]; [|exists zl; by rewrite list_lookup_insert_ne].
    exists (AttachStore z0 st). rewrite list_lookup_insert_eq by done. split; [done|]. change (z_Name z0 = n). congruence.
  - unfold zone_at, Get. rewrite !Hc. cbn [put s_heap s_zones]. destruct (decide (z_Name z = name)) as [Hx|Hx].
    + subst name. rewrite Er, bool_decide_true, E by done. cbn [mbind option_bind]. by rewrite list_lookup_insert_eq, Hz0.
    + assert (match ReadSnapshot sn disk name with
        | Ok (st, _) => if bool_decide (z_Name z = name) then attach st <$> (s_zones s !! name ≫= λ loc, s_heap s !! loc)
                        else s_zones s !! name ≫= λ loc, s_heap s !! loc
        | Err _ => s_zones s !! name ≫= λ loc, s_heap s !! loc end = (s_zones s !! name ≫= λ loc, s_heap s !! loc)) as ->.
      { destruct (ReadSnapshot sn disk name) as [[]|]; [|done]. by rewrite bool_decide_false. }
      destruct (s_zones s !! name) as [l|] eqn:El; [|done]. cbn [mbind option_bind]. destruct (Hn _ _ El) as (_ & zl & Hzl & Hnl).
      rewrite list_lookup_insert_ne; [done|]. intros ->. congruence.
Qed.

Lemma attach_all_spec sn disk l s name : named s → canonical name → Forall (λ z, canonical (z_Name z)) l →
  zone_at (foldl (attach_one sn disk) s l) name =
    match ReadSnapshot sn disk name with
    | Ok (st, _) => if bool_decide (name ∈ z_Name <$> l) then attach st <$> zone_at s name else zone_at s name
    | Err _ => zone_at s name
    end.
Proof.
  intros Hn Hc Hl. revert s Hn. induction Hl as [|z l Hz Hl IH]; intros s Hn; cbn [foldl].
  - destruct (ReadSnapshot sn disk name) as [[]|]; [|done]. rewrite bool_decide_false; [done|]. apply not_elem_of_nil.
  - destruct (attach_one_spec sn disk s z name Hn Hc Hz) as [Hn1 H1]. rewrite (IH _ Hn1), H1. clear IH H1.
    destruct (ReadSnapshot sn disk name) as [[st t]|]; [|done]. cbn [fmap list_fmap].
    destruct (decide (z_Name z = name)) as [Hx|Hx]; [rewrite (bool_decide_true (z_Name z = name)) by done|rewrite (bool_decide_false (z_Name z = name)) by done].
    + rewrite (bool_decide_true (name ∈ z_Name z :: _)) by (rewrite Hx; apply list_elem_of_here). case_bool_decide; [|done].
      destruct (zone_at s name); done.
    + case_bool_decide as Hin; [rewrite bool_decide_true by by apply list_elem_of_further|rewrite bool_decide_false]; [done|done|].
      intros [?|?]%elem_of_cons; congruence.
Qed.

Context `{WL : !DnsWireLaws, TL : !DnsTtlLaws}.

(** The snapshot the zone's file holds: the last one written for it, at time
    [at_], when its store was [st]. Since then other files may have changed,
    this one has not. *)
Record last_snapshot (cfg : SnapshotConfig) (name : string) (disk : Disk) (at_ : Time) (st : Store) : Prop := {
  ls_storable : storable st at_;
  ls_written : ∃ zw before after, z_Name zw = name ∧ z_Store zw = Some st ∧
    (WriteSnapshot at_ cfg before zw).2 = None ∧ last (WriteSnapshot at_ cfg before zw).1 = Some after ∧
    disk !! snapFile (sn_Dir cfg) name = after !! snapFile (sn_Dir cfg) name
}.

Lemma last_snapshot_read cfg name disk at_ st :
  sn_Enabled cfg = true → sn_Dir cfg ≠ "" → (∀ path, os_fail "open" path = None ∧ os_fail "close" path = None) →
  last_snapshot cfg name disk at_ st →
  ∃ st', ReadSnapshot cfg disk name = Ok (st', timeUnix (Unix at_)) ∧ store_wf st' ∧ st_origin st' = st_origin st ∧ zone_set st' = shown st.
Proof.
  intros Hen Hdir Hos [Hs (zw & before & after & Hname & Hst & Herr & Hlast & Hfile)].
  destruct (snapshot_read at_ cfg before after zw st Hen Hdir Hst Hs Herr Hlast Hos) as [(st' & Hr & Hwf & Ho & Hz) _].
  exists st'. split; [|done]. rewrite <-(Hr name) by by rewrite Hname. unfold ReadSnapshot. by rewrite Hfile.
Qed.

(** C36: what a stop and a start keep of a zone that stays configured. If the
    state is saved without an error at the end, the process that starts on
    these files has the zone with its findings, the date it was last valid,
    and a store of exactly the records its store showed when its last
    snapshot was written; it is in the state unknown until its first
    refresh. If that is the store the zone had at the end, and no record of
    TTL 0 is in an RRset with another TTL, it has the records it had. *)
Theorem stop_start now now' cfg disk disk' s name z z0 at_ st :
  sc_File (c_State cfg) ≠ "" → sn_Enabled (sc_ZoneSnapshots (c_State cfg)) = true → sn_Dir (sc_ZoneSnapshots (c_State cfg)) ≠ "" →
  named s → canonical name →
  os_fail "read" (sc_File (c_State cfg)) = None → (∀ path, os_fail "open" path = None ∧ os_fail "close" path = None) →
  (∀ n, snapFile (sn_Dir (sc_ZoneSnapshots (c_State cfg))) n ≠ sc_File (c_State cfg) ∧
        snapFile (sn_Dir (sc_ZoneSnapshots (c_State cfg))) n ≠ sc_File (c_State cfg) +:+ ".tmp") →
  zone_at s name = Some z → fset_wf (z_Findings z) → zone_at (NewManager cfg) name = Some z0 →
  z_Findings z0 = NewSet → z_LastValidAt z0 = zeroTime →
  (Save now disk (sc_File (c_State cfg)) s).2 = None → last (persist now cfg s disk) = Some disk' →
  last_snapshot (sc_ZoneSnapshots (c_State cfg)) name disk at_ st →
  ∃ z' st', zone_at (boot now' cfg disk') name = Some z' ∧ z_Findings z' = z_Findings z ∧ z_LastValidAt z' = z_LastValidAt z ∧
    z_State z' = StateUnknown ∧ z_Store z' = Some st' ∧ store_wf st' ∧ st_origin st' = st_origin st ∧ zone_set st' = shown st ∧
    (z_Store z = Some st → ttl_kept st → zone_set <$> z_Store z' = zone_set <$> z_Store z).
Proof.
  intros Hp Hen Hdir Hn Hc Hread Hos Hsep Hz Hwf Hz0 HF HL Herr Hlast Hls. unfold persist in Hlast.
  destruct (last_snapshot_read _ _ _ _ _ Hen Hdir Hos Hls) as (st' & Hsnap & Hwf' & Ho' & Hz').
  destruct (Save_loads now disk disk' _ s Hp Hread Herr Hlast) as [Hload Hoth].
  destruct (Apply_saved now now' s (NewManager cfg) Hn (NewManager_named cfg)) as [Hn1 H1].
  destruct (H1 name z0 Hc Hz0) as (z1 & Hz1 & _ & Hsame). destruct (Hsame z Hz Hwf HF HL) as [HF1 HL1].
  assert (∃ t, ReadSnapshot (sc_ZoneSnapshots (c_State cfg)) disk' name = Ok (st', t)) as [t Hsnap'].
  { exists (timeUnix (Unix at_)). rewrite <-Hsnap. unfold ReadSnapshot. destruct (_ || _); [done|]. destruct (Hsep name) as [A B]. by rewrite (Hoth _ A B). }
  assert (zone_at (boot now' cfg disk') name = Some (attach st' z1)) as HB.
  { unfold boot, restart. rewrite Hload, Hen. set (s1 := Apply _ _ _) in *.
    rewrite attach_all_spec, Hsnap', Hz1; [|done|done|].
    - rewrite bool_decide_true; [done|]. pose proof (named_zone_at _ _ _ Hn1 Hc Hz1) as Hname. apply list_elem_of_fmap. exists z1.
      split; [done|]. apply elem_of_List_zones; [done|]. by rewrite Hname.
    - apply Forall_forall. intros x Hx. by apply elem_of_List_zones in Hx as [_ ?]. }
  exists (attach st' z1), st'. split_and!; try done.
  - destruct (boot_booting now' cfg disk') as [[_ _ Hfr _] Hnb]. unfold zone_at in HB. destruct (Get _ name) as [loc|]; [|done].
    cbn [mbind option_bind] in HB. by apply (Forall_lookup_1 _ _ _ _ Hfr HB).
  - intros Hzst Hkept. rewrite Hzst. change (Some (zone_set st') = Some (zone_set st)). f_equal. rewrite Hz'.
    destruct Hls as [Hs _]. apply (shown_kept st); [apply Hs|apply Hs|done].
Qed.
End start.

(** The ticker panics before the interval is looked at. *)
Theorem persist_panics cfg : start_persist cfg = None ↔ sc_File (c_State cfg) ≠ "" ∧ (sc_SaveInterval (c_State cfg) ≤ 0)%Z.
Proof.
  unfold start_persist, persist_ticker, NewTicker. case_bool_decide as Hf; [naive_solver|].
  destruct (decide (0 < sc_SaveInterval (c_State cfg))%Z) as [H|H].
  - rewrite (bool_decide_true (0 < _)%Z) by done. split; [by intros [=]|]. intros [_ ?]. lia.
  - rewrite (bool_decide_false (0 < _)%Z) by done. split; [|done]. intros _. split; [done|lia].
Qed.

(** ** Witness *)

(** A process that has found something wrong with [z.] is stopped and
    started again. *)
Definition demo_state : StateConfig := mkStateConfig "state/zones.json" Minute (mkSnapshotConfig true "state" 0).
Definition demo_cfg : Config :=
  mkConfig (c_TSIGKeys Defaults) (c_Servers Defaults) [mkZone "z." [] ""] (c_Catalogs Defaults) (c_Refresh Defaults) (c_Notify Defaults)
    (c_Verification Defaults) (c_ChainOfTrust Defaults) (c_Webhooks Defaults) demo_state (c_APIListen Defaults) (c_Logging Defaults) (c_Theme Defaults).
Definition demo_before : ZoneRuntime := with_Store toy_zone_before (Some (built "z." toy_zone)).

Lemma demo_separate n : snapFile "state" n ≠ "state/zones.json" ∧ snapFile "state" n ≠ "state/zones.json.tmp".
Proof.
  destruct (snapFile_suffix "state" n) as [p ->].
  split; intros E; assert (HasSuffix (p +:+ ".snap") ".snap" = true) as H by apply HasSuffix_app; rewrite E in H; by vm_compute in H.
Qed.

Lemma demo_configured : zone_at (NewManager demo_cfg) "z." = Some (NewZone "z." "config" [] "").
Proof.
  assert (Canonical "z." = "z.") as Hc by (vm_compute; reflexivity).
  unfold NewManager. cbn [demo_cfg c_Zones Defaults c_Catalogs foldl zn_Name zn_Servers zn_TSIGKey]. unfold AddZone. rewrite Hc.
  cbn [s_zones s_heap]. rewrite lookup_empty. cbn [mbind option_bind]. unfold zone_at, Get. rewrite Hc. cbn [s_zones s_heap].
  by rewrite lookup_insert_eq.
Qed.

(** The snapshot of the zone on a disk. *)
Lemma demo_snapshot : ∃ disk, last_snapshot (OS := toy_os) (sc_ZoneSnapshots demo_state) "z." disk (timeUnix 1700000000) (built "z." toy_zone).
Proof.
  assert (z_Store demo_before = Some (built "z." toy_zone)) as Hst by reflexivity.
  assert ("state" ≠ "") as Hdir by discriminate.
  destruct (toy_WriteSnapshot "state" demo_before _ _ Hdir Hst toy_zone_storable) as (disk & Herr & Hlast).
  exists disk. split; [exact toy_zone_storable|]. exists demo_before, ∅, disk. by split_and!.
Qed.

Lemma stop_start_witness : ∃ disk' z', zone_at (boot (OS := toy_os) 10 demo_cfg disk') "z." = Some z' ∧
  z_Findings z' = {[ "DS_MISMATCH|z.|43" := toy_finding ]} ∧ z_LastValidAt z' = 77%Z ∧
  zone_set <$> z_Store z' = Some (shown (built "z." toy_zone)).
Proof.
  destruct demo_snapshot as (disk & Hr). set (s := toy_sys_of demo_before).
  assert (∃ disk', last (persist (OS := toy_os) 9 demo_cfg s disk) = Some disk') as [disk' Hlast] by (eexists; reflexivity).
  destruct (stop_start (OS := toy_os) 9 10 demo_cfg disk disk' s "z." demo_before (NewZone "z." "config" [] "") (timeUnix 1700000000)
    (built "z." toy_zone)) as (z' & st' & Hz & HF & HL & _ & HS & _ & _ & Hset & _);
    [..|exists disk', z'; split_and!; [exact Hz|exact HF|exact HL|rewrite HS; exact (f_equal Some Hset)]].
  - done.
  - done.
  - done.
  - by apply toy_named.
  - vm_compute. reflexivity.
  - done.
  - intros path. split; reflexivity.
  - apply demo_separate.
  - done.
  - intros k f. cbn [demo_before toy_zone_before z_Findings with_Findings with_LastValidAt with_Store]. intros [<- <-]%lookup_singleton_Some. vm_compute. reflexivity.
  - exact demo_configured.
  - done.
  - done.
  - done.
  - exact Hlast.
  - exact Hr.
Defined.
