(* ===== verification/Counters.v ===== *)
(** * What the program counts (internal/monitor, notify, webhooks, chain, state, app)

    The operations on metrics outside [updateZoneMetrics]: the probes,
    transfers and verifications of a refresh, region by region of
    [Manager.refresh_step]; NOTIFY messages, webhook deliveries, saves of
    the state, members of catalogs and the chain of trust. Durations are
    not kept: an observation is counted.

    Main results: no operation is of the wrong kind or short of labels, so
    none panics; over any regions of a refresh the counters of transfers and
    verifications go up by exactly as much as events of the same outcome are
    published; a refresh counts at most one transfer and one verification;
    and two of the metrics registered are never given a value. *)

From S2P Require Import Prelude GoStrings DnsLib BTree DnsName Node Store Config Findings Full Incremental Xfr Event Runtime Manager Monitor Refresh Catalog Notify Chain State Webhooks Metrics Toy.
From Stdlib Require Strings.String.

(** ** The operations *)

(** [view] and [bytes] are what [Snapshot] and [StoreBytes] give after the
    region, for [updateZoneMetrics]. *)
Section refresh.
Context `{DL : !DnsLib, BT : !BTree, MR : !MapRange}.
Variable cfg : Config.

(** The gauges of a probed server. *)
Definition probe_metrics (zone : string) (st : ServerStatus) : list MetricOp :=
  [GSet (fq "zone_server_serial") [zone; ss_Name st] (ss_Serial st);
   GSet (fq "zone_server_reachable") [zone; ss_Name st] (b2z (ss_Reachable st));
   HObserve (fq "zone_server_probe_rtt_seconds") [zone; ss_Name st]].

Definition transfer_error (zone method : string) : MetricOp := GInc (fq "transfers_total") [zone; method; "error"].
Definition transfer_metrics (zone : string) (tres : Xfr.Result) : list MetricOp :=
  [GInc (fq "transfers_total") [zone; x_Method tres; "ok"];
   HObserve (fq "transfer_duration_seconds") [zone; x_Method tres];
   CAdd (fq "transfer_records_total") [zone; x_Method tres] (x_Records tres)].
Definition verification_metrics (zone : string) (vres : Full.Result) : list MetricOp :=
  [GInc (fq "verifications_total") [zone; r_Mode vres; result_name vres];
   HObserve (fq "verification_duration_seconds") [zone; r_Mode vres]].

(** What a region of a refresh does to the metrics. *)
Definition refresh_metrics (env : Env) (zone : string) (pc : Pc) (view : ZoneView) (bytes : Z) : list MetricOp :=
  match pc with
  | PcProbe servers tsig _ => (probe_loop cfg env zone tsig (soa_timeout cfg) servers None).1 ≫= probe_metrics zone
  | PcDecide l => if bool_decide (l_best l = None) then [transfer_error zone "soa"] else []
  | PcChecked _ _ vres | PcVerified _ _ _ vres _ => updateZoneMetrics view (Some vres) bytes ++ verification_metrics zone vres
  | PcReceived _ _ method (Err _) => [transfer_error zone method]
  | PcReceived _ _ _ (Ok tres) => transfer_metrics zone tres
  | _ => []
  end.
End refresh.

(** [handle]: the deferred count. *)
Definition notify_metrics (es : list NEffect) : list MetricOp :=
  omap (λ e, if e is NCount transport result then Some (GInc (fq "notifies_received_total") [transport; result]) else None) es.

Definition delivery_metrics (ds : list Delivery) : list MetricOp :=
  (λ d, GInc (fq "webhook_deliveries_total") [dl_URL d; if dl_ok d then "ok" else "error"]) <$> ds.

(** [Save], by its path and the error it returns. *)
Definition save_metrics (path : string) (err : option string) : list MetricOp :=
  if bool_decide (path = "") then [] else [GInc (fq "state_saves_total") [if err then "error" else "ok"]].

(** A catalog of a tick, with the members parsed. *)
Definition catalog_metrics (name : string) (members : list Member) : list MetricOp :=
  [GSet (fq "catalog_members") [name] (Z.of_nat (length members))].

(** [Check], by what it applies to the zone. *)
Definition chain_metrics (origin : string) (o : option Outcome) : list MetricOp :=
  match o with Some (_, ok, _) => [GSet (fq "zone_chain_of_trust_ok") [origin] (b2z ok)] | None => [] end.

(** ** No operation panics *)

Section fits.
Context `{DL : !DnsLib, BT : !BTree, MR : !MapRange}.

Definition fits (ops : list MetricOp) : Prop := Forall (λ op, op_fits op = true) ops.

Lemma refresh_fits cfg env zone pc view bytes :
  (∀ l best method tres, pc = PcReceived l best method (Ok tres) → (0 ≤ x_Records tres)%Z) →
  fits (refresh_metrics cfg env zone pc view bytes).
Proof.
  intros Hrec. unfold fits.
  assert (∀ vres, Forall (λ op, op_fits op = true) (updateZoneMetrics view (Some vres) bytes ++ verification_metrics zone vres)) as Hver.
  { intros vres. apply Forall_app. split; [apply update_labels|]. repeat constructor. }
  destruct pc as [| | |servers tsig old|l|l| |best store vres|l best|l best method [tres|err]| |best tres store vres shared| | |]; cbn [refresh_metrics];
    try (by constructor); try apply Hver.
  - generalize (probe_loop cfg env zone tsig (soa_timeout cfg) servers None).1. intros stats. apply Forall_forall.
    intros op (st & Hop & _)%list_elem_of_bind. revert op Hop. apply Forall_forall. repeat constructor.
  - case_bool_decide; repeat constructor.
  - repeat constructor. cbn [op_fits]. rewrite andb_true_iff, Z.leb_le. split; [by vm_compute|]. by apply (Hrec l best method).
Qed.

Theorem effects_fit es ds path err name members origin o :
  fits (notify_metrics es) ∧ fits (delivery_metrics ds) ∧ fits (save_metrics path err) ∧ fits (catalog_metrics name members) ∧
  fits (chain_metrics origin o).
Proof.
  unfold fits. split_and!.
  - apply Forall_forall. intros op (e & _ & He)%list_elem_of_omap. destruct e; [done..|]. by injection He as <-.
  - apply Forall_fmap, Forall_forall. by intros d _.
  - unfold save_metrics. case_bool_decide; repeat constructor.
  - repeat constructor.
  - destruct o as [[[? ok] ?]|]; repeat constructor.
Qed.
End fits.

(** ** Counters and events *)

(** How often a series is incremented by a list of operations. *)
Definition incs (name : string) (p : list string → bool) (ops : list MetricOp) : nat :=
  length (List.filter (λ op, match op with GInc n ls => bool_decide (n = name) && p ls | _ => false end) ops).
Definition published (p : Event → bool) (evs : list Event) : nat := length (List.filter p evs).

(** The label values of a counted transfer or verification, and the events
    that report one. *)
Definition outcome_is (res : string) (ls : list string) : bool := match ls with [_; _; r] => bool_decide (r = res) | _ => false end.
Definition verified_as (mode res : string) (ls : list string) : bool :=
  match ls with [_; m; r] => bool_decide (m = mode) && bool_decide (r = res) | _ => false end.
Definition of_type (t : string) (e : Event) : bool := bool_decide (e_Type e = t).
Definition verification_event (mode res : string) (e : Event) : bool :=
  of_type VerificationCompleted e && bool_decide (e_Mode e = mode) && bool_decide (e_Result e = res).

Lemma incs_app name p a b : incs name p (a ++ b) = incs name p a + incs name p b.
Proof. unfold incs. by rewrite List.filter_app, length_app. Qed.
Lemma published_app p a b : published p (a ++ b) = published p a + published p b.
Proof. unfold published. by rewrite List.filter_app, length_app. Qed.

Lemma incs_other name p ops : Forall (λ op, op_name op ≠ name) ops → incs name p ops = 0.
Proof.
  unfold incs. induction 1 as [|op ops Hop _ IH]; [done|]. cbn [List.filter]. destruct op; cbn [op_name] in Hop; try done.
  by rewrite bool_decide_false.
Qed.

(** The update of a zone touches gauges only, and never [zone_dnskeys]. *)
Definition zone_gauge_names : list string :=
  co_Name <$> List.filter (λ c, bool_decide (co_Kind c = Gauge) && negb (bool_decide (co_Name c = fq "zone_dnskeys"))) New.

Lemma update_names view r bytes : Forall (λ op, op_name op ∈ zone_gauge_names) (updateZoneMetrics view r bytes).
Proof.
  assert (∀ n, bool_decide (n ∈ zone_gauge_names) = true → n ∈ zone_gauge_names) as Hb by (intros n; apply bool_decide_eq_true).
  unfold updateZoneMetrics. rewrite !Forall_app, !Forall_singleton, !Forall_fmap. split_and!; cbn [op_name gauge].
  - by apply Hb; vm_compute.
  - apply Forall_forall. intros st _. by apply Hb; vm_compute.
  - apply zone_gauges_Forall. intros n k Hin. cbn [op_name gauge]. apply Hb. revert n Hin. apply Forall_forall. repeat constructor.
  - by apply Hb; vm_compute.
  - apply Forall_forall. intros f _. by apply Hb; vm_compute.
  - by apply Hb; vm_compute.
Qed.

Lemma update_no_counter view r bytes name p :
  name ∈ [fq "transfers_total"; fq "verifications_total"; fq "rrsig_verifications_total"] → incs name p (updateZoneMetrics view r bytes) = 0.
Proof.
  intros Hn. apply incs_other. apply (Forall_impl _ _ _ (update_names view r bytes)). intros op Hop Heq. rewrite Heq in Hop.
  assert (Forall (λ n, n ∉ zone_gauge_names) [fq "transfers_total"; fq "verifications_total"; fq "rrsig_verifications_total"]) as H.
  { assert (∀ n, bool_decide (n ∈ zone_gauge_names) = false → n ∉ zone_gauge_names) as Hb by (intros n; apply bool_decide_eq_false).
    repeat (constructor; [by apply Hb; vm_compute|]). constructor. }
  rewrite Forall_forall in H. by apply (H name).
Qed.

(** The collectors no operation of the program names. *)
Definition unused : list string := [fq "zone_dnskeys"; fq "rrsig_verifications_total"].

(** Two of the metrics registered are never given a value: the number of
    DNSKEY records of a zone, and the RRSIGs verified. *)
Theorem two_unused `{DL : !DnsLib, BT : !BTree, MR : !MapRange} cfg env zone pc view bytes es ds path err name members origin o op :
  op ∈ refresh_metrics cfg env zone pc view bytes ++ notify_metrics es ++ delivery_metrics ds ++ save_metrics path err ++
    catalog_metrics name members ++ chain_metrics origin o →
  op_name op ∉ unused.
Proof.
  revert op. apply (proj1 (Forall_forall (λ op, op_name op ∉ unused) _)).
  assert (∀ n, bool_decide (n ∈ unused) = false → n ∉ unused) as Hb by (intros n; apply bool_decide_eq_false).
  assert (∀ vres, Forall (λ op, op_name op ∉ unused) (updateZoneMetrics view (Some vres) bytes ++ verification_metrics zone vres)) as Hver.
  { intros vres. apply Forall_app. split; [|repeat constructor; by apply Hb; vm_compute].
    assert (forallb (λ n, negb (bool_decide (n ∈ unused))) zone_gauge_names = true) as Hg by (vm_compute; reflexivity).
    rewrite forallb_elem_of in Hg. apply (Forall_impl _ _ _ (update_names view (Some vres) bytes)).
    intros op Hop. by apply Hb, negb_true_iff, Hg. }
  rewrite !Forall_app. split_and!.
  - destruct pc as [| | |servers tsig old|l|l| |best store vres|l best|l best method [tres|e]| |best tres store vres shared| | |]; cbn [refresh_metrics];
      try exact (List.Forall_nil _); try exact (Hver _).
    + apply Forall_forall. intros op (st & Hop & _)%list_elem_of_bind. revert op Hop.
      apply (proj1 (Forall_forall (λ op, op_name op ∉ unused) _)). repeat (constructor; [by apply Hb; vm_compute|]). constructor.
    + case_bool_decide; repeat constructor. by apply Hb; vm_compute.
    + repeat (constructor; [by apply Hb; vm_compute|]). constructor.
    + repeat (constructor; [by apply Hb; vm_compute|]). constructor.
  - apply Forall_forall. intros op (e & _ & He)%list_elem_of_omap. destruct e; [done..|]. injection He as <-. by apply Hb; vm_compute.
  - apply Forall_fmap, Forall_forall. intros d _. by apply Hb; vm_compute.
  - unfold save_metrics. case_bool_decide; repeat constructor. by apply Hb; vm_compute.
  - repeat constructor. by apply Hb; vm_compute.
  - destruct o as [[[? ok] ?]|]; repeat constructor. by apply Hb; vm_compute.
Qed.

Section counted.
Context `{DL : !DnsLib, BT : !BTree, MR : !MapRange}.
Variable cfg : Config.

(** One region: its counts are its events. *)
Record agrees (ops : list MetricOp) (evs : list Event) : Prop := {
  ag_failed : incs (fq "transfers_total") (outcome_is "error") ops = published (of_type TransferFailed) evs;
  ag_ok : incs (fq "transfers_total") (outcome_is "ok") ops = published (of_type TransferCompleted) evs;
  ag_verified mode res : incs (fq "verifications_total") (verified_as mode res) ops = published (verification_event mode res) evs
}.

Lemma agrees_app a b c d : agrees a b → agrees c d → agrees (a ++ c) (b ++ d).
Proof. intros [H1 H2 H3] [K1 K2 K3]. split; intros; rewrite incs_app, published_app; congruence. Qed.

Lemma agrees_nil : agrees [] [].
Proof. done. Qed.

(** Events that report neither a transfer nor a verification. *)
Definition quiet (e : Event) : bool := negb (bool_decide (e_Type e ∈ [TransferFailed; TransferCompleted; VerificationCompleted])).

Lemma quiet_agrees evs : forallb quiet evs = true → agrees [] evs.
Proof.
  rewrite forallb_elem_of. intros Hq.
  assert (∀ t p, t ∈ [TransferFailed; TransferCompleted; VerificationCompleted] → (∀ e, p e = true → e_Type e = t) → published p evs = 0) as H.
  { intros t p Ht Hp. unfold published. destruct (List.filter p evs) as [|e l] eqn:E; [done|].
    assert (e ∈ List.filter p evs) as [He Hpe]%elem_of_filter_b by (rewrite E; by left). exfalso.
    specialize (Hq e He). apply negb_true_iff, bool_decide_eq_false in Hq. apply Hq. by rewrite (Hp e Hpe). }
  split; intros; symmetry; [apply (H TransferFailed)|apply (H TransferCompleted)|apply (H VerificationCompleted)]; try set_solver;
    intros e; unfold verification_event, of_type; rewrite ?andb_true_iff, !bool_decide_eq_true; naive_solver.
Qed.

Lemma detectSkew_quiet now z stats : forallb quiet (detectSkew cfg now z stats).2 = true.
Proof.
  unfold detectSkew. destruct (ss_Serial <$> _) as [|s [|s' ss]]; [done..|]. cbv zeta.
  case_bool_decide; [done|]. case_bool_decide; [by vm_compute|done].
Qed.

(** A verification, counted and published. *)
Lemma verification_agrees view bytes zone zone' vres evs :
  forallb quiet evs = true →
  agrees (updateZoneMetrics view (Some vres) bytes ++ verification_metrics zone vres)
    (zone_event VerificationCompleted zone' (state_string (newState vres)) "" (r_Mode vres) (result_name vres) :: evs).
Proof.
  intros Hevs%quiet_agrees. set (ev := zone_event _ _ _ _ _ _).
  enough (agrees (updateZoneMetrics view (Some vres) bytes ++ verification_metrics zone vres) [ev]) as H.
  { pose proof (agrees_app _ _ _ _ H Hevs) as Ha. by rewrite app_nil_r in Ha. }
  unfold ev. clear ev Hevs evs. split; intros; rewrite incs_app, update_no_counter by set_solver; [done..|].
  unfold incs, published, verification_metrics, verified_as, verification_event, of_type. cbn [List.filter e_Type e_Mode e_Result zone_event].
  rewrite !(bool_decide_true (_ = _)) by done. cbn [andb].
  by destruct (bool_decide (r_Mode vres = mode)), (bool_decide (result_name vres = res)).
Qed.

Lemma one_agrees zone method res t mode :
  (t, res) ∈ [(TransferFailed, "error"); (TransferCompleted, "ok")] →
  agrees [GInc (fq "transfers_total") [zone; method; res]] [zone_event t zone "" mode "" res].
Proof. intros [[= -> ->]|[= -> ->]%list_elem_of_singleton]%elem_of_cons; by split. Qed.

(** Probes only set gauges. *)
Lemma probes_quiet zone stats name p :
  name ∈ [fq "transfers_total"; fq "verifications_total"; fq "rrsig_verifications_total"] → incs name p (stats ≫= probe_metrics zone) = 0.
Proof.
  intros Hn. apply incs_other, Forall_forall. intros op (st & Hop & _)%list_elem_of_bind. revert name Hn. apply Forall_forall.
  revert op Hop. apply Forall_forall. repeat (constructor; [repeat (constructor; [by vm_compute|]); constructor|]). constructor.
Qed.

Lemma step_agrees env full z pc z' pc' evs view bytes zone :
  refresh_step cfg env full z pc = Some (z', pc', evs) → agrees (refresh_metrics cfg env zone pc view bytes) evs.
Proof.
  destruct pc as [| | |servers tsig old|l|l|best store|best store vres|l best|l best method tres|best tres store touched|best tres store vres shared| | |];
    cbn [refresh_step refresh_metrics].
  - destruct (TryLockRefresh z full). by intros [= <- <- <-].
  - by intros [= <- <- <-].
  - by intros [= <- <- <-].
  - destruct (probe_loop cfg env (z_Name z) tsig (soa_timeout cfg) servers None). intros [= <- <- <-].
    split; intros; cbn [fst]; rewrite probes_quiet by set_solver; done.
  - pose proof (detectSkew_quiet (e_now env) (with_ServersStat z (l_stats l)) (l_stats l)) as Hq. destruct (detectSkew _ _ _ _) as [z1 evs1].
    intros [= <- <- <-]. by apply quiet_agrees.
  - intros E%(inj Some). unfold decide_step in E. destruct (l_best l) as [best|].
    + rewrite bool_decide_false by done. destruct (_ && _ && _); [|by injection E as <- <- <-].
      destruct (z_Store z) as [st|]; [destruct (zonemdMaxAgeDue _ _ z st)|]; by injection E as <- <- <-.
    + rewrite bool_decide_true by done. injection E as <- <- <-. by split.
  - destruct (Full _ _ _); [|done]. by intros [= <- <- <-].
  - intros E%(inj Some). unfold checked_step in E. injection E as <- <- <-. by apply verification_agrees.
  - destruct (transfer _ _ _ _ _ _). by intros [= <- <- <-].
  - intros E%(inj Some). unfold received_step in E. destruct tres as [tres|err].
    + destruct (received_store _ tres) as [[[st touched] [err|]]|]; injection E as <- <- <-; by split.
    + injection E as <- <- <-. by split.
  - unfold verify_step. destruct (verify_full _ _ _ _ _ _).
    + destruct (Full _ _ _); [|done]. by intros [= <- <- <-].
    + destruct (Incremental _ _ _ _ _); [|done]. by intros [= <- <- <-].
  - intros E%(inj Some). unfold verified_step in E. injection E as <- <- <-. apply verification_agrees. by destruct (_ || _).
  - by intros [= <- <- <-].
  - by intros [= <- <- <-].
  - done.
Qed.

(** *** Whole refreshes *)

(** Some regions of a refresh of a zone, alone in their steps but not in
    between, with what each does to the metrics and publishes. *)
Inductive regions (full : bool) (zone : string) : Pc → Pc → list MetricOp → list Event → Prop :=
| regions_nil pc : regions full zone pc pc [] []
| regions_step env z pc z' pc1 evs1 view bytes pc2 ops2 evs2 :
    refresh_step cfg env full z pc = Some (z', pc1, evs1) → regions full zone pc1 pc2 ops2 evs2 →
    regions full zone pc pc2 (refresh_metrics cfg env zone pc view bytes ++ ops2) (evs1 ++ evs2).

(** What is still to be counted from a point on, at most. *)
Definition transfers_left (pc : Pc) : nat :=
  match pc with
  | PcLock | PcSem | PcRead | PcProbe _ _ _ | PcStats _ | PcDecide _ | PcTransfer _ _ | PcReceived _ _ _ _ => 1
  | _ => 0
  end.
Definition verifications_left (pc : Pc) : nat := match pc with PcRelease | PcUnlock | PcDone => 0 | _ => 1 end.

Definition any_label (ls : list string) : bool := true.

(** What a list of operations counts of transfers, of verifications and of RRSIGs. *)
Definition counts (ops : list MetricOp) (t v r : nat) : Prop :=
  incs (fq "transfers_total") any_label ops = t ∧ incs (fq "verifications_total") any_label ops = v ∧
  incs (fq "rrsig_verifications_total") any_label ops = r.

Lemma error_counts zone method : counts [transfer_error zone method] 1 0 0.
Proof. by split_and!. Qed.
Lemma transfer_counts zone tres : counts (transfer_metrics zone tres) 1 0 0.
Proof. by split_and!. Qed.
Lemma probes_count zone stats : counts (stats ≫= probe_metrics zone) 0 0 0.
Proof. split_and!; by apply probes_quiet; set_solver. Qed.
Lemma verification_counts view vres bytes zone : counts (updateZoneMetrics view (Some vres) bytes ++ verification_metrics zone vres) 0 1 0.
Proof. unfold counts. rewrite !incs_app, !update_no_counter by set_solver. by split_and!. Qed.

(** Every region counts what there is less to count after it. *)
Lemma step_left env full z pc z' pc' evs view bytes zone :
  refresh_step cfg env full z pc = Some (z', pc', evs) →
  ∃ t v, counts (refresh_metrics cfg env zone pc view bytes) t v 0 ∧
    t + transfers_left pc' ≤ transfers_left pc ∧ v + verifications_left pc' ≤ verifications_left pc.
Proof.
  assert (∀ pc1, transfers_left pc1 ≤ transfers_left pc → verifications_left pc1 ≤ verifications_left pc →
    ∃ t v, counts [] t v 0 ∧ t + transfers_left pc1 ≤ transfers_left pc ∧ v + verifications_left pc1 ≤ verifications_left pc) as Hnone
    by (intros; by exists 0, 0).
  destruct pc as [| | |servers tsig old|l|l|best store|best store vres|l best|l best method tres|best tres store touched|best tres store vres shared| | |];
    cbn [refresh_step refresh_metrics].
  - destruct (TryLockRefresh z full) as [z1 []]; intros [= <- <- <-]; apply Hnone; cbn; lia.
  - intros [= <- <- <-]. by apply Hnone.
  - intros [= <- <- <-]. by apply Hnone.
  - destruct (probe_loop cfg env (z_Name z) tsig (soa_timeout cfg) servers None). intros [= <- <- <-].
    exists 0, 0. split; [apply probes_count|done].
  - destruct (detectSkew _ _ _ _). intros [= <- <- <-]. by apply Hnone.
  - intros E%(inj Some). unfold decide_step in E. destruct (l_best l) as [best|].
    + rewrite bool_decide_false by done. destruct (_ && _ && _); [|injection E as <- <- <-; by apply Hnone].
      destruct (z_Store z) as [st|]; [destruct (zonemdMaxAgeDue _ _ z st)|]; injection E as <- <- <-; apply Hnone; cbn; lia.
    + rewrite bool_decide_true by done. injection E as <- <- <-. exists 1, 0. split; [apply error_counts|cbn; lia].
  - destruct (Full _ _ _); [|done]. intros [= <- <- <-]. by apply Hnone.
  - intros E%(inj Some). unfold checked_step in E. injection E as <- <- <-. exists 0, 1. split; [apply verification_counts|cbn; lia].
  - destruct (transfer _ _ _ _ _ _). intros [= <- <- <-]. by apply Hnone.
  - intros E%(inj Some). unfold received_step in E. exists 1, 0. destruct tres as [tres|err].
    + split; [apply transfer_counts|]. destruct (received_store _ tres) as [[[st touched] [err|]]|]; injection E as <- <- <-; cbn; lia.
    + split; [apply error_counts|]. injection E as <- <- <-. cbn. lia.
  - unfold verify_step. destruct (verify_full _ _ _ _ _ _).
    + destruct (Full _ _ _); [|done]. intros [= <- <- <-]. by apply Hnone.
    + destruct (Incremental _ _ _ _ _); [|done]. intros [= <- <- <-]. by apply Hnone.
  - intros E%(inj Some). unfold verified_step in E. injection E as <- <- <-. exists 0, 1. split; [apply verification_counts|cbn; lia].
  - intros [= <- <- <-]. by apply Hnone.
  - intros [= <- <- <-]. by apply Hnone.
  - done.
Qed.

(** C37: over any regions of a refresh the counters of transfers and of
    verifications go up by as much as events of the same outcome are
    published, under the result the events have; from its start a refresh
    counts at most one transfer and one verification; and no RRSIG
    verification is ever counted, although there is a counter for them. *)
Theorem refresh_counts full zone pc pc' ops evs :
  regions full zone pc pc' ops evs →
  agrees ops evs ∧
  incs (fq "transfers_total") any_label ops ≤ 1 ∧ incs (fq "verifications_total") any_label ops ≤ 1 ∧
  incs (fq "rrsig_verifications_total") any_label ops = 0.
Proof.
  intros H. enough (agrees ops evs ∧ incs (fq "transfers_total") any_label ops + transfers_left pc' ≤ transfers_left pc ∧
    incs (fq "verifications_total") any_label ops + verifications_left pc' ≤ verifications_left pc ∧
    incs (fq "rrsig_verifications_total") any_label ops = 0) as (? & H1 & H2 & ?).
  { assert (transfers_left pc ≤ 1 ∧ verifications_left pc ≤ 1) as [? ?] by (destruct pc; cbn; lia). split_and!; [done|lia|lia|done]. }
  induction H as [pc|env z pc z' pc1 evs1 view bytes pc2 ops2 evs2 Hs _ (IH0 & IH1 & IH2 & IH3)]; [by split_and!|].
  destruct (step_left _ _ _ _ _ _ _ view bytes zone Hs) as (t & v & (H1 & H2 & H3) & ? & ?). rewrite !incs_app, H1, H2, H3.
  split_and!; [|lia|lia|lia]. apply agrees_app; [|done]. by eapply step_agrees.
Qed.

(** An undisturbed refresh is one. *)
Lemma solo_regions envs full zone z pc z' pc' evs :
  solo cfg envs full z pc = Some (z', pc', evs) → ∃ ops, regions full zone pc pc' ops evs.
Proof.
  revert z pc evs. induction envs as [|env envs IH]; intros z pc evs; cbn [solo].
  - intros [= <- <- <-]. eexists. constructor.
  - destruct (refresh_step cfg env full z pc) as [[[z1 pc1] evs1]|] eqn:Hs; [|done]. cbn [mbind option_bind].
    destruct (solo cfg envs full z1 pc1) as [[[z2 pc2] evs2]|] eqn:E; [|done]. cbn [mbind option_bind]. intros [= <- <- <-].
    destruct (IH _ _ _ E) as [ops Hr]. eexists. by apply (regions_step full zone env z pc z1 pc1 evs1 (Runtime.Snapshot z1) 0%Z pc2 ops evs2).
Qed.
End counted.

(** ** Witness *)

(** A refresh whose transfer fails, once counted and once published. *)
Definition toy_failed := solo Defaults (replicate 10 toy_env) false toy_zone_runtime PcLock.

Lemma refresh_counts_witness :
  ∃ ops evs, regions Defaults false "z." PcLock PcDone ops evs ∧ published (of_type TransferFailed) evs = 1 ∧
    incs (fq "transfers_total") (outcome_is "error") ops = 1 ∧ incs (fq "transfers_total") any_label ops ≤ 1.
Proof.
  assert (match toy_failed with Some (_, PcDone, evs) => published (of_type TransferFailed) evs = 1 | _ => False end) as H
    by (vm_compute; reflexivity).
  unfold toy_failed in H. destruct (solo _ _ _ _ _) as [[[z' pc'] evs]|] eqn:E; [|destruct H]. destruct pc'; try (exfalso; exact H).
  destruct (solo_regions _ _ _ "z." _ _ _ _ _ E) as [ops Hr].
  destruct (refresh_counts Defaults false "z." PcLock PcDone ops evs Hr) as ([Ha _ _] & Ht & _).
  exists ops, evs. split; [exact Hr|]. split; [exact H|]. rewrite Ha. split; [exact H|exact Ht].
Defined.
