(* ===== verification/Sockets.v ===== *)
(** * Sockets (internal/notify/listener.go, internal/testprimary/server.go)

    How the NOTIFY listener and the test primary get their sockets and give
    them back, on all error paths, and the loops that serve them. The
    sockets of the process are a table of descriptors that only grows; a
    closed one leaves a hole. Effects are a state and error monad over any
    state that has such a table. What an address resolves to, and whether a
    socket can be bound, is the system's, a parameter.

    Main results: a start that fails leaves no socket behind and starts no
    goroutine; one that succeeds has exactly two, whose ports it reports,
    and the goroutine that waits for the end closes both; UDP and TCP of the
    test primary share the port it reports if the address names one, or is
    one of two spellings of "any port", and need not otherwise; the loop over
    datagrams requests what the sequence of messages requests. *)

From S2P Require Import Prelude GoStrings Decimal DnsLib BTree DnsName NetAddr Node Store Toy Config Event Xfr TestPrimary Notify.

(** ** The monad *)

(** The state is kept by an error: what was done is done. *)
Definition M (S A : Type) : Type := S → S * result A.
#[export] Instance M_ret S : MRet (M S) := λ A x s, (s, Ok x).
#[export] Instance M_bind S : MBind (M S) := λ A B f m s,
  match m s with (s', Ok x) => f x s' | (s', Err err) => (s', Err err) end.
Definition lift {S A} (r : result A) : M S A := λ s, (s, r).
Definition modify {S} (f : S → S) : M S unit := λ s, (f s, Ok tt).
Definition gets {S A} (f : S → A) : M S A := λ s, (s, Ok (f s)).

(** [if err != nil { cleanup; return err }] *)
Definition on_error {S A} (cleanup : S → S) (m : M S A) : M S A :=
  λ s, match m s with (s', Err err) => (cleanup s', Err err) | ok => ok end.

(** ** Sockets *)

Inductive Proto := Udp | Tcp.
Record Addr := mkAddr { ad_host : string; ad_port : Z }.
Record Socket := mkSocket { sk_proto : Proto; sk_addr : Addr }.
Notation Sockets := (list (option Socket)).

#[export] Instance Proto_eq_dec : EqDecision Proto.
Proof. solve_decision. Defined.
#[export] Instance Addr_eq_dec : EqDecision Addr.
Proof. solve_decision. Defined.
#[export] Instance Socket_eq_dec : EqDecision Socket.
Proof. solve_decision. Defined.

Definition opened (ss : Sockets) : list Socket := omap id ss.
Definition close (h : nat) (ss : Sockets) : Sockets := <[h := None]> ss.
Definition port_of (h : nat) (ss : Sockets) : Z := from_option (λ s, ad_port (sk_addr s)) 0%Z (mjoin (ss !! h)).

(** [net.ResolveUDPAddr] and [net.ResolveTCPAddr]; the port a new socket has
    after the ones there are. *)
Class SocketOs : Type := {
  Resolve : Proto → string → result Addr;
  Bind : Sockets → Proto → Addr → result Z
}.

(** What has a table of sockets. *)
Class HasSockets (S : Type) : Type := { sockets : S → Sockets; with_sockets : S → Sockets → S }.
Class HasSocketsLaws (S : Type) `{!HasSockets S} : Prop := {
  sockets_with s ss : sockets (with_sockets s ss) = ss;
  with_sockets_twice s ss ss' : with_sockets (with_sockets s ss) ss' = with_sockets s ss';
  with_same s : with_sockets s (sockets s) = s
}.

Section listen.
Context {St : Type} `{SO : !SocketOs, HS : !HasSockets St}.

(** [net.ListenUDP] and [net.ListenTCP]: the descriptor. *)
Definition Listen_at (proto : Proto) (a : Addr) : M St nat := λ s,
  match Bind (sockets s) proto a with
  | Err err => (s, Err err)
  | Ok port => (with_sockets s (sockets s ++ [Some (mkSocket proto (mkAddr (ad_host a) port))]), Ok (length (sockets s)))
  end.

(** [net.ListenPacket] and [net.Listen]. *)
Definition Listen_on (proto : Proto) (address : string) : M St nat :=
  a ← lift (Resolve proto address); Listen_at proto a.

Definition Close_socket (h : nat) (s : St) : St := with_sockets s (close h (sockets s)).
Definition bound_port (h : nat) : M St Z := gets (λ s, port_of h (sockets s)).
End listen.

(** ** The NOTIFY listener *)

(** What [Start] starts. *)
Inductive Goroutine :=
| GWebhooks | GServeUDP | GServeTCP | GCloser (uc ln : nat)
| GManager | GCatalogs | GChain | GPersist | GHttp.

(** A process: its sockets and goroutines, and the fields of the listener
    that hold sockets. *)
Record Proc := mkProc {
  pr_sockets : Sockets; pr_go : list Goroutine;
  pr_udpConn : option nat; pr_tcpLn : option nat; UDPPort : Z; TCPPort : Z
}.
#[export] Instance Proc_sockets : HasSockets Proc := {|
  sockets := pr_sockets;
  with_sockets p ss := mkProc ss (pr_go p) (pr_udpConn p) (pr_tcpLn p) (UDPPort p) (TCPPort p)
|}.
#[export] Instance Proc_laws : HasSocketsLaws Proc.
Proof. by split; [..|intros []]. Qed.

Definition with_udp (p : Proc) (h : nat) (port : Z) : Proc := mkProc (pr_sockets p) (pr_go p) (Some h) (pr_tcpLn p) port (TCPPort p).
Definition with_tcp (p : Proc) (h : nat) (port : Z) : Proc := mkProc (pr_sockets p) (pr_go p) (pr_udpConn p) (Some h) (UDPPort p) port.
Definition go (gs : list Goroutine) (p : Proc) : Proc :=
  mkProc (pr_sockets p) (pr_go p ++ gs) (pr_udpConn p) (pr_tcpLn p) (UDPPort p) (TCPPort p).

Section start.
Context `{SO : !SocketOs}.

Definition Start (cfg : NotifyConfig) : M Proc unit :=
  if negb (nt_Enabled cfg) then mret tt
  else
    let host := if bool_decide (nt_BindAddress cfg = "") then "0.0.0.0" else nt_BindAddress cfg in
    udpAddr ← lift (Resolve Udp (JoinHostPort host (fmt_d (nt_UDPPort cfg))));
    uc ← Listen_at Udp udpAddr;
    port ← bound_port uc;
    modify (λ p, with_udp p uc port);;
    tcpAddr ← on_error (Close_socket uc) (lift (Resolve Tcp (JoinHostPort host (fmt_d (nt_TCPPort cfg)))));
    ln ← on_error (Close_socket uc) (Listen_at Tcp tcpAddr);
    port ← bound_port ln;
    modify (λ p, with_tcp p ln port);;
    modify (go [GServeUDP; GServeTCP; GCloser uc ln]).
End start.

(** The end of the context: the goroutines return, and one closes. *)
Definition close_both (p : Proc) (g : Goroutine) : Proc :=
  match g with GCloser uc ln => Close_socket ln (Close_socket uc p) | _ => p end.
Definition cancelled (p : Proc) : Proc :=
  let p := foldl close_both p (pr_go p) in mkProc (pr_sockets p) [] (pr_udpConn p) (pr_tcpLn p) (UDPPort p) (TCPPort p).

(** *** The loops *)

(** What [ReadFromUDP] gives: a datagram, with the readings of the clock its
    handling takes and its sender, or an error, before or after the end of
    the context. *)
Inductive UdpRead :=
| Datagram (since now : Time) (data : bytes) (ip : option (list Z)) (from : Addr)
| ReadError (ended : bool).
(** What [Accept] gives: a connection as its pieces and the address of the
    peer, or an error. *)
Inductive TcpAccept :=
| Accepted (conn : list bytes) (remote : string)
| AcceptError (ended : bool).

Definition udp_buffer : nat := Z.to_nat 65535.

Section serve.
Context `{DL : !DnsLib, NB : !NotifyLib}.

(** [serveUDP] on the reads to come: the listener after, what is sent to
    whom, what is done, and whether the loop returned. *)
Fixpoint serveUDP (l : Listener) (reads : list UdpRead) : Listener * list (bytes * Addr) * list NEffect * bool :=
  match reads with
  | [] => (l, [], [], false)
  | ReadError ended :: reads => if ended then (l, [], [], true) else serveUDP l reads
  | Datagram since now data ip from :: reads =>
      let '(l, resp, es) := handle since now l (str_take udp_buffer data) ip "udp" in
      let '(l, sent, es', ended) := serveUDP l reads in
      (l, (if resp is Some resp then [(resp, from)] else []) ++ sent, es ++ es', ended)
  end.

(** The goroutine of a connection: what is written to it, and done. *)
Definition serve_conn (since now : Time) (l : Listener) (conn : list bytes) (remote : string) : Listener * option bytes * list NEffect :=
  match tcp_message conn with
  | None => (l, None, [])
  | Some body =>
      let host := from_option fst "" (SplitHostPort remote) in
      let '(l, resp, es) := handle since now l body (ParseIP host) "tcp" in
      (l, tcp_reply resp, es)
  end.

(** [serveTCP]: the connections it starts goroutines for, and whether it
    returned. *)
Fixpoint serveTCP (accepts : list TcpAccept) : list (list bytes * string) * bool :=
  match accepts with
  | [] => ([], false)
  | AcceptError ended :: accepts => if ended then ([], true) else serveTCP accepts
  | Accepted conn remote :: accepts => let '(conns, ended) := serveTCP accepts in ((conn, remote) :: conns, ended)
  end.
End serve.

(** ** The test primary *)

(** A server with the fields that hold its sockets. *)
Record Primary `{BT : !BTree} := mkListening {
  pm_server : TestPrimary.Server; pm_sockets : Sockets;
  pm_udp : option nat; pm_tcp : option nat; Port : Z
}.

Section primary.
Context `{BT : !BTree, SO : !SocketOs}.

#[export] Instance Primary_sockets : HasSockets Primary := {|
  sockets := pm_sockets;
  with_sockets p ss := mkListening _ (pm_server p) ss (pm_udp p) (pm_tcp p) (Port p)
|}.
#[export] Instance Primary_laws : HasSocketsLaws Primary.
Proof. by split; [..|intros []]. Qed.

Definition with_Port (port : Z) (p : Primary) : Primary := mkListening _ (pm_server p) (pm_sockets p) (pm_udp p) (pm_tcp p) port.
Definition with_servers (udp tcp : nat) (p : Primary) : Primary := mkListening _ (pm_server p) (pm_sockets p) (Some udp) (Some tcp) (Port p).

Definition any_port (addr : string) : bool := bool_decide (addr = "127.0.0.1:0") || bool_decide (addr = ":0").

Definition Listen (addr : string) : M Primary unit :=
  pc ← Listen_on Udp addr;
  ln ← on_error (Close_socket pc) (Listen_on Tcp addr);
  port ← bound_port ln;
  modify (with_Port port);;
  pc ← (if any_port addr then
          modify (Close_socket pc);;
          on_error (Close_socket ln) (Listen_on Udp (JoinHostPort "127.0.0.1" (fmt_d port)))
        else mret pc);
  modify (with_servers pc ln).

(** [Close]; the DNS library closes the socket of a server that has begun to
    serve, and the goroutines [Listen] starts may not have come to that. *)
Definition Close (serving : Proto → bool) (p : Primary) : Primary :=
  let shutdown proto h p := match h with Some h => if serving proto then Close_socket h p else p | None => p end in
  shutdown Tcp (pm_tcp p) (shutdown Udp (pm_udp p) p).
End primary.

(** ** Descriptors *)

Lemma opened_app a b : opened (a ++ b) = opened a ++ opened b.
Proof. apply omap_app. Qed.

Lemma close_app ss k t : close (length ss + k) (ss ++ t) = ss ++ close k t.
Proof. apply insert_app_r. Qed.

Lemma close_new ss s t : close (length ss) (ss ++ s :: t) = ss ++ None :: t.
Proof. rewrite <-(Nat.add_0_r (length ss)). apply close_app. Qed.

Lemma close_next ss s0 s t : close (S (length ss)) (ss ++ s0 :: s :: t) = ss ++ s0 :: None :: t.
Proof. rewrite <-Nat.add_1_r. apply close_app. Qed.

Lemma port_new ss s t : port_of (length ss) (ss ++ Some s :: t) = ad_port (sk_addr s).
Proof. unfold port_of. by rewrite list_lookup_middle. Qed.

Lemma port_next ss s0 s t : port_of (S (length ss)) (ss ++ s0 :: Some s :: t) = ad_port (sk_addr s).
Proof. unfold port_of. by rewrite lookup_app_r, Nat.sub_succ_l, Nat.sub_diag by lia. Qed.

Section facts.
Context `{SO : !SocketOs}.

(** A socket is bound, or nothing happens. *)
Lemma Listen_on_cases `{HS : !HasSockets St} proto address (s : St) :
  (∃ err, Listen_on proto address s = (s, Err err)) ∨
  ∃ a port, (Resolve proto address = Ok a ∧ Bind (sockets s) proto a = Ok port) ∧
    Listen_on proto address s = (with_sockets s (sockets s ++ [Some (mkSocket proto (mkAddr (ad_host a) port))]), Ok (length (sockets s))).
Proof.
  unfold Listen_on, lift, Listen_at. unfold mbind, M_bind. destruct (Resolve proto address) as [a|err]; [|left; by exists err].
  destruct (Bind (sockets s) proto a) as [port|err] eqn:E; [|left; by exists err]. right. by exists a, port.
Qed.

(** A start of the listener that fails leaves no socket open and starts
    nothing; one that succeeds has two sockets more, on the ports it
    reports, and their closer gives both back. *)
Theorem Start_sockets cfg p :
  let '(p', r) := Start cfg p in
  match r with
  | Err _ => opened (pr_sockets p') = opened (pr_sockets p) ∧ pr_go p' = pr_go p
  | Ok _ =>
      if nt_Enabled cfg then
        ∃ uc ln h1 h2, pr_go p' = pr_go p ++ [GServeUDP; GServeTCP; GCloser uc ln] ∧
          opened (pr_sockets p') = opened (pr_sockets p) ++ [mkSocket Udp (mkAddr h1 (UDPPort p')); mkSocket Tcp (mkAddr h2 (TCPPort p'))] ∧
          opened (pr_sockets (close_both p' (GCloser uc ln))) = opened (pr_sockets p)
      else p' = p
  end.
Proof.
  unfold Start. destruct (nt_Enabled cfg); [|done]. cbn [negb]. set (host := if bool_decide _ then _ else _). clearbody host.
  unfold mbind, M_bind, lift, Listen_at, bound_port, gets, modify, on_error, Close_socket.
  destruct (Resolve Udp _) as [a|]; [|done]. destruct (Bind _ Udp a) as [pu|]; [|done].
  destruct p as [ss gs u t bu bt]. cbn -[opened close port_of app]. rewrite port_new. cbn [sk_addr ad_port].
  destruct (Resolve Tcp _) as [b|]; cbn -[opened close port_of app].
  2:{ by rewrite close_new, opened_app, app_nil_r. }
  destruct (Bind _ Tcp b) as [pt|]; cbn -[opened close port_of app].
  2:{ by rewrite close_new, opened_app, app_nil_r. }
  rewrite length_app, <-app_assoc, Nat.add_1_r. cbn [app]. rewrite port_next. cbn [sk_addr ad_port].
  exists (length ss), (S (length ss)), (ad_host a), (ad_host b). split; [done|]. split; [by rewrite opened_app|].
  by rewrite close_new, close_next, opened_app, app_nil_r.
Qed.

#[export] Instance Ok_inj {A} : Inj (=) (=) (@Ok A).
Proof. by intros ?? [= ->]. Qed.

(** What [Listen] leaves, case by case. *)
Inductive listened `{BT : !BTree} (addr : string) (p : Primary) : Primary → result unit → Prop :=
| listened_not ss err port :
    opened ss = opened (pm_sockets p) →
    listened addr p (mkListening _ (pm_server p) ss (pm_udp p) (pm_tcp p) port) (Err err)
| listened_at a b pu pt :
    any_port addr = false → Resolve Udp addr = Ok a → Resolve Tcp addr = Ok b → Bind (pm_sockets p) Udp a = Ok pu →
    Bind (pm_sockets p ++ [Some (mkSocket Udp (mkAddr (ad_host a) pu))]) Tcp b = Ok pt →
    listened addr p
      (mkListening _ (pm_server p)
        (pm_sockets p ++ [Some (mkSocket Udp (mkAddr (ad_host a) pu)); Some (mkSocket Tcp (mkAddr (ad_host b) pt))])
        (Some (length (pm_sockets p))) (Some (S (length (pm_sockets p)))) pt) (Ok tt)
| listened_any c b pu pt ss :
    any_port addr = true → Resolve Tcp addr = Ok b → Bind ss Tcp b = Ok pt →
    Resolve Udp (JoinHostPort "127.0.0.1" (fmt_d pt)) = Ok c →
    Bind (pm_sockets p ++ [None; Some (mkSocket Tcp (mkAddr (ad_host b) pt))]) Udp c = Ok pu →
    listened addr p
      (mkListening _ (pm_server p)
        (pm_sockets p ++ [None; Some (mkSocket Tcp (mkAddr (ad_host b) pt)); Some (mkSocket Udp (mkAddr (ad_host c) pu))])
        (Some (S (S (length (pm_sockets p))))) (Some (S (length (pm_sockets p)))) pt) (Ok tt).

Lemma Listen_cases `{BT : !BTree} addr (p : Primary) : listened addr p (Listen addr p).1 (Listen addr p).2.
Proof.
  unfold Listen, on_error, bound_port, gets, modify. unfold mbind, M_bind, mret, M_ret. destruct p as [srv ss u0 t0 n].
  destruct (Listen_on_cases Udp addr (mkListening _ srv ss u0 t0 n)) as [[err ->]|(a & pu & [Ha Hpu] & ->)]; [by constructor|].
  cbn -[opened close port_of app Listen_on any_port] in *.
  destruct (Listen_on_cases Tcp addr (mkListening _ srv (ss ++ [Some (mkSocket Udp (mkAddr (ad_host a) pu))]) u0 t0 n))
    as [[err ->]|(b & pt & [Hb Hpt] & ->)]; cbn -[opened close port_of app Listen_on any_port] in *.
  { apply (listened_not addr (mkListening _ srv ss u0 t0 n)). cbn [pm_sockets]. by rewrite close_new, opened_app, app_nil_r. }
  rewrite length_app, <-app_assoc, Nat.add_1_r. cbn [app]. rewrite port_next. cbn [sk_addr ad_port].
  destruct (any_port addr) eqn:Hany; cbn -[opened close port_of app Listen_on].
  2:{ by apply (listened_at addr (mkListening _ srv ss u0 t0 n) a b pu pt). }
  rewrite close_new.
  match goal with |- context [Listen_on Udp ?x ?p] => destruct (Listen_on_cases Udp x p) as [[err ->]|(c & pu' & [Hc Hpu'] & ->)] end;
    cbn -[opened close port_of app] in *.
  - apply (listened_not addr (mkListening _ srv ss u0 t0 n)). cbn [pm_sockets]. by rewrite close_next, opened_app, app_nil_r.
  - rewrite <-app_assoc, length_app. cbn [app length]. rewrite Nat.add_comm. cbn [Nat.add].
    by eapply (listened_any addr (mkListening _ srv ss u0 t0 n) c b pu' pt).
Qed.

(** [Listen] of the test primary: on an error nothing is open that was not;
    else there is one UDP and one TCP socket more, the latter on the port
    reported, and [Close] gives both back once they are served. *)
Theorem Listen_sockets `{BT : !BTree} addr (p : Primary) :
  let '(p', r) := Listen addr p in
  pm_server p' = pm_server p ∧
  match r with
  | Err _ => opened (pm_sockets p') = opened (pm_sockets p) ∧ pm_udp p' = pm_udp p ∧ pm_tcp p' = pm_tcp p
  | Ok _ =>
      ∃ a u, opened (pm_sockets p') ≡ₚ opened (pm_sockets p) ++ [mkSocket Udp u; mkSocket Tcp (mkAddr a (Port p'))] ∧
        opened (pm_sockets (Close (λ _, true) p')) = opened (pm_sockets p)
  end.
Proof.
  pose proof (Listen_cases addr p) as H. destruct (Listen addr p) as [p' r]. cbn [fst snd] in H.
  destruct H as [ss err port Hss|a b pu pt|c b pu pt ss]; (split; [done|]); [done|..].
  - exists (ad_host b), (mkAddr (ad_host a) pu). cbn -[opened close app]. split; [by rewrite opened_app|].
    by rewrite close_new, close_next, opened_app, app_nil_r.
  - exists (ad_host b), (mkAddr (ad_host c) pu). cbn -[opened close app]. split.
    + rewrite opened_app. apply Permutation_app_head. cbn. constructor.
    + replace (S (S (length (pm_sockets p)))) with (length (pm_sockets p) + 2) by lia.
      replace (S (length (pm_sockets p))) with (length (pm_sockets p) + 1) by lia.
      rewrite !close_app, opened_app. by apply app_nil_r.
Qed.

(** *** Ports *)

(** A socket is bound to the port it names, or to some port if it names
    none; a numerical port resolves to itself. *)
Class SocketOsLaws : Prop := {
  Bind_port ss proto a port : Bind ss proto a = Ok port → (0 < port < 65536)%Z ∧ (ad_port a ≠ 0%Z → port = ad_port a);
  Resolve_port proto port a : (0 < port < 65536)%Z → Resolve proto (JoinHostPort "127.0.0.1" (fmt_d port)) = Ok a → ad_port a = port
}.

(** The test primary serves UDP and TCP on the port it reports, if its
    address names a port or is a spelling of any port that it knows. *)
Theorem Listen_port `{BT : !BTree, SL : !SocketOsLaws} addr p p' :
  Listen addr p = (p', Ok tt) →
  any_port addr = true ∨ (∃ n, n ≠ 0%Z ∧ ∀ proto a, Resolve proto addr = Ok a → ad_port a = n) →
  ∃ u t, opened (pm_sockets p') ≡ₚ opened (pm_sockets p) ++ [mkSocket Udp (mkAddr u (Port p')); mkSocket Tcp (mkAddr t (Port p'))].
Proof.
  intros HL Hor. pose proof (Listen_cases addr p) as H. rewrite HL in H. cbn [fst snd] in H.
  inversion H as [|a b pu pt Hany Ha Hb Hpu Hpt E|c b pu pt ss Hany Hb Hpt Hc Hpu E]; cbn [pm_sockets Port].
  - destruct Hor as [?|(n & Hn & Hall)]; [congruence|]. apply Bind_port in Hpu as [_ Hpu]. apply Bind_port in Hpt as [_ Hpt].
    rewrite (Hall _ _ Ha) in Hpu. rewrite (Hall _ _ Hb) in Hpt. rewrite Hpu, Hpt by done.
    exists (ad_host a), (ad_host b). by rewrite opened_app.
  - apply Bind_port in Hpt as [Hr _]. apply Bind_port in Hpu as [_ Hpu]. rewrite (Resolve_port _ _ _ Hr Hc) in Hpu. rewrite Hpu by lia.
    exists (ad_host c), (ad_host b). rewrite opened_app. apply Permutation_app_head. cbn. constructor.
Qed.

(** *** The loop over datagrams *)

(** The messages of a sequence of reads, up to the end. *)
Fixpoint arrivals (reads : list UdpRead) : list Arrival :=
  match reads with
  | [] => []
  | ReadError ended :: reads => if ended then [] else arrivals reads
  | Datagram since now data ip _ :: reads => mkArrival since now (str_take udp_buffer data) ip "udp" :: arrivals reads
  end.

Lemma requests_app a b : requests (a ++ b) = requests a ++ requests b.
Proof. apply omap_app. Qed.

(** The loop requests what its messages request one after the other, sends
    at most one answer for each, and returns exactly when an error finds the
    context ended. *)
Theorem serveUDP_requests `{DL : !DnsLib, NB : !NotifyLib} l reads :
  let '(_, sent, es, ended) := serveUDP l reads in
  requests es = snd <$> run l (arrivals reads) ∧ length sent ≤ length (arrivals reads) ∧
  (ended = true ↔ ReadError true ∈ reads).
Proof.
  revert l. induction reads as [|[since now data ip from|[]] reads IH]; intros l; cbn [serveUDP arrivals run].
  - split_and!; [done|done|]. split; [done|by intros ?%elem_of_nil].
  - cbn [ar_since ar_now ar_wire ar_ip ar_transport]. destruct (handle _ _ _ _ _ _) as [[l1 resp] es]. specialize (IH l1).
    destruct (serveUDP l1 reads) as [[[l2 sent] es2] ended]. destruct IH as (Hr & Hl & He). split_and!.
    + rewrite requests_app, Hr, fmap_app. f_equal. rewrite <-list_fmap_compose. symmetry. apply list_fmap_id.
    + rewrite length_app. cbn [length]. destruct resp; simpl; lia.
    + rewrite He, elem_of_cons. naive_solver.
  - split_and!; [done|done|]. split; [by left|done].
  - specialize (IH l). destruct (serveUDP l reads) as [[[l2 sent] es2] ended]. destruct IH as (Hr & Hl & He).
    split_and!; [done|done|]. rewrite He, elem_of_cons. naive_solver.
Qed.
End facts.

(** ** Witnesses *)

(** Ports of the loopback address resolve to themselves, other addresses are
    of any port; a socket of any port gets the number of the descriptor. *)
Fixpoint toy_ports (fuel : nat) (n : Z) (address : string) : Addr :=
  match fuel with
  | O => mkAddr "::" 0
  | S fuel => if bool_decide (address = "127.0.0.1:" +:+ fmt_d n) then mkAddr "127.0.0.1" n else toy_ports fuel (n + 1) address
  end.
Definition toy_resolve (address : string) : Addr :=
  if HasPrefix address "127" then toy_ports (Z.to_nat 65535) 1 address else mkAddr "::" 0.

Lemma toy_ports_find fuel n port : (n ≤ port < n + Z.of_nat fuel)%Z → toy_ports fuel n ("127.0.0.1:" +:+ fmt_d port) = mkAddr "127.0.0.1" port.
Proof.
  revert n. induction fuel as [|fuel IH]; intros n Hn; [lia|]. cbn [toy_ports]. case_bool_decide as E.
  - apply (inj (String.append _)) in E. apply fmt_d_inj in E. by subst.
  - apply IH. assert (n ≠ port) by congruence. lia.
Qed.

Definition toy_sockets : SocketOs := {|
  Resolve _ address := Ok (toy_resolve address);
  Bind ss proto a :=
    if bool_decide (65000 < Z.of_nat (length ss))%Z then Err "too many" else
    if bool_decide (0 < ad_port a < 65536)%Z then
      if existsb (λ s, bool_decide (sk_proto s = proto ∧ ad_port (sk_addr s) = ad_port a)) (opened ss) then Err "in use" else Ok (ad_port a)
    else if bool_decide (ad_port a = 0)%Z then Ok (Z.of_nat (S (length ss))) else Err "no such port"
|}.

Lemma toy_sockets_laws : SocketOsLaws (SO := toy_sockets).
Proof.
  split.
  - intros ss proto a port. cbn [Bind toy_sockets]. repeat case_bool_decide; try destruct (existsb _ _); intros [= <-]; lia.
  - intros proto port a Hp E. assert (a = toy_resolve (JoinHostPort "127.0.0.1" (fmt_d port))) as -> by (symmetry; by apply (inj Ok)).
    assert (JoinHostPort "127.0.0.1" (fmt_d port) = "127.0.0.1:" +:+ fmt_d port) as ->.
    { unfold JoinHostPort. rewrite bool_decide_false by (by intros [? ?]). done. }
    unfold toy_resolve. rewrite toy_ports_find by lia. by rewrite (eq_refl : HasPrefix ("127.0.0.1:" +:+ fmt_d port) "127" = true).
Qed.

Definition toy_primary : Primary := mkListening _ TestPrimary.New [] None None 0.

Lemma Listen_port_witness :
  let '(p', r) := Listen (SO := toy_sockets) ":0" toy_primary in
  r = Ok tt ∧ Port p' = 2%Z ∧
  ∃ u t, opened (pm_sockets p') ≡ₚ [] ++ [mkSocket Udp (mkAddr u (Port p')); mkSocket Tcp (mkAddr t (Port p'))].
Proof.
  destruct (Listen (SO := toy_sockets) ":0" toy_primary) as [p' r] eqn:E.
  assert (r = Ok tt ∧ Port p' = 2%Z) as [-> Hp].
  { change (r = Ok tt ∧ Port p' = 2%Z) with ((p', r).2 = Ok tt ∧ Port (p', r).1 = 2%Z). rewrite <-E. by vm_compute. }
  split_and!; [done|done|]. apply (Listen_port (SO := toy_sockets) (SL := toy_sockets_laws) ":0" toy_primary p' E). by left.
Defined.

(** Any port of all addresses: TCP is bound to all of them, UDP to the
    loopback address only; and spelled otherwise, UDP and TCP get ports of
    their own, of which the second is reported. *)
Example Listen_any_hosts :
  opened (pm_sockets (Listen (SO := toy_sockets) ":0" toy_primary).1) =
    [mkSocket Tcp (mkAddr "::" 2); mkSocket Udp (mkAddr "127.0.0.1" 2)] ∧
  opened (pm_sockets (Listen (SO := toy_sockets) "0.0.0.0:0" toy_primary).1) =
    [mkSocket Udp (mkAddr "::" 1); mkSocket Tcp (mkAddr "::" 2)].
Proof. by vm_compute. Qed.
