(* ===== verification/Lifecycle.v ===== *)
(** * The life of the process (App.Run of internal/app/app.go)

    [Run] from start to end: what is read, subscribed, bound and started, in
    this order and up to the first error, and what an end does. The monitor
    it starts is [App.boot]; the goroutines are named here and modelled as
    steps of Monitor, Catalog, Notify, Chain, Webhooks and Api. The sockets
    of the HTTP server belong to its library.

    Main results: a start that fails has started nothing but the sender of
    webhooks, and whatever the outcome, once the context has ended the
    process holds no more sockets than before; a start that succeeds runs
    every part once, those with a switch exactly if it is on, on a monitor
    in a reachable state; an end saves the state, and a failure of the HTTP
    server does not. *)

From S2P Require Import Prelude GoStrings DnsLib BTree DnsName Node Store Config Event Runtime Manager Monitor Notify State TestPrimary Zonegen Commands App Sockets.

(** The handlers [Run] subscribes to the bus, in the order of delivery. *)
Inductive Subscriber := SubWebhooks | SubSnapshots | SubStream.

#[export] Instance Subscriber_eq_dec : EqDecision Subscriber.
Proof. solve_decision. Defined.
#[export] Instance Goroutine_eq_dec : EqDecision Goroutine.
Proof. solve_decision. Defined.

Definition Life : Type := Proc * list Subscriber.
Definition on_proc {A} (m : M Proc A) : M Life A := λ s, let '(p, r) := m s.1 in ((p, s.2), r).
Definition subscribe (subs : list Subscriber) : M Life unit := modify (λ s, (s.1, s.2 ++ subs)).
Definition start (gs : list Goroutine) : M Life unit := on_proc (modify (go gs)).

Section run.
Context `{DL : !DnsLib, BT : !BTree, MR : !MapRange, OS : !Os, SO : !SocketOs}.
Variables (now : Time) (cfg : Config) (disk : Disk).

(** [Run] up to the [select]: the monitor and the listener. *)
Definition Run_start : M Life (Sys * Listener) :=
  let s := boot now cfg disk in
  subscribe (if wh_Enabled (c_Webhooks cfg) then [SubWebhooks] else []);;
  start [GWebhooks];;
  ln ← lift (Notify.New (c_Notify cfg) (TSIGFromConfig cfg));
  on_proc (Start (c_Notify cfg));;
  subscribe [SubSnapshots];;
  start [GManager; GCatalogs; GChain];;
  start (if bool_decide (sc_File (c_State cfg) = "") then [] else [GPersist]);;
  subscribe [SubStream];;
  start [GHttp];;
  mret (s, ln).

(** What the [select] waits for: the end of the context, or an error of the
    HTTP server. *)
Inductive Wake := Done_ctx | HttpFailed (err : string).

(** The disks on the way, with the monitor and the disk of that time, and
    what [Run] returns. *)
Definition Run_end (later : Time) (s : Sys) (d : Disk) (w : Wake) : list Disk * option string :=
  match w with
  | Done_ctx => (persist later cfg s d, None)
  | HttpFailed err => ([], Some err)
  end.

(** All of [Run]; [running] gives what became of the monitor and the disk.
    The deferred [cancel] ends the context in any case. *)
Definition Run (running : Sys → Listener → Time * Sys * Disk * Wake) (st : Life) : Proc * list Disk * option string :=
  match Run_start st with
  | ((p, _), Err err) => (cancelled p, [], Some err)
  | ((p, _), Ok (s, ln)) =>
      let '(later, s', d, w) := running s ln in
      let '(disks, err) := Run_end later s' d w in (cancelled p, disks, err)
  end.
End run.

(** [main] of testprimary after its flags are parsed: the server that
    listens; at the interrupt it is closed. *)
Definition testprimary_listen `{DL : !DnsLib, BT : !BTree, MR : !MapRange, CR : !Crypto, SO : !SocketOs}
    (now : Time) (f : PrimaryFlags) (addr : string) (ss : Sockets) : outcome Primary :=
  s ← testprimary_main now f;
  match Listen addr (mkListening _ s ss None None 0) with
  | (p, Ok _) => Done p
  | (_, Err err) => Failed err
  end.

Section facts.
Context `{DL : !DnsLib, BT : !BTree, MR : !MapRange, OS : !Os, SO : !SocketOs}.
Implicit Types p : Proc.

Lemma closers_nil (gs : list Goroutine) p :
  Forall (λ g, if g is GCloser _ _ then False else True) gs → foldl close_both p gs = p.
Proof. induction 1 as [|g gs Hg _ IH]; [done|]. by destruct g. Qed.

Lemma cancelled_idle p : Forall (λ g, if g is GCloser _ _ then False else True) (pr_go p) → pr_sockets (cancelled p) = pr_sockets p.
Proof. intros H. unfold cancelled. by rewrite closers_nil. Qed.

(** The goroutines of a configuration. *)
Definition listeners (cfg : Config) (uc ln : nat) : list Goroutine :=
  if nt_Enabled (c_Notify cfg) then [GServeUDP; GServeTCP; GCloser uc ln] else [].
Definition goroutines (cfg : Config) (uc ln : nat) : list Goroutine :=
  [GWebhooks] ++ listeners cfg uc ln ++ [GManager; GCatalogs; GChain] ++
  (if bool_decide (sc_File (c_State cfg) = "") then [] else [GPersist]) ++ [GHttp].
Definition subscribers (cfg : Config) : list Subscriber :=
  (if wh_Enabled (c_Webhooks cfg) then [SubWebhooks] else []) ++ [SubSnapshots; SubStream].

(** The closer among the goroutines of a configuration. *)
Lemma cancelled_goroutines cfg p uc ln :
  pr_go p = goroutines cfg uc ln →
  pr_sockets (cancelled p) = if nt_Enabled (c_Notify cfg) then close ln (close uc (pr_sockets p)) else pr_sockets p.
Proof.
  intros Hg. unfold cancelled. rewrite Hg. unfold goroutines, listeners. destruct (nt_Enabled (c_Notify cfg)); by case_bool_decide.
Qed.

(** Whatever becomes of a start, it has left a description: an error with
    only the sender of webhooks running, or everything. *)
Theorem Run_start_outcome now cfg disk p :
  pr_go p = [] →
  let '((p', subs), r) := Run_start now cfg disk (p, []) in
  opened (pr_sockets (cancelled p')) = opened (pr_sockets p) ∧
  match r with
  | Err _ => pr_go p' = [GWebhooks] ∧ opened (pr_sockets p') = opened (pr_sockets p) ∧ SubSnapshots ∉ subs
  | Ok (s, l) =>
      s = boot now cfg disk ∧ Notify.New (c_Notify cfg) (TSIGFromConfig cfg) = Ok l ∧ subs = subscribers cfg ∧
      (∃ uc ln, pr_go p' = goroutines cfg uc ln) ∧
      length (opened (pr_sockets p')) = length (opened (pr_sockets p)) + (if nt_Enabled (c_Notify cfg) then 2 else 0)
  end.
Proof.
  intros Hgo. unfold Run_start. destruct p as [ss gs u t bu bt]. cbn in Hgo. subst gs.
  unfold start, subscribe, on_proc, modify, lift. unfold mbind, M_bind, mret, M_ret. cbn [fst snd go pr_go pr_sockets app].
  destruct (Notify.New _ _) as [l|err]; [|by destruct (wh_Enabled (c_Webhooks cfg)); (split_and!; [done..|set_solver])].
  set (p0 := go [GWebhooks] (mkProc ss [] u t bu bt)). change (mkProc ss [GWebhooks] u t bu bt) with p0.
  pose proof (Start_sockets (c_Notify cfg) p0) as H. destruct (Start (c_Notify cfg) p0) as [p1 [[]|err]].
  2:{ destruct H as [H1 H2]. rewrite cancelled_idle by (rewrite H2; by repeat constructor).
      by destruct (wh_Enabled (c_Webhooks cfg)); (split_and!; [done..|set_solver]). }
  cbn [fst snd]. set (pe := go [GHttp] _).
  assert (pr_sockets pe = pr_sockets p1) as Hs by done.
  assert (∀ uc ln, pr_go p1 = [GWebhooks] ++ listeners cfg uc ln → pr_go pe = goroutines cfg uc ln) as Hg.
  { intros uc ln Hg. unfold pe, goroutines. cbn [go pr_go]. rewrite Hg, <-!app_assoc. done. }
  assert (((if wh_Enabled (c_Webhooks cfg) then [SubWebhooks] else []) ++ [SubSnapshots]) ++ [SubStream] = subscribers cfg) as Hsubs
    by (unfold subscribers; by rewrite <-app_assoc).
  destruct (nt_Enabled (c_Notify cfg)) eqn:He.
  - destruct H as (uc & ln & h1 & h2 & Hg1 & Ho & Hc). specialize (Hg uc ln). unfold listeners in Hg. rewrite He in Hg. specialize (Hg Hg1).
    rewrite (cancelled_goroutines _ _ _ _ Hg), He, Hs. split_and!; [exact Hc|done|done|exact Hsubs|by exists uc, ln|].
    rewrite Ho, length_app. done.
  - subst p1. specialize (Hg 0 0). unfold listeners in Hg. rewrite He in Hg. specialize (Hg eq_refl).
    rewrite (cancelled_goroutines _ _ _ _ Hg), He, Hs. split_and!; [done|done|done|exact Hsubs|by exists 0, 0|]. by rewrite Nat.add_0_r.
Qed.

(** From start to end, by whatever way: no goroutine and no socket is left;
    the files written are those of the state at the end, and none after an
    error; and without an error everything was started on the monitor read
    from the files. *)
Theorem Run_leaves_nothing now cfg disk running p :
  pr_go p = [] →
  let '(p', disks, err) := Run now cfg disk running (p, []) in
  pr_go p' = [] ∧ opened (pr_sockets p') = opened (pr_sockets p) ∧
  match err with
  | Some _ => disks = []
  | None =>
      ∃ ln later s' d, Notify.New (c_Notify cfg) (TSIGFromConfig cfg) = Ok ln ∧
        running (boot now cfg disk) ln = (later, s', d, Done_ctx) ∧ disks = (Save later d (sc_File (c_State cfg)) s').1
  end.
Proof.
  intros Hgo. pose proof (Run_start_outcome now cfg disk p Hgo) as H. unfold Run.
  destruct (Run_start now cfg disk (p, [])) as [[p' subs] [[s ln]|err]]; [|by destruct H].
  destruct H as (Ho & -> & Hln & _). destruct (running _ ln) as [[[later s'] d] [|err]] eqn:Er; cbn [Run_end].
  - split_and!; [done|done|]. by exists ln, later, s', d.
  - done.
Qed.
End facts.
