(* ===== verification/Loops.v ===== *)
(** * The loops over all zones (Manager.Run, Checker.Run)

    What starts the steps of Monitor: the refreshes at the start of
    [Manager.Run], its ticks and expiry sweeps, and the ticks of the chain
    check. Each takes the list of zones once and goes through it; between
    two zones any goroutine may step.

    Main results: whatever happens in between, every loop stays within the
    reachable states of Monitor; and a tick that is left alone brings every
    zone up to date and starts one refresh for each zone that is due and for
    no other. *)

From S2P Require Import Prelude GoStrings DnsLib BTree DnsName Node Store Toy Config Findings Event Full Runtime Manager Monitor Refresh State Chain.

Section loops.
Context `{DL : !DnsLib, BT : !BTree, MR : !MapRange}.

(** [List]: the runtimes of the map, by their place in the heap. *)
Definition locs (s : Sys) : list nat := (range (s_zones s)).*2.

(** [go m.Refresh(ctx, z, false)] of the start. *)
Definition initial_zone (s : Sys) (loc : nat) : Sys := if s_heap s !! loc then spawn s loc false else s.

Definition tick_zone (now : Time) (s : Sys) (loc : nat) : Sys :=
  match s_heap s !! loc with
  | None => s
  | Some z =>
      let '(z', evs, due) := tick now z in
      if due then spawn (put s loc z' evs) loc false else put s loc z' evs
  end.

Definition sweep_zone (cfg : Config) (env : Env) (s : Sys) (loc : nat) : Sys :=
  match s_heap s !! loc with
  | None => s
  | Some z => let '(z', evs) := sweep cfg env z in put s loc z' evs
  end.

Definition check_zone `{CN : !ChainNet} (cfg : ChainConfig) (now : Time) (s : Sys) (loc : nat) : Sys :=
  match s_heap s !! loc with
  | None => s
  | Some z => let '(z', _, evs) := Chain.Check cfg now z in put s loc z' evs
  end.

(** One round over the zones there are, left alone. *)
Definition round (body : Sys → nat → Sys) (s : Sys) : Sys := foldl body s (locs s).

Definition Run_initial : Sys → Sys := round initial_zone.
Definition Run_tick (now : Time) : Sys → Sys := round (tick_zone now).
Definition Run_sweep (cfg : Config) (env : Env) : Sys → Sys := round (sweep_zone cfg env).
Definition Run_check `{CN : !ChainNet} (cfg : ChainConfig) (now : Time) : Sys → Sys := round (check_zone cfg now).

Variable cfg : Config.

(** A round with steps of others in between. *)
Inductive disturbed (body : Sys → nat → Sys) : list nat → Sys → Sys → Prop :=
| disturbed_end s : disturbed body [] s s
| disturbed_step s s1 ls s' : step cfg s s1 → disturbed body ls s1 s' → disturbed body ls s s'
| disturbed_zone s loc ls s' : disturbed body ls (body s loc) s' → disturbed body (loc :: ls) s s'.

Lemma round_undisturbed body ls s : disturbed body ls s (foldl body s ls).
Proof. revert s. induction ls as [|loc ls IH]; intros s; [constructor|]. by constructor. Qed.

(** Every body is a step, or nothing. *)
Definition stepping (body : Sys → nat → Sys) : Prop := ∀ s loc, body s loc = s ∨ step cfg s (body s loc).

Lemma initial_stepping : stepping initial_zone.
Proof.
  intros s loc. unfold initial_zone. destruct (s_heap s !! loc) eqn:E; [|by left]. right. apply step_spawn. by eapply lookup_lt_Some.
Qed.
Lemma tick_stepping now : stepping (tick_zone now).
Proof.
  intros s loc. unfold tick_zone. destruct (s_heap s !! loc) as [z|] eqn:E; [|by left]. right.
  destruct (tick now z) as [[z' evs] due] eqn:Et. by eapply step_tick.
Qed.
Lemma sweep_stepping env : stepping (sweep_zone cfg env).
Proof.
  intros s loc. unfold sweep_zone. destruct (s_heap s !! loc) as [z|] eqn:E; [|by left]. right.
  destruct (sweep cfg env z) as [z' evs] eqn:Es. by eapply step_sweep.
Qed.
Lemma put_same s loc z : s_heap s !! loc = Some z → put s loc z [] = s.
Proof. intros E. destruct s. unfold put. cbn in *. by rewrite list_insert_id, app_nil_r. Qed.

Lemma check_stepping `{CN : !ChainNet} ccfg now : stepping (check_zone ccfg now).
Proof.
  intros s loc. unfold check_zone. destruct (s_heap s !! loc) as [z|] eqn:E; [|by left].
  unfold Chain.Check. destruct (decide_chain _ _ _ _) as [[res o] evs] eqn:Ed.
  destruct o as [[[fs ok] inv]|]; cbn [apply_outcome].
  - right. by apply step_apply.
  - left. enough (evs = []) as -> by by apply put_same. revert Ed. unfold decide_chain. repeat case_match; by intros [= _ ?].
Qed.

Lemma disturbed_reachable body ls s s' : stepping body → reachable cfg s → disturbed body ls s s' → reachable cfg s'.
Proof.
  intros Hb Hr H. induction H as [s|s s1 ls s' Hs _ IH|s loc ls s' _ IH]; [done|apply IH; by eapply reach_step|].
  apply IH. destruct (Hb s loc) as [->|Hs]; [done|]. by eapply reach_step.
Qed.

(** All loops stay within the reachable states, whatever steps in between:
    what is proved of every reachable state holds while they run. *)
Theorem loops_reachable `{CN : !ChainNet} ccfg now env s s' :
  reachable cfg s →
  disturbed initial_zone (locs s) s s' ∨ disturbed (tick_zone now) (locs s) s s' ∨
  disturbed (sweep_zone cfg env) (locs s) s s' ∨ disturbed (check_zone ccfg now) (locs s) s s' →
  reachable cfg s'.
Proof.
  intros Hr [H|[H|[H|H]]]; (eapply disturbed_reachable; [|exact Hr|exact H]);
    auto using initial_stepping, tick_stepping, sweep_stepping, check_stepping.
Qed.

(** *** A tick that is left alone *)

(** Names are not shared, so no runtime is listed twice. *)
Lemma named_NoDup s : named s → NoDup (locs s).
Proof.
  intros Hn. unfold locs. pose proof (NoDup_range (s_zones s)) as Hd.
  assert (∀ e, e ∈ range (s_zones s) → ∃ z, s_heap s !! e.2 = Some z ∧ z_Name z = e.1) as Hz.
  { intros [name loc] H%elem_of_range. by destruct (Hn _ _ H) as [_ ?]. }
  revert Hd Hz. induction (range (s_zones s)) as [|[name loc] l IH]; intros Hd Hz; [constructor|].
  apply NoDup_cons in Hd as [Hni Hd]. cbn [fmap list_fmap snd]. constructor.
  - intros ([name' loc'] & -> & Hin)%list_elem_of_fmap. cbn [snd] in *.
    destruct (Hz (name, loc')) as (z & Hl & Hz1); [by left|]. destruct (Hz (name', loc')) as (z' & Hl' & Hz2); [by right|].
    cbn [fst snd] in *. apply Hni. assert (name = name') as -> by congruence. done.
  - apply IH; [done|]. intros e He. apply Hz. by right.
Qed.

Definition due (now : Time) (s : Sys) (loc : nat) : bool := from_option (λ z, (tick now z).2) false (s_heap s !! loc).

(** The zones of a list are ticked, and those due get a job. *)
Record ticked (now : Time) (ls : list nat) (s s' : Sys) : Prop := {
  tk_jobs : s_jobs s' = s_jobs s ++ ((λ loc, mkJob loc false PcLock) <$> List.filter (due now s) ls);
  tk_in loc : loc ∈ ls → s_heap s' !! loc = (λ z, (tick now z).1.1) <$> s_heap s !! loc;
  tk_out loc : loc ∉ ls → s_heap s' !! loc = s_heap s !! loc;
  tk_zones : s_zones s' = s_zones s
}.

Lemma tick_zone_spec now s loc :
  s_jobs (tick_zone now s loc) = s_jobs s ++ (if due now s loc then [mkJob loc false PcLock] else []) ∧
  s_heap (tick_zone now s loc) !! loc = (λ z, (tick now z).1.1) <$> s_heap s !! loc ∧
  (∀ loc', loc' ≠ loc → s_heap (tick_zone now s loc) !! loc' = s_heap s !! loc') ∧ s_zones (tick_zone now s loc) = s_zones s.
Proof.
  unfold tick_zone, due. destruct (s_heap s !! loc) as [z|] eqn:E; cbn [from_option].
  2:{ split_and!; [by rewrite app_nil_r|by rewrite E|done|done]. }
  cbn [fmap option_fmap option_map]. destruct (tick now z) as [[z' evs] d]. cbn [fst snd]. apply lookup_lt_Some in E.
  destruct d; (split_and!; [cbn; by rewrite ?app_nil_r|by apply list_lookup_insert_eq|intros; by apply list_lookup_insert_ne|done]).
Qed.

Lemma round_ticked now ls s : NoDup ls → ticked now ls s (foldl (tick_zone now) s ls).
Proof.
  intros Hd. revert s. induction Hd as [|loc ls Hni _ IH]; intros s; [split; [by rewrite app_nil_r|by intros ??%elem_of_nil|done|done]|].
  cbn [foldl]. destruct (tick_zone_spec now s loc) as (Hj & Hl & Ho & Hz). destruct (IH (tick_zone now s loc)) as [Kj Ki Ko Kz].
  assert (∀ l, l ∈ ls → s_heap (tick_zone now s loc) !! l = s_heap s !! l) as Hsame by (intros l Hin; apply Ho; by intros ->).
  split.
  - rewrite Kj, Hj, <-app_assoc. f_equal. cbn [List.filter].
    rewrite (List.filter_ext_in (due now (tick_zone now s loc)) (due now s)); [by destruct (due now s loc)|].
    intros l Hin. unfold due. by rewrite Hsame by by apply list_elem_of_In.
  - intros l [->|Hin]%elem_of_cons; [by rewrite Ko by done|]. by rewrite Ki, Hsame by done.
  - intros l [Hne Hni']%not_elem_of_cons. by rewrite Ko, Ho by done.
  - by rewrite Kz.
Qed.

(** A tick that is left alone ticks every zone of the map and starts a
    refresh, not a full one, for each that is due and for no other. *)
Theorem Run_tick_spec now s : named s → ticked now (locs s) s (Run_tick now s).
Proof. intros Hn. by apply round_ticked, named_NoDup. Qed.

(** The start requests one refresh of every zone. *)
Theorem Run_initial_spec s :
  named s → s_jobs (Run_initial s) = s_jobs s ++ ((λ loc, mkJob loc false PcLock) <$> locs s) ∧ s_heap (Run_initial s) = s_heap s.
Proof.
  intros Hn. unfold Run_initial, round.
  assert (∀ loc, loc ∈ locs s → is_Some (s_heap s !! loc)) as Hl.
  { intros loc (name & Hm)%elem_of_range_snd. destruct (Hn _ _ Hm) as (_ & z & Hz & _). by exists z. }
  revert Hl. generalize (locs s). clear Hn. intros ls. revert s. induction ls as [|loc ls IH]; intros s Hl; [by rewrite app_nil_r|].
  cbn [foldl]. destruct (Hl loc) as [z Hz]; [by left|]. unfold initial_zone at 2 4. rewrite Hz.
  destruct (IH (spawn s loc false)) as [-> ->]; [intros l Hin; apply Hl; by right|]. cbn [spawn s_jobs s_heap]. by rewrite <-app_assoc.
Qed.
End loops.
